(* ===== verification/_CoqProject ===== *)
-Q . S2P
Prelude.v
GoBytes.v
GoFmt.v
Hash.v
Pool.v
Counting.v
CountingSpec.v
CountingBatch.v
CountingCodec.v
Cache.v
Compression.v
Locks.v
WalCrypto.v
WalFiles.v
WalFaults.v
WalAsync.v
Json.v
GoAny.v
RaftFsm.v
Recovery.v
RaftSnapshot.v
NetAddr.v
Grpc.v
Auth.v
Node.v
Service.v
Cluster.v
Sdk.v
Managers.v
Status.v
Peers.v
Metadata.v
AuditLog.v
RateLimit.v
RateLimitRace.v
AuditInterceptor.v
Gateway.v
GatewayServer.v
ClusterClients.v
Tls.v
Lifecycle.v
StreamLayer.v
Cli.v
Programs.v
Benchmark.v
