(* ===== verification/Prelude.v ===== *)
(** * A verification of the distributed Bloom filter

    The program is a counting Bloom filter ([src/pkg/bloom]) replicated with
    Raft ([src/internal/raft]), backed by an encrypted write-ahead log
    ([src/internal/wal]), served over gRPC behind an authentication
    interceptor ([src/internal/grpc]) and used through a client library
    ([src/sdk]), an HTTP gateway ([src/internal/gateway]) or a command
    ([src/cmd/client]).  A client call travels from one of these through the
    interceptor and a handler to [Node.Add], becomes a JSON command in the Raft log, and is
    executed on the filter of every node; the filter is written to snapshots
    and applied commands to the WAL.

    ** Files, in dependency order

    - [Prelude], [GoBytes], [GoFmt]: machine integers with explicit wrap-around,
      panics ([go]) and errors ([result]), slices; bytes, big-endian words and
      CRC-32 (with the injectivity behind single-byte error detection);
      [fmt.Sprintf]/[Sscanf] of decimals and the order of names.
    - [Hash], [Counting]: [hash.go], [counting.go], every operation.
    - [Pool]: the pool of index slices that concurrent calls share, as cells behind
      pointers: calls do not disturb each other; the hash provider.
    - [CountingSpec]: the contract of a counting filter, the class
      [CountingFilter] over multisets of items, client traces ([reach]), and
      [counting.go] as an instance: no false negatives, exact success
      condition, [Remove] as inverse of [Add], the bound on [Count].
    - [CountingBatch]: batch operations against one-at-a-time references, and
      the wrap-around of repeated indices.
    - [CountingCodec]: the binary format: [Deserialize] accepts exactly the
      serialised well-formed filters and detects every single-byte change.
    - [Cache]: [cache.go]; the cached filter is a second instance of
      [CountingFilter], and its cache holds the most recently used items.
    - [Compression]: [compression.go] over a gzip parameter.
    - [Locks]: the lock actions of the filter's methods under a
      writer-preferring [sync.RWMutex] as a step relation: mutual exclusion and
      absence of deadlock, and the deadlock of [CompressSerialize].
    - [WalCrypto], [WalFiles], [WalFaults], [WalAsync]: [encryptor.go] and
      [async_wal.go]: keys and rotation, record format, rolling files, recovery
      of a torn tail, writes the disk refuses or cuts short, and the asynchronous
      writer over these files as a labelled transition system, with writes that fail.
    - [Json], [GoAny]: [encoding/json] as the sources use it; values of
      [interface{}] and their round trip.
    - [RaftFsm], [RaftSnapshot]: [log.go] (commands), [fsm.go], the state-machine
      half of [node.go], [snapshot.go]: refinement of the contract, agreement
      of replicas, catching up from a snapshot.
    - [Recovery]: [BloomFSM] on its log: what a reader gets from it rebuilds the filter.
    - [NetAddr]: addresses of [net] as text and bytes.
    - [Grpc], [Auth]: contexts and [auth.go]: acceptance, tokens, replay in every
      interleaving of requests (age check and store are two steps) with the cleaning,
      and the ways round them.
    - [Node], [Service]: proposals and reads of [node.go], the handlers of
      [service.go] and [server.go].
    - [Cluster]: several nodes over one committed log, which restart, take and install
      snapshots, or hang on one at start: what the log says about every replica,
      visibility of answered writes, convergence, and [server_Add] as a run of it.
    - [Sdk]: [client.go]: retries, redirects, every operation.
    - [Managers]: [config.go], [state.go], [log.go] ([LogManager]),
      [election.go], [replication.go].
    - [Status]: getters, statistics and status maps of the managers and of [BloomFSM],
      durations as text, the queries of the snapshot store.
    - [Peers]: the peers of [replication.go] behind pointers: what the manager knows and
      what a caller sees through a pointer, as functions of the history of calls.
    - [Metadata]: [metadata/service.go]: every operation, the file it keeps, and
      saves as steps that interleave with each other, with crashes of the process and
      with power failures.
    - [AuditLog]: [events.go] and [logger.go]: events, the bounded queue and its writer as
      a step relation, rotation and cleaning of files, what is masked.
    - [RateLimit], [RateLimitRace]: [ratelimit.go]: trusted proxies, identities, the
      limits of sequential requests; then a call in the steps its locks allow, with
      limiters shared through a heap, for any interleaving with the cleaning.
    - [AuditInterceptor]: [audit_interceptor.go] around handlers, [Auth] and [RateLimit].
    - [Gateway]: [gateway.go]: one HTTP request is at most one call, and end-to-end
      answers over the handlers of [Service].
    - [GatewayServer]: starting and stopping the gateway.
    - [ClusterClients]: the interface [ClusterService], what the servers of a cluster promise
      to a client; the SDK and the gateway proved against it; a network that loses
      requests, answers and proposals, over the handlers and [Cluster], that discharges it.
    - [Tls]: [pkg/tls/config.go], [raft/tls_transport.go] and the TLS set-up of
      [server.go] and [node.go], over the functions of [crypto/tls].
    - [Lifecycle]: [Node.Start] and [Node.Shutdown]: outcomes, and their calls and
      locks as a step relation: when [Start] returns, with what, and when it never does.
    - [StreamLayer]: the TLS listeners and dialling of [node.go] and [tls_transport.go].
    - [Cli]: [cmd/client/main.go], the flags of [cmd/server/main.go] and [StartWithConfig].
    - [Programs]: the whole process of [cmd/server/main.go] and [examples/basic/main.go].
    - [Benchmark]: [benchmark.go]: workers and the servers that answer them, or not, as
      interleaved steps; the reports.

    ** How the code is modelled

    An operation is a function that takes and returns the state it changes,
    with the source's name where it is free.  A method that can panic returns
    [go A]; a returned error is a [result] or an [option].  A method of the
    filter is one atomic step; [Locks] justifies it.  The clock, random bytes
    and the contents of directories are arguments; a call reads the clock
    once.  Disks are ideal outside [WalFaults], [AuditLog] and [Metadata]: the
    model has file contents, not I/O errors other than those the code tests
    for.  Loops are structural on the slice they walk; the reader's loop has the length of the file as fuel, which is enough
    because every iteration consumes at least four bytes; the client's retry
    loop has its [MaxRetries + 1] iterations.

    Code outside the repository is a class of parameters, with the laws its
    documentation states in a class of their own: MurmurHash3 ([Murmur3]),
    AES-GCM ([AEAD]), gzip, SHA-256, HMAC, JWT, X.509, the text of JSON and
    times, the Raft library ([HRaft], [RaftCluster]), the generated gRPC
    client.  Every law class has a concrete instance, and every theorem with a
    hypothesis has a closed instance named after it with [_witness].

    ** Not modelled, and the plan

    Generated protocol code (its messages are records), sockets and HTTP serving,
    the Raft library itself, and what is only printed: log lines, banners, floating-point
    rates (kept as fractions).  Not mapped are also types no code uses ([LogEntry],
    [pendingCommand], [TLSRaftConfig]) and the opening and closing of readers.
    What a power failure does to data that was never synced is modelled for the file of
    [Metadata] only; writes to the WAL, the audit log and stored snapshots keep the order in
    which they are called.  [time/rate] is a parameter with the bound it documents, and
    reading the clock and asking a limiter is one step.  Administration of the cluster (a
    peer added or removed) is in [Managers], not a step of [Cluster]. *)

From Stdlib Require Export ZArith Lia.
From stdpp Require Export gmultiset pretty strings.
From stdpp Require Export base numbers option sets gmap list.
From Stdlib Require Strings.Byte.

#[global] Open Scope Z_scope.

Declare Scope dbf_scope.
Delimit Scope dbf_scope with dbf.
Create HintDb dbf.
Create HintDb dbf_ints.
Create HintDb dbf_len.

(** * Machine integers

    A Go integer of width [w] is a [Z]; every arithmetic result is wrapped
    explicitly at the place where the source computes it. *)

Definition u8 (z : Z) : Z := z mod 2 ^ 8.
Definition u32 (z : Z) : Z := z mod 2 ^ 32.
Definition u64 (z : Z) : Z := z mod 2 ^ 64.
Definition i32 (z : Z) : Z := (z + 2 ^ 31) mod 2 ^ 32 - 2 ^ 31.
Definition i64 (z : Z) : Z := (z + 2 ^ 63) mod 2 ^ 64 - 2 ^ 63.

Lemma u8_range z : 0 ≤ u8 z < 2 ^ 8.
Proof. apply Z.mod_pos_bound; lia. Qed.
Lemma u32_range z : 0 ≤ u32 z < 2 ^ 32.
Proof. apply Z.mod_pos_bound; lia. Qed.
Lemma u64_range z : 0 ≤ u64 z < 2 ^ 64.
Proof. apply Z.mod_pos_bound; lia. Qed.
Lemma u8_small z : 0 ≤ z < 2 ^ 8 → u8 z = z.
Proof. apply Z.mod_small. Qed.
Lemma u32_small z : 0 ≤ z < 2 ^ 32 → u32 z = z.
Proof. apply Z.mod_small. Qed.
Lemma u64_small z : 0 ≤ z < 2 ^ 64 → u64 z = z.
Proof. apply Z.mod_small. Qed.
Lemma i64_small z : - 2 ^ 63 ≤ z < 2 ^ 63 → i64 z = z.
Proof. intros ?. unfold i64. rewrite Z.mod_small; lia. Qed.
Lemma i32_small z : - 2 ^ 31 ≤ z < 2 ^ 31 → i32 z = z.
Proof. intros ?. unfold i32. rewrite Z.mod_small; lia. Qed.

#[export] Hint Resolve u8_range u32_range u64_range : dbf.
#[export] Hint Rewrite u8_small u32_small u64_small i64_small i32_small using lia : dbf_ints.

(** * Panics

    A Go statement either completes or panics.  [go A] is the result of a
    computation that may panic; sequencing uses stdpp's [x ← c; k]. *)

Inductive go_panic : Type :=
  | IndexOutOfRange
  | SliceBoundsOutOfRange
  | IntegerDivideByZero
  | MakesliceLenOutOfRange
  | NilMapWrite
  | NilDereference
  | CloseOfClosedChannel.

Inductive go (A : Type) : Type :=
  | Ret (a : A)
  | Panic (p : go_panic).
Arguments Ret {A} a.
Arguments Panic {A} p.

#[export] Instance go_panic_eq_dec : EqDecision go_panic.
Proof. solve_decision. Defined.
#[export] Instance go_eq_dec `{EqDecision A} : EqDecision (go A).
Proof. solve_decision. Defined.
#[export] Instance go_ret : MRet go := λ A a, Ret a.
#[export] Instance go_bind : MBind go := λ A B f c,
  match c with Ret a => f a | Panic p => Panic p end.
#[export] Instance go_fmap : FMap go := λ A B f c,
  match c with Ret a => Ret (f a) | Panic p => Panic p end.

Lemma go_bind_Ret {A B} (c : go A) (f : A → go B) b :
  (c ≫= f) = Ret b ↔ ∃ a, c = Ret a ∧ f a = Ret b.
Proof. destruct c; naive_solver. Qed.

(** * Errors

    A call that returns [(A, error)] in Go is a [result]. *)

Inductive result (E A : Type) : Type :=
  | Ok (a : A)
  | Err (e : E).
Arguments Ok {E A} a.
Arguments Err {E A} e.

#[export] Instance result_eq_dec `{EqDecision E, EqDecision A} : EqDecision (result E A).
Proof. solve_decision. Defined.
#[export] Instance result_ret E : MRet (result E) := λ A a, Ok a.
#[export] Instance result_bind E : MBind (result E) := λ A B f c,
  match c with Ok a => f a | Err e => Err e end.

Definition is_ok {E A} (r : result E A) : bool :=
  match r with Ok _ => true | Err _ => false end.

Lemma result_bind_Ok {E A B} (c : result E A) (f : A → result E B) b :
  (c ≫= f) = Ok b ↔ ∃ a, c = Ok a ∧ f a = Ok b.
Proof. destruct c; naive_solver. Qed.

(** * Slices

    Indexing a slice panics outside [0, len); a stdpp list insert does
    nothing there, so the bounds check is written out. *)

Definition go_index {A} (l : list A) (i : Z) : go A :=
  if decide (0 ≤ i) then
    match l !! Z.to_nat i with Some x => Ret x | None => Panic IndexOutOfRange end
  else Panic IndexOutOfRange.

Definition go_store {A} (l : list A) (i : Z) (x : A) : go (list A) :=
  if decide (0 ≤ i < Z.of_nat (length l)) then Ret (<[Z.to_nat i := x]> l)
  else Panic IndexOutOfRange.

(** [data[lo:hi]] with [0 ≤ lo ≤ hi ≤ len]. *)
Definition slice {A} (l : list A) (lo hi : Z) : list A :=
  take (Z.to_nat (hi - lo)) (drop (Z.to_nat lo) l).

Definition len {A} (l : list A) : Z := Z.of_nat (length l).

(** [make([]T, n)] *)
Definition go_make {A} (zero : A) (n : Z) : go (list A) :=
  if decide (0 ≤ n) then Ret (replicate (Z.to_nat n) zero)
  else Panic MakesliceLenOutOfRange.

(** [copy(dst, src)] *)
Definition go_copy {A} (dst src : list A) : list A :=
  take (length dst) src ++ drop (length src) dst.

(** Unsigned remainder, which panics on a zero divisor. *)
Definition go_umod (a b : Z) : go Z :=
  if decide (b = 0) then Panic IntegerDivideByZero else Ret (a mod b).

Lemma len_nonneg {A} (l : list A) : 0 ≤ len l.
Proof. unfold len. lia. Qed.
Lemma len_app {A} (l k : list A) : len (l ++ k) = len l + len k.
Proof. unfold len. rewrite length_app. lia. Qed.
Lemma len_cons {A} (x : A) (l : list A) : len (x :: l) = 1 + len l.
Proof. unfold len. simpl. lia. Qed.
Lemma len_nil {A} : len (@nil A) = 0.
Proof. done. Qed.
Lemma len_replicate {A} n (x : A) : len (replicate n x) = Z.of_nat n.
Proof. unfold len. by rewrite length_replicate. Qed.
#[export] Hint Resolve len_nonneg : dbf.
#[export] Hint Rewrite @len_app @len_cons @len_nil @len_replicate : dbf_len.

Lemma go_index_lookup {A} (l : list A) i x :
  go_index l i = Ret x ↔ 0 ≤ i ∧ l !! Z.to_nat i = Some x.
Proof.
  unfold go_index. case_decide; [|naive_solver lia].
  destruct (l !! Z.to_nat i); naive_solver.
Qed.

Lemma go_index_in_range {A} (l : list A) i :
  0 ≤ i < len l → ∃ x, l !! Z.to_nat i = Some x ∧ go_index l i = Ret x.
Proof.
  intros Hi. destruct (lookup_lt_is_Some_2 l (Z.to_nat i)) as [x Hx].
  { unfold len in Hi. lia. }
  exists x. split; [done|]. apply go_index_lookup. split; [lia|done].
Qed.

Lemma go_store_in_range {A} (l : list A) i x :
  0 ≤ i < len l → go_store l i x = Ret (<[Z.to_nat i := x]> l).
Proof. intros ?. unfold go_store. by rewrite decide_True. Qed.

(** Storing at the boundary of the part of a buffer already filled. *)
Lemma go_store_at_len {A} (pre : list A) x l v :
  go_store (pre ++ x :: l) (len pre) v = Ret ((pre ++ [v]) ++ l).
Proof.
  unfold go_store, len. rewrite decide_True by (rewrite length_app; cbn [length]; lia).
  rewrite Nat2Z.id, insert_app_r_alt, Nat.sub_diag by lia.
  cbn. by rewrite <- (assoc_L (++)).
Qed.

Lemma go_copy_full {A} (dst src : list A) :
  length dst = length src → go_copy dst src = src.
Proof.
  intros Heq. unfold go_copy. rewrite Heq, firstn_all, drop_ge by lia.
  by rewrite app_nil_r.
Qed.

(** * Tactics *)

(** Unfold one monadic bind whose head is known to succeed. *)
Ltac go_step H := rewrite H; cbn [mbind go_bind].

(** Split the hypotheses of the shape [c ≫= f = Ret b]. *)
Ltac go_inv :=
  repeat match goal with
  | H : (_ ≫= _) = Ret _ |- _ =>
      let a := fresh "a" in let H1 := fresh H in
      apply go_bind_Ret in H as (a & H1 & H)
  | H : mret _ = Ret _ |- _ => injection H as H
  | H : Ret _ = Ret _ |- _ => injection H as H
  | H : Panic _ = Ret _ |- _ => discriminate H
  | H : (_, _) = (_, _) |- _ => injection H as H
  end.

Ltac lens := autorewrite with dbf_len in *; unfold len in *; cbn [length] in *; try lia.

(** * Sums over lists *)

Definition zsum {A} (f : A → Z) (l : list A) : Z := foldr (λ x s, f x + s) 0 l.
#[global] Arguments zsum : simpl never.

Lemma zsum_nil {A} (f : A → Z) : zsum f [] = 0.
Proof. done. Qed.
Lemma zsum_cons {A} (f : A → Z) x l : zsum f (x :: l) = f x + zsum f l.
Proof. done. Qed.
Lemma zsum_app {A} (f : A → Z) l k : zsum f (l ++ k) = zsum f l + zsum f k.
Proof. induction l as [|x l IH]; [done|]. cbn [app]. rewrite !zsum_cons, IH. lia. Qed.
Lemma zsum_nonneg {A} (f : A → Z) l : (∀ x, 0 ≤ f x) → 0 ≤ zsum f l.
Proof.
  intros Hf. induction l as [|x l IH]; [done|]. rewrite zsum_cons. specialize (Hf x). lia.
Qed.
#[export] Instance zsum_Permutation {A} (f : A → Z) : Proper ((≡ₚ) ==> (=)) (zsum f).
Proof. induction 1; rewrite ?zsum_cons in *; lia. Qed.

Lemma zsum_insert {A} (f : A → Z) (l : list A) i x y :
  l !! i = Some x → zsum f (<[i := y]> l) = zsum f l - f x + f y.
Proof.
  revert i. induction l as [|z l IH]; intros i Hl; [done|]. destruct i as [|i].
  - injection Hl as ->. change (<[0%nat := y]> (x :: l)) with (y :: l). rewrite !zsum_cons. lia.
  - change (<[S i := y]> (z :: l)) with (z :: <[i := y]> l). rewrite !zsum_cons, (IH _ Hl). lia.
Qed.

Lemma zsum_pos_elem {A} (f : A → Z) (l : list A) :
  0 < zsum f l → ∃ i x, l !! i = Some x ∧ 0 < f x.
Proof.
  induction l as [|z l IH]; [done|]. rewrite zsum_cons. intros Hs.
  destruct (decide (0 < f z)); [by exists 0%nat, z|].
  destruct IH as (i & x & ? & ?); [lia|]. by exists (S i), x.
Qed.

Lemma zsum_elem_le {A} (f : A → Z) (l : list A) i x :
  (∀ y, 0 ≤ f y) → l !! i = Some x → f x ≤ zsum f l.
Proof.
  intros Hf. revert i. induction l as [|z l IH]; intros i Hl; [done|].
  rewrite zsum_cons. pose proof (zsum_nonneg f l Hf). pose proof (Hf z). destruct i as [|i].
  - injection Hl as ->. lia.
  - specialize (IH _ Hl). lia.
Qed.

(** * Background loops

    [for { select { case <-ticker.C: ...; case <-stopChan: ... } }]: what the goroutine
    observes, with the time, in order.  The second component says that it has returned. *)

Inductive loop_event : Type := LoopTick (now : Z) | LoopStop (now : Z).

Fixpoint run_loop {S} (on_tick on_stop : Z → S → S) (events : list loop_event) (s : S) : S * bool :=
  match events with
  | [] => (s, false)
  | LoopTick now :: events' => run_loop on_tick on_stop events' (on_tick now s)
  | LoopStop now :: _ => (on_stop now s, true)
  end.

(** The loop returns exactly when it is stopped; what it leaves comes from a tick or the
    stop. *)
Lemma run_loop_returns {S} (on_tick on_stop : Z → S → S) events s :
  (run_loop on_tick on_stop events s).2 = true ↔ ∃ now, LoopStop now ∈ events.
Proof.
  revert s. induction events as [|[now|now] events IH]; intros s; cbn.
  - split; [done|]. by intros [now ?%elem_of_nil].
  - rewrite IH. split; intros [t Ht]; exists t; [by right|]. by apply elem_of_cons in Ht as [?|?].
  - split; [|done]. intros _. exists now. by left.
Qed.

Lemma run_loop_invariant {S} (P : S → Prop) (on_tick on_stop : Z → S → S) events s :
  (∀ now s, P s → P (on_tick now s)) → (∀ now s, P s → P (on_stop now s)) → P s → P (run_loop on_tick on_stop events s).1.
Proof. intros Ht Hs. revert s. induction events as [|[now|now] events IH]; intros s Hp; cbn; auto. Qed.

Lemma run_loop_stopped {S} (P : S → Prop) (on_tick on_stop : Z → S → S) events s :
  (∀ now s, P (on_stop now s)) → (run_loop on_tick on_stop events s).2 = true → P (run_loop on_tick on_stop events s).1.
Proof. intros Hs. revert s. induction events as [|[now|now] events IH]; intros s Hp; cbn in *; [done|by apply IH|apply Hs]. Qed.
