(* ===== verification/GoBytes.v ===== *)
(** Byte strings and the parts of Go's standard library that work on them:
    [encoding/binary] (big-endian [uint32]), [hash/crc32] (IEEE table),
    [encoding/hex], and the conversions between [string] and [[]byte].

    A Go [byte] is [Byte.byte], so a byte string needs no well-formedness
    hypothesis; [byte_val] and [byte_of] are the conversions to and from an
    integer, the latter truncating as a Go conversion does. *)

From S2P Require Import Prelude.
From Stdlib Require Strings.Byte Strings.String Strings.Ascii.

Notation byte := Byte.byte.

Definition byte_val (b : byte) : Z := Z.of_N (Byte.to_N b).

Definition byte_of (z : Z) : byte :=
  match Byte.of_N (Z.to_N (u8 z)) with Some b => b | None => Byte.x00 end.

Lemma byte_val_range b : 0 ≤ byte_val b < 2 ^ 8.
Proof. pose proof (Byte.to_N_bounded b). unfold byte_val. lia. Qed.

Lemma byte_val_of z : byte_val (byte_of z) = u8 z.
Proof.
  unfold byte_of, byte_val. pose proof (u8_range z).
  destruct (Byte.of_N (Z.to_N (u8 z))) as [b|] eqn:E.
  - apply Byte.to_of_N in E. lia.
  - apply Byte.of_N_None_iff in E. lia.
Qed.

Lemma byte_of_val b : byte_of (byte_val b) = b.
Proof.
  unfold byte_of, byte_val. rewrite u8_small by apply byte_val_range.
  by rewrite N2Z.id, Byte.of_to_N.
Qed.

Lemma byte_val_inj b c : byte_val b = byte_val c → b = c.
Proof. intros H. by rewrite <- (byte_of_val b), H, byte_of_val. Qed.

#[export] Hint Resolve byte_val_range : dbf.

#[export] Instance byte_eq_dec : EqDecision byte := Byte.byte_eq_dec.
#[export] Instance byte_countable : Countable byte.
Proof. refine (inj_countable Byte.to_N Byte.of_N _). apply Byte.of_to_N. Defined.

(** * Strings *)

(** [string(b)] and [[]byte(s)]. *)
Definition string_of_bytes (l : list byte) : string := String.string_of_list_byte l.
Definition bytes_of_string (s : string) : list byte := String.list_byte_of_string s.

Lemma bytes_of_string_of_bytes l : bytes_of_string (string_of_bytes l) = l.
Proof. apply String.list_byte_of_string_of_list_byte. Qed.
Lemma string_of_bytes_of_string s : string_of_bytes (bytes_of_string s) = s.
Proof. apply String.string_of_list_byte_of_string. Qed.
Lemma string_of_bytes_inj l k : string_of_bytes l = string_of_bytes k → l = k.
Proof. intros H. by rewrite <- (bytes_of_string_of_bytes l), H, bytes_of_string_of_bytes. Qed.

(** * encoding/binary: BigEndian *)

Definition PutUint32 (v : Z) : list byte :=
  [byte_of (Z.shiftr v 24); byte_of (Z.shiftr v 16); byte_of (Z.shiftr v 8); byte_of v].

(** [binary.BigEndian.Uint32] of the first four bytes; shorter slices panic
    in Go, and every call site checks the length first. *)
Definition Uint32 (l : list byte) : Z :=
  match l with
  | b0 :: b1 :: b2 :: b3 :: _ =>
      Z.lor (byte_val b3)
        (Z.lor (Z.shiftl (byte_val b2) 8)
           (Z.lor (Z.shiftl (byte_val b1) 16) (Z.shiftl (byte_val b0) 24)))
  | _ => 0
  end.

Lemma testbit_above a n i : 0 ≤ a < 2 ^ n → 0 ≤ n ≤ i → Z.testbit a i = false.
Proof. intros Ha Hi. rewrite <- (Z.mod_small a (2 ^ n)) by done. apply Z.mod_pow2_bits_high. lia. Qed.

Lemma lor_shiftl_add a b n :
  0 ≤ n → 0 ≤ a < 2 ^ n → Z.lor a (Z.shiftl b n) = a + b * 2 ^ n.
Proof.
  intros Hn Ha. rewrite <- Z.shiftl_mul_pow2 by done.
  enough (Hd : Z.land a (Z.shiftl b n) = 0).
  { by rewrite Z.add_nocarry_lxor, Z.lxor_lor. }
  apply Z.bits_inj'. intros i Hi. rewrite Z.land_spec, Z.bits_0.
  destruct (decide (i < n)).
  - rewrite (Z.shiftl_spec_low b n i) by lia. apply andb_false_r.
  - by rewrite (testbit_above a n i) by lia.
Qed.

Lemma Uint32_arith b0 b1 b2 b3 l :
  Uint32 (b0 :: b1 :: b2 :: b3 :: l) =
    byte_val b3 + byte_val b2 * 2 ^ 8 + byte_val b1 * 2 ^ 16 + byte_val b0 * 2 ^ 24.
Proof.
  pose proof (byte_val_range b0). pose proof (byte_val_range b1).
  pose proof (byte_val_range b2). pose proof (byte_val_range b3).
  unfold Uint32.
  replace (Z.shiftl (byte_val b0) 24) with (Z.shiftl (Z.shiftl (byte_val b0) 8) 16)
    by (rewrite Z.shiftl_shiftl by lia; done).
  rewrite <- Z.shiftl_lor, (lor_shiftl_add (byte_val b1)) by lia.
  replace (Z.shiftl (byte_val b1 + byte_val b0 * 2 ^ 8) 16)
    with (Z.shiftl (Z.shiftl (byte_val b1 + byte_val b0 * 2 ^ 8) 8) 8)
    by (rewrite Z.shiftl_shiftl by lia; done).
  rewrite <- Z.shiftl_lor, (lor_shiftl_add (byte_val b2)), lor_shiftl_add by lia. lia.
Qed.

Lemma Uint32_range l : 0 ≤ Uint32 l < 2 ^ 32.
Proof.
  destruct l as [|b0 [|b1 [|b2 [|b3 l]]]]; try (simpl; lia).
  rewrite Uint32_arith.
  pose proof (byte_val_range b0). pose proof (byte_val_range b1).
  pose proof (byte_val_range b2). pose proof (byte_val_range b3). lia.
Qed.

Lemma length_PutUint32 v : length (PutUint32 v) = 4%nat.
Proof. done. Qed.

Lemma Uint32_PutUint32 v l : Uint32 (PutUint32 v ++ l) = u32 v.
Proof.
  unfold PutUint32. cbn [app]. rewrite Uint32_arith, !byte_val_of. unfold u8, u32.
  rewrite !Z.shiftr_div_pow2 by lia.
  change (2 ^ 8) with 256. change (2 ^ 16) with 65536. change (2 ^ 24) with 16777216.
  change (2 ^ 32) with 4294967296.
  pose proof (Z.div_mod v 256). pose proof (Z.div_mod (v / 256) 256).
  pose proof (Z.div_mod (v / 256 / 256) 256). pose proof (Z.div_mod (v / 256 / 256 / 256) 256).
  rewrite (Z.div_div v 256 256) in * by lia.
  change (256 * 256) with 65536 in *.
  rewrite (Z.div_div v 65536 256) in * by lia. change (65536 * 256) with 16777216 in *.
  rewrite (Z.div_div v 16777216 256) in * by lia. change (16777216 * 256) with 4294967296 in *.
  pose proof (Z.div_mod v 4294967296). lia.
Qed.

Lemma Uint32_Put v : Uint32 (PutUint32 v) = u32 v.
Proof. rewrite <- (app_nil_r (PutUint32 v)). apply Uint32_PutUint32. Qed.

Lemma PutUint32_Uint32 b0 b1 b2 b3 l :
  PutUint32 (Uint32 (b0 :: b1 :: b2 :: b3 :: l)) = [b0; b1; b2; b3].
Proof.
  rewrite Uint32_arith.
  pose proof (byte_val_range b0). pose proof (byte_val_range b1).
  pose proof (byte_val_range b2). pose proof (byte_val_range b3).
  unfold PutUint32. rewrite !Z.shiftr_div_pow2 by lia.
  assert (Hb : ∀ x b, u8 x = byte_val b → byte_of x = b).
  { intros x b Hx. apply byte_val_inj. by rewrite byte_val_of. }
  repeat f_equal; apply Hb; unfold u8;
    change (2 ^ 8) with 256; change (2 ^ 16) with 65536; change (2 ^ 24) with 16777216;
    Z.div_mod_to_equations; lia.
Qed.

(** * hash/crc32, the IEEE polynomial *)

Definition crc_poly : Z := 0xedb88320.

Definition crc_shift (crc : Z) : Z :=
  if Z.testbit crc 0 then Z.lxor (Z.shiftr crc 1) crc_poly else Z.shiftr crc 1.

(** [crc32.MakeTable(crc32.IEEE)]: eight shifts of every byte value. *)
Definition IEEETable : list Z :=
  Eval vm_compute in (λ i, Nat.iter 8 crc_shift (Z.of_nat i)) <$> seq 0 256.

Definition crc_step (crc : Z) (v : byte) : Z :=
  Z.lxor (default 0 (IEEETable !! Z.to_nat (Z.lxor (u8 crc) (byte_val v)))) (Z.shiftr crc 8).

(** [^crc] on a [uint32]. *)
Definition not32 (x : Z) : Z := Z.lxor x (2 ^ 32 - 1).

(** [crc32.Checksum(data, crc32.IEEETable)] *)
Definition Checksum (data : list byte) : Z :=
  not32 (foldl crc_step (not32 0) data).

#[global] Opaque IEEETable.

Example crc32_check_value : Checksum (bytes_of_string "123456789") = 0xcbf43926.
Proof. vm_compute. reflexivity. Qed.

Lemma lxor_pow2_bound a b n : 0 ≤ n → 0 ≤ a < 2 ^ n → 0 ≤ b < 2 ^ n → 0 ≤ Z.lxor a b < 2 ^ n.
Proof.
  intros Hn Ha Hb. assert (0 ≤ Z.lxor a b) by (apply Z.lxor_nonneg; lia).
  split; [done|]. apply Z.lt_nge. intros Hge.
  assert (Hlog : n ≤ Z.log2 (Z.lxor a b)) by (apply Z.log2_le_pow2; lia).
  assert (Hpos : 0 < Z.lxor a b) by lia.
  pose proof (Z.bit_log2 _ Hpos) as Hbit. rewrite Z.lxor_spec in Hbit.
  by rewrite !(testbit_above _ n) in Hbit by lia.
Qed.

Lemma lxor_cancel_l a b c : Z.lxor a b = Z.lxor a c → b = c.
Proof.
  intros H. apply (f_equal (Z.lxor a)) in H.
  by rewrite <- !Z.lxor_assoc, Z.lxor_nilpotent, !Z.lxor_0_l in H.
Qed.

Lemma lxor_cancel_r a b c : Z.lxor b a = Z.lxor c a → b = c.
Proof. rewrite !(Z.lxor_comm _ a). apply lxor_cancel_l. Qed.

(** The two facts about the table are decided once, by computation. *)
Definition table_ok (tbl : list Z) : bool :=
  forallb (λ i, bool_decide (0 ≤ default 0 (tbl !! i) < 2 ^ 32) &&
    forallb (λ j, (i =? j)%nat ||
      negb (Z.shiftr (default 0 (tbl !! i)) 24 =? Z.shiftr (default 0 (tbl !! j)) 24))
      (seq 0 256)) (seq 0 256).

Lemma table_ok_spec tbl i : table_ok tbl = true → (i < 256)%nat →
  0 ≤ default 0 (tbl !! i) < 2 ^ 32 ∧
  ∀ j, (j < 256)%nat →
    Z.shiftr (default 0 (tbl !! i)) 24 = Z.shiftr (default 0 (tbl !! j)) 24 → i = j.
Proof.
  unfold table_ok. generalize 256%nat as n. intros n H Hi.
  rewrite forallb_forall in H. specialize (H i). rewrite andb_true_iff in H.
  destruct H as [Hr H]; [apply in_seq; lia|].
  split; [by apply bool_decide_eq_true in Hr|]. intros j Hj Heq.
  rewrite forallb_forall in H. specialize (H j).
  rewrite Heq, Z.eqb_refl, orb_false_r in H. apply Nat.eqb_eq, H, in_seq; lia.
Qed.

Lemma IEEETable_ok : table_ok IEEETable = true.
Proof. vm_compute. reflexivity. Qed.

Lemma table_range i : (i < 256)%nat → 0 ≤ default 0 (IEEETable !! i) < 2 ^ 32.
Proof. intros Hi. apply (table_ok_spec _ i IEEETable_ok Hi). Qed.

(** The top bytes of the table entries are pairwise different. *)
Lemma table_top_inj i j : (i < 256)%nat → (j < 256)%nat →
  Z.shiftr (default 0 (IEEETable !! i)) 24 = Z.shiftr (default 0 (IEEETable !! j)) 24 → i = j.
Proof. intros Hi. apply (table_ok_spec _ i IEEETable_ok Hi). Qed.

Lemma crc_index_range c v : 0 ≤ Z.lxor (u8 c) (byte_val v) < 2 ^ 8.
Proof. apply lxor_pow2_bound; auto with dbf; lia. Qed.

Lemma shiftr_range c n k : 0 ≤ k ≤ n → 0 ≤ c < 2 ^ n → 0 ≤ Z.shiftr c k < 2 ^ (n - k).
Proof.
  intros Hk Hc. rewrite Z.shiftr_div_pow2 by lia. split; [apply Z.div_pos; lia|].
  apply Z.div_lt_upper_bound; [lia|]. rewrite <- Z.pow_add_r by lia.
  replace (k + (n - k)) with n by lia. lia.
Qed.

Lemma crc_step_range c v : 0 ≤ c < 2 ^ 32 → 0 ≤ crc_step c v < 2 ^ 32.
Proof.
  intros Hc. apply lxor_pow2_bound; [lia| |].
  - apply table_range. pose proof (crc_index_range c v). lia.
  - pose proof (shiftr_range c 32 8). lia.
Qed.

(** The step determines the table entry it used. *)
Lemma crc_step_top c v :
  0 ≤ c < 2 ^ 32 →
  Z.shiftr (crc_step c v) 24 =
    Z.shiftr (default 0 (IEEETable !! Z.to_nat (Z.lxor (u8 c) (byte_val v)))) 24.
Proof.
  intros Hc. unfold crc_step. rewrite Z.shiftr_lxor, Z.shiftr_shiftr by lia.
  pose proof (shiftr_range c 32 32 ltac:(lia) Hc) as Hz.
  replace (Z.shiftr c (8 + 24)) with 0 by (change (2 ^ (32 - 32)) with 1 in Hz; change (8 + 24) with 32; lia). apply Z.lxor_0_r.
Qed.

Lemma crc_step_inj c d v w :
  0 ≤ c < 2 ^ 32 → 0 ≤ d < 2 ^ 32 → crc_step c v = crc_step d w →
  Z.lxor (u8 c) (byte_val v) = Z.lxor (u8 d) (byte_val w) ∧ Z.shiftr c 8 = Z.shiftr d 8.
Proof.
  intros Hc Hd Heq.
  pose proof (crc_index_range c v). pose proof (crc_index_range d w).
  assert (Hidx : Z.lxor (u8 c) (byte_val v) = Z.lxor (u8 d) (byte_val w)).
  { apply Z2Nat.inj; [lia..|]. apply table_top_inj; [lia..|].
    by rewrite <- !crc_step_top, Heq by done. }
  split; [done|]. unfold crc_step in Heq. rewrite Hidx in Heq. by eapply lxor_cancel_l.
Qed.

(** For one byte the step is injective in the register ... *)
Lemma crc_step_inj_state c d v :
  0 ≤ c < 2 ^ 32 → 0 ≤ d < 2 ^ 32 → crc_step c v = crc_step d v → c = d.
Proof.
  intros Hc Hd Heq. apply crc_step_inj in Heq as [Hlow Hhigh]; [|done..].
  apply lxor_cancel_r in Hlow. unfold u8 in Hlow.
  rewrite !Z.shiftr_div_pow2 in Hhigh by lia.
  rewrite (Z.div_mod c (2 ^ 8)), (Z.div_mod d (2 ^ 8)) by lia. lia.
Qed.

(** ... and for one register it is injective in the byte. *)
Lemma crc_step_inj_byte c v w : 0 ≤ c < 2 ^ 32 → crc_step c v = crc_step c w → v = w.
Proof.
  intros Hc Heq. apply crc_step_inj in Heq as [Hlow _]; [|done..].
  by apply lxor_cancel_l, byte_val_inj in Hlow.
Qed.

Lemma crc_fold_range l c : 0 ≤ c < 2 ^ 32 → 0 ≤ foldl crc_step c l < 2 ^ 32.
Proof. revert c. induction l as [|v l IH]; intros c Hc; [done|]. apply IH, crc_step_range, Hc. Qed.

Lemma crc_fold_inj l c d : 0 ≤ c < 2 ^ 32 → 0 ≤ d < 2 ^ 32 →
  foldl crc_step c l = foldl crc_step d l → c = d.
Proof.
  revert c d. induction l as [|v l IH]; intros c d Hc Hd Heq; [done|].
  eapply crc_step_inj_state, IH; auto using crc_step_range. apply Heq.
Qed.

Lemma Checksum_range l : 0 ≤ Checksum l < 2 ^ 32.
Proof.
  unfold Checksum, not32. apply lxor_pow2_bound; [lia| |lia].
  apply crc_fold_range. split; vm_compute; congruence.
Qed.

(** A change of exactly one byte always changes the checksum. *)
Lemma Checksum_single_byte l v w k :
  Checksum (l ++ v :: k) = Checksum (l ++ w :: k) → v = w.
Proof.
  assert (0 ≤ not32 0 < 2 ^ 32) by (split; vm_compute; congruence).
  unfold Checksum. intros Heq. apply lxor_cancel_r in Heq.
  rewrite !foldl_app in Heq. cbn [foldl] in Heq.
  assert (Hr : 0 ≤ foldl crc_step (not32 0) l < 2 ^ 32) by by apply crc_fold_range.
  apply crc_fold_inj in Heq; [|by apply crc_step_range..].
  by apply crc_step_inj_byte in Heq.
Qed.
