(* ===== verification/GoFmt.v ===== *)
(** The parts of [fmt], [strings] and [strconv] the sources use: decimal
    printing and zero padding, [fmt.Sscanf] of an unsigned decimal,
    [strings.HasSuffix] and [strings.HasPrefix].  Input text is ASCII. *)

From S2P Require Import Prelude GoBytes.
From Stdlib Require Import Ascii String.

#[local] Open Scope Z_scope.
#[local] Arguments String.append : simpl nomatch.

(** * Definitions *)

Definition char_code (c : ascii) : Z := Z.of_nat (nat_of_ascii c).
Definition is_digit (c : ascii) : bool := bool_decide (48 ≤ char_code c ≤ 57).
Definition digit_val (c : ascii) : Z := char_code c - 48.
Definition digit_char (d : Z) : ascii := ascii_of_nat (Z.to_nat (48 + d)).

(** The blanks [Sscanf] skips before a number; a newline is an error. *)
Definition is_blank (c : ascii) : bool :=
  bool_decide (char_code c = 32 ∨ char_code c = 9 ∨ char_code c = 11 ∨ char_code c = 12).

Fixpoint skip_blanks (s : string) : string :=
  match s with
  | String c s' => if is_blank c then skip_blanks s' else s
  | EmptyString => s
  end.

(** The leading digits, at most [width] of them. *)
Fixpoint scan_token (width : nat) (s : string) : string :=
  match width, s with
  | S width', String c s' => if is_digit c then String c (scan_token width' s') else EmptyString
  | _, _ => EmptyString
  end.

Fixpoint digits_value (acc : Z) (s : string) : Z :=
  match s with
  | EmptyString => acc
  | String c s' => digits_value (10 * acc + digit_val c) s'
  end.

(** [fmt.Sscanf(s, "%<width>d", &x)] for an unsigned [x] of [bits] bits: [None]
    leaves [x] unchanged. *)
Definition Sscanf_d (width : nat) (bits : Z) (s : string) : option Z :=
  let tok := scan_token width (skip_blanks s) in
  if decide (tok = EmptyString) then None
  else let v := digits_value 0 tok in if decide (v < 2 ^ bits) then Some v else None.

(** [%d]: a width without limit. *)
Definition no_width (s : string) : nat := String.length s.

(** [fmt.Sprintf("%d", n)] for [n >= 0]: fuel is the number of binary digits. *)
Fixpoint decimal_loop (fuel : nat) (n : Z) (acc : string) : string :=
  match fuel with
  | O => acc
  | S fuel' =>
      let acc' := String (digit_char (n mod 10)) acc in
      if decide (n < 10) then acc' else decimal_loop fuel' (n / 10) acc'
  end.

Definition Sprintf_d (n : Z) : string := decimal_loop (S (Z.to_nat (Z.log2 n))) n EmptyString.

(** [fmt.Sprintf("%06d", n)] for [n >= 0]. *)
Definition Sprintf_06d (n : Z) : string :=
  let s := Sprintf_d n in
  string_of_list_ascii (repeat "0"%char (6 - String.length s)) ++ s.

Definition HasSuffix (s suffix : string) : bool :=
  bool_decide (String.length suffix ≤ String.length s)%nat &&
  bool_decide (substring (String.length s - String.length suffix) (String.length suffix) s = suffix).

Definition HasPrefix (s pre : string) : bool := String.prefix pre s.

(** * Lemmas *)

Lemma is_digit_char d : 0 ≤ d < 10 → is_digit (digit_char d) = true ∧ digit_val (digit_char d) = d.
Proof.
  intros Hd. assert (d = 0 ∨ d = 1 ∨ d = 2 ∨ d = 3 ∨ d = 4 ∨ d = 5 ∨ d = 6 ∨ d = 7 ∨ d = 8 ∨ d = 9) as Hc by lia.
  repeat destruct Hc as [->|Hc]; try done. by subst.
Qed.

Lemma digit_not_blank c : is_digit c = true → is_blank c = false.
Proof.
  unfold is_digit, is_blank. intros Hd%bool_decide_eq_true. apply bool_decide_eq_false. lia.
Qed.

(** A string of digits. *)
Fixpoint all_digits (s : string) : bool :=
  match s with EmptyString => true | String c s' => is_digit c && all_digits s' end.

Lemma string_app_length s t : String.length (s ++ t) = (String.length s + String.length t)%nat.
Proof. induction s; cbn; congruence. Qed.

Lemma string_app_assoc (s t u : string) : (s ++ (t ++ u) = (s ++ t) ++ u)%string.
Proof. induction s; cbn; congruence. Qed.

Lemma string_app_inj_l (p s t : string) : (p ++ s = p ++ t)%string → s = t.
Proof. induction p; cbn; [done|]. intros [= ?]. auto. Qed.

Lemma all_digits_app s t : all_digits (s ++ t) = all_digits s && all_digits t.
Proof. induction s as [|c s IH]; cbn; [done|]. rewrite IH. by destruct (is_digit c). Qed.

Lemma digits_value_app s t a : digits_value a (s ++ t) = digits_value (digits_value a s) t.
Proof. revert a. induction s as [|c s IH]; intros a; cbn; auto. Qed.

Lemma digits_value_acc s a :
  digits_value a s = a * 10 ^ Z.of_nat (String.length s) + digits_value 0 s.
Proof.
  revert a. induction s as [|c s IH]; intros a; cbn [digits_value String.length]; [lia|].
  rewrite (IH (10 * a + _)), (IH (10 * 0 + _)), Nat2Z.inj_succ, Z.pow_succ_r by lia. ring.
Qed.

Lemma zeros_value n s : digits_value 0 (string_of_list_ascii (repeat "0"%char n) ++ s) = digits_value 0 s.
Proof. induction n; cbn; done. Qed.

Lemma zeros_digits n : all_digits (string_of_list_ascii (repeat "0"%char n)) = true.
Proof. induction n; cbn; done. Qed.

Lemma length_zeros n : String.length (string_of_list_ascii (repeat "0"%char n)) = n.
Proof. induction n; cbn; congruence. Qed.

Lemma decimal_loop_spec fuel n acc : 0 ≤ n < 10 ^ Z.of_nat fuel → (1 ≤ fuel)%nat →
  ∃ s, decimal_loop fuel n acc = (s ++ acc)%string ∧ all_digits s = true ∧ digits_value 0 s = n ∧
    s ≠ EmptyString ∧ (∀ k, 0 < k → n < 10 ^ k → Z.of_nat (String.length s) ≤ k).
Proof.
  revert n acc. induction fuel as [|fuel IH]; intros n acc Hn Hf; [lia|].
  cbn [decimal_loop]. pose proof (Z.mod_pos_bound n 10 ltac:(lia)).
  destruct (is_digit_char (n mod 10)) as [Hd Hv]; [lia|]. case_decide as Hlt.
  - exists (String (digit_char (n mod 10)) EmptyString). cbn. rewrite Hd, Hv, Z.mod_small by lia.
    split_and!; [done..|]. intros k Hk _. lia.
  - rewrite Nat2Z.inj_succ, Z.pow_succ_r in Hn by lia.
    assert (Hq : 1 ≤ n / 10 < 10 ^ Z.of_nat fuel).
    { split; [apply Z.div_le_lower_bound; lia|apply Z.div_lt_upper_bound; lia]. }
    destruct (IH (n / 10) (String (digit_char (n mod 10)) acc)) as (s & Heq & Hs & Hval & Hne & Hlen).
    { lia. } { destruct fuel; [cbn in Hq; lia|lia]. }
    exists (s ++ String (digit_char (n mod 10)) EmptyString)%string.
    rewrite Heq, <- string_app_assoc, all_digits_app, digits_value_app, Hs, Hval. cbn. rewrite Hd, Hv.
    split_and!; [done|done|pose proof (Z.div_mod n 10); lia|by destruct s|].
    intros k Hk Hlk. rewrite string_app_length. cbn.
    specialize (Hlen (k - 1)). assert (10 ^ k = 10 * 10 ^ (k - 1)) as Hpow.
    { rewrite <- Z.pow_succ_r by lia. f_equal. lia. }
    assert (0 < k - 1). { destruct (decide (k = 1)) as [->|]; [cbn in *; lia|lia]. }
    assert (n / 10 < 10 ^ (k - 1)) by (apply Z.div_lt_upper_bound; lia). lia.
Qed.

Lemma log2_fuel n : 0 ≤ n → n < 10 ^ Z.of_nat (S (Z.to_nat (Z.log2 n))).
Proof.
  intros Hn. destruct (decide (n = 0)) as [->|]; [done|].
  pose proof (Z.log2_spec n ltac:(lia)) as [_ Hlt]. pose proof (Z.log2_nonneg n).
  rewrite Nat2Z.inj_succ, Z2Nat.id by done.
  pose proof (Z.pow_le_mono_l 2 10 (Z.succ (Z.log2 n))). lia.
Qed.

Lemma Sprintf_d_spec n : 0 ≤ n →
  all_digits (Sprintf_d n) = true ∧ digits_value 0 (Sprintf_d n) = n ∧ Sprintf_d n ≠ EmptyString ∧
  (∀ k, 0 < k → n < 10 ^ k → Z.of_nat (String.length (Sprintf_d n)) ≤ k).
Proof.
  intros Hn. unfold Sprintf_d.
  destruct (decimal_loop_spec (S (Z.to_nat (Z.log2 n))) n EmptyString) as (s & -> & ? & ? & ? & ?).
  { split; [done|by apply log2_fuel]. } { lia. }
  assert ((s ++ "")%string = s) as -> by (clear; induction s; cbn; congruence). done.
Qed.

Lemma Sprintf_d_inj n m : 0 ≤ n → 0 ≤ m → Sprintf_d n = Sprintf_d m → n = m.
Proof.
  intros Hn Hm Heq. destruct (Sprintf_d_spec n Hn) as (_ & Hv & _).
  destruct (Sprintf_d_spec m Hm) as (_ & Hv' & _). congruence.
Qed.

Lemma scan_token_digits s t width : all_digits s = true → (String.length s ≤ width)%nat →
  (match t with String c _ => is_digit c = false | EmptyString => True end ∨
   String.length s = width) →
  scan_token width (s ++ t) = s.
Proof.
  revert width. induction s as [|c s IH]; intros width Hs Hlen Hstop; cbn in *.
  - destruct Hstop as [Ht|Hw]; [|by subst]. destruct width, t; cbn; try done. by rewrite Ht.
  - apply andb_true_iff in Hs as [Hc Hs]. destruct width as [|width]; [lia|]. cbn.
    rewrite Hc, IH; [done|done|lia|]. destruct Hstop; [by left|right; lia].
Qed.

Lemma Sscanf_digits s t width bits : all_digits s = true → s ≠ EmptyString →
  (String.length s ≤ width)%nat →
  (match t with String c _ => is_digit c = false | EmptyString => True end ∨
   String.length s = width) →
  digits_value 0 s < 2 ^ bits → Sscanf_d width bits (s ++ t) = Some (digits_value 0 s).
Proof.
  intros Hs Hne Hlen Hstop Hv. unfold Sscanf_d.
  assert (skip_blanks (s ++ t) = (s ++ t)%string) as ->.
  { destruct s as [|c s]; [done|]. cbn in *. apply andb_true_iff in Hs as [Hc _].
    by rewrite digit_not_blank. }
  rewrite scan_token_digits by done. by rewrite decide_False, decide_True.
Qed.

Lemma Sprintf_06d_spec n : 0 ≤ n →
  all_digits (Sprintf_06d n) = true ∧ digits_value 0 (Sprintf_06d n) = n ∧
  (6 ≤ String.length (Sprintf_06d n))%nat ∧
  (n < 10 ^ 6 → String.length (Sprintf_06d n) = 6%nat).
Proof.
  intros Hn. destruct (Sprintf_d_spec n Hn) as (Hd & Hv & _ & Hlen). unfold Sprintf_06d.
  rewrite all_digits_app, zeros_digits, zeros_value, string_app_length, length_zeros, Hd, Hv.
  split_and!; [done|done|lia|]. intros Hlt. specialize (Hlen 6 ltac:(lia) Hlt). lia.
Qed.

Lemma HasSuffix_app s suffix : HasSuffix (s ++ suffix) suffix = true.
Proof.
  unfold HasSuffix. rewrite string_app_length.
  rewrite bool_decide_true by lia. cbn [andb]. apply bool_decide_eq_true.
  replace (String.length s + String.length suffix - String.length suffix)%nat with (String.length s) by lia.
  induction s as [|c s IH]; cbn; [|done].
  induction suffix as [|c suffix IH]; cbn; [done|]. by rewrite IH.
Qed.

(** * The order of names *)

Lemma ascii_compare_code a b : Ascii.compare a b = Z.compare (char_code a) (char_code b).
Proof.
  unfold Ascii.compare, char_code, nat_of_ascii. rewrite !N_nat_Z. symmetry. apply N2Z.inj_compare.
Qed.

Lemma char_code_inj a b : char_code a = char_code b → a = b.
Proof.
  unfold char_code. intros Heq%Nat2Z.inj. rewrite <- (ascii_nat_embedding a), Heq.
  apply ascii_nat_embedding.
Qed.

Lemma leb_cons a s b t : String.leb (String a s) (String b t) = true ↔
  char_code a < char_code b ∨ a = b ∧ String.leb s t = true.
Proof.
  unfold String.leb. cbn [String.compare]. rewrite ascii_compare_code.
  destruct (Z.compare_spec (char_code a) (char_code b)) as [Heq|Hlt|Hgt].
  - apply char_code_inj in Heq as ->. split; [by right|]. intros [?|[_ ?]]; [lia|done].
  - split; [by left|done].
  - split; [done|]. intros [?|[-> _]]; lia.
Qed.

Lemma leb_trans s t u : String.leb s t = true → String.leb t u = true → String.leb s u = true.
Proof.
  revert t u. induction s as [|a s IH]; intros [|b t] [|c u]; try done.
  rewrite !leb_cons. intros [?|[-> ?]] [?|[-> ?]]; [left; lia|by left|by left|right; eauto].
Qed.

Definition name_le (a b : string) : Prop := String.leb a b = true.
#[export] Instance name_le_dec : RelDecision name_le := λ a b, decide (String.leb a b = true).
#[export] Instance name_le_trans : Transitive name_le.
Proof. intros a b c. apply leb_trans. Qed.
#[export] Instance name_le_total : Total name_le.
Proof. intros a b. unfold name_le. destruct (String.leb_total a b); auto. Qed.
#[export] Instance name_le_antisymm : AntiSymm (=) name_le.
Proof. intros a b. unfold name_le. apply String.leb_antisym. Qed.

Lemma leb_app p s t : String.leb (p ++ s) (p ++ t) = String.leb s t.
Proof.
  induction p as [|a p IH]; [done|]. cbn [String.append]. apply eq_bool_prop_intro. rewrite !Is_true_true.
  rewrite leb_cons, <- IH. split; [intros [?|[_ ?]]; [lia|done]|by right].
Qed.

Lemma digit_val_range c : is_digit c = true → 0 ≤ digit_val c < 10.
Proof. unfold is_digit, digit_val. rewrite bool_decide_eq_true. lia. Qed.

Lemma digits_value_range s : all_digits s = true → 0 ≤ digits_value 0 s < 10 ^ Z.of_nat (String.length s).
Proof.
  induction s as [|c s IH]; cbn [all_digits digits_value String.length]; [lia|].
  intros [Hc Hs]%andb_true_iff. specialize (IH Hs). apply digit_val_range in Hc.
  rewrite digits_value_acc, Nat2Z.inj_succ, Z.pow_succ_r by lia. nia.
Qed.

(** Numbers of the same length sort by value. *)
Lemma leb_digits s t u v : all_digits s = true → all_digits t = true →
  String.length s = String.length t → digits_value 0 s < digits_value 0 t →
  String.leb (s ++ u) (t ++ v) = true.
Proof.
  revert t. induction s as [|a s IH]; intros [|b t]; cbn [all_digits String.length]; try done.
  intros [Ha Hs]%andb_true_iff [Hb Ht]%andb_true_iff [= Hlen] Hlt.
  cbn [String.append]. apply leb_cons. cbn [digits_value] in Hlt. rewrite !(digits_value_acc _ (10 * 0 + _)) in Hlt.
  rewrite Hlen in Hlt.
  pose proof (digits_value_range s Hs) as Hvs. pose proof (digits_value_range t Ht) as Hvt.
  rewrite Hlen in Hvs. unfold digit_val in Hlt.
  destruct (Z.lt_trichotomy (char_code a) (char_code b)) as [?|[Heq|?]]; [by left| |exfalso; nia].
  right. split; [by apply char_code_inj|]. apply IH; [done..|]. nia.
Qed.

Lemma Sprintf_d_length n (k : nat) : 10 ^ Z.of_nat k ≤ n < 10 ^ Z.of_nat (S k) →
  String.length (Sprintf_d n) = S k.
Proof.
  intros Hn. assert (0 ≤ n) by lia. destruct (Sprintf_d_spec n) as (Hd & Hv & _ & Hlen); [done|].
  pose proof (digits_value_range _ Hd) as Hr. rewrite Hv in Hr.
  specialize (Hlen (Z.of_nat (S k)) ltac:(lia) ltac:(lia)).
  assert (¬ Z.of_nat (String.length (Sprintf_d n)) ≤ Z.of_nat k); [|lia].
  intros Hle. pose proof (Z.pow_le_mono_r 10 _ _ ltac:(lia) Hle). lia.
Qed.

Lemma HasPrefix_app p s : HasPrefix (p ++ s) p = true.
Proof.
  unfold HasPrefix. induction p as [|c p IH]; [by destruct s|]. cbn [String.append String.prefix].
  destruct (ascii_dec c c); [done|congruence].
Qed.

(** * Signed integers and the last colon *)

(** [fmt.Sprintf("%d", z)] *)
Definition Sprintf_int (z : Z) : string :=
  if decide (z < 0) then String "-" (Sprintf_d (- z)) else Sprintf_d z.

(** [fmt.Sscanf(s, "%d", &x)] for an [int64]. *)
Definition Sscanf_int64 (s : string) : option Z :=
  let s := skip_blanks s in
  let '(neg, s) :=
    match s with
    | String c s' => if decide (c = "-"%char) then (true, s')
                     else if decide (c = "+"%char) then (false, s') else (false, s)
    | EmptyString => (false, s)
    end in
  let tok := scan_token (String.length s) s in
  if decide (tok = EmptyString) then None
  else
    let v := if (neg : bool) then - digits_value 0 tok else digits_value 0 tok in
    if decide (- 2 ^ 63 ≤ v < 2 ^ 63) then Some v else None.

(** [strings.LastIndex(s, ":")], as the text behind the last colon. *)
Fixpoint after_last_colon (s : string) : option string :=
  match s with
  | EmptyString => None
  | String c s' =>
      match after_last_colon s' with
      | Some r => Some r
      | None => if decide (c = ":"%char) then Some s' else None
      end
  end.

Fixpoint no_colon (s : string) : bool :=
  match s with EmptyString => true | String c s' => negb (bool_decide (c = ":"%char)) && no_colon s' end.

Lemma after_last_colon_none s : no_colon s = true → after_last_colon s = None.
Proof.
  induction s as [|c s IH]; [done|]. cbn. intros [Hc Hs]%andb_true_iff.
  rewrite IH by done. rewrite decide_False; [done|]. by apply negb_true_iff, bool_decide_eq_false in Hc.
Qed.

Lemma after_last_colon_app p s : no_colon s = true → after_last_colon (p ++ String ":" s) = Some s.
Proof.
  intros Hs. induction p as [|c p IH]; cbn [String.append after_last_colon].
  - by rewrite after_last_colon_none.
  - by rewrite IH.
Qed.

Lemma digits_no_colon s : all_digits s = true → no_colon s = true.
Proof.
  induction s as [|c s IH]; [done|]. cbn. intros [Hc Hs]%andb_true_iff. rewrite IH by done.
  rewrite bool_decide_eq_false_2; [done|]. intros ->. discriminate.
Qed.

Lemma Sprintf_int_no_colon z : no_colon (Sprintf_int z) = true.
Proof.
  unfold Sprintf_int. case_decide; cbn; apply digits_no_colon, Sprintf_d_spec; lia.
Qed.

Lemma scan_token_all s : all_digits s = true → scan_token (String.length s) s = s.
Proof. induction s as [|c s IH]; [done|]. cbn. intros [-> Hs]%andb_true_iff. by rewrite IH. Qed.

Lemma Sscanf_Sprintf_int z : - 2 ^ 63 ≤ z < 2 ^ 63 → Sscanf_int64 (Sprintf_int z) = Some z.
Proof.
  intros Hz. unfold Sprintf_int. case_decide as Hneg.
  - destruct (Sprintf_d_spec (- z)) as (Hd & Hv & Hne & _); [lia|]. unfold Sscanf_int64.
    cbn [skip_blanks is_blank]. change (is_blank "-") with false. cbn iota.
    rewrite decide_True by done. rewrite scan_token_all, decide_False, Hv by done.
    rewrite Z.opp_involutive. by rewrite decide_True.
  - destruct (Sprintf_d_spec z) as (Hd & Hv & Hne & _); [lia|]. unfold Sscanf_int64.
    destruct (Sprintf_d z) as [|c s] eqn:E; [done|]. pose proof Hd as Hd'. cbn in Hd'.
    apply andb_true_iff in Hd' as [Hc _]. cbn [skip_blanks]. rewrite digit_not_blank by done.
    rewrite decide_False by (intros ->; discriminate). rewrite decide_False by (intros ->; discriminate).
    rewrite scan_token_all, decide_False, Hv by done. by rewrite decide_True.
Qed.

Lemma Sprintf_int_inj z z' : - 2 ^ 63 ≤ z < 2 ^ 63 → - 2 ^ 63 ≤ z' < 2 ^ 63 →
  Sprintf_int z = Sprintf_int z' → z = z'.
Proof.
  intros Hz Hz' Heq. apply (f_equal Sscanf_int64) in Heq.
  rewrite !Sscanf_Sprintf_int in Heq by done. congruence.
Qed.

(** * ASCII text *)

Fixpoint is_ascii (s : string) : bool :=
  match s with EmptyString => true | String c s' => bool_decide (char_code c < 128) && is_ascii s' end.
