(* ===== verification/Hash.v ===== *)
(** [pkg/bloom/hash.go]: the index computation by double hashing.

    [murmur3.Sum32] (package [github.com/twmb/murmur3]) is a parameter of the
    model, the operational class [Murmur3]; its result is a [uint32], which
    the definitions impose with [u32].  Nothing else is assumed of it. *)

From S2P Require Import Prelude GoBytes.
From Stdlib Require Import Znumtheory.

Class Murmur3 := Sum32 : list byte → Z.

(** Two concrete functions for closed examples. *)
Definition byte_sum : Murmur3 := λ l, foldl (λ a b, a + byte_val b) 0 l.
Definition constant_hash (c : Z) : Murmur3 := λ _, c.

Definition MaxHashFunctions : Z := 20.

Section hash.
Context `{Murmur3}.

(** [for i := 0; i < k; i++ { indices[i] = int((h1 + uint64(i)*h2) % uint64(m)) }] *)
Fixpoint fill_indices (h1 h2 m : Z) (its indices : list Z) : go (list Z) :=
  match its with
  | [] => Ret indices
  | i :: its' =>
      idx ← go_umod (u64 (h1 + u64 (u64 i * h2))) (u64 m);
      indices' ← go_store indices i (i64 idx);
      fill_indices h1 h2 m its' indices'
  end.

Definition getHashIndices (item : list byte) (m k : Z) : go (list Z) :=
  indices ← go_make 0 k;
  let h1 := u64 (u32 (Sum32 item)) in
  r ← go_umod h1 (u64 (m - 1));
  let h2 := u64 (1 + r) in
  fill_indices h1 h2 m (seqZ 0 k) indices.

(** The slice taken from [indexPool] has some capacity and stale contents:
    [backing] is its backing array. *)
Definition getHashIndicesPooled (backing : list Z) (item : list byte) (m k : Z) : go (list Z) :=
  indices ← (if decide (len backing < k) then go_make 0 k
             else if decide (0 ≤ k) then Ret (slice backing 0 k)
             else Panic SliceBoundsOutOfRange);
  let h1 := u64 (u32 (Sum32 item)) in
  r ← go_umod h1 (u64 (m - 1));
  let h2 := u64 (1 + r) in
  fill_indices h1 h2 m (seqZ 0 k) indices.

Definition DoubleHash (item : list byte) (m : Z) : go (Z * Z) :=
  let h1 := u32 (Sum32 item) in
  let h2Bytes := item ++ [byte_of 0xDE; byte_of 0xAD; byte_of 0xBE; byte_of 0xEF] in
  let h2 := u32 (Sum32 h2Bytes) in
  r ← go_umod h2 (u32 (m - 1));
  let h2 := u32 (1 + r) in
  q ← go_umod h1 (u32 m);
  Ret (q, h2).

(** [indices[i] = (h1 + i*h2) % m] on [int]: Go's remainder truncates. *)
Fixpoint compute_loop (h1 h2 m : Z) (its indices : list Z) : go (list Z) :=
  match its with
  | [] => Ret indices
  | i :: its' =>
      if decide (m = 0) then Panic IntegerDivideByZero
      else
        indices' ← go_store indices i (Z.rem (i64 (h1 + i64 (i * h2))) m);
        compute_loop h1 h2 m its' indices'
  end.

Definition ComputeIndices (item : list byte) (m k : Z) : go (list Z) :=
  '(h1, h2) ← DoubleHash item m;
  indices ← go_make 0 k;
  compute_loop h1 h2 m (seqZ 0 k) indices.

(** ** The documented formula

    [h(i) = (h1(item) + i * h2(item)) mod m], on unbounded integers. *)

Definition hash1 (item : list byte) : Z := u32 (Sum32 item).
Definition hash2 (item : list byte) (m : Z) : Z := 1 + hash1 item mod (m - 1).
Definition index_at (item : list byte) (m i : Z) : Z := (hash1 item + i * hash2 item m) mod m.
Definition indices_of (item : list byte) (m k : Z) : list Z := index_at item m <$> seqZ 0 k.

(** The sizes the code works with: at least two counters, an [int] size, and
    a hash count for which [uint64] arithmetic does not wrap. *)
Definition params_ok (m k : Z) : Prop := 2 ≤ m < 2 ^ 63 ∧ 0 ≤ k ≤ 2 ^ 31.

Lemma hash1_range item : 0 ≤ hash1 item < 2 ^ 32.
Proof. apply u32_range. Qed.

Lemma hash2_range item m : 2 ≤ m → 1 ≤ hash2 item m < m ∧ hash2 item m ≤ 2 ^ 32.
Proof.
  intros Hm. pose proof (hash1_range item). unfold hash2.
  pose proof (Z.mod_pos_bound (hash1 item) (m - 1)).
  pose proof (Z.mod_le (hash1 item) (m - 1)). lia.
Qed.

Lemma index_at_range item m i : 2 ≤ m → 0 ≤ index_at item m i < m.
Proof. intros ?. apply Z.mod_pos_bound. lia. Qed.

Lemma length_indices_of item m k : length (indices_of item m k) = Z.to_nat k.
Proof. unfold indices_of. by rewrite length_fmap, length_seqZ. Qed.

Lemma indices_of_range item m k :
  2 ≤ m → Forall (λ i, 0 ≤ i < m) (indices_of item m k).
Proof.
  intros Hm. apply Forall_fmap, Forall_true. intros i. by apply index_at_range.
Qed.

(** ** The loops compute the formula *)

(** A loop that overwrites positions [n, n+1, ...] of a buffer. *)
Lemma fill_indices_spec item m (n : nat) j buf :
  2 ≤ m < 2 ^ 63 → 0 ≤ j → j + Z.of_nat n ≤ 2 ^ 31 →
  length buf = (Z.to_nat j + n)%nat →
  fill_indices (hash1 item) (hash2 item m) m (seqZ j (Z.of_nat n)) buf =
    Ret (take (Z.to_nat j) buf ++ (index_at item m <$> seqZ j (Z.of_nat n))).
Proof.
  intros Hm. revert j buf. induction n as [|n IH]; intros j buf Hj Hle Hlen.
  { cbn. rewrite take_ge by lia. by rewrite app_nil_r. }
  rewrite seqZ_cons by lia. cbn [fill_indices].
  pose proof (hash1_range item) as H1. pose proof (hash2_range item m ltac:(lia)) as H2.
  assert (Hprod : 0 ≤ j * hash2 item m ≤ 2 ^ 31 * 2 ^ 32) by nia.
  rewrite (u64_small j), (u64_small (j * _)), (u64_small (_ + _)), (u64_small m) by lia.
  unfold go_umod at 1. rewrite decide_False by lia. cbn [mbind go_bind].
  pose proof (index_at_range item m j ltac:(lia)). fold (index_at item m j).
  rewrite i64_small by lia. rewrite go_store_in_range by (unfold len; lia).
  cbn [mbind go_bind]. replace (Z.pred (Z.of_nat (S n))) with (Z.of_nat n) by lia.
  rewrite IH; [|lia|lia|rewrite length_insert; lia].
  f_equal. rewrite fmap_cons, Z2Nat.inj_succ, (take_S_r _ _ (index_at item m j)) by
    (try lia; apply list_lookup_insert_eq; lia).
  rewrite take_insert_ge by lia. by rewrite <- (assoc_L (++)).
Qed.

Lemma hash_prologue {A} item m (f : Z → Z → go A) :
  2 ≤ m < 2 ^ 63 →
  (r ← go_umod (u64 (u32 (Sum32 item))) (u64 (m - 1)); f (u64 (u32 (Sum32 item))) (u64 (1 + r)))
    = f (hash1 item) (hash2 item m).
Proof.
  intros Hm. pose proof (hash1_range item). pose proof (hash2_range item m ltac:(lia)).
  fold (hash1 item). rewrite (u64_small (hash1 item)), (u64_small (m - 1)) by lia.
  unfold go_umod. rewrite decide_False by lia. cbn [mbind go_bind].
  fold (hash2 item m). by rewrite u64_small by lia.
Qed.

Lemma getHashIndices_eq item m k :
  params_ok m k → getHashIndices item m k = Ret (indices_of item m k).
Proof.
  intros [Hm Hk]. unfold getHashIndices, go_make. rewrite decide_True by lia.
  cbn [mbind go_bind]. rewrite (hash_prologue item m (λ h1 h2, fill_indices h1 h2 m _ _)) by done.
  rewrite <- (Z2Nat.id k) by lia. rewrite fill_indices_spec; [done|lia..|].
  rewrite length_replicate. lia.
Qed.

Lemma getHashIndicesPooled_eq backing item m k :
  params_ok m k → getHashIndicesPooled backing item m k = Ret (indices_of item m k).
Proof.
  intros [Hm Hk]. unfold getHashIndicesPooled.
  assert (∃ buf, (if decide (len backing < k) then go_make 0 k
    else if decide (0 ≤ k) then Ret (slice backing 0 k) else Panic SliceBoundsOutOfRange)
    = Ret buf ∧ length buf = Z.to_nat k) as (buf & -> & Hbuf).
  { unfold go_make, slice, len. rewrite (decide_True (P:=0 ≤ k)) by lia. case_decide; [|].
    - eexists; split; [done|]. by rewrite length_replicate.
    - rewrite decide_True by lia. eexists; split; [done|]. rewrite length_take, length_drop. lia. }
  cbn [mbind go_bind]. rewrite (hash_prologue item m (λ h1 h2, fill_indices h1 h2 m _ _)) by done.
  rewrite <- (Z2Nat.id k) by lia. rewrite fill_indices_spec; [done|lia..].
Qed.

(** ** Distinctness *)

Lemma index_at_inj_prime item m i j :
  prime m → 0 ≤ i < m → 0 ≤ j < m → index_at item m i = index_at item m j → i = j.
Proof.
  intros Hp Hi Hj Heq. pose proof (prime_ge_2 m Hp).
  pose proof (hash2_range item m ltac:(lia)) as [H2 _]. unfold index_at in Heq.
  assert (Hdiv : (m | (i - j) * hash2 item m)).
  { apply Z.mod_divide; [lia|].
    replace ((i - j) * hash2 item m) with
      ((hash1 item + i * hash2 item m) - (hash1 item + j * hash2 item m)) by ring.
    by rewrite Zminus_mod, Heq, Z.sub_diag, Z.mod_0_l by lia. }
  apply prime_mult in Hdiv as [Hdiv|Hdiv]; [| |done].
  - destruct Hdiv as [q Hq]. assert (q = 0) by nia. lia.
  - apply Z.divide_pos_le in Hdiv; lia.
Qed.

Lemma indices_of_nodup_prime item m k :
  prime m → k ≤ m → NoDup (indices_of item m k).
Proof.
  intros Hp Hk. unfold indices_of. apply NoDup_fmap_2_strong; [|apply NoDup_seqZ].
  intros i j Hi%elem_of_seqZ Hj%elem_of_seqZ. apply index_at_inj_prime; [done|lia..].
Qed.
End hash.
