(* ===== verification/Pool.v ===== *)
(** [pkg/bloom/hash.go]: the pool of index slices that concurrent calls share,
    [indexPool], [getHashIndicesPooled] and [putHashIndices].

    A pooled value is a pointer to a slice: a cell with a backing array and a length.
    [sync.Pool] hands out any cell that was put back or a new one, and may forget
    cells.  Calls of several goroutines interleave; each write of an index is a step.

    [MurmurHash3Provider] is a digest of what was written since its last reset, by whoever
    holds it. *)

From S2P Require Import Prelude GoBytes Hash.
#[local] Open Scope Z_scope.

(** * Definitions *)

Record cell : Type := mkCell { c_backing : list Z; c_len : Z }.
Definition contents (c : cell) : list Z := slice (c_backing c) 0 (c_len c).

(** [indexPool.New] *)
Definition new_cell : cell := mkCell (replicate (Z.to_nat MaxHashFunctions) 0) 0.

Record pooled_call : Type := mkCall { pc_item : list byte; pc_m : Z; pc_k : Z }.

Inductive phase : Type :=
  | Got (l : nat)                (* out of the pool *)
  | Filling (l : nat) (i : Z)    (* the first [i] indices are written *)
  | Held (l : nat)               (* returned to the caller *)
  | Emptied (l : nat)            (* inside [putHashIndices] *)
  | Returned (l : nat).          (* the caller still has the pointer *)

Record pool : Type := mkPool { p_heap : list cell; p_free : list nat; p_calls : gmap nat (pooled_call * phase) }.

Section pool.
Context `{Murmur3}.

Definition resize (k : Z) (c : cell) : go cell :=
  if decide (len (c_backing c) < k) then buf ← go_make 0 k; Ret (mkCell buf k)
  else if decide (0 ≤ k) then Ret (mkCell (c_backing c) k)
  else Panic SliceBoundsOutOfRange.

(** [( *indices)[i] = int((h1 + uint64(i)*h2) % uint64(m))] *)
Definition write_index (p : pooled_call) (i : Z) (c : cell) : go cell :=
  let h1 := u64 (u32 (Sum32 (pc_item p))) in
  r ← go_umod h1 (u64 (pc_m p - 1));
  let h2 := u64 (1 + r) in
  idx ← go_umod (u64 (h1 + u64 (u64 i * h2))) (u64 (pc_m p));
  if decide (0 ≤ i < c_len c) then
    backing ← go_store (c_backing c) i (i64 idx); Ret (mkCell backing (c_len c))
  else Panic IndexOutOfRange.

(** [*indices = ( *indices)[:0]], before the cell goes back. *)
Definition putHashIndices (c : cell) : cell := mkCell (c_backing c) 0.

Inductive pool_step : pool → pool → Prop :=
  | p_new t p hp fr cs : cs !! t = None →
      pool_step (mkPool hp fr cs) (mkPool (hp ++ [new_cell]) fr (<[t := (p, Got (length hp))]> cs))
  | p_get t p l hp fr1 fr2 cs : cs !! t = None →
      pool_step (mkPool hp (fr1 ++ l :: fr2) cs) (mkPool hp (fr1 ++ fr2) (<[t := (p, Got l)]> cs))
  | p_forget l hp fr1 fr2 cs : pool_step (mkPool hp (fr1 ++ l :: fr2) cs) (mkPool hp (fr1 ++ fr2) cs)
  | p_resize t p l c c' hp fr cs : cs !! t = Some (p, Got l) → hp !! l = Some c → resize (pc_k p) c = Ret c' →
      pool_step (mkPool hp fr cs) (mkPool (<[l := c']> hp) fr (<[t := (p, Filling l 0)]> cs))
  | p_write t p l i c c' hp fr cs : cs !! t = Some (p, Filling l i) → hp !! l = Some c → i < pc_k p →
      write_index p i c = Ret c' →
      pool_step (mkPool hp fr cs) (mkPool (<[l := c']> hp) fr (<[t := (p, Filling l (i + 1))]> cs))
  | p_done t p l i hp fr cs : cs !! t = Some (p, Filling l i) → pc_k p ≤ i →
      pool_step (mkPool hp fr cs) (mkPool hp fr (<[t := (p, Held l)]> cs))
  | p_empty t p l c hp fr cs : cs !! t = Some (p, Held l) → hp !! l = Some c →
      pool_step (mkPool hp fr cs) (mkPool (<[l := putHashIndices c]> hp) fr (<[t := (p, Emptied l)]> cs))
  | p_put t p l hp fr cs : cs !! t = Some (p, Emptied l) →
      pool_step (mkPool hp fr cs) (mkPool hp (l :: fr) (<[t := (p, Returned l)]> cs))
  | p_end t p l hp fr cs : cs !! t = Some (p, Returned l) → pool_step (mkPool hp fr cs) (mkPool hp fr (delete t cs)).

(** A caller that returns its slice a second time. *)
Inductive careless_step : pool → pool → Prop :=
  | c_step s s' : pool_step s s' → careless_step s s'
  | c_put_again t p l hp fr cs : cs !! t = Some (p, Returned l) →
      careless_step (mkPool hp fr cs) (mkPool hp (l :: fr) cs).

Definition pool_start : pool := mkPool [] [] ∅.
End pool.

(** ** The hash provider *)

(** What the digest has been given. *)
Record MurmurHash3Provider : Type := mkProvider { written : list byte }.

Definition NewMurmurHash3Provider : MurmurHash3Provider := mkProvider [].
Definition hp_Reset (m : MurmurHash3Provider) : MurmurHash3Provider := mkProvider [].
Definition hp_Write (p : list byte) (m : MurmurHash3Provider) : MurmurHash3Provider := mkProvider (written m ++ p).
Definition hp_Sum32 `{Murmur3} (m : MurmurHash3Provider) : Z := u32 (Sum32 (written m)).

(** [Hash] is three calls on the shared digest. *)
Inductive hash_call : Type := HReset | HWrite (p : list byte) | HSum.

Definition hash_calls (data : list byte) : list hash_call := [HReset; HWrite data; HSum].

Fixpoint hash_run `{Murmur3} (cs : list hash_call) (m : MurmurHash3Provider) : MurmurHash3Provider * list Z :=
  match cs with
  | [] => (m, [])
  | HReset :: cs' => hash_run cs' (hp_Reset m)
  | HWrite p :: cs' => hash_run cs' (hp_Write p m)
  | HSum :: cs' => let '(m', sums) := hash_run cs' m in (m', u64 (hp_Sum32 m) :: sums)
  end.

Definition hp_Hash `{Murmur3} (data : list byte) (m : MurmurHash3Provider) : MurmurHash3Provider * Z :=
  let '(m', sums) := hash_run (hash_calls data) m in (m', default 0 (head sums)).

(** * Theorems *)

(** The cell a call may write to and nobody else. *)
Definition owned (ph : phase) : option nat :=
  match ph with Got l | Filling l _ | Held l | Emptied l => Some l | Returned _ => None end.

Section invariant.
Context `{Murmur3}.

Definition wanted (p : pooled_call) : list Z := indices_of (pc_item p) (pc_m p) (pc_k p).

(** What the cell of a call holds. *)
Definition filled (hp : list cell) (p : pooled_call) (ph : phase) : Prop :=
  match ph with
  | Filling l i => ∃ c, hp !! l = Some c ∧ c_len c = pc_k p ∧ pc_k p ≤ len (c_backing c) ∧ 0 ≤ i ≤ pc_k p ∧
      take (Z.to_nat i) (c_backing c) = take (Z.to_nat i) (wanted p)
  | Held l => ∃ c, hp !! l = Some c ∧ contents c = wanted p
  | _ => True
  end.

Record pool_inv (s : pool) : Prop := {
  pi_free : NoDup (p_free s) ∧ Forall (λ l, l < length (p_heap s))%nat (p_free s);
  pi_owned t p ph l : p_calls s !! t = Some (p, ph) → owned ph = Some l → l ∉ p_free s ∧ (l < length (p_heap s))%nat;
  pi_alone t t' p p' ph ph' l : p_calls s !! t = Some (p, ph) → p_calls s !! t' = Some (p', ph') →
    owned ph = Some l → owned ph' = Some l → t = t';
  pi_filled t p ph : p_calls s !! t = Some (p, ph) → params_ok (pc_m p) (pc_k p) → filled (p_heap s) p ph
}.

Lemma filled_same hp hp' p ph : (∀ l, owned ph = Some l → hp' !! l = hp !! l) → filled hp p ph → filled hp' p ph.
Proof. destruct ph; cbn; try done; intros Hl (c & Hc & ?); exists c; by rewrite Hl. Qed.

Lemma write_index_eq p i c : params_ok (pc_m p) (pc_k p) → c_len c = pc_k p → pc_k p ≤ len (c_backing c) → 0 ≤ i < pc_k p →
  write_index p i c = Ret (mkCell (<[Z.to_nat i := index_at (pc_item p) (pc_m p) i]> (c_backing c)) (pc_k p)).
Proof.
  intros [Hm Hk] Hlen Hcap Hi. destruct p as [item m k]. cbn [pc_item pc_m pc_k] in *. unfold write_index. cbn [pc_item pc_m pc_k].
  rewrite (hash_prologue item m (λ h1 h2, idx ← go_umod (u64 (h1 + u64 (u64 i * h2))) (u64 m); _)) by done.
  pose proof (hash1_range item). pose proof (hash2_range item m ltac:(lia)) as H2.
  assert (0 ≤ i * hash2 item m ≤ 2 ^ 31 * 2 ^ 32) by nia.
  rewrite (u64_small i), (u64_small (i * _)), (u64_small (_ + _)), (u64_small m) by lia.
  unfold go_umod. rewrite decide_False by lia. cbn [mbind go_bind]. fold (index_at item m i).
  pose proof (index_at_range item m i ltac:(lia)).
  rewrite Hlen, decide_True, i64_small, go_store_in_range by (unfold len in *; lia). done.
Qed.

Lemma resize_eq k c : 0 ≤ k → ∃ b, resize k c = Ret (mkCell b k) ∧ k ≤ len b.
Proof.
  intros Hk. unfold resize, go_make. rewrite !(decide_True (P := 0 ≤ k)) by done. case_decide; cbn; eexists; (split; [done|lens]).
Qed.

(** A step of one call on its own cell. *)
Lemma inv_own t p ph ph' l hp hp' fr cs : pool_inv (mkPool hp fr cs) → cs !! t = Some (p, ph) →
  owned ph = Some l → owned ph' = Some l → length hp' = length hp → (∀ l', l' ≠ l → hp' !! l' = hp !! l') →
  (params_ok (pc_m p) (pc_k p) → filled hp' p ph') → pool_inv (mkPool hp' fr (<[t := (p, ph')]> cs)).
Proof.
  intros [Hfree Hown Halone Hfill] Ht Ho Ho' Hlen Hsame Hf. cbn [p_heap p_free p_calls] in *.
  assert (∀ t1 p1 ph1, <[t := (p, ph')]> cs !! t1 = Some (p1, ph1) → ∃ ph0, cs !! t1 = Some (p1, ph0) ∧ owned ph0 = owned ph1 ∧
    (t1 ≠ t → ph0 = ph1)) as Hold.
  { intros t1 p1 ph1 [[<- [= <- <-]]|[Hne H1]]%lookup_insert_Some; [exists ph; by rewrite Ho|by exists ph1]. }
  split; cbn [p_heap p_free p_calls]; rewrite ?Hlen.
  - done.
  - intros t1 p1 ph1 l1 (ph0 & H1 & Hph & _)%Hold Hl1. apply (Hown _ _ _ _ H1). by rewrite Hph.
  - intros t1 t2 p1 p2 ph1 ph2 l1 (ph0 & H1 & Hph1 & _)%Hold (ph0' & H2 & Hph2 & _)%Hold Hl1 Hl2.
    apply (Halone _ _ _ _ _ _ l1 H1 H2); congruence.
  - intros t1 p1 ph1 H1 Hp. destruct (decide (t1 = t)) as [->|Hne].
    { rewrite lookup_insert_eq in H1. injection H1 as <- <-. auto. }
    rewrite lookup_insert_ne in H1 by done. apply (filled_same hp); [|by eapply Hfill]. intros l1 Hl1. apply Hsame. intros ->.
    by apply Hne, (Halone _ _ _ _ _ _ _ H1 Ht Hl1).
Qed.

(** A call takes a cell nobody owns out of the pool. *)
Lemma inv_get t p l hp fr cs : pool_inv (mkPool hp fr cs) → cs !! t = None → l ∉ fr → (l < length hp)%nat →
  (∀ t' p' ph', cs !! t' = Some (p', ph') → owned ph' ≠ Some l) → pool_inv (mkPool hp fr (<[t := (p, Got l)]> cs)).
Proof.
  intros [Hfree Hown Halone Hfill] Ht Hl Hlt Hno. cbn [p_heap p_free p_calls] in *. split; cbn [p_heap p_free p_calls].
  - done.
  - intros t1 p1 ph1 l1 [[<- [= <- <-]]|[_ H1]]%lookup_insert_Some Hl1; [by injection Hl1 as <-|by eapply Hown].
  - intros t1 t2 p1 p2 ph1 ph2 l1 [[<- [= <- <-]]|[_ H1]]%lookup_insert_Some [[<- [= <- <-]]|[_ H2]]%lookup_insert_Some Hl1 Hl2;
      [done| | |by eapply Halone]; cbn in *; simplify_eq; exfalso; by eapply Hno.
  - intros t1 p1 ph1 [[<- [= <- <-]]|[_ H1]]%lookup_insert_Some Hp; [done|by eapply Hfill].
Qed.

Lemma inv_step s s' : pool_inv s → pool_step s s' → pool_inv s'.
Proof.
  intros Hi Hs. destruct Hs as [t p hp fr cs Ht|t p l hp fr1 fr2 cs Ht|l hp fr1 fr2 cs|t p l c c' hp fr cs Ht Hc Hr|
    t p l i c c' hp fr cs Ht Hc Hlt Hw|t p l i hp fr cs Ht Hk|t p l c hp fr cs Ht Hc|t p l hp fr cs Ht|t p l hp fr cs Ht];
    pose proof Hi as [Hfree Hown Halone Hfill]; cbn [p_heap p_free p_calls] in *.
  - apply inv_get; [|done|..].
    + split; cbn [p_heap p_free p_calls].
      * split; [apply Hfree|]. eapply Forall_impl; [apply Hfree|]. cbn. intros l. rewrite length_app. cbn. lia.
      * intros t1 p1 ph1 l1 H1 Hl1. destruct (Hown _ _ _ _ H1 Hl1). rewrite length_app. cbn. split; [done|lia].
      * done.
      * intros t1 p1 ph1 H1 Hp. apply (filled_same hp); [|by eapply Hfill]. intros l1 Hl1.
        destruct (Hown _ _ _ _ H1 Hl1). by rewrite lookup_app_l.
    + intros Hin. destruct Hfree as [_ Hf]. rewrite Forall_forall in Hf. specialize (Hf _ Hin). lia.
    + rewrite length_app. cbn. lia.
    + intros t' p' ph' H1 Hl1. destruct (Hown _ _ _ _ H1 Hl1). lia.
  - destruct Hfree as [Hnd Hf]. rewrite <- Permutation_middle in Hnd, Hf. apply NoDup_cons in Hnd as [Hnin Hnd]. apply Forall_cons in Hf as [Hlt Hf].
    apply inv_get; [|done..|].
    + split; cbn [p_heap p_free p_calls]; [done| |done..]. intros t1 p1 ph1 l1 H1 Hl1. destruct (Hown _ _ _ _ H1 Hl1) as [Hn ?].
      split; [|done]. intros Hin. apply Hn. rewrite <- Permutation_middle. by right.
    + intros t' p' ph' H1 Hl1. destruct (Hown _ _ _ _ H1 Hl1) as [Hn _]. apply Hn. rewrite <- Permutation_middle. by left.
  - destruct Hfree as [Hnd Hf]. rewrite <- Permutation_middle in Hnd, Hf. apply NoDup_cons in Hnd as [_ Hnd]. apply Forall_cons in Hf as [_ Hf].
    split; cbn [p_heap p_free p_calls]; [done| |done..]. intros t1 p1 ph1 l1 H1 Hl1. destruct (Hown _ _ _ _ H1 Hl1) as [Hn ?].
    split; [|done]. intros Hin. apply Hn. rewrite <- Permutation_middle. by right.
  - eapply inv_own; [exact Hi|exact Ht|done|done|apply length_insert|intros; by apply list_lookup_insert_ne|].
    intros [Hm Hk]. destruct (resize_eq (pc_k p) c) as (b & Hb & Hle); [lia|]. rewrite Hb in Hr. injection Hr as <-.
    eexists. rewrite list_lookup_insert_eq by (by eapply lookup_lt_Some). split_and!; [done|done|done|lia|lia|done].
  - eapply inv_own; [exact Hi|exact Ht|done|done|apply length_insert|intros; by apply list_lookup_insert_ne|].
    intros Hp. destruct (Hfill _ _ _ Ht Hp) as (c0 & Hc0 & Hlen & Hcap & Hi0 & Htake). simplify_eq.
    rewrite write_index_eq in Hw by (done || lia). injection Hw as <-.
    eexists. rewrite list_lookup_insert_eq by (by eapply lookup_lt_Some). split_and!; [done|done|cbn; unfold len in *; rewrite length_insert; lia|lia|lia|]. cbn [c_backing]. replace (Z.to_nat (i + 1)) with (S (Z.to_nat i)) by lia.
    destruct Hp as [Hm Hk]. unfold len in *.
    rewrite (take_S_r _ _ (index_at (pc_item p) (pc_m p) i)) by (apply list_lookup_insert_eq; lia).
    rewrite take_insert_ge by lia. rewrite Htake. symmetry. apply take_S_r. unfold wanted, indices_of.
    rewrite list_lookup_fmap, lookup_seqZ_lt by lia. cbn. do 2 f_equal. lia.
  - eapply inv_own; [exact Hi|exact Ht|done..|]. intros Hp. destruct (Hfill _ _ _ Ht Hp) as (c & Hc & Hlen & Hcap & Hi0 & Htake).
    exists c. split; [done|]. replace i with (pc_k p) in Htake by lia. unfold contents, slice. rewrite Hlen, Z.sub_0_r, drop_0, Htake.
    apply take_ge. unfold wanted. by rewrite length_indices_of.
  - eapply inv_own; [exact Hi|exact Ht|done|done|apply length_insert|intros; by apply list_lookup_insert_ne|done].
  - destruct (Hown _ _ _ _ Ht eq_refl) as [Hn Hlt].
    assert (∀ t1 p1 ph1, <[t := (p, Returned l)]> cs !! t1 = Some (p1, ph1) → ∀ l1, owned ph1 = Some l1 → cs !! t1 = Some (p1, ph1) ∧ l1 ≠ l) as Hold.
    { intros t1 p1 ph1 [[<- [= <- <-]]|[Hne H1]]%lookup_insert_Some l1 Hl1; [done|]. split; [done|]. intros ->.
      apply Hne. by eapply (Halone t t1). }
    split; cbn [p_heap p_free p_calls].
    + split; [apply NoDup_cons; by split; [|apply Hfree]|]. apply Forall_cons. by split; [|apply Hfree].
    + intros t1 p1 ph1 l1 H1 Hl1. destruct (Hold _ _ _ H1 _ Hl1) as [H0 Hne]. destruct (Hown _ _ _ _ H0 Hl1).
      split; [|done]. by intros [->|?]%elem_of_cons.
    + intros t1 t2 p1 p2 ph1 ph2 l1 H1 H2 Hl1 Hl2. destruct (Hold _ _ _ H1 _ Hl1) as [H1' _], (Hold _ _ _ H2 _ Hl2) as [H2' _].
      by eapply (Halone _ _ _ _ _ _ _ H1' H2').
    + intros t1 p1 ph1 [[<- [= <- <-]]|[_ H1]]%lookup_insert_Some Hp; [done|by eapply Hfill].
  - split; cbn [p_heap p_free p_calls]; [done|..].
    + intros t1 p1 ph1 l1 [_ H1]%lookup_delete_Some. by eapply Hown.
    + intros t1 t2 p1 p2 ph1 ph2 l1 [_ H1]%lookup_delete_Some [_ H2]%lookup_delete_Some. by eapply Halone.
    + intros t1 p1 ph1 [_ H1]%lookup_delete_Some. by eapply Hfill.
Qed.

Lemma inv_reachable s : rtc pool_step pool_start s → pool_inv s.
Proof.
  intros Hr. assert (pool_inv pool_start) as Hi by (split; cbn; [by repeat constructor|done..]).
  induction Hr as [|a b c Hab _ IH]; [done|]. apply IH. by eapply inv_step.
Qed.

(** C35: The shared pool is safe.  However many calls interleave, whatever the pool hands out
    or forgets and whatever an array held before, two calls never work on the same
    slice, no call with the sizes of a filter panics, and the slice a caller holds is what
    [getHashIndices] allocates for its item, as long as each caller returns its slice
    once. *)
Theorem pool_calls_isolated s : rtc pool_step pool_start s →
  (∀ t t' p p' ph ph' l, p_calls s !! t = Some (p, ph) → p_calls s !! t' = Some (p', ph') →
     owned ph = Some l → owned ph' = Some l → t = t') ∧
  ∀ t p ph l, p_calls s !! t = Some (p, ph) → params_ok (pc_m p) (pc_k p) → owned ph = Some l →
    ∃ c, p_heap s !! l = Some c ∧
    match ph with
    | Got _ => ∃ c', resize (pc_k p) c = Ret c'
    | Filling _ i => i < pc_k p → ∃ c', write_index p i c = Ret c'
    | Held _ => getHashIndices (pc_item p) (pc_m p) (pc_k p) = Ret (contents c)
    | Emptied _ | Returned _ => True
    end.
Proof.
  intros [_ Hown Halone Hfill]%inv_reachable. split; [exact Halone|]. intros t p ph l Ht Hp Ho.
  destruct (Hown _ _ _ _ Ht Ho) as [_ [c Hc]%lookup_lt_is_Some]. exists c. split; [done|]. pose proof (Hfill _ _ _ Ht Hp) as Hf.
  destruct ph as [l'|l' i|l'|l'|l']; cbn in *; simplify_eq; try done.
  - destruct (resize_eq (pc_k p) c) as (b & -> & _); [apply Hp|]. by eexists.
  - destruct Hf as (c0 & Hc0 & Hlen & Hcap & Hi & _). simplify_eq. intros Hlt. rewrite write_index_eq by (done || lia). by eexists.
  - destruct Hf as (c0 & Hc0 & Heq). simplify_eq. rewrite Heq. by apply getHashIndices_eq.
Qed.
End invariant.

(** [Hash] of the provider is the hash the index computation starts from, whatever was
    written before. *)
Theorem provider_Hash `{Murmur3} data m : (hp_Hash data m).2 = hash1 data.
Proof. unfold hp_Hash, hp_Sum32. cbn -[u32 u64]. apply u64_small. pose proof (hash1_range data). unfold hash1 in *. lia. Qed.

(** * Instances *)

Section witnesses.
#[local] Existing Instance byte_sum.

Definition pl_call (b : Z) : pooled_call := mkCall [byte_of b] 7 2.
Definition pl_backing (l : list Z) : list Z := l ++ replicate 18 0.

Tactic Notation "next" uconstr(rule) := eapply rtc_l; [first [eapply rule|eapply c_step, rule]; first [reflexivity|vm_compute; reflexivity|done]|]; cbn -[write_index resize].

Definition pl_held : pool := mkPool [mkCell (pl_backing [1; 3]) 2] [] {[0%nat := (pl_call 1, Held 0)]}.

Lemma pl_run : rtc pool_step pool_start pl_held.
Proof.
  next (p_new 0 (pl_call 1)). next (p_resize 0 (pl_call 1) 0). next (p_write 0 (pl_call 1) 0 0). next (p_write 0 (pl_call 1) 0 1).
  next (p_done 0 (pl_call 1) 0 2). apply rtc_refl.
Qed.

Lemma pool_calls_isolated_witness : getHashIndices [byte_of 1] 7 2 = Ret [1; 3].
Proof.
  destruct (pool_calls_isolated pl_held pl_run) as [_ H].
  destruct (H 0%nat (pl_call 1) (Held 0) 0%nat eq_refl) as (c & Hc & Heq); [split; cbn; lia|done|].
  injection Hc as <-. exact Heq.
Defined.

(** Returning a slice twice is enough to break it: two later calls get the same slice, and
    the one that finishes first reads the indices of the other's item. *)
Theorem double_put_aliases : ∃ s t p l c, rtc careless_step pool_start s ∧ p_calls s !! t = Some (p, Held l) ∧
  p_heap s !! l = Some c ∧ getHashIndices (pc_item p) (pc_m p) (pc_k p) ≠ Ret (contents c).
Proof.
  eexists _, 1%nat, (pl_call 1), 0%nat, _. split.
  - next (p_new 0 (pl_call 1)). next (p_resize 0 (pl_call 1) 0). next (p_write 0 (pl_call 1) 0 0). next (p_write 0 (pl_call 1) 0 1).
    next (p_done 0 (pl_call 1) 0 2). next (p_empty 0 (pl_call 1) 0). next (p_put 0 (pl_call 1) 0).
    eapply rtc_l; [apply (c_put_again 0 (pl_call 1) 0); reflexivity|]; cbn -[write_index resize].
    next (p_get 1 (pl_call 1) 0 _ [] [0%nat]). next (p_get 2 (pl_call 2) 0 _ [] []). next (p_resize 1 (pl_call 1) 0). next (p_resize 2 (pl_call 2) 0).
    next (p_write 1 (pl_call 1) 0 0). next (p_write 1 (pl_call 1) 0 1). next (p_done 1 (pl_call 1) 0 2).
    next (p_write 2 (pl_call 2) 0 0). next (p_write 2 (pl_call 2) 0 1). apply rtc_refl.
  - split; [reflexivity|]. split; [reflexivity|]. vm_compute. congruence.
Qed.

(** A provider is not for two goroutines: with the calls of two [Hash] interleaved, both
    answer the hash of the two items one after the other. *)
Theorem shared_provider_mixes :
  (hash_run [HReset; HReset; HWrite [byte_of 1]; HWrite [byte_of 2]; HSum; HSum] NewMurmurHash3Provider).2 = [3; 3] ∧
  (hp_Hash [byte_of 1] NewMurmurHash3Provider).2 = 1 ∧ (hp_Hash [byte_of 2] NewMurmurHash3Provider).2 = 2.
Proof. by vm_compute. Qed.
End witnesses.
