(* ===== verification/Counting.v ===== *)
(** [pkg/bloom/counting.go]: the counting Bloom filter.

    The record [CountingBloomFilter] is the Go struct without its mutex: every
    method holds the mutex from entry to return, so a method is one atomic
    step and its model is a function on the whole state.  A method that can
    panic (a division by [m - 1 = 0], an index out of range) returns in [go];
    [Counting_usable] filters never do. *)

From S2P Require Import Prelude GoBytes Hash.

(** * Definitions *)

Definition MaxFilterSize : Z := 100 * 1024 * 1024.

Inductive bloom_error : Type :=
  | ErrInvalidData
  | ErrCounterOverflow
  | ErrChecksumMismatch.

#[export] Instance bloom_error_eq_dec : EqDecision bloom_error.
Proof. solve_decision. Defined.

(** [err.Error()] *)
Definition bloom_error_text (e : bloom_error) : string :=
  match e with
  | ErrInvalidData => "invalid bloom filter data"
  | ErrCounterOverflow => "counter overflow: maximum value 255 reached"
  | ErrChecksumMismatch => "checksum mismatch: data may be corrupted"
  end.

Record CountingBloomFilter : Type := mkCBF {
  cbf_m : Z;                 (* number of counters *)
  cbf_k : Z;                 (* number of hash functions *)
  cbf_counters : list Z      (* []uint8 *)
}.

#[export] Instance CountingBloomFilter_eq_dec : EqDecision CountingBloomFilter.
Proof. solve_decision. Defined.

Definition with_counters (f : CountingBloomFilter) (cs : list Z) : CountingBloomFilter :=
  mkCBF (cbf_m f) (cbf_k f) cs.

Definition NewCountingBloomFilter (m k : Z) : go CountingBloomFilter :=
  cs ← go_make 0 m;
  Ret (mkCBF m k cs).

(** [for _, idx := range indices { if counters[idx] >= 255 { return
    ErrCounterOverflow }; counters[idx]++ }]: the counters already incremented
    stay incremented when the loop returns the error. *)
Fixpoint add_loop (cs indices : list Z) : go (list Z * option bloom_error) :=
  match indices with
  | [] => Ret (cs, None)
  | idx :: rest =>
      c ← go_index cs idx;
      if decide (255 ≤ c) then Ret (cs, Some ErrCounterOverflow)
      else cs' ← go_store cs idx (u8 (c + 1)); add_loop cs' rest
  end.

(** [for _, idx := range indices { if counters[idx] > 0 { counters[idx]-- } }] *)
Fixpoint remove_loop (cs indices : list Z) : go (list Z) :=
  match indices with
  | [] => Ret cs
  | idx :: rest =>
      c ← go_index cs idx;
      cs' ← (if decide (0 < c) then go_store cs idx (u8 (c - 1)) else Ret cs);
      remove_loop cs' rest
  end.

(** First pass of [BatchAdd]: is some counter at its maximum? *)
Fixpoint overflow_scan (cs indices : list Z) : go bool :=
  match indices with
  | [] => Ret false
  | idx :: rest =>
      c ← go_index cs idx;
      if decide (255 ≤ c) then Ret true else overflow_scan cs rest
  end.

(** Second pass of [BatchAdd]: unguarded [counters[idx]++]. *)
Fixpoint incr_loop (cs indices : list Z) : go (list Z) :=
  match indices with
  | [] => Ret cs
  | idx :: rest =>
      c ← go_index cs idx;
      cs' ← go_store cs idx (u8 (c + 1));
      incr_loop cs' rest
  end.

Fixpoint contains_loop (cs indices : list Z) : go bool :=
  match indices with
  | [] => Ret true
  | idx :: rest =>
      c ← go_index cs idx;
      if decide (c = 0) then Ret false else contains_loop cs rest
  end.

Fixpoint count_loop (cs indices : list Z) (minCount : Z) : go Z :=
  match indices with
  | [] => Ret minCount
  | idx :: rest =>
      c ← go_index cs idx;
      count_loop cs rest (if decide (c < minCount) then c else minCount)
  end.

Section counting.
Context `{Murmur3}.

Definition Add (f : CountingBloomFilter) (item : list byte)
  : go (CountingBloomFilter * option bloom_error) :=
  indices ← getHashIndices item (cbf_m f) (cbf_k f);
  '(cs, err) ← add_loop (cbf_counters f) indices;
  Ret (with_counters f cs, err).

Definition Remove (f : CountingBloomFilter) (item : list byte) : go CountingBloomFilter :=
  indices ← getHashIndices item (cbf_m f) (cbf_k f);
  cs ← remove_loop (cbf_counters f) indices;
  Ret (with_counters f cs).

(** The accumulator of the [BatchAdd] loop. *)
Record batch_acc : Type := mkBatch {
  ba_counters : list Z;
  ba_success : Z;
  ba_failure : Z;
  ba_errors : list string
}.

Fixpoint batch_add_loop (m k : Z) (i : Z) (items : list (list byte)) (a : batch_acc)
  : go batch_acc :=
  match items with
  | [] => Ret a
  | item :: rest =>
      indices ← getHashIndices item m k;
      hasOverflow ← overflow_scan (ba_counters a) indices;
      a' ← (if (hasOverflow : bool) then
              errs ← go_store (ba_errors a) i (bloom_error_text ErrCounterOverflow);
              Ret (mkBatch (ba_counters a) (ba_success a) (i64 (ba_failure a + 1)) errs)
            else
              cs ← incr_loop (ba_counters a) indices;
              errs ← go_store (ba_errors a) i "";
              Ret (mkBatch cs (i64 (ba_success a + 1)) (ba_failure a) errs));
      batch_add_loop m k (i + 1) rest a'
  end.

Definition BatchAdd (f : CountingBloomFilter) (items : list (list byte))
  : go (CountingBloomFilter * (Z * Z * list string)) :=
  errs ← go_make "" (len items);
  a ← batch_add_loop (cbf_m f) (cbf_k f) 0 items (mkBatch (cbf_counters f) 0 0 errs);
  Ret (with_counters f (ba_counters a), (ba_success a, ba_failure a, ba_errors a)).

Fixpoint batch_remove_loop (m k : Z) (items : list (list byte)) (cs : list Z) (removedCount : Z)
  : go (list Z * Z) :=
  match items with
  | [] => Ret (cs, removedCount)
  | item :: rest =>
      indices ← getHashIndices item m k;
      cs' ← remove_loop cs indices;
      batch_remove_loop m k rest cs' (i64 (removedCount + 1))
  end.

Definition BatchRemove (f : CountingBloomFilter) (items : list (list byte))
  : go (CountingBloomFilter * Z) :=
  '(cs, n) ← batch_remove_loop (cbf_m f) (cbf_k f) items (cbf_counters f) 0;
  Ret (with_counters f cs, n).

Definition Contains (f : CountingBloomFilter) (item : list byte) : go bool :=
  indices ← getHashIndices item (cbf_m f) (cbf_k f);
  contains_loop (cbf_counters f) indices.

Fixpoint batch_contains_loop (f : CountingBloomFilter) (i : Z) (items : list (list byte))
    (results : list bool) : go (list bool) :=
  match items with
  | [] => Ret results
  | item :: rest =>
      indices ← getHashIndices item (cbf_m f) (cbf_k f);
      found ← contains_loop (cbf_counters f) indices;
      results' ← go_store results i found;
      batch_contains_loop f (i + 1) rest results'
  end.

Definition BatchContains (f : CountingBloomFilter) (items : list (list byte)) : go (list bool) :=
  results ← go_make false (len items);
  batch_contains_loop f 0 items results.

Definition Count (f : CountingBloomFilter) (item : list byte) : go Z :=
  indices ← getHashIndices item (cbf_m f) (cbf_k f);
  count_loop (cbf_counters f) indices 255.
End counting.

Definition Reset (f : CountingBloomFilter) : CountingBloomFilter :=
  with_counters f ((λ _, 0) <$> cbf_counters f).

Definition Size (f : CountingBloomFilter) : Z := cbf_m f.
Definition HashCount (f : CountingBloomFilter) : Z := cbf_k f.

(** [m(4) | k(4) | counters(m) | crc32(4)], big-endian. *)
Definition Serialize (f : CountingBloomFilter) : list byte :=
  let body := PutUint32 (u32 (cbf_m f)) ++ PutUint32 (u32 (cbf_k f)) ++
              (byte_of <$> cbf_counters f) in
  body ++ PutUint32 (Checksum body).

Definition Deserialize (data : list byte) : result bloom_error CountingBloomFilter :=
  if decide (len data < 12) then Err ErrInvalidData
  else
    let m := Uint32 (slice data 0 4) in
    let k := Uint32 (slice data 4 8) in
    if decide (MaxFilterSize < m) then Err ErrInvalidData
    else if decide (k < 1 ∨ MaxHashFunctions < k) then Err ErrInvalidData
    else
      let expectedLen := 8 + m + 4 in
      if decide (len data ≠ expectedLen) then Err ErrInvalidData
      else
        let dataWithoutChecksum := slice data 0 (expectedLen - 4) in
        let storedChecksum := Uint32 (slice data (expectedLen - 4) expectedLen) in
        if decide (storedChecksum ≠ Checksum dataWithoutChecksum) then Err ErrChecksumMismatch
        else Ok (mkCBF m k (go_copy (replicate (Z.to_nat m) 0) (byte_val <$> slice data 8 (8 + m)))).

(** * Reading the counter array

    [ctr cs i] is the value of counter [i] and [occ i l] how often index [i]
    occurs in [l]; the loops are specified by what they do to every [ctr]. *)

Definition ctr (cs : list Z) (i : Z) : Z := default 0 (cs !! Z.to_nat i).
Definition occ (i : Z) (l : list Z) : Z := len (filter (λ j, j = i) l).
Definition counters_ok (n : Z) (cs : list Z) : Prop :=
  len cs = n ∧ Forall (λ c, 0 ≤ c < 2 ^ 8) cs.

Lemma occ_nil i : occ i [] = 0.
Proof. done. Qed.
Lemma occ_cons i j l : occ i (j :: l) = (if decide (j = i) then 1 else 0) + occ i l.
Proof. unfold occ. rewrite filter_cons. case_decide; lens. Qed.
Lemma occ_nonneg i l : 0 ≤ occ i l.
Proof. apply len_nonneg. Qed.
Lemma occ_pos i l : i ∈ l → 1 ≤ occ i l.
Proof.
  induction l as [|j l IH]; [by intros ?%elem_of_nil|].
  intros [Heq|Hin]%elem_of_cons; rewrite occ_cons; pose proof (occ_nonneg i l).
  - rewrite decide_True by done. lia.
  - apply IH in Hin. case_decide; lia.
Qed.
Lemma occ_not_in i l : i ∉ l → occ i l = 0.
Proof.
  induction l as [|j l IH]; [done|]. intros [? ?]%not_elem_of_cons.
  rewrite occ_cons, IH by done. case_decide; [congruence|lia].
Qed.
Lemma occ_NoDup i l : NoDup l → occ i l ≤ 1.
Proof.
  induction 1 as [|j l Hj _ IH]; [rewrite occ_nil; lia|]. rewrite occ_cons.
  case_decide; [|lia]. subst. rewrite occ_not_in by done. lia.
Qed.

Lemma ctr_range n cs i : counters_ok n cs → 0 ≤ ctr cs i < 2 ^ 8.
Proof.
  intros [_ Hall]. unfold ctr. destruct (cs !! Z.to_nat i) as [c|] eqn:E; simpl; [|lia].
  rewrite Forall_lookup in Hall. by eapply Hall.
Qed.

Lemma ctr_index n cs i :
  counters_ok n cs → 0 ≤ i < n → go_index cs i = Ret (ctr cs i).
Proof.
  intros [Hlen _] Hi. destruct (go_index_in_range cs i) as (c & Hc & ->); [lia|].
  unfold ctr. by rewrite Hc.
Qed.

Lemma counters_ok_insert n cs i v :
  counters_ok n cs → 0 ≤ v < 2 ^ 8 → counters_ok n (<[Z.to_nat i := v]> cs).
Proof.
  intros [Hlen Hall] Hv. split; [unfold len in *; by rewrite length_insert|].
  by apply Forall_insert.
Qed.

Lemma ctr_insert n cs i j v : counters_ok n cs → 0 ≤ i < n → 0 ≤ j →
  ctr (<[Z.to_nat i := v]> cs) j = if decide (i = j) then v else ctr cs j.
Proof.
  intros [Hlen _] Hi Hj. unfold ctr, len in *. case_decide.
  - subst. by rewrite list_lookup_insert_eq by lia.
  - rewrite list_lookup_insert_ne; [done|lia].
Qed.

Lemma ctr_ext n cs cs' :
  counters_ok n cs → counters_ok n cs' → (∀ i, 0 ≤ i < n → ctr cs i = ctr cs' i) → cs = cs'.
Proof.
  intros [Hl _] [Hl' _] Heq. apply list_eq_same_length with (n := length cs);
    [unfold len in *; lia|done|]. intros i x y Hi Hx Hy.
  specialize (Heq (Z.of_nat i)). unfold ctr, len in *. rewrite Nat2Z.id, Hx, Hy in Heq.
  simpl in Heq. apply Heq. lia.
Qed.

Lemma ctr_replicate n i : ctr (replicate n 0) i = 0.
Proof.
  unfold ctr. destruct (replicate n 0 !! Z.to_nat i) as [c|] eqn:E; [|done].
  by apply lookup_replicate in E as [-> _].
Qed.

Lemma counters_ok_replicate n : 0 ≤ n → counters_ok n (replicate (Z.to_nat n) 0).
Proof.
  intros Hn. split; [unfold len; rewrite length_replicate; lia|].
  apply Forall_replicate. lia.
Qed.

#[export] Hint Resolve counters_ok_insert counters_ok_replicate u8_range : dbf.

(** One store of the loops, as a rewrite of every counter. *)
Lemma store_counter n cs i v : counters_ok n cs → 0 ≤ i < n →
  ∃ cs', go_store cs i (u8 v) = Ret cs' ∧ counters_ok n cs' ∧
    ∀ j, 0 ≤ j → ctr cs' j = if decide (i = j) then u8 v else ctr cs j.
Proof.
  intros Hok Hi. exists (<[Z.to_nat i := u8 v]> cs). split_and!.
  - apply go_store_in_range. destruct Hok as [-> _]. lia.
  - auto with dbf.
  - intros j Hj. by eapply ctr_insert.
Qed.

(** What adding and removing the indices [l] of an item does to the counters,
    counted index by index: an addition that meets a full counter has added the
    indices before it and no other. *)
Definition fits (c : Z → Z) (l : list Z) : Prop := ∀ i, 0 ≤ i → c i + occ i l ≤ 255.

Definition added (c : Z → Z) (l : list Z) (c' : Z → Z) (err : option bloom_error) : Prop :=
  match err with
  | None => fits c l ∧ ∀ i, 0 ≤ i → c' i = c i + occ i l
  | Some e => e = ErrCounterOverflow ∧ ∃ l1 j l2, l = l1 ++ j :: l2 ∧ fits c l1 ∧
      c j + occ j l1 = 255 ∧ ∀ i, 0 ≤ i → c' i = c i + occ i l1
  end.

Definition removed (c : Z → Z) (l : list Z) (c' : Z → Z) : Prop :=
  ∀ i, 0 ≤ i → c' i = Z.max 0 (c i - occ i l).

Lemma occ_app i l1 l2 : occ i (l1 ++ l2) = occ i l1 + occ i l2.
Proof. unfold occ. rewrite filter_app. lens. Qed.

Lemma added_bounds c l c' err : added c l c' err → ∀ i, 0 ≤ i → c i ≤ c' i ≤ c i + occ i l.
Proof.
  destruct err as [e|]; [intros (_ & l1 & j & l2 & -> & _ & _ & Hc)|intros [_ Hc]]; intros i Hi; rewrite Hc by done.
  - rewrite occ_app. pose proof (occ_nonneg i l1). pose proof (occ_nonneg i (j :: l2)). lia.
  - pose proof (occ_nonneg i l). lia.
Qed.

(** An addition that fails has an index whose counter would pass 255. *)
Lemma added_overflow c l c' e : added c l c' (Some e) → ∃ i, i ∈ l ∧ 255 < c i + occ i l.
Proof.
  intros (_ & l1 & j & l2 & -> & _ & Hj & _). exists j. split; [apply elem_of_app; right; left|].
  rewrite occ_app, occ_cons, decide_True by done. pose proof (occ_nonneg j l2). lia.
Qed.

Lemma add_loop_spec n cs l : counters_ok n cs → Forall (λ i, 0 ≤ i < n) l →
  ∃ cs' err, add_loop cs l = Ret (cs', err) ∧ counters_ok n cs' ∧ added (ctr cs) l (ctr cs') err.
Proof.
  intros Hok Hl. revert cs Hok. induction Hl as [|i l Hi Hl IH]; intros cs Hok.
  { eexists _, None. split; [done|]. split; [done|]. split; intros j Hj; rewrite occ_nil; [|lia].
    pose proof (ctr_range n cs j Hok). lia. }
  cbn [add_loop]. go_step (ctr_index n cs i Hok Hi). pose proof (ctr_range n cs i Hok) as Hr. case_decide as Hc.
  { eexists _, (Some _). split; [done|]. split; [done|]. split; [done|]. exists [], i, l.
    split_and!; [done| |rewrite occ_nil; lia|intros j Hj; rewrite occ_nil; lia].
    intros j Hj. rewrite occ_nil. pose proof (ctr_range n cs j Hok). lia. }
  destruct (store_counter n cs i (ctr cs i + 1) Hok Hi) as (cs1 & -> & Hok1 & Hctr).
  cbn [mbind go_bind]. destruct (IH cs1 Hok1) as (cs' & err & -> & Hok' & Hadd).
  rewrite u8_small in Hctr by lia. exists cs', err. split; [done|]. split; [done|].
  assert (Hone : ∀ j l', 0 ≤ j → ctr cs1 j + occ j l' = ctr cs j + occ j (i :: l')).
  { intros j l' Hj. rewrite Hctr, occ_cons by done. repeat case_decide; subst; lia. }
  destruct err as [e|]; cbn [added] in *.
  - destruct Hadd as (-> & l1 & j & l2 & -> & Hfit & Hj & Heq). split; [done|]. exists (i :: l1), j, l2.
    assert (0 ≤ j) by (apply Forall_app in Hl as [_ [? _]%Forall_cons]; lia).
    split_and!; [done| |by rewrite <- Hone|]; intros x Hx; rewrite <- Hone by done; [by apply Hfit|by apply Heq].
  - destruct Hadd as [Hfit Heq]. split; intros x Hx; rewrite <- Hone by done; [by apply Hfit|by apply Heq].
Qed.

Lemma remove_loop_spec n cs l : counters_ok n cs → Forall (λ i, 0 ≤ i < n) l →
  ∃ cs', remove_loop cs l = Ret cs' ∧ counters_ok n cs' ∧
    ∀ i, 0 ≤ i → ctr cs' i = Z.max 0 (ctr cs i - occ i l).
Proof.
  intros Hok Hl. revert cs Hok. induction Hl as [|i l Hi Hl IH]; intros cs Hok.
  { exists cs. split_and!; [done..|]. intros j Hj. rewrite occ_nil.
    pose proof (ctr_range n cs j Hok). lia. }
  cbn [remove_loop]. go_step (ctr_index n cs i Hok Hi).
  pose proof (ctr_range n cs i Hok) as Hr.
  assert (∃ cs1, (if decide (0 < ctr cs i) then go_store cs i (u8 (ctr cs i - 1)) else Ret cs)
      = Ret cs1 ∧ counters_ok n cs1 ∧
      ∀ j, 0 ≤ j → ctr cs1 j = if decide (i = j) then Z.max 0 (ctr cs i - 1) else ctr cs j)
    as (cs1 & -> & Hok1 & Hctr).
  { case_decide as Hc.
    - destruct (store_counter n cs i (ctr cs i - 1) Hok Hi) as (cs1 & -> & Hok1 & Hctr).
      rewrite u8_small in Hctr by lia. exists cs1. split_and!; [done..|].
      intros j Hj. rewrite Hctr by done. case_decide; lia.
    - exists cs. split_and!; [done..|]. intros j Hj. case_decide; subst; lia. }
  cbn [mbind go_bind]. destruct (IH cs1 Hok1) as (cs' & -> & Hok' & Hctr').
  exists cs'. split_and!; [done..|]. intros j Hj. pose proof (occ_nonneg j l).
  rewrite Hctr', Hctr, occ_cons by done. repeat case_decide; subst; try lia; done.
Qed.

Lemma incr_loop_spec n cs l : counters_ok n cs → Forall (λ i, 0 ≤ i < n) l →
  ∃ cs', incr_loop cs l = Ret cs' ∧ counters_ok n cs' ∧
    ∀ i, 0 ≤ i → ctr cs' i = u8 (ctr cs i + occ i l).
Proof.
  intros Hok Hl. revert cs Hok. induction Hl as [|i l Hi Hl IH]; intros cs Hok.
  { exists cs. split_and!; [done..|]. intros j Hj. rewrite occ_nil, Z.add_0_r.
    rewrite u8_small; [done|]. by eapply ctr_range. }
  cbn [incr_loop]. go_step (ctr_index n cs i Hok Hi).
  destruct (store_counter n cs i (ctr cs i + 1) Hok Hi) as (cs1 & -> & Hok1 & Hctr).
  cbn [mbind go_bind]. destruct (IH cs1 Hok1) as (cs' & -> & Hok' & Hctr').
  exists cs'. split_and!; [done..|]. intros j Hj. rewrite Hctr', Hctr, occ_cons by done.
  repeat case_decide; subst; try done; unfold u8.
  rewrite Zplus_mod_idemp_l. f_equal. lia.
Qed.

Lemma overflow_scan_spec n cs l : counters_ok n cs → Forall (λ i, 0 ≤ i < n) l →
  overflow_scan cs l = Ret (bool_decide (Exists (λ i, 255 ≤ ctr cs i) l)).
Proof.
  intros Hok. induction 1 as [|i l Hi Hl IH]; [done|].
  cbn [overflow_scan]. go_step (ctr_index n cs i Hok Hi). case_decide as Hc.
  - by rewrite bool_decide_eq_true_2 by by left.
  - rewrite IH. f_equal. apply bool_decide_ext. rewrite Exists_cons. tauto.
Qed.

Lemma contains_loop_spec n cs l : counters_ok n cs → Forall (λ i, 0 ≤ i < n) l →
  contains_loop cs l = Ret (bool_decide (Forall (λ i, ctr cs i ≠ 0) l)).
Proof.
  intros Hok. induction 1 as [|i l Hi Hl IH]; [done|].
  cbn [contains_loop]. go_step (ctr_index n cs i Hok Hi). case_decide as Hc.
  - rewrite bool_decide_eq_false_2; [done|]. intros ?%Forall_cons. tauto.
  - rewrite IH. f_equal. apply bool_decide_ext. rewrite Forall_cons. tauto.
Qed.

(** [Count] is the minimum of the counters an item hashes to, capped at 255. *)
Lemma count_loop_spec n cs l c0 : counters_ok n cs → Forall (λ i, 0 ≤ i < n) l →
  count_loop cs l c0 = Ret (foldl Z.min c0 (ctr cs <$> l)).
Proof.
  intros Hok Hl. revert c0. induction Hl as [|i l Hi Hl IH]; intros c0; [done|].
  cbn [count_loop]. go_step (ctr_index n cs i Hok Hi). rewrite IH. f_equal.
  rewrite fmap_cons. cbn [foldl]. f_equal. case_decide; lia.
Qed.

Lemma foldl_min_le l c0 b : b ≤ foldl Z.min c0 l ↔ b ≤ c0 ∧ Forall (λ c, b ≤ c) l.
Proof.
  revert c0. induction l as [|c l IH]; intros c0; cbn [foldl].
  { rewrite Forall_nil. tauto. }
  rewrite IH, Forall_cons, Z.min_glb_iff. tauto.
Qed.

(** * Well-formed and usable filters *)

(** What the type [[]uint8] and the constructor guarantee. *)
Definition filter_wf (f : CountingBloomFilter) : Prop := counters_ok (cbf_m f) (cbf_counters f).

(** A filter on which no operation panics. *)
Definition usable (f : CountingBloomFilter) : Prop :=
  filter_wf f ∧ params_ok (cbf_m f) (cbf_k f).

Definition same_params (f g : CountingBloomFilter) : Prop :=
  cbf_m g = cbf_m f ∧ cbf_k g = cbf_k f.

Definition fctr (f : CountingBloomFilter) (i : Z) : Z := ctr (cbf_counters f) i.

Section usable.
Context `{Murmur3}.

Definition idx_of (f : CountingBloomFilter) (item : list byte) : list Z :=
  indices_of item (cbf_m f) (cbf_k f).

Lemma idx_of_range f item : usable f → Forall (λ i, 0 ≤ i < cbf_m f) (idx_of f item).
Proof. intros [_ [? _]]. apply indices_of_range. lia. Qed.

Lemma usable_indices f item :
  usable f → getHashIndices item (cbf_m f) (cbf_k f) = Ret (idx_of f item).
Proof. intros [_ ?]. by apply getHashIndices_eq. Qed.

Lemma usable_same_params f cs :
  usable f → counters_ok (cbf_m f) cs → usable (with_counters f cs).
Proof. by intros [_ ?] ?. Qed.

Lemma filter_eq f g :
  filter_wf f → filter_wf g → same_params f g →
  (∀ i, 0 ≤ i < cbf_m f → fctr f i = fctr g i) → f = g.
Proof.
  destruct f as [m k cs], g as [m' k' cs']. unfold filter_wf, same_params, fctr; cbn.
  intros Hf Hg [-> ->] Heq. f_equal. by eapply ctr_ext.
Qed.

(** The counters after [Add], on both branches. *)
Lemma Add_counters f item : usable f →
  ∃ f' err, Add f item = Ret (f', err) ∧ usable f' ∧ same_params f f' ∧ added (fctr f) (idx_of f item) (fctr f') err.
Proof.
  intros Hu. destruct (add_loop_spec (cbf_m f) (cbf_counters f) (idx_of f item))
    as (cs & err & Hloop & Hok & Hadd); [apply Hu|by apply idx_of_range|].
  exists (with_counters f cs), err. unfold Add. go_step (usable_indices f item Hu).
  rewrite Hloop. cbn [mbind go_bind]. split_and!; auto using usable_same_params. done.
Qed.

(** The specification of [Add] on both branches. *)
Lemma Add_spec f item : usable f →
  ∃ f' err, Add f item = Ret (f', err) ∧ usable f' ∧ same_params f f' ∧
    (∀ i, 0 ≤ i → fctr f i ≤ fctr f' i ≤ fctr f i + occ i (idx_of f item)) ∧
    match err with
    | None => ∀ i, 0 ≤ i → fctr f' i = fctr f i + occ i (idx_of f item)
    | Some e => e = ErrCounterOverflow ∧
                ∃ i, i ∈ idx_of f item ∧ 255 < fctr f i + occ i (idx_of f item)
    end.
Proof.
  intros Hu. destruct (Add_counters f item Hu) as (f' & err & Hadd & Hu' & Hs & Hc).
  exists f', err. split_and!; [done..|by eapply added_bounds|]. destruct err as [e|]; [|apply Hc].
  split; [apply Hc|by eapply added_overflow].
Qed.

Lemma Remove_spec f item : usable f →
  ∃ f', Remove f item = Ret f' ∧ usable f' ∧ same_params f f' ∧
    ∀ i, 0 ≤ i → fctr f' i = Z.max 0 (fctr f i - occ i (idx_of f item)).
Proof.
  intros Hu. destruct (remove_loop_spec (cbf_m f) (cbf_counters f) (idx_of f item))
    as (cs & Hloop & Hok & Hctr); [apply Hu|by apply idx_of_range|].
  exists (with_counters f cs). unfold Remove. go_step (usable_indices f item Hu).
  rewrite Hloop. cbn [mbind go_bind]. split_and!; auto using usable_same_params. done.
Qed.

Lemma Contains_spec f item : usable f →
  Contains f item = Ret (bool_decide (Forall (λ i, fctr f i ≠ 0) (idx_of f item))).
Proof.
  intros Hu. unfold Contains. go_step (usable_indices f item Hu).
  eapply contains_loop_spec; [apply Hu|by apply idx_of_range].
Qed.

Lemma Count_spec f item : usable f →
  Count f item = Ret (foldl Z.min 255 (fctr f <$> idx_of f item)).
Proof.
  intros Hu. unfold Count. go_step (usable_indices f item Hu).
  eapply count_loop_spec; [apply Hu|by apply idx_of_range].
Qed.

Lemma New_usable m k : params_ok m k →
  ∃ f, NewCountingBloomFilter m k = Ret f ∧ usable f ∧ cbf_m f = m ∧ cbf_k f = k ∧
    ∀ i, fctr f i = 0.
Proof.
  intros [Hm Hk]. unfold NewCountingBloomFilter, go_make. rewrite decide_True by lia.
  cbn [mbind go_bind]. eexists; split; [done|]. split_and!; try done.
  - split; [|done]. apply counters_ok_replicate. cbn. lia.
  - intros i. apply ctr_replicate.
Qed.
End usable.
