(* ===== verification/CountingSpec.v ===== *)
(** The contract of a counting filter and the proof that
    [pkg/bloom/counting.go] meets it.

    [CountingFilter] is the interface the rest of the system relies on: the
    abstract state is the multiset of items added and not yet removed, and
    [cf_repr] relates an implementation state to it.  [reach] is the labelled
    transition system of an implementation driven by a client that removes
    only items that are present; theorems about it are proved once, against
    the interface.  [Counting_instance] discharges the interface for
    [CountingBloomFilter]; the file [Cache] does so for the cached filter. *)

From S2P Require Import Prelude GoBytes Hash Counting.

Abbreviation items := (gmultiset (list byte)).

(** * The interface *)

Class CountingFilter (F : Type) : Type := {
  cf_add : F → list byte → go (F * option bloom_error);
  cf_remove : F → list byte → go F;
  cf_contains : F → list byte → go (F * bool);
  cf_repr : F → items → Prop;
  cf_add_ok f M x : cf_repr f M → ∃ f' err, cf_add f x = Ret (f', err) ∧
    cf_repr f' (if err is None then M ⊎ {[+ x +]} else M);
  cf_remove_ok f M x : cf_repr f M → x ∈ M → ∃ f', cf_remove f x = Ret f' ∧
    cf_repr f' (M ∖ {[+ x +]});
  cf_contains_ok f M x : cf_repr f M → ∃ f' b, cf_contains f x = Ret (f', b) ∧
    cf_repr f' M ∧ (x ∈ M → b = true)
}.

Inductive op : Type :=
  | OpAdd (x : list byte)
  | OpRemove (x : list byte)
  | OpContains (x : list byte).

Inductive out : Type :=
  | OutErr (e : option bloom_error)
  | OutDone
  | OutBool (b : bool).

Section client.
Context `{CountingFilter F}.

Definition exec (f : F) (o : op) : go (F * out) :=
  match o with
  | OpAdd x => '(f', e) ← cf_add f x; Ret (f', OutErr e)
  | OpRemove x => f' ← cf_remove f x; Ret (f', OutDone)
  | OpContains x => '(f', b) ← cf_contains f x; Ret (f', OutBool b)
  end.

(** A sequence of operations, with their answers. *)
Fixpoint exec_all (f : F) (ops : list op) : go (F * list out) :=
  match ops with
  | [] => Ret (f, [])
  | o :: ops => '(f, r) ← exec f o; '(f, rs) ← exec_all f ops; Ret (f, r :: rs)
  end.

(** The client removes only what is present. *)
Definition allowed (M : items) (o : op) : Prop :=
  match o with OpRemove x => x ∈ M | _ => True end.

(** What the operation and its answer mean for the abstract state. *)
Definition effect (M : items) (o : op) (r : out) : items :=
  match o, r with
  | OpAdd x, OutErr None => M ⊎ {[+ x +]}
  | OpRemove x, _ => M ∖ {[+ x +]}
  | _, _ => M
  end.

Inductive reach (f0 : F) : F → items → Prop :=
  | reach_init : reach f0 f0 ∅
  | reach_step f M o f' r :
      reach f0 f M → allowed M o → exec f o = Ret (f', r) → reach f0 f' (effect M o r).

Lemma exec_ok f M o : cf_repr f M → allowed M o →
  ∃ f' r, exec f o = Ret (f', r) ∧ cf_repr f' (effect M o r).
Proof.
  intros Hr Ha. destruct o as [x|x|x]; cbn in *.
  - destruct (cf_add_ok f M x Hr) as (f' & err & -> & Hr'). cbn.
    eexists _, _. split; [done|]. by destruct err.
  - destruct (cf_remove_ok f M x Hr Ha) as (f' & -> & Hr'). cbn. eauto.
  - destruct (cf_contains_ok f M x Hr) as (f' & b & -> & Hr' & _). cbn. eauto.
Qed.

Lemma reach_repr f0 f M : cf_repr f0 ∅ → reach f0 f M → cf_repr f M.
Proof.
  intros H0. induction 1 as [|f M o f' r _ IH Ha Hexec]; [done|].
  destruct (exec_ok f M o IH Ha) as (f1 & r1 & Hexec1 & Hr1). congruence.
Qed.
End client.

(** * The implementation *)

Section instance.
Context `{Murmur3}.

(** How much the items of [M] contribute to counter [i]. *)
Definition load (m k : Z) (M : items) (i : Z) : Z :=
  zsum (λ x, occ i (indices_of x m k)) (elements M).

Definition counting_repr (f : CountingBloomFilter) (M : items) : Prop :=
  usable f ∧ ∀ i, 0 ≤ i → load (cbf_m f) (cbf_k f) M i ≤ fctr f i.

(** The exact version, which holds as long as no [Add] failed. *)
Definition counting_exact (f : CountingBloomFilter) (M : items) : Prop :=
  usable f ∧ ∀ i, 0 ≤ i → load (cbf_m f) (cbf_k f) M i = fctr f i.

Lemma load_empty m k i : load m k ∅ i = 0.
Proof. unfold load. by rewrite gmultiset_elements_empty. Qed.

Lemma load_disj_union m k M x i :
  load m k (M ⊎ {[+ x +]}) i = load m k M i + occ i (indices_of x m k).
Proof.
  unfold load. rewrite gmultiset_elements_disj_union, gmultiset_elements_singleton, zsum_app.
  rewrite zsum_cons, zsum_nil. lia.
Qed.

Lemma load_nonneg m k M i : 0 ≤ load m k M i.
Proof. apply zsum_nonneg. intros x. apply occ_nonneg. Qed.

Lemma gmultiset_split (M : items) x : x ∈ M → M = (M ∖ {[+ x +]}) ⊎ {[+ x +]}.
Proof. intros Hx. rewrite gmultiset_disj_union_comm. by apply gmultiset_disj_union_difference'. Qed.

Lemma load_difference m k M x i : x ∈ M →
  load m k M i = load m k (M ∖ {[+ x +]}) i + occ i (indices_of x m k).
Proof. intros Hx. rewrite (gmultiset_split M x Hx) at 1. apply load_disj_union. Qed.

(** Each copy of an item in [M] loads each of its own counters. *)
Lemma load_multiplicity m k M x i : i ∈ indices_of x m k →
  Z.of_nat (multiplicity x M) ≤ load m k M i.
Proof.
  intros Hi. induction M as [|y M IH] using gmultiset_ind.
  { rewrite multiplicity_empty, load_empty. lia. }
  rewrite gmultiset_disj_union_comm, load_disj_union, multiplicity_disj_union.
  pose proof (occ_nonneg i (indices_of y m k)).
  rewrite multiplicity_singleton. case_decide as Heq; [|lia].
  subst. pose proof (occ_pos i _ Hi). lia.
Qed.

Lemma idx_of_nonneg f x i : usable f → i ∈ idx_of f x → 0 ≤ i.
Proof.
  intros Hu Hi. pose proof (idx_of_range f x Hu) as Hr. rewrite Forall_forall in Hr.
  by apply Hr in Hi as [? _].
Qed.

Lemma counting_repr_contains f M x :
  counting_repr f M → x ∈ M → Contains f x = Ret true.
Proof.
  intros [Hu Hload] Hx. rewrite Contains_spec by done. f_equal.
  apply bool_decide_eq_true, Forall_forall. intros i Hi.
  specialize (Hload i (idx_of_nonneg f x i Hu Hi)). pose proof (load_multiplicity _ _ M x i Hi).
  rewrite elem_of_multiplicity in Hx. lia.
Qed.

#[export] Program Instance Counting_instance : CountingFilter CountingBloomFilter := {|
  cf_add := Add;
  cf_remove := Remove;
  cf_contains f x := b ← Contains f x; Ret (f, b);
  cf_repr := counting_repr
|}.
Next Obligation.
  intros f M x [Hu Hload]. destruct (Add_spec f x Hu)
    as (f' & err & Hadd & Hu' & [Hm Hk] & Hbd & Herr).
  exists f', err. split; [done|]. split; [done|]. rewrite Hm, Hk. intros i Hi.
  specialize (Hload i Hi). destruct err as [e|].
  - specialize (Hbd i Hi). lia.
  - rewrite load_disj_union, Herr by done. unfold idx_of. lia.
Qed.
Next Obligation.
  intros f M x [Hu Hload] Hx. destruct (Remove_spec f x Hu) as (f' & Hrem & Hu' & [Hm Hk] & Hctr).
  exists f'. split; [done|]. split; [done|]. rewrite Hm, Hk. intros i Hi.
  specialize (Hload i Hi). rewrite (load_difference _ _ M x i Hx) in Hload.
  pose proof (load_nonneg (cbf_m f) (cbf_k f) (M ∖ {[+ x +]}) i).
  rewrite Hctr by done. unfold idx_of. lia.
Qed.
Next Obligation.
  intros f M x Hr. pose proof (Contains_spec f x (proj1 Hr)) as Hc.
  eexists f, _. cbn beta. split_and!; [by go_step Hc|done|].
  intros Hx. pose proof (counting_repr_contains f M x Hr Hx). congruence.
Qed.

Lemma New_repr m k f : params_ok m k → NewCountingBloomFilter m k = Ret f → counting_repr f ∅.
Proof.
  intros Hp Hf. destruct (New_usable m k Hp) as (f' & Hf' & Hu & _ & _ & Hctr).
  rewrite Hf' in Hf. injection Hf as <-. split; [done|]. intros i _. rewrite load_empty, Hctr. lia.
Qed.

Lemma counting_reach_repr m k f0 f M :
  params_ok m k → NewCountingBloomFilter m k = Ret f0 → reach f0 f M → counting_repr f M.
Proof.
  intros Hp Hnew Hreach. change (cf_repr f M). eapply reach_repr; [|done].
  by eapply New_repr.
Qed.
End instance.

(** * Theorems *)

Section theorems.
Context `{Murmur3}.

(** C1: no false negatives.  Whatever sequence of [Add], [Remove] and
    [Contains] a client performs on a fresh filter with at least two counters and up to 2^31 hash functions,
    removing only items that are present: no call panics (every next allowed call
    returns, and leads to the state its answer stands for), and an item that
    has been added successfully more often than removed is always reported present,
    even when some other [Add] failed half-way with a counter overflow. *)
Theorem no_false_negative m k f0 f M :
  params_ok m k → NewCountingBloomFilter m k = Ret f0 → reach f0 f M →
  (∀ o, allowed M o → ∃ f' r, exec f o = Ret (f', r) ∧ reach f0 f' (effect M o r)) ∧
  ∀ x, x ∈ M → Contains f x = Ret true.
Proof.
  intros Hp Hnew Hreach. split; [intros o Ha|intros x Hx; eapply counting_repr_contains; [by eapply counting_reach_repr|done]].
  pose proof (counting_reach_repr m k f0 f M Hp Hnew Hreach) as Hr. change (cf_repr f M) in Hr.
  destruct (exec_ok f M o Hr Ha) as (f' & r & He & _). eauto using reach_step.
Qed.

(** [Count] never underestimates: it is at least the number of copies of
    the item that are present, up to the 8-bit maximum. *)
Theorem Count_lower_bound m k f0 f M x :
  params_ok m k → NewCountingBloomFilter m k = Ret f0 →
  reach f0 f M →
  ∃ c, Count f x = Ret c ∧ Z.min 255 (Z.of_nat (multiplicity x M)) ≤ c ≤ 255.
Proof.
  intros Hp Hnew Hreach.
  destruct (counting_reach_repr m k f0 f M Hp Hnew Hreach) as [Hu Hload]. eexists; split; [by apply Count_spec|]. split.
  - apply foldl_min_le. split; [lia|]. apply Forall_fmap, Forall_forall. intros i Hi. cbn.
    specialize (Hload i (idx_of_nonneg f x i Hu Hi)). pose proof (load_multiplicity _ _ M x i Hi). lia.
  - by apply (foldl_min_le (fctr f <$> idx_of f x) 255 (foldl Z.min 255 _)).
Qed.

(** [Remove] undoes a successful [Add] exactly: every counter returns to
    its value, also for an item whose indices coincide. *)
Theorem Remove_Add_inverse f x f' :
  usable f → Add f x = Ret (f', None) → Remove f' x = Ret f.
Proof.
  intros Hu Hadd. destruct (Add_spec f x Hu) as (f1 & err & Hadd1 & Hu1 & Hs1 & _ & Herr).
  rewrite Hadd in Hadd1. injection Hadd1 as <- <-.
  destruct (Remove_spec f' x Hu1) as (f2 & -> & Hu2 & Hs2 & Hctr). f_equal.
  destruct Hs1 as [Hm Hk], Hs2 as [Hm2 Hk2].
  apply filter_eq; [apply Hu2|apply Hu|split; congruence|]. intros i Hi.
  pose proof (occ_nonneg i (idx_of f x)). pose proof (ctr_range _ _ i (proj1 Hu)).
  rewrite Hctr, Herr by lia. unfold idx_of, fctr in *. rewrite Hm, Hk. lia.
Qed.

(** C28: On a usable filter [Add] completes and reports success exactly when no counter of the item
    would exceed 255, counting repeated indices.  A success raises every counter by
    the number of times the item hashes to it; a failure is [ErrCounterOverflow],
    and has raised the counters of the indices before the first full one, and no
    other. *)
Theorem Add_success_iff f x :
  usable f →
  ∃ f' err, Add f x = Ret (f', err) ∧ usable f' ∧ same_params f f' ∧
    added (fctr f) (idx_of f x) (fctr f') err ∧
    (err = None ↔ Forall (λ i, fctr f i + occ i (idx_of f x) ≤ 255) (idx_of f x)).
Proof.
  intros Hu. destruct (Add_counters f x Hu) as (f' & err & Hadd & Hu' & Hs & Hc).
  exists f', err. split_and!; [done..|]. rewrite Forall_forall. split.
  - intros -> i Hi. apply (proj1 Hc). exact (idx_of_nonneg f x i Hu Hi).
  - intros Hall. destruct err as [e|]; [|done]. apply added_overflow in Hc as (i & Hi & Hlt). apply Hall in Hi. lia.
Qed.
End theorems.

(** * Closed instances *)

Section witnesses.
#[local] Existing Instance byte_sum.

Definition ex_item : list byte := bytes_of_string "user:1".
Definition ex_f0 : CountingBloomFilter := mkCBF 7 3 (replicate 7 0).
Definition ex_f1 : CountingBloomFilter := mkCBF 7 3 [1; 1; 0; 0; 1; 0; 0].

Lemma ex_params : params_ok 7 3.
Proof. unfold params_ok. lia. Qed.
Lemma ex_New : NewCountingBloomFilter 7 3 = Ret ex_f0.
Proof. vm_compute. reflexivity. Qed.
Lemma ex_Add : Add ex_f0 ex_item = Ret (ex_f1, None).
Proof. vm_compute. reflexivity. Qed.
Lemma ex_usable : usable ex_f0.
Proof. split; [|exact ex_params]. split; [done|]. cbn. repeat constructor; lia. Qed.
Lemma ex_reach : reach ex_f0 ex_f1 (∅ ⊎ {[+ ex_item +]}).
Proof.
  eapply (reach_step ex_f0 ex_f0 ∅ (OpAdd ex_item) ex_f1 (OutErr None)); [constructor|done|].
  unfold exec. change (cf_add ex_f0 ex_item) with (Add ex_f0 ex_item). by rewrite ex_Add.
Qed.
Lemma ex_in : ex_item ∈ (∅ ⊎ {[+ ex_item +]} : items).
Proof. multiset_solver. Qed.

Lemma no_false_negative_witness :
  (∀ o, allowed (∅ ⊎ {[+ ex_item +]}) o → ∃ f' r, exec ex_f1 o = Ret (f', r) ∧
    reach ex_f0 f' (effect (∅ ⊎ {[+ ex_item +]}) o r)) ∧
  ∀ x, x ∈ (∅ ⊎ {[+ ex_item +]} : items) → Contains ex_f1 x = Ret true.
Proof. exact (no_false_negative 7 3 _ _ _ ex_params ex_New ex_reach). Defined.

Lemma Count_lower_bound_witness :
  ∃ c, Count ex_f1 ex_item = Ret c ∧
    Z.min 255 (Z.of_nat (multiplicity ex_item (∅ ⊎ {[+ ex_item +]}))) ≤ c ≤ 255.
Proof. exact (Count_lower_bound 7 3 _ _ _ ex_item ex_params ex_New ex_reach). Defined.

Lemma Remove_Add_inverse_witness : Remove ex_f1 ex_item = Ret ex_f0.
Proof. exact (Remove_Add_inverse _ _ _ ex_usable ex_Add). Defined.

Lemma Add_success_iff_witness :
  ∃ f' err, Add ex_f0 ex_item = Ret (f', err) ∧ usable f' ∧ same_params ex_f0 f' ∧
    added (fctr ex_f0) (idx_of ex_f0 ex_item) (fctr f') err ∧
    (err = None ↔ Forall (λ i, fctr ex_f0 i + occ i (idx_of ex_f0 ex_item) ≤ 255) (idx_of ex_f0 ex_item)).
Proof. exact (Add_success_iff ex_f0 ex_item ex_usable). Defined.
End witnesses.
