(* ===== verification/CountingBatch.v ===== *)
(** The batch operations of [pkg/bloom/counting.go] against the single-item
    operations: [BatchContains] and [BatchRemove] are the pointwise ones,
    [BatchAdd] is a sequence of all-or-nothing additions, safe for items whose
    indices are distinct and not in general. *)

From S2P Require Import Prelude GoBytes Hash Counting CountingSpec.

Section batch.
Context `{Murmur3}.

(** ** Reference definitions *)

(** One round of the [BatchAdd] loop, as an operation on the filter. *)
Definition batch_step (f : CountingBloomFilter) (x : list byte)
  : go (CountingBloomFilter * option bloom_error) :=
  indices ← getHashIndices x (cbf_m f) (cbf_k f);
  hasOverflow ← overflow_scan (cbf_counters f) indices;
  if (hasOverflow : bool) then Ret (f, Some ErrCounterOverflow)
  else cs ← incr_loop (cbf_counters f) indices; Ret (with_counters f cs, None).

Fixpoint batch_fold (f : CountingBloomFilter) (xs : list (list byte))
  : go (CountingBloomFilter * list (option bloom_error)) :=
  match xs with
  | [] => Ret (f, [])
  | x :: xs' =>
      '(f1, e) ← batch_step f x;
      '(f2, es) ← batch_fold f1 xs';
      Ret (f2, e :: es)
  end.

(** What the batch does to the counters, item by item: an item none of whose counters
    is full counts each of its indices, in 8 bits; another one counts nothing. *)
Fixpoint batch_counts (c : Z → Z) (ls : list (list Z)) : (Z → Z) * list (option bloom_error) :=
  match ls with
  | [] => (c, [])
  | l :: ls' =>
      if decide (Forall (λ i, c i < 255) l)
      then let '(c', es) := batch_counts (λ i, (c i + occ i l) mod 256) ls' in (c', None :: es)
      else let '(c', es) := batch_counts c ls' in (c', Some ErrCounterOverflow :: es)
  end.

(** [Add] on each item in turn, undone when it fails. *)
Fixpoint add_each (f : CountingBloomFilter) (xs : list (list byte))
  : go (CountingBloomFilter * list (option bloom_error)) :=
  match xs with
  | [] => Ret (f, [])
  | x :: xs' =>
      '(f1, e) ← Add f x;
      '(f2, es) ← add_each (if e is None then f1 else f) xs';
      Ret (f2, e :: es)
  end.

Definition error_text (e : option bloom_error) : string :=
  match e with Some e => bloom_error_text e | None => "" end.

Definition n_ok (es : list (option bloom_error)) : Z := len (filter (λ e, e = None) es).
Definition n_err (es : list (option bloom_error)) : Z := len (filter (λ e, e ≠ None) es).

(** The items of a batch that were accepted. *)
Fixpoint accepted (xs : list (list byte)) (es : list (option bloom_error)) : items :=
  match xs, es with
  | x :: xs', None :: es' => {[+ x +]} ⊎ accepted xs' es'
  | _ :: xs', Some _ :: es' => accepted xs' es'
  | _, _ => ∅
  end.

Fixpoint remove_all (f : CountingBloomFilter) (xs : list (list byte)) : go CountingBloomFilter :=
  match xs with
  | [] => Ret f
  | x :: xs' => f' ← Remove f x; remove_all f' xs'
  end.

(** ** Lemmas *)

Lemma n_ok_err es : n_ok es + n_err es = len es.
Proof.
  induction es as [|[e|] es IH]; [done|..]; unfold n_ok, n_err in *;
    rewrite !filter_cons; repeat case_decide; try done; lens.
Qed.

Lemma n_cons e es :
  n_ok (e :: es) = (if e is None then 1 else 0) + n_ok es ∧
  n_err (e :: es) = (if e is None then 0 else 1) + n_err es.
Proof.
  unfold n_ok, n_err. rewrite !filter_cons. destruct e; repeat case_decide; try done; lens.
Qed.

Lemma batch_step_spec f x : usable f →
  ∃ f' e, batch_step f x = Ret (f', e) ∧ usable f' ∧ same_params f f' ∧
    match e with
    | Some e => e = ErrCounterOverflow ∧ f' = f ∧ Exists (λ i, 255 ≤ fctr f i) (idx_of f x)
    | None => Forall (λ i, fctr f i < 255) (idx_of f x) ∧
              ∀ i, 0 ≤ i → fctr f' i = u8 (fctr f i + occ i (idx_of f x))
    end.
Proof.
  intros Hu. unfold batch_step. go_step (usable_indices f x Hu).
  go_step (overflow_scan_spec _ _ _ (proj1 Hu) (idx_of_range f x Hu)).
  case_bool_decide as Hov.
  - eexists f, (Some _). by split_and!.
  - destruct (incr_loop_spec _ _ _ (proj1 Hu) (idx_of_range f x Hu)) as (cs & -> & Hok & Hctr).
    eexists _, None. split_and!; [done|by apply usable_same_params|done| |done].
    rewrite <- Forall_Exists_neg in Hov. eapply Forall_impl; [exact Hov|]. cbn. intros i ?.
    unfold fctr. lia.
Qed.

Lemma batch_fold_ok f xs : usable f →
  ∃ f' es, batch_fold f xs = Ret (f', es) ∧ length es = length xs ∧
    usable f' ∧ same_params f f'.
Proof.
  revert f. induction xs as [|x xs IH]; intros f Hu; [by eexists f, []|].
  destruct (batch_step_spec f x Hu) as (f1 & e & Hs & Hu1 & [Hm Hk] & _).
  destruct (IH f1 Hu1) as (f2 & es & Hf & Hlen & Hu2 & [Hm2 Hk2]).
  exists f2, (e :: es). cbn [batch_fold]. rewrite Hs. cbn. rewrite Hf. cbn.
  split_and!; [done|lia|done|split; congruence].
Qed.

(** The loop and the reference agree, for any accumulator. *)
Lemma batch_add_loop_fold f xs f' es pre n0 e0 :
  batch_fold f xs = Ret (f', es) → same_params f f' →
  0 ≤ n0 → 0 ≤ e0 → n0 + e0 = len pre → len pre + len xs < 2 ^ 63 →
  batch_add_loop (cbf_m f) (cbf_k f) (len pre) xs
    (mkBatch (cbf_counters f) n0 e0 (pre ++ replicate (length xs) "")) =
  Ret (mkBatch (cbf_counters f') (n0 + n_ok es) (e0 + n_err es) (pre ++ (error_text <$> es))).
Proof.
  revert f es pre n0 e0. induction xs as [|x xs IH]; intros f es pre n0 e0 Hf Hp Hn He Hsum Hlt.
  { cbn in Hf. simplify_eq. cbn. by rewrite !Z.add_0_r. }
  cbn [batch_fold] in Hf. apply go_bind_Ret in Hf as ([f1 e] & Hs & Hf).
  apply go_bind_Ret in Hf as ([f2 es'] & Hf & [= -> <-]).
  cbn [batch_add_loop ba_counters ba_success ba_failure ba_errors].
  unfold batch_step in Hs. apply go_bind_Ret in Hs as (idx & -> & Hs).
  apply go_bind_Ret in Hs as (ov & Hov & Hs).
  cbn [mbind go_bind]. rewrite Hov. cbn [mbind go_bind].
  rewrite len_cons in Hlt. pose proof (len_nonneg xs).
  assert (Hstore : ∀ t, go_store (pre ++ replicate (length (x :: xs)) "") (len pre) t =
    Ret ((pre ++ [t]) ++ replicate (length xs) "")).
  { intros t. apply go_store_at_len. }
  replace (len pre + 1) with (len (pre ++ [error_text e])) by lens.
  destruct (n_cons e es') as [-> ->].
  replace (pre ++ (error_text <$> e :: es')) with ((pre ++ [error_text e]) ++ (error_text <$> es'))
    by (by rewrite <- (assoc_L (++))).
  destruct ov.
  - injection Hs as <- <-. rewrite Hstore. cbn [mbind go_bind].
    rewrite i64_small by lia. cbn [error_text].
    rewrite (IH f es' (pre ++ [bloom_error_text ErrCounterOverflow]) n0 (e0 + 1)); [|done|done|lia|lia|lens|lens].
    do 2 f_equal; lia.
  - apply go_bind_Ret in Hs as (cs & Hcs & [= <- <-]). rewrite Hcs. cbn [mbind go_bind].
    rewrite Hstore. cbn [mbind go_bind]. rewrite i64_small by lia.
    pose proof (IH (with_counters f cs) es' (pre ++ [""]) (n0 + 1) e0) as IH'.
    cbn [with_counters cbf_m cbf_k cbf_counters] in IH'. cbn [error_text].
    rewrite IH'; [|done|done|lia|lia|lens|lens].
    do 2 f_equal; lia.
Qed.

(** For distinct indices a round of [BatchAdd] is an all-or-nothing [Add]. *)
Lemma batch_step_Add f x f' : usable f → NoDup (idx_of f x) →
  batch_step f x = Ret (f', None) → Add f x = Ret (f', None).
Proof.
  intros Hu Hnd Hs. destruct (batch_step_spec f x Hu) as (f1 & e & Hs1 & Hu1 & Hp1 & He).
  rewrite Hs in Hs1. injection Hs1 as <- <-. destruct He as [Hall Hctr].
  assert (Hle : Forall (λ i, fctr f i + occ i (idx_of f x) ≤ 255) (idx_of f x)).
  { eapply Forall_impl; [exact Hall|]. cbn. intros i ?.
    pose proof (occ_NoDup i _ Hnd). lia. }
  destruct (Add_spec f x Hu) as (f2 & err & Hadd & Hu2 & Hp2 & _ & Herr).
  destruct err as [e|].
  { destruct Herr as (_ & i & Hi & Hlt). rewrite Forall_forall in Hle. apply Hle in Hi. lia. }
  rewrite Hadd. do 2 f_equal. destruct Hp1, Hp2.
  apply filter_eq; [apply Hu2|apply Hu1|split; congruence|]. intros i Hi.
  rewrite Herr, Hctr by lia. symmetry. apply u8_small.
  pose proof (ctr_range _ _ i (proj1 Hu)). pose proof (occ_nonneg i (idx_of f x)).
  destruct (decide (i ∈ idx_of f x)) as [Hin|Hin].
  - rewrite Forall_forall in Hle. apply Hle in Hin. unfold fctr in *. lia.
  - rewrite (occ_not_in i _ Hin). unfold fctr. lia.
Qed.

Lemma batch_fold_repr f xs M : counting_repr f M →
  Forall (λ x, NoDup (idx_of f x)) xs →
  ∃ f' es, batch_fold f xs = Ret (f', es) ∧ counting_repr f' (M ⊎ accepted xs es).
Proof.
  intros Hr Hnd. revert f M Hr Hnd. induction xs as [|x xs IH]; intros f M Hr Hnd.
  { eexists f, []. split; [done|]. by rewrite gmultiset_disj_union_right_id. }
  apply Forall_cons in Hnd as [Hx Hnd]. pose proof (proj1 Hr) as Hu.
  destruct (batch_step_spec f x Hu) as (f1 & e & Hs & Hu1 & [Hm Hk] & He).
  assert (Hr1 : counting_repr f1 (if e is None then M ⊎ {[+ x +]} else M)).
  { destruct e as [e|]; [by destruct He as (_ & -> & _)|].
    apply batch_step_Add in Hs; [|done..]. change (cf_repr f M) in Hr.
    destruct (cf_add_ok f M x Hr) as (f2 & err & Hadd & Hr2). cbn in Hadd. rewrite Hs in Hadd.
    by injection Hadd as <- <-. }
  destruct (IH f1 _ Hr1) as (f2 & es & Hf & Hr2).
  { unfold idx_of in *. by rewrite Hm, Hk. }
  exists f2, (e :: es). cbn [batch_fold]. go_step Hs. go_step Hf.
  split; [done|]. destruct e; cbn [accepted]; [done|].
  by rewrite gmultiset_disj_union_assoc.
Qed.

Lemma BatchAdd_fold f xs f' es : usable f → len xs < 2 ^ 63 → batch_fold f xs = Ret (f', es) →
  BatchAdd f xs = Ret (f', (n_ok es, n_err es, error_text <$> es)).
Proof.
  intros Hu Hlt Hf. destruct (batch_fold_ok f xs Hu) as (f1 & es1 & Hf1 & _ & _ & Hp).
  rewrite Hf in Hf1. injection Hf1 as <- <-.
  unfold BatchAdd, go_make. rewrite decide_True by apply len_nonneg. cbn [mbind go_bind].
  unfold len at 1. rewrite Nat2Z.id.
  pose proof (batch_add_loop_fold f xs f' es [] 0 0 Hf Hp) as Hloop.
  cbn [app] in Hloop. change (len []) with 0 in Hloop. rewrite Hloop by lia. cbn.
  destruct f, f', Hp; cbn in *; by subst.
Qed.

Lemma batch_contains_loop_mapM f xs pre :
  batch_contains_loop f (len pre) xs (pre ++ replicate (length xs) false) =
  (bs ← mapM (Contains f) xs; Ret (pre ++ bs)).
Proof.
  revert pre. induction xs as [|x xs IH]; intros pre; [done|].
  cbn [batch_contains_loop mapM]. unfold Contains at 2.
  destruct (getHashIndices x (cbf_m f) (cbf_k f)) as [idx|p]; [|done]. cbn [mbind go_bind].
  destruct (contains_loop (cbf_counters f) idx) as [b|p]; [|done]. cbn [mbind go_bind].
  cbn [length replicate]. go_step (go_store_at_len pre false (replicate (length xs) false) b).
  replace (len pre + 1) with (len (pre ++ [b])) by lens.
  rewrite IH. destruct (mapM (Contains f) xs); [|done].
  cbn. by rewrite <- (assoc_L (++)).
Qed.

Lemma batch_remove_loop_all f xs n : 0 ≤ n → n + len xs < 2 ^ 63 →
  batch_remove_loop (cbf_m f) (cbf_k f) xs (cbf_counters f) n =
  (f' ← remove_all f xs; Ret (cbf_counters f', n + len xs)).
Proof.
  revert f n. induction xs as [|x xs IH]; intros f n Hn Hlt; [cbn; by rewrite Z.add_0_r|].
  rewrite len_cons in *. pose proof (len_nonneg xs).
  cbn [batch_remove_loop remove_all]. unfold Remove.
  destruct (getHashIndices x (cbf_m f) (cbf_k f)) as [idx|p]; [|done]. cbn [mbind go_bind].
  destruct (remove_loop (cbf_counters f) idx) as [cs|p]; [|done]. cbn [mbind go_bind].
  rewrite i64_small by lia. specialize (IH (with_counters f cs) (n + 1)).
  cbn [with_counters cbf_m cbf_k cbf_counters] in IH. rewrite IH by lia.
  by rewrite <- Z.add_assoc.
Qed.

Lemma remove_all_params f xs f' : remove_all f xs = Ret f' → same_params f f'.
Proof.
  revert f. induction xs as [|x xs IH]; intros f Hf; cbn in Hf; go_inv; [by subst|].
  apply IH in Hf as [Hm Hk]. unfold Remove in Hf0. go_inv. subst. done.
Qed.

(** ** Theorems *)

Lemma batch_counts_ext ls c c' : Forall (Forall (λ i, 0 ≤ i)) ls → (∀ i, 0 ≤ i → c i = c' i) →
  (∀ i, 0 ≤ i → (batch_counts c ls).1 i = (batch_counts c' ls).1 i) ∧ (batch_counts c ls).2 = (batch_counts c' ls).2.
Proof.
  intros Hls. revert c c'. induction Hls as [|l ls Hl _ IH]; intros c c' Heq; [done|]. cbn [batch_counts].
  assert (Forall (λ i, c i < 255) l ↔ Forall (λ i, c' i < 255) l) as Hiff.
  { rewrite !Forall_forall. rewrite Forall_forall in Hl. split; intros Hall i Hi; [rewrite <- Heq|rewrite Heq]; auto. }
  destruct (decide (Forall (λ i, c i < 255) l)) as [Hd|Hd]; [rewrite (decide_True (P:=Forall (λ i, c' i < 255) l)) by tauto|
    rewrite (decide_False (P:=Forall (λ i, c' i < 255) l)) by tauto].
  - destruct (IH (λ i, (c i + occ i l) mod 256) (λ i, (c' i + occ i l) mod 256)) as [H1 H2]; [intros i Hi; by rewrite Heq|].
    destruct (batch_counts (λ i, (c i + _) mod 256) ls), (batch_counts (λ i, (c' i + _) mod 256) ls). cbn in *. by subst.
  - destruct (IH c c' Heq) as [H1 H2]. destruct (batch_counts c ls), (batch_counts c' ls). cbn in *. by subst.
Qed.

Lemma batch_fold_counts f xs : usable f →
  ∃ f' es, batch_fold f xs = Ret (f', es) ∧ usable f' ∧
    (∀ i, 0 ≤ i → fctr f' i = (batch_counts (fctr f) (idx_of f <$> xs)).1 i) ∧
    es = (batch_counts (fctr f) (idx_of f <$> xs)).2.
Proof.
  revert f. induction xs as [|x xs IH]; intros f Hu; [by eexists f, []|].
  destruct (batch_step_spec f x Hu) as (f1 & e & Hs & Hu1 & Hp & He).
  destruct (IH f1 Hu1) as (f2 & es & Hf & Hu2 & Hc & Hes). cbn [batch_fold fmap list_fmap batch_counts].
  rewrite Hs. cbn [mbind go_bind]. rewrite Hf. cbn [mbind go_bind]. eexists _, _. split; [done|]. split; [done|].
  assert (idx_of f1 <$> xs = idx_of f <$> xs) as Hidx.
  { apply list_fmap_ext. intros i y _. unfold idx_of. by destruct Hp as [-> ->]. }
  rewrite Hidx in Hc, Hes. destruct e as [e|].
  - destruct He as (-> & -> & Hex). rewrite decide_False.
    { change (list_fmap _ _ _ xs) with (idx_of f <$> xs). destruct (batch_counts (fctr f) (idx_of f <$> xs)). cbn in *. by subst. }
    intros Hall. apply Exists_exists in Hex as (i & Hi & Hle). rewrite Forall_forall in Hall. specialize (Hall i Hi). cbn in *. lia.
  - destruct He as [Hall Hctr]. rewrite decide_True by done. change (list_fmap _ _ _ xs) with (idx_of f <$> xs).
    destruct (batch_counts_ext (idx_of f <$> xs) (fctr f1) (λ i, (fctr f i + occ i (idx_of f x)) mod 256)) as [H1 H2]; [|exact Hctr|].
    { apply Forall_fmap, Forall_forall. intros y _. cbn. apply Forall_forall. intros i Hi. exact (idx_of_nonneg f y i Hu Hi). }
    destruct (batch_counts (λ i, (fctr f i + _) mod 256) _) as [c3 es3]. cbn [fst snd] in *. split; [|congruence].
    intros i Hi. rewrite Hc by done. by apply H1.
Qed.

(** For distinct indices the batch is [add_each]. *)
Lemma batch_step_full f x f' e : usable f → NoDup (idx_of f x) → batch_step f x = Ret (f', e) →
  ∃ f1, Add f x = Ret (f1, e) ∧ f' = if e is None then f1 else f.
Proof.
  intros Hu Hnd Hs. destruct e as [e|]; [|exists f'; split; [by apply batch_step_Add|done]].
  destruct (batch_step_spec f x Hu) as (f2 & e2 & Hs2 & _ & _ & He). rewrite Hs in Hs2. injection Hs2 as <- <-.
  destruct He as (-> & -> & Hex). destruct (Add_counters f x Hu) as (f1 & err & Hadd & Hu1 & Hs1 & Hc). exists f1.
  destruct err as [err|]; [by destruct Hc as [-> _]|]. destruct Hc as [Hfit _].
  apply Exists_exists in Hex as (i & Hi & Hle). cbn in Hle. specialize (Hfit i (idx_of_nonneg f x i Hu Hi)).
  pose proof (occ_pos i _ Hi). lia.
Qed.

Lemma batch_fold_add_each f xs : usable f → Forall (λ x, NoDup (idx_of f x)) xs → batch_fold f xs = add_each f xs.
Proof.
  revert f. induction xs as [|x xs IH]; intros f Hu Hnd; [done|]. apply Forall_cons in Hnd as [Hx Hnd].
  destruct (batch_step_spec f x Hu) as (f1 & e & Hs & Hu1 & Hp & _).
  destruct (batch_step_full f x f1 e Hu Hx Hs) as (f2 & Hadd & Hf1). cbn [batch_fold add_each]. rewrite Hs, Hadd. cbn [mbind go_bind].
  rewrite <- Hf1, IH; [done|done|]. unfold idx_of in *. by destruct Hp as [-> ->].
Qed.

(** C29: What a batch of additions does on a usable filter.  Every item is tried in order against the
    counters the previous items left: when none of its counters is at 255 each is
    raised by the number of times the item hashes to it, in 8 bits, otherwise the item
    is refused and no counter changes.  [errors] has one text per item, and the two
    counts are those of the accepted and refused items.  When the indices of each item
    are distinct this is calling [Add] on the items one after the other, undoing the
    calls that fail. *)
Theorem BatchAdd_sequential f xs : usable f → len xs < 2 ^ 63 →
  let '(c, es) := batch_counts (fctr f) (idx_of f <$> xs) in
  ∃ f', BatchAdd f xs = Ret (f', (n_ok es, n_err es, error_text <$> es)) ∧ usable f' ∧
    (∀ i, 0 ≤ i → fctr f' i = c i) ∧ n_ok es + n_err es = len xs ∧
    (Forall (λ x, NoDup (idx_of f x)) xs → add_each f xs = Ret (f', es)).
Proof.
  intros Hu Hlt. destruct (batch_fold_counts f xs Hu) as (f' & es' & Hf & Hu' & Hc & Hes).
  destruct (batch_fold_ok f xs Hu) as (f1 & es1 & Hf1 & Hlen & _). rewrite Hf in Hf1. injection Hf1 as <- <-.
  destruct (batch_counts _ _) as [c es]. cbn [fst snd] in *. subst es'. exists f'. split_and!; [by apply BatchAdd_fold|done..| |].
  - rewrite n_ok_err. unfold len. by rewrite Hlen.
  - intros Hnd. by rewrite <- batch_fold_add_each.
Qed.

(** When the items of a batch each have distinct indices, the batch
    refines the counting-filter contract: the filter afterwards represents
    the old items and the accepted ones, and each of them is reported
    present. *)
Theorem BatchAdd_no_false_negative f M xs : counting_repr f M → len xs < 2 ^ 63 →
  Forall (λ x, NoDup (idx_of f x)) xs →
  ∃ f' es, BatchAdd f xs = Ret (f', (n_ok es, n_err es, error_text <$> es)) ∧
    counting_repr f' (M ⊎ accepted xs es) ∧
    ∀ x, x ∈ M ⊎ accepted xs es → Contains f' x = Ret true.
Proof.
  intros Hr Hlt Hnd. destruct (batch_fold_repr f xs M Hr Hnd) as (f' & es & Hf & Hr').
  exists f', es. split_and!; [apply BatchAdd_fold; [apply Hr|done..]|done|].
  intros x Hx. by eapply counting_repr_contains.
Qed.

(** [BatchContains] answers exactly what calling [Contains] on each item
    would, for every filter, panics included. *)
Theorem BatchContains_pointwise f xs : BatchContains f xs = mapM (Contains f) xs.
Proof.
  unfold BatchContains, go_make. rewrite decide_True by apply len_nonneg. cbn [mbind go_bind].
  unfold len. rewrite Nat2Z.id. pose proof (batch_contains_loop_mapM f xs []) as Hl.
  cbn [app] in Hl. change (len []) with 0 in Hl. rewrite Hl. by destruct (mapM _ _).
Qed.

(** [BatchRemove] is [Remove] on each item in order, and reports as
    removed the number of items it was given, whether or not they were
    present. *)
Theorem BatchRemove_sequential f xs : len xs < 2 ^ 63 →
  BatchRemove f xs = (f' ← remove_all f xs; Ret (f', len xs)).
Proof.
  intros Hlt. unfold BatchRemove. rewrite batch_remove_loop_all by lia.
  destruct (remove_all f xs) as [f'|p] eqn:Hf; [|done]. cbn.
  apply remove_all_params in Hf as [Hm Hk]. by destruct f, f'; cbn in *; subst.
Qed.
End batch.

(** ** Lost counts *)

Fixpoint n_batches `{Murmur3} (n : nat) (x : list byte) (f : CountingBloomFilter)
  : go (CountingBloomFilter * list (Z * Z)) :=
  match n with
  | O => Ret (f, [])
  | S n' =>
      '(f1, (s, e, _)) ← BatchAdd f [x];
      '(f2, l) ← n_batches n' x f1;
      Ret (f2, (s, e) :: l)
  end.

(** Without distinct indices the two-pass check of [BatchAdd] is not
      enough: an item whose indices are 1, 3, 1 passes the check with counter
      1 at 254 and wraps it to 0, so after 128 batches that were all reported
      successful the item is reported absent. *)
Theorem BatchAdd_wraps_around (x : list byte) :
  let _ := constant_hash 1 in
  ∃ f0 f, NewCountingBloomFilter 4 3 = Ret f0 ∧ idx_of f0 x = [1; 3; 1] ∧
    n_batches 128 x f0 = Ret (f, replicate 128 (1, 0)) ∧ Contains f x = Ret false.
Proof.
  eexists _, _. split_and!; [vm_compute; reflexivity..|].
  vm_compute. reflexivity.
Qed.

Section witnesses.
#[local] Existing Instance byte_sum.

Definition ex_batch : list (list byte) := [ex_item; bytes_of_string "user:2"].

Lemma ex_repr : counting_repr ex_f0 ∅.
Proof. exact (New_repr 7 3 ex_f0 ex_params ex_New). Qed.

Lemma BatchAdd_sequential_witness :
  ∃ f', BatchAdd ex_f0 ex_batch = Ret (f', (2, 0, [""%string; ""%string])) ∧ usable f' ∧
    (∀ i, 0 ≤ i → fctr f' i = (batch_counts (fctr ex_f0) (idx_of ex_f0 <$> ex_batch)).1 i) ∧ 2 + 0 = len ex_batch ∧
    (Forall (λ x, NoDup (idx_of ex_f0 x)) ex_batch → add_each ex_f0 ex_batch = Ret (f', [None; None])).
Proof. exact (BatchAdd_sequential ex_f0 ex_batch ex_usable eq_refl). Defined.

Lemma BatchAdd_no_false_negative_witness :
  ∃ f' es, BatchAdd ex_f0 ex_batch = Ret (f', (n_ok es, n_err es, error_text <$> es)) ∧
    counting_repr f' (∅ ⊎ accepted ex_batch es) ∧
    ∀ x, x ∈ (∅ ⊎ accepted ex_batch es : items) → Contains f' x = Ret true.
Proof.
  apply (BatchAdd_no_false_negative ex_f0 ∅ ex_batch ex_repr eq_refl).
  apply (bool_decide_unpack _). vm_compute. done.
Defined.

Lemma BatchRemove_sequential_witness :
  BatchRemove ex_f1 ex_batch = (f' ← remove_all ex_f1 ex_batch; Ret (f', len ex_batch)).
Proof. exact (BatchRemove_sequential ex_f1 ex_batch eq_refl). Defined.
End witnesses.
