(* ===== verification/CountingCodec.v ===== *)
(** The on-disk form of the counting filter: [Serialize] and [Deserialize] of
    [pkg/bloom/counting.go] are inverse to each other on exactly the sizes
    [Deserialize] accepts, and the checksum catches every change of one byte. *)

From S2P Require Import Prelude GoBytes Hash Counting CountingSpec.

(** What [Deserialize] accepts of the two header fields. *)
Definition codec_params (m k : Z) : Prop := 0 ≤ m ≤ MaxFilterSize ∧ 1 ≤ k ≤ MaxHashFunctions.

(** A byte string followed by its CRC. *)
Definition sealed (body : list byte) : list byte := body ++ PutUint32 (Checksum body).

Definition body_of (f : CountingBloomFilter) : list byte :=
  PutUint32 (u32 (cbf_m f)) ++ PutUint32 (u32 (cbf_k f)) ++ (byte_of <$> cbf_counters f).

(** * Lemmas *)

Lemma Serialize_sealed f : Serialize f = sealed (body_of f).
Proof. done. Qed.

Lemma length_body f : length (body_of f) = (8 + length (cbf_counters f))%nat.
Proof. unfold body_of. rewrite !length_app, !length_PutUint32, length_fmap. lia. Qed.

Lemma length_sealed b : length (sealed b) = (length b + 4)%nat.
Proof. unfold sealed. by rewrite length_app, length_PutUint32. Qed.

Lemma sealed_inj_length b1 b2 : sealed b1 = sealed b2 → b1 = b2.
Proof.
  intros Heq. assert (length b1 = length b2).
  { apply (f_equal length) in Heq. rewrite !length_sealed in Heq. lia. }
  by apply app_inj_1 in Heq as [? _].
Qed.

Lemma PutUint32_inj v w : 0 ≤ v < 2 ^ 32 → 0 ≤ w < 2 ^ 32 → PutUint32 v = PutUint32 w → v = w.
Proof.
  intros Hv Hw Heq. rewrite <- (u32_small v Hv), <- (u32_small w Hw).
  by rewrite <- (Uint32_PutUint32 v []), Heq, Uint32_PutUint32.
Qed.

(** Two sealed strings never differ in exactly one byte. *)
Lemma sealed_single_byte b1 b2 pre x y post :
  sealed b1 = pre ++ x :: post → sealed b2 = pre ++ y :: post → x = y.
Proof.
  intros H1 H2. unfold sealed in *.
  assert (Hlen : length b1 = length b2).
  { apply (f_equal length) in H1, H2. rewrite !length_app, !length_PutUint32 in *.
    cbn in *. lia. }
  destruct (decide (length b1 ≤ length pre)%nat) as [Hle|Hlt].
  - (* the change is in the checksum *)
    assert (∃ p, pre = b1 ++ p) as [p ->].
    { apply app_eq_inv in H1 as [(p & -> & _)|(p & -> & _)]; [|by exists p].
      rewrite length_app in Hle. destruct p; [|cbn in Hle; lia]. exists []. by rewrite !app_nil_r. }
    rewrite <- (assoc_L (++)) in H1, H2.
    apply app_inv_head in H1. apply app_inj_1 in H2 as [<- H2]; [|done].
    rewrite H1 in H2. by apply app_inv_head in H2 as [= ->].
  - (* the change is in the body *)
    apply app_eq_inv in H1 as [(p & Hb1 & Hc1)|(p & -> & _)]; [|rewrite length_app in Hlt; lia].
    apply app_eq_inv in H2 as [(q & Hb2 & Hc2)|(q & -> & _)]; [|rewrite length_app in *; lia].
    destruct p as [|x' p]; [subst b1; rewrite app_nil_r in Hlt; lia|].
    destruct q as [|y' q]; [subst b2; rewrite app_nil_r in Hlen; lia|].
    injection Hc1 as <- Hc1. injection Hc2 as <- Hc2.
    assert (p = q ∧ PutUint32 (Checksum b1) = PutUint32 (Checksum b2)) as [<- Hcrc].
    { rewrite Hc1 in Hc2. apply app_inj_2 in Hc2 as [??]; [done|]. by rewrite !length_PutUint32. }
    apply PutUint32_inj in Hcrc; [|apply Checksum_range..]. subst b1 b2.
    by apply Checksum_single_byte in Hcrc.
Qed.

Lemma byte_of_val_list (l : list byte) : byte_of <$> (byte_val <$> l) = l.
Proof.
  rewrite <- list_fmap_compose. rewrite <- (list_fmap_id l) at 2.
  apply list_fmap_ext. intros ???. apply byte_of_val.
Qed.

Lemma byte_val_of_list (l : list Z) :
  Forall (λ c, 0 ≤ c < 2 ^ 8) l → byte_val <$> (byte_of <$> l) = l.
Proof.
  intros Hl. rewrite <- list_fmap_compose. rewrite <- (list_fmap_id l) at 2.
  apply list_fmap_ext. intros i c Hc. cbn. rewrite Forall_lookup in Hl.
  rewrite byte_val_of. apply u8_small. eauto.
Qed.

Lemma slice_all {A} (l k : list A) n : len l = n → slice (l ++ k) 0 n = l.
Proof.
  intros <-. unfold slice, len. rewrite Z.sub_0_r, Nat2Z.id.
  change (Z.to_nat 0) with 0%nat. by rewrite drop_0, take_app_length.
Qed.

Lemma slice_app_r {A} (l k : list A) lo hi : len l ≤ lo ≤ hi →
  slice (l ++ k) lo hi = slice k (lo - len l) (hi - len l).
Proof.
  intros Hlo. unfold slice, len in *. rewrite drop_app_ge by lia.
  f_equal; [lia|]. f_equal. lia.
Qed.

(** Any input of the right shape splits into header, counters and checksum. *)
Lemma split_header (data : list byte) m : 0 ≤ m → len data = 12 + m →
  ∃ b0 b1 b2 b3 b4 b5 b6 b7 cs c0 c1 c2 c3,
    data = [b0; b1; b2; b3] ++ [b4; b5; b6; b7] ++ cs ++ [c0; c1; c2; c3] ∧ len cs = m.
Proof.
  intros Hm Hlen. unfold len in Hlen.
  destruct data as [|b0 [|b1 [|b2 [|b3 [|b4 [|b5 [|b6 [|b7 rest]]]]]]]]; cbn in Hlen; try lia.
  rewrite <- (take_drop (Z.to_nat m) rest) in *.
  remember (take (Z.to_nat m) rest) as cs eqn:Hcs. remember (drop (Z.to_nat m) rest) as c eqn:Hc.
  assert (length rest = (Z.to_nat m + 4)%nat).
  { rewrite length_app in Hlen. apply (f_equal length) in Hcs, Hc.
    rewrite length_take in Hcs. rewrite length_drop in Hc. lia. }
  assert (length cs = Z.to_nat m) by (subst cs; rewrite length_take; lia).
  assert (length c = 4%nat) by (subst c; rewrite length_drop; lia).
  destruct c as [|c0 [|c1 [|c2 [|c3 [|]]]]]; cbn in *; try lia.
  eexists b0, b1, b2, b3, b4, b5, b6, b7, cs, c0, c1, c2, c3. split; [done|unfold len; lia].
Qed.

Lemma slice_tail {A} (l k : list A) n n' : len l = n → n' = n + len k → slice (l ++ k) n n' = k.
Proof.
  intros Hl ->. pose proof (len_nonneg k). rewrite slice_app_r by lia.
  rewrite <- (app_nil_r k) at 1. rewrite Hl, Z.sub_diag. apply slice_all. lia.
Qed.

(** [Deserialize] on a string already split into its fields. *)
Lemma Deserialize_fields h1 h2 cs c m k :
  len h1 = 4 → len h2 = 4 → len c = 4 → Uint32 h1 = m → Uint32 h2 = k → len cs = m →
  codec_params m k →
  Deserialize (h1 ++ h2 ++ cs ++ c) =
    if decide (Uint32 c = Checksum (h1 ++ h2 ++ cs)) then Ok (mkCBF m k (byte_val <$> cs))
    else Err ErrChecksumMismatch.
Proof.
  intros Hh1 Hh2 Hc Hm Hk Hcs [Hpm Hpk]. unfold Deserialize.
  rewrite decide_False by lens.
  rewrite (slice_all h1) by done. rewrite slice_app_r by lia.
  rewrite Hh1, (slice_all h2) by (rewrite Hh2; done).
  rewrite Hm, Hk. rewrite 2!decide_False by lia. rewrite decide_False by lens.
  replace (h1 ++ h2 ++ cs ++ c) with ((h1 ++ h2 ++ cs) ++ c) by (by rewrite <- !(assoc_L (++))).
  rewrite slice_all by lens. rewrite slice_tail by lens.
  repeat case_decide; try done.
  do 2 f_equal. replace ((h1 ++ h2 ++ cs) ++ c) with ((h1 ++ h2) ++ cs ++ c) by
    (by rewrite <- !(assoc_L (++))).
  rewrite slice_app_r by lens. rewrite len_app, Hh1, Hh2. rewrite slice_all by lens.
  apply go_copy_full. rewrite length_replicate, length_fmap. lens.
Qed.

Lemma Deserialize_sound data f : Deserialize data = Ok f →
  data = Serialize f ∧ filter_wf f ∧ codec_params (cbf_m f) (cbf_k f).
Proof.
  intros Hd. pose proof Hd as Hd'. unfold Deserialize in Hd'.
  repeat case_decide; try discriminate.
  pose proof (Uint32_range (slice data 0 4)).
  assert (Hp : codec_params (Uint32 (slice data 0 4)) (Uint32 (slice data 4 8)))
    by (unfold codec_params; lia). clear Hd'.
  destruct (split_header data (Uint32 (slice data 0 4)))
    as (b0 & b1 & b2 & b3 & b4 & b5 & b6 & b7 & cs & c0 & c1 & c2 & c3 & -> & Hcs); [lia..|].
  change (slice (_ ++ _) 0 4) with [b0; b1; b2; b3] in Hp, Hcs.
  change (slice (_ ++ _) 4 8) with [b4; b5; b6; b7] in Hp.
  rewrite (Deserialize_fields [b0; b1; b2; b3] [b4; b5; b6; b7] cs [c0; c1; c2; c3] _ _
    eq_refl eq_refl eq_refl eq_refl eq_refl Hcs Hp) in Hd.
  case_decide as Hcrc; [|done].
  assert (f = mkCBF (Uint32 [b0; b1; b2; b3]) (Uint32 [b4; b5; b6; b7]) (byte_val <$> cs)) as -> by congruence.
  cbn [cbf_m cbf_k]. split_and!; [|split|done].
  - rewrite Serialize_sealed. unfold sealed, body_of. cbn [cbf_m cbf_k cbf_counters].
    rewrite byte_of_val_list, (u32_small (Uint32 [b0; b1; b2; b3])), (u32_small (Uint32 _))
      by apply Uint32_range.
    rewrite !PutUint32_Uint32. rewrite <- Hcrc, PutUint32_Uint32. by rewrite <- !(assoc_L (++)).
  - cbn [cbf_m cbf_counters]. rewrite <- Hcs. unfold len. by rewrite length_fmap.
  - cbn. apply Forall_fmap, Forall_true. intros c. apply byte_val_range.
Qed.

Lemma Deserialize_complete data f :
  data = Serialize f ∧ filter_wf f ∧ codec_params (cbf_m f) (cbf_k f) → Deserialize data = Ok f.
Proof.
  intros (-> & [Hlen Hall] & Hp). rewrite Serialize_sealed. unfold sealed, body_of.
  rewrite <- !(assoc_L (++)). pose proof Hp as [Hm Hk]. unfold MaxFilterSize, MaxHashFunctions in *.
  rewrite (Deserialize_fields _ _ _ _ (cbf_m f) (cbf_k f)); [|done..| | | |done].
  + rewrite decide_True.
    * rewrite byte_val_of_list by done. by destruct f.
    * rewrite Uint32_Put.
      apply u32_small, Checksum_range.
  + rewrite Uint32_Put, !u32_small; try lia. rewrite u32_small; lia.
  + rewrite Uint32_Put, !u32_small; try lia. rewrite u32_small; lia.
  + unfold len in *. by rewrite length_fmap.
Qed.

(** C13: the serialised form determines the filter and nothing else does:
    [Deserialize] succeeds on exactly the outputs of [Serialize] for
    well-formed filters within the accepted sizes, and returns that filter.
    Left to right it rejects every other byte string, right to left it is the
    persistence round trip. *)
Theorem Deserialize_iff data f :
  Deserialize data = Ok f ↔
  data = Serialize f ∧ filter_wf f ∧ codec_params (cbf_m f) (cbf_k f).
Proof. split; [apply Deserialize_sound|apply Deserialize_complete]. Qed.

(** C33: a change of one byte anywhere in a stored filter, header and checksum
    included, is always rejected. *)
Theorem Deserialize_single_byte_corruption f pre b b' post :
  Serialize f = pre ++ b :: post → b ≠ b' →
  ∃ e, Deserialize (pre ++ b' :: post) = Err e.
Proof.
  intros Hs Hne. destruct (Deserialize (pre ++ b' :: post)) as [g|e] eqn:Hd; [|by eexists].
  apply Deserialize_sound in Hd as [Hg _]. rewrite Serialize_sealed in Hs, Hg.
  symmetry in Hg. destruct Hne. eapply sealed_single_byte; eauto.
Qed.

Lemma codec_usable f : filter_wf f → codec_params (cbf_m f) (cbf_k f) → 2 ≤ cbf_m f → usable f.
Proof.
  intros Hwf [Hm Hk] H2. split; [done|]. unfold params_ok, MaxFilterSize, MaxHashFunctions in *. lia.
Qed.

(** With fewer than two counters every index computation divides by zero. *)
Lemma degenerate_indices `{Murmur3} item m k : 0 ≤ m ≤ 1 → 1 ≤ k → getHashIndices item m k = Panic IntegerDivideByZero.
Proof.
  intros Hm Hk. unfold getHashIndices, go_make. rewrite decide_True by lia. cbn [mbind go_bind].
  rewrite seqZ_cons by lia.
  assert (m = 0 ∨ m = 1) as [-> | ->] by lia; [|done].
  unfold go_umod at 1. rewrite decide_False by done. cbn [mbind go_bind fill_indices].
  unfold go_umod at 1. by rewrite decide_True by done.
Qed.

(** [Deserialize] checks the sizes from above only: stored filters with no
    counter or one counter are accepted, and on such a filter every [Add],
    [Remove] and [Contains] panics with a division by zero. *)
Theorem Deserialize_accepts_unusable `{Murmur3} f :
  filter_wf f → 0 ≤ cbf_m f ≤ 1 → 1 ≤ cbf_k f ≤ MaxHashFunctions →
  Deserialize (Serialize f) = Ok f ∧
  ∀ item, Add f item = Panic IntegerDivideByZero ∧
    Remove f item = Panic IntegerDivideByZero ∧
    Contains f item = Panic IntegerDivideByZero.
Proof.
  intros Hwf Hm Hk. split.
  - apply Deserialize_complete. unfold codec_params, MaxFilterSize. do 2 (split; [done|]). lia.
  - intros item. unfold Add, Remove, Contains. rewrite degenerate_indices by lia. done.
Qed.

(** * Closed instances *)

Lemma Deserialize_single_byte_corruption_witness :
  ∃ e, Deserialize (slice (Serialize ex_f1) 0 9 ++ byte_of 7 :: slice (Serialize ex_f1) 10 19) = Err e.
Proof.
  apply (Deserialize_single_byte_corruption ex_f1 (slice (Serialize ex_f1) 0 9) (byte_of 1) (byte_of 7)
    (slice (Serialize ex_f1) 10 19)); vm_compute; [reflexivity|discriminate].
Defined.

Lemma Deserialize_accepts_unusable_witness :
  let f := mkCBF 1 3 [0] in
  Deserialize (Serialize f) = Ok f ∧
  ∀ item, Add (H:=byte_sum) f item = Panic IntegerDivideByZero ∧
    Remove (H:=byte_sum) f item = Panic IntegerDivideByZero ∧
    Contains (H:=byte_sum) f item = Panic IntegerDivideByZero.
Proof.
  apply (Deserialize_accepts_unusable (H:=byte_sum) (mkCBF 1 3 [0])).
  - split; [done|]. cbn. repeat constructor; lia.
  - cbn. lia.
  - unfold MaxHashFunctions. cbn. lia.
Defined.
