(* ===== verification/Cache.v ===== *)
(** [pkg/bloom/cache.go]: the LRU cache of hash indices and the counting
    filter that uses it.

    [ic_cache] is the Go map and [ic_lru] the slice of keys, oldest first.  A
    reading of [time.Now()] is an argument of the operation that takes it.
    The cached filter refines the plain one: it is a second instance of
    [CountingFilter], and the cache never holds anything but the indices the
    filter would compute. *)

From S2P Require Import Prelude GoBytes Hash Counting CountingSpec.

(** * Definitions *)

Record CacheEntry : Type := mkEntry {
  ce_indices : list Z;
  ce_timestamp : Z;
  ce_hits : Z
}.

Record IndexCache : Type := mkCache {
  ic_capacity : Z;
  ic_cache : gmap string CacheEntry;
  ic_lru : list string
}.

(** [make([]string, 0, capacity)] panics on a negative capacity. *)
Definition NewIndexCache (capacity : Z) : go IndexCache :=
  if decide (0 ≤ capacity) then Ret (mkCache capacity ∅ [])
  else Panic MakesliceLenOutOfRange.

Fixpoint remove_first (key : string) (l : list string) : list string :=
  match l with
  | [] => []
  | k :: l' => if decide (k = key) then l' else k :: remove_first key l'
  end.

Definition removeFromLRU (c : IndexCache) (key : string) : IndexCache :=
  mkCache (ic_capacity c) (ic_cache c) (remove_first key (ic_lru c)).

Definition moveToFront (c : IndexCache) (key : string) : IndexCache :=
  let c' := removeFromLRU c key in
  mkCache (ic_capacity c') (ic_cache c') (ic_lru c' ++ [key]).

Definition evictOldest (c : IndexCache) : IndexCache :=
  match ic_lru c with
  | [] => c
  | oldest :: rest => mkCache (ic_capacity c) (delete oldest (ic_cache c)) rest
  end.

Definition cache_store (c : IndexCache) (key : string) (e : CacheEntry) : IndexCache :=
  mkCache (ic_capacity c) (<[key := e]> (ic_cache c)) (ic_lru c).

(** [nil] (a miss) is [None]. *)
Definition Get (now : Z) (c : IndexCache) (key : string) : IndexCache * option (list Z) :=
  match ic_cache c !! key with
  | None => (c, None)
  | Some e =>
      let e' := mkEntry (ce_indices e) now (u64 (ce_hits e + 1)) in
      (moveToFront (cache_store c key e') key, Some (ce_indices e))
  end.

Definition Put (now : Z) (c : IndexCache) (key : string) (indices : list Z) : IndexCache :=
  match ic_cache c !! key with
  | Some e => moveToFront (cache_store c key (mkEntry indices now (u64 (ce_hits e + 1)))) key
  | None =>
      let c1 := if decide (ic_capacity c ≤ Z.of_nat (size (ic_cache c))) then evictOldest c else c in
      let c2 := cache_store c1 key (mkEntry indices now 0) in
      mkCache (ic_capacity c2) (ic_cache c2) (ic_lru c2 ++ [key])
  end.

Definition cache_Remove (c : IndexCache) (key : string) : IndexCache :=
  match ic_cache c !! key with
  | Some _ => removeFromLRU (mkCache (ic_capacity c) (delete key (ic_cache c)) (ic_lru c)) key
  | None => c
  end.

Definition Clear (c : IndexCache) : IndexCache := mkCache (ic_capacity c) ∅ [].

Definition Stats (c : IndexCache) : Z * Z := (Z.of_nat (size (ic_cache c)), ic_capacity c).

Record CountingBloomFilterWithCache : Type := mkCached {
  cached_filter : CountingBloomFilter;
  cached_cache : IndexCache
}.

Definition NewCountingBloomFilterWithCache (m k cacheSize : Z) : go CountingBloomFilterWithCache :=
  f ← NewCountingBloomFilter m k;
  c ← NewIndexCache cacheSize;
  Ret (mkCached f c).

Section cached.
Context `{Murmur3}.

(** The first half of [Add] and [Contains]: indices from the cache, or
    computed and stored. *)
Definition cached_indices (now : Z) (w : CountingBloomFilterWithCache) (item : list byte)
  : go (IndexCache * list Z) :=
  let key := string_of_bytes item in
  let '(c, hit) := Get now (cached_cache w) key in
  match hit with
  | Some indices => Ret (c, indices)
  | None =>
      indices ← getHashIndices item (cbf_m (cached_filter w)) (cbf_k (cached_filter w));
      Ret (Put now c key indices, indices)
  end.

Definition cached_Add (now : Z) (w : CountingBloomFilterWithCache) (item : list byte)
  : go (CountingBloomFilterWithCache * option bloom_error) :=
  '(c, indices) ← cached_indices now w item;
  '(cs, err) ← add_loop (cbf_counters (cached_filter w)) indices;
  Ret (mkCached (with_counters (cached_filter w) cs) c, err).

Definition cached_Contains (now : Z) (w : CountingBloomFilterWithCache) (item : list byte)
  : go (CountingBloomFilterWithCache * bool) :=
  '(c, indices) ← cached_indices now w item;
  b ← contains_loop (cbf_counters (cached_filter w)) indices;
  Ret (mkCached (cached_filter w) c, b).

Definition cached_Remove (w : CountingBloomFilterWithCache) (item : list byte)
  : go CountingBloomFilterWithCache :=
  let c := cache_Remove (cached_cache w) (string_of_bytes item) in
  f ← Remove (cached_filter w) item;
  Ret (mkCached f c).
End cached.

(** * The cache invariant

    The slice lists every key of the map exactly once, and the map never
    outgrows the capacity (a capacity of zero still keeps one entry). *)

Record cache_wf (c : IndexCache) : Prop := {
  cw_cap : 0 ≤ ic_capacity c;
  cw_nodup : NoDup (ic_lru c);
  cw_dom : ∀ s, s ∈ ic_lru c ↔ is_Some (ic_cache c !! s);
  cw_size : Z.of_nat (size (ic_cache c)) ≤ Z.max 1 (ic_capacity c)
}.

Lemma remove_first_not_in key l : key ∉ l → remove_first key l = l.
Proof.
  induction l as [|k l IH]; [done|]. intros [? ?]%not_elem_of_cons. cbn.
  rewrite decide_False by done. by rewrite IH.
Qed.

(** On a duplicate-free list removing the first occurrence is a filter. *)
Lemma remove_first_filter key l : NoDup l → remove_first key l = filter (λ k, k ≠ key) l.
Proof.
  induction 1 as [|k l Hk Hnd IH]; [done|]. cbn [remove_first]. rewrite filter_cons. case_decide as Hd.
  - rewrite decide_False by (intros ?; done). subst. rewrite <- IH. by rewrite remove_first_not_in.
  - rewrite decide_True by done. by rewrite IH.
Qed.

Lemma elem_of_remove_first key l s : NoDup l → s ∈ remove_first key l ↔ s ≠ key ∧ s ∈ l.
Proof. intros Hnd. by rewrite remove_first_filter, list_elem_of_filter by done. Qed.

Lemma NoDup_remove_first key l : NoDup l → NoDup (remove_first key l).
Proof. intros Hnd. rewrite remove_first_filter by done. by apply NoDup_filter. Qed.

Lemma lru_size c : cache_wf c → length (ic_lru c) = size (ic_cache c).
Proof.
  intros Hwf. rewrite <- size_dom. rewrite <- (size_list_to_set (C:=gset string)) by apply Hwf.
  apply (f_equal size), set_eq. intros s. rewrite elem_of_list_to_set, elem_of_dom. apply Hwf.
Qed.

Lemma touch_wf c key e : cache_wf c → is_Some (ic_cache c !! key) →
  cache_wf (moveToFront (cache_store c key e) key).
Proof.
  intros [Hcap Hnd Hdom Hsize] Hkey. split; cbn -[size]; [done| | |].
  - apply NoDup_app. split_and!; [by apply NoDup_remove_first| |apply NoDup_singleton].
    intros s [? _]%elem_of_remove_first ->%list_elem_of_singleton; done.
  - intros s. rewrite elem_of_app, list_elem_of_singleton, elem_of_remove_first by done.
    rewrite lookup_insert_is_Some, Hdom. destruct (decide (key = s)); naive_solver.
  - by rewrite map_size_insert_Some.
Qed.

Lemma Get_wf now c key : cache_wf c → cache_wf (Get now c key).1.
Proof.
  intros Hwf. unfold Get. destruct (ic_cache c !! key) eqn:Hk; [|done].
  apply touch_wf; [done|]. by rewrite Hk.
Qed.

Lemma evict_wf c : cache_wf c → cache_wf (evictOldest c).
Proof.
  intros Hwf. pose proof Hwf as [Hcap Hnd Hdom Hsize]. unfold evictOldest.
  destruct (ic_lru c) as [|k rest] eqn:Hlru; [done|]. inversion Hnd as [|?? Hk Hnd']; subst.
  split; cbn -[size]; [done|done| |].
  - intros s. rewrite lookup_delete_is_Some, <- Hdom, elem_of_cons. naive_solver.
  - pose proof (map_subseteq_size _ _ (delete_subseteq (ic_cache c) k)). lia.
Qed.

Lemma evict_size c : cache_wf c →
  size (ic_cache (evictOldest c)) = pred (size (ic_cache c)).
Proof.
  intros Hwf. rewrite <- !lru_size by (try apply evict_wf; done).
  unfold evictOldest. destruct (ic_lru c) as [|k rest] eqn:E; cbn; by rewrite ?E.
Qed.

Lemma evict_None c key : ic_cache c !! key = None → ic_cache (evictOldest c) !! key = None.
Proof.
  unfold evictOldest. destruct (ic_lru c); [done|]. cbn. rewrite lookup_delete_None. auto.
Qed.

Lemma evict_capacity c : ic_capacity (evictOldest c) = ic_capacity c.
Proof. unfold evictOldest. by destruct (ic_lru c). Qed.

Lemma append_wf c key e : cache_wf c → ic_cache c !! key = None →
  Z.of_nat (size (ic_cache c)) < Z.max 1 (ic_capacity c) →
  cache_wf (mkCache (ic_capacity c) (<[key := e]> (ic_cache c)) (ic_lru c ++ [key])).
Proof.
  intros [Hcap Hnd Hdom Hsize] Hkey Hlt. split; cbn -[size]; [done| | |].
  - apply NoDup_app. split_and!; [done| |apply NoDup_singleton].
    intros s Hs ->%list_elem_of_singleton. apply Hdom in Hs as [? ?]. congruence.
  - intros s. rewrite elem_of_app, list_elem_of_singleton, lookup_insert_is_Some, Hdom.
    destruct (decide (key = s)); naive_solver.
  - rewrite map_size_insert_None by done. lia.
Qed.

Lemma Put_wf now c key indices : cache_wf c → cache_wf (Put now c key indices).
Proof.
  intros Hwf. unfold Put. destruct (ic_cache c !! key) eqn:Hk.
  - apply touch_wf; [done|]. by rewrite Hk.
  - cbn [cache_store ic_capacity ic_cache ic_lru].
    case_decide as Hfull; apply append_wf; auto using evict_wf, evict_None; [|lia].
    rewrite evict_size, evict_capacity by done. destruct Hwf. lia.
Qed.

Lemma cache_Remove_wf c key : cache_wf c → cache_wf (cache_Remove c key).
Proof.
  intros Hwf. unfold cache_Remove. destruct (ic_cache c !! key) eqn:Hk; [|done].
  destruct Hwf as [Hcap Hnd Hdom Hsize]. split; cbn -[size]; [done|by apply NoDup_remove_first| |].
  - intros s. rewrite elem_of_remove_first, lookup_delete_is_Some, Hdom by done. naive_solver.
  - pose proof (map_subseteq_size _ _ (delete_subseteq (ic_cache c) key)). lia.
Qed.

Lemma New_cache_wf capacity c : NewIndexCache capacity = Ret c → cache_wf c.
Proof.
  unfold NewIndexCache. case_decide; [|done]. intros [= <-].
  split; cbn -[size]; [done|constructor| |rewrite map_size_empty; lia].
  intros s. rewrite lookup_empty. split; [by intros ?%elem_of_nil|by intros [? ?]].
Qed.

#[export] Hint Resolve Get_wf Put_wf cache_Remove_wf evict_wf touch_wf : dbf.

(** * The cached filter *)

Section refinement.
Context `{Murmur3}.

(** Every cached entry is what the filter would compute for its key. *)
Definition entries_valid (f : CountingBloomFilter) (es : gmap string CacheEntry) : Prop :=
  ∀ s e, es !! s = Some e → ce_indices e = idx_of f (bytes_of_string s).

Definition cache_valid (f : CountingBloomFilter) (c : IndexCache) : Prop :=
  entries_valid f (ic_cache c).

Definition cached_ok (w : CountingBloomFilterWithCache) : Prop :=
  usable (cached_filter w) ∧ cache_wf (cached_cache w) ∧
  cache_valid (cached_filter w) (cached_cache w).

Lemma cache_valid_params f g c : same_params f g → cache_valid f c → cache_valid g c.
Proof. intros [Hm Hk] Hv s e Hs. unfold idx_of in *. rewrite Hm, Hk. by apply Hv. Qed.

Lemma store_valid f es key e : entries_valid f es →
  ce_indices e = idx_of f (bytes_of_string key) → entries_valid f (<[key := e]> es).
Proof. intros Hv He s e' [[-> <-]|[_ Hs]]%lookup_insert_Some; eauto. Qed.

Lemma delete_valid f es key : entries_valid f es → entries_valid f (delete key es).
Proof. intros Hv s e [_ Hs]%lookup_delete_Some; eauto. Qed.

Lemma evict_valid f c : cache_valid f c → cache_valid f (evictOldest c).
Proof.
  intros Hv. unfold evictOldest. destruct (ic_lru c); [done|].
  unfold cache_valid; cbn. by apply delete_valid.
Qed.

Lemma Put_valid now f c key : cache_valid f c →
  cache_valid f (Put now c key (idx_of f (bytes_of_string key))).
Proof.
  intros Hv. unfold Put. destruct (ic_cache c !! key) as [e|].
  - unfold cache_valid; cbn. by apply store_valid.
  - unfold cache_valid; cbn. apply store_valid; [|done]. case_decide; [by apply evict_valid|done].
Qed.

Lemma Get_valid now f c key c' hit : cache_valid f c → Get now c key = (c', hit) →
  cache_valid f c' ∧ hit = ((λ _, idx_of f (bytes_of_string key)) <$> ic_cache c !! key).
Proof.
  intros Hv. unfold Get. destruct (ic_cache c !! key) as [e|] eqn:Hk; intros [= <- <-]; [|done].
  split; [|by rewrite (Hv _ _ Hk)]. unfold cache_valid; cbn. apply store_valid; [done|]. cbn. eauto.
Qed.

Lemma cache_Remove_valid f c key : cache_valid f c → cache_valid f (cache_Remove c key).
Proof.
  intros Hv. unfold cache_Remove. destruct (ic_cache c !! key); [|done].
  unfold cache_valid; cbn. by apply delete_valid.
Qed.

(** Hit or miss, the indices are those of the item. *)
Lemma cached_indices_ok now w item : cached_ok w →
  ∃ c, cached_indices now w item = Ret (c, idx_of (cached_filter w) item) ∧
    cache_wf c ∧ cache_valid (cached_filter w) c.
Proof.
  intros (Hu & Hwf & Hv). unfold cached_indices.
  destruct (Get now (cached_cache w) (string_of_bytes item)) as [c hit] eqn:Hget.
  pose proof (Get_wf now _ (string_of_bytes item) Hwf) as Hwf1. rewrite Hget in Hwf1.
  apply (Get_valid _ (cached_filter w)) in Hget as [Hv1 ->]; [|done].
  rewrite bytes_of_string_of_bytes. destruct (ic_cache _ !! _); cbn [fmap option_fmap option_map].
  - by exists c.
  - go_step (usable_indices _ item Hu). eexists. split_and!; [done|by apply Put_wf|].
    rewrite <- (bytes_of_string_of_bytes item) at 2. by apply Put_valid.
Qed.

Lemma cached_Add_eq now w item : cached_ok w →
  ∃ c, cached_Add now w item =
    ('(f, err) ← Add (cached_filter w) item; Ret (mkCached f c, err)) ∧
    cache_wf c ∧ cache_valid (cached_filter w) c.
Proof.
  intros Hok. destruct (cached_indices_ok now w item Hok) as (c & Hidx & Hwf & Hv).
  exists c. split; [|done]. unfold cached_Add, Add. rewrite Hidx. cbn [mbind go_bind].
  rewrite (usable_indices _ item (proj1 Hok)). cbn [mbind go_bind].
  by destruct (add_loop _ _) as [[cs err]|p].
Qed.

Lemma cached_Contains_eq now w item : cached_ok w →
  ∃ c, cached_Contains now w item =
    (b ← Contains (cached_filter w) item; Ret (mkCached (cached_filter w) c, b)) ∧
    cache_wf c ∧ cache_valid (cached_filter w) c.
Proof.
  intros Hok. destruct (cached_indices_ok now w item Hok) as (c & Hidx & Hwf & Hv).
  exists c. split; [|done]. unfold cached_Contains, Contains. rewrite Hidx. cbn [mbind go_bind].
  by rewrite (usable_indices _ item (proj1 Hok)).
Qed.
End refinement.

(** * The interface, discharged a second time

    A system is a cached filter with its clock: reading [sys_tick] of
    [sys_clock] is the next result of [time.Now()]. *)

Record CachedSystem : Type := mkSys {
  sys_clock : nat → Z;
  sys_tick : nat;
  sys_filter : CountingBloomFilterWithCache
}.

Section instance.
Context `{Murmur3}.

Definition sys_now (y : CachedSystem) : Z := sys_clock y (sys_tick y).
Definition sys_next (y : CachedSystem) (w : CountingBloomFilterWithCache) : CachedSystem :=
  mkSys (sys_clock y) (S (sys_tick y)) w.

Definition cached_repr (y : CachedSystem) (M : items) : Prop :=
  counting_repr (cached_filter (sys_filter y)) M ∧
  cache_wf (cached_cache (sys_filter y)) ∧
  cache_valid (cached_filter (sys_filter y)) (cached_cache (sys_filter y)).

Lemma cached_repr_ok y M : cached_repr y M → cached_ok (sys_filter y).
Proof. intros ([Hu _] & ? & ?). by split_and!. Qed.

Lemma Add_same_params f x f' err : usable f → Add f x = Ret (f', err) → same_params f f'.
Proof.
  intros Hu Hadd. destruct (Add_spec f x Hu) as (f1 & e1 & Hadd1 & _ & Hp & _). congruence.
Qed.

Lemma Remove_same_params f x f' : usable f → Remove f x = Ret f' → same_params f f'.
Proof. intros Hu Hr. destruct (Remove_spec f x Hu) as (f1 & Hr1 & _ & Hp & _). congruence. Qed.

#[export] Program Instance Cached_instance : CountingFilter CachedSystem := {|
  cf_add y x := '(w, err) ← cached_Add (sys_now y) (sys_filter y) x; Ret (sys_next y w, err);
  cf_remove y x := w ← cached_Remove (sys_filter y) x; Ret (sys_next y w);
  cf_contains y x := '(w, b) ← cached_Contains (sys_now y) (sys_filter y) x; Ret (sys_next y w, b);
  cf_repr := cached_repr
|}.
Next Obligation.
  intros y M x Hr. pose proof (cached_repr_ok y M Hr) as Hok.
  destruct (cached_Add_eq (sys_now y) _ x Hok) as (c & Heq & Hwf & Hv). destruct Hr as [Hr _].
  destruct (cf_add_ok (CountingFilter:=Counting_instance) _ _ x Hr) as (f' & err & Hadd & Hr').
  cbn in Hadd, Hr'. exists (sys_next y (mkCached f' c)), err. split.
  - by rewrite Heq, Hadd.
  - split_and!; [done..|]. eapply cache_valid_params; [|done]. eapply Add_same_params; [|done]. apply Hok.
Qed.
Next Obligation.
  intros y M x Hr Hx. pose proof (cached_repr_ok y M Hr) as Hok. destruct Hr as (Hr & Hwf & Hv).
  destruct (cf_remove_ok (CountingFilter:=Counting_instance) _ _ x Hr Hx) as (f' & Hrem & Hr').
  cbn in Hrem, Hr'. eexists. split; [unfold cached_Remove; by rewrite Hrem|].
  split_and!; [done|by apply cache_Remove_wf|]. eapply cache_valid_params, cache_Remove_valid, Hv.
  eapply Remove_same_params; [|done]. apply Hok.
Qed.
Next Obligation.
  intros y M x Hr. pose proof (cached_repr_ok y M Hr) as Hok.
  destruct (cached_Contains_eq (sys_now y) _ x Hok) as (c & Heq & Hwf & Hv). destruct Hr as [Hr _].
  destruct (cf_contains_ok (CountingFilter:=Counting_instance) _ _ x Hr) as (f' & b & Hc & Hr' & Hb).
  cbn in Hc. go_inv. subst. exists (sys_next y (mkCached (cached_filter (sys_filter y)) c)), b.
  split_and!; [|done..]. by rewrite Heq, Hc0.
Qed.

Lemma New_cached_ok m k n w : params_ok m k → NewCountingBloomFilterWithCache m k n = Ret w →
  counting_repr (cached_filter w) ∅ ∧ cache_wf (cached_cache w) ∧
  cache_valid (cached_filter w) (cached_cache w) ∧
  ic_capacity (cached_cache w) = n ∧ ic_lru (cached_cache w) = [].
Proof.
  intros Hp Hnew. unfold NewCountingBloomFilterWithCache in Hnew. go_inv. subst.
  split; [by eapply New_repr|]. split; [by eapply New_cache_wf|].
  unfold NewIndexCache in Hnew1. case_decide; [|done]. injection Hnew1 as <-. split; [|done].
  intros s e. cbn. by rewrite lookup_empty.
Qed.

Lemma cached_Remove_ok w item : cached_ok w → ∃ f,
  Remove (cached_filter w) item = Ret f ∧
  cached_Remove w item = Ret (mkCached f (cache_Remove (cached_cache w) (string_of_bytes item))) ∧
  cached_ok (mkCached f (cache_Remove (cached_cache w) (string_of_bytes item))) ∧
  ic_cache (cache_Remove (cached_cache w) (string_of_bytes item)) !! string_of_bytes item = None.
Proof.
  intros (Hu & Hwf & Hv). destruct (Remove_spec (cached_filter w) item Hu) as (f & Hr & Hu' & Hp & _).
  exists f. split; [done|]. split; [unfold cached_Remove; by rewrite Hr|]. split.
  - split_and!; [done|by apply cache_Remove_wf|]. by eapply cache_valid_params, cache_Remove_valid.
  - unfold cache_Remove. destruct (ic_cache (cached_cache w) !! string_of_bytes item) eqn:E; cbn; [|done]. by rewrite lookup_delete_eq.
Qed.

(** One operation of either filter. *)
Lemma cached_exec y o : cached_ok (sys_filter y) → ∃ f' y' r,
  exec (cached_filter (sys_filter y)) o = Ret (f', r) ∧ exec y o = Ret (y', r) ∧
  cached_filter (sys_filter y') = f' ∧ cached_ok (sys_filter y').
Proof.
  intros Hok. pose proof (proj1 Hok) as Hu. destruct o as [x|x|x]; cbn [exec cf_add cf_remove cf_contains Counting_instance Cached_instance].
  - destruct (cached_Add_eq (sys_now y) _ x Hok) as (c & Heq & Hwf & Hv).
    destruct (Add_spec _ x Hu) as (f' & err & Hadd & Hu' & Hp & _). rewrite Heq, Hadd. cbn.
    eexists _, _, _. split_and!; [done..|]. split_and!; [done|done|]. by eapply cache_valid_params.
  - destruct (cached_Remove_ok _ x Hok) as (f' & Hr & Hc & Hok' & _). rewrite Hc, Hr. cbn. by eexists _, _, _.
  - destruct (cached_Contains_eq (sys_now y) _ x Hok) as (c & Heq & Hwf & Hv).
    rewrite Heq, (Contains_spec _ x Hu). cbn.
    eexists _, _, _. split_and!; [done..|]. by split_and!.
Qed.

(** C15: the cached filter is observationally the plain one.  From any state with a usable filter and a
    well-formed cache whose entries are right, in particular a fresh one, and whatever the clock reads, every
    sequence of [Add], [Remove] and [Contains], also of items that were never added, returns from both without
    a panic, gives the same answers and errors, and leaves the same filter; the cache, through hits, misses,
    evictions and invalidations, stays well-formed, within its capacity, with right entries. *)
Theorem cached_refines y ops : cached_ok (sys_filter y) → ∃ f' y' outs,
  exec_all (cached_filter (sys_filter y)) ops = Ret (f', outs) ∧ exec_all y ops = Ret (y', outs) ∧
  cached_filter (sys_filter y') = f' ∧
  usable f' ∧ cache_wf (cached_cache (sys_filter y')) ∧ cache_valid f' (cached_cache (sys_filter y')).
Proof.
  revert y. induction ops as [|o ops IH]; intros y Hok; cbn [exec_all].
  - exists (cached_filter (sys_filter y)), y, []. destruct Hok as (? & ? & ?). by split_and!.
  - destruct (cached_exec y o Hok) as (f1 & y1 & r & He & Hy & <- & Hok1).
    destruct (IH y1 Hok1) as (f' & y' & outs & Hf & Hy' & ? & ?). rewrite He, Hy. cbn. rewrite Hf, Hy'. cbn.
    by exists f', y', (r :: outs).
Qed.

(** No false negatives for the cached filter, on the same clients as for
    the plain one and whatever the clock reads, through evictions and
    invalidations of the cache. *)
Theorem cached_no_false_negative m k size clock w y M x :
  params_ok m k → NewCountingBloomFilterWithCache m k size = Ret w →
  reach (mkSys clock 0 w) y M → x ∈ M →
  ∃ y', cf_contains y x = Ret (y', true).
Proof.
  intros Hp Hnew Hreach Hx. assert (Hr : cf_repr y M).
  { eapply reach_repr; [|done]. by destruct (New_cached_ok m k size w Hp Hnew) as (? & ? & ? & _). }
  destruct (cf_contains_ok y M x Hr) as (y' & b & Hc & _ & Hb). rewrite Hb in Hc by done. eauto.
Qed.
End instance.

(** * The replacement policy *)

Section policy.
Context `{Murmur3}.

(** A sequence of lookups: the accesses of [Add] and [Contains]. *)
Fixpoint lookups (w : CountingBloomFilterWithCache) (acc : list (Z * list byte))
  : go IndexCache :=
  match acc with
  | [] => Ret (cached_cache w)
  | (now, x) :: acc' =>
      '(c, _) ← cached_indices now w x;
      lookups (mkCached (cached_filter w) c) acc'
  end.

(** The last [n] elements of a list. *)
Definition last_n {A} (n : nat) (l : list A) : list A := drop (length l - n) l.

Lemma remove_dups_snoc {A} `{EqDecision A} (l : list A) x :
  remove_dups (l ++ [x]) = filter (λ y, y ≠ x) (remove_dups l) ++ [x].
Proof.
  induction l as [|y l IH]; [done|]. cbn [app remove_dups]. rewrite IH.
  repeat case_decide; rewrite ?filter_cons; repeat case_decide; try done; set_solver.
Qed.

(** One access, on the recency list alone. *)
Definition lru_step (n : nat) (l : list string) (x : string) : list string :=
  if decide (x ∈ l) then filter (λ y, y ≠ x) l ++ [x]
  else (if decide (n ≤ length l)%nat then drop 1 l else l) ++ [x].

Lemma filter_ne_not_in (x : string) (l : list string) : x ∉ l → filter (λ y, y ≠ x) l = l.
Proof.
  induction l as [|y l IH]; [done|]. intros [? ?]%not_elem_of_cons.
  rewrite filter_cons, decide_True, IH by congruence. done.
Qed.

Lemma length_filter_ne (x : string) (l : list string) : NoDup l → x ∈ l →
  length (filter (λ y, y ≠ x) l) = pred (length l).
Proof.
  intros Hnd (l1 & l2 & ->)%list_elem_of_split. apply NoDup_app in Hnd as (_ & Hd & Hnd2).
  apply NoDup_cons in Hnd2 as [Hx2 _].
  assert (Hx1 : x ∉ l1) by (intros Hx1; by apply (Hd x Hx1); left).
  rewrite filter_app, filter_cons, decide_False by (intros Hn; by destruct Hn).
  rewrite !filter_ne_not_in by done. rewrite !length_app. cbn. lia.
Qed.

Lemma last_n_step n (D : list string) x : (1 ≤ n)%nat → NoDup D →
  last_n n (filter (λ y, y ≠ x) D ++ [x]) = lru_step n (last_n n D) x.
Proof.
  intros Hn Hnd. unfold last_n. set (a := (length D - n)%nat).
  assert (HD : D = take a D ++ drop a D) by by rewrite take_drop.
  assert (HlA : length (take a D) = a) by (rewrite length_take; lia).
  assert (HlL : length (drop a D) = (length D - a)%nat) by apply length_drop.
  remember (take a D) as A eqn:EA. remember (drop a D) as L eqn:EL. clear EA EL.
  rewrite HD in Hnd. apply NoDup_app in Hnd as (HA & Hdisj & HL).
  unfold lru_step. case_decide as HxL.
  - assert (HxA : x ∉ A) by (intros ?; by eapply Hdisj).
    rewrite HD at 2. rewrite filter_app, (filter_ne_not_in x A), <- (assoc_L (++)) by done.
    rewrite HD at 1. rewrite filter_app, (filter_ne_not_in x A) by done.
    rewrite !length_app, length_filter_ne by done. cbn [length].
    assert (length L ≠ 0)%nat by (destruct L; [by apply elem_of_nil in HxL|done]).
    replace (length A + pred (length L) + 1 - n)%nat with (length A) by lia.
    by rewrite drop_app_length.
  - assert (Hf : filter (λ y, y ≠ x) D = filter (λ y, y ≠ x) A ++ L).
    { rewrite HD, filter_app, (filter_ne_not_in x L) by done. done. }
    rewrite Hf. case_decide as HnL.
    + rewrite !length_app. cbn [length]. destruct (decide (x ∈ A)) as [HxA|HxA].
      * rewrite length_filter_ne by done.
        assert (length A ≠ 0)%nat by (destruct A; [by apply elem_of_nil in HxA|done]).
        replace (pred (length A) + length L + 1 - n)%nat with (length (filter (λ y, y ≠ x) A) + 1)%nat
          by (rewrite length_filter_ne by done; lia).
        rewrite <- (assoc_L (++)), <- drop_drop, drop_app_length.
        destruct L; cbn in *; [lia|done].
      * rewrite (filter_ne_not_in x A) by done.
        replace (length A + length L + 1 - n)%nat with (length A + 1)%nat by lia.
        rewrite <- (assoc_L (++)), <- drop_drop, drop_app_length.
        destruct L; cbn in *; [lia|done].
    + destruct A; [|cbn in HlA; lia]. cbn. rewrite length_app. cbn.
      by replace (length L + 1 - n)%nat with 0%nat by lia.
Qed.

Lemma cached_indices_lru now w x c idx (n : nat) : cache_wf (cached_cache w) →
  ic_capacity (cached_cache w) = Z.of_nat n →
  cached_indices now w x = Ret (c, idx) →
  ic_capacity c = Z.of_nat n ∧ ic_lru c = lru_step n (ic_lru (cached_cache w)) (string_of_bytes x).
Proof.
  intros Hwf Hcap. unfold cached_indices, Get. set (key := string_of_bytes x).
  pose proof (cw_nodup _ Hwf) as Hnd. pose proof (cw_dom _ Hwf key) as Hdom.
  unfold lru_step. destruct (ic_cache (cached_cache w) !! key) as [e|] eqn:Hk.
  - intros [= <- <-]. cbn. rewrite decide_True by (apply Hdom; eauto).
    by rewrite remove_first_filter.
  - intros Hb. go_inv. subst. unfold Put. rewrite Hk. cbn.
    rewrite (decide_False (P := key ∈ _)) by (rewrite Hdom; by intros [? ?]).
    rewrite Hcap. rewrite <- lru_size by done. repeat case_decide; try lia; [|done].
    rewrite evict_capacity. split; [done|]. unfold evictOldest.
    destruct (ic_lru (cached_cache w)) eqn:E; cbn; by rewrite ?E.
Qed.

Lemma lookups_lru n w pre acc : (1 ≤ n)%nat → cached_ok w →
  ic_capacity (cached_cache w) = Z.of_nat n →
  ic_lru (cached_cache w) = last_n n (remove_dups pre) →
  ∃ c, lookups w acc = Ret c ∧ cache_wf c ∧
    ic_lru c = last_n n (remove_dups (pre ++ (string_of_bytes ∘ snd <$> acc))).
Proof.
  intros Hn. revert w pre. induction acc as [|[now x] acc IH]; intros w pre Hok Hcap Hlru.
  { eexists. rewrite app_nil_r. split_and!; [done|apply Hok|done]. }
  cbn [lookups]. destruct (cached_indices_ok now w x Hok) as (c & Hc & Hwf & Hv).
  destruct (cached_indices_lru now w x c _ n (proj1 (proj2 Hok)) Hcap Hc) as [Hcap' Hlru'].
  go_step Hc. rewrite fmap_cons, cons_middle, (assoc_L (++)).
  apply IH; [|done|]; [split_and!; [apply Hok|done|done]|]. cbn.
  rewrite Hlru', Hlru, remove_dups_snoc. symmetry. apply last_n_step; [done|apply NoDup_remove_dups].
Qed.

(** C8: The replacement policy is least-recently-used: after any sequence of
    lookups on a fresh cache of capacity [n >= 1], the cached keys are the [n]
    most recently accessed distinct items, oldest first. *)
Theorem cache_is_lru m k n w acc :
  params_ok m k → (1 ≤ n)%nat → NewCountingBloomFilterWithCache m k (Z.of_nat n) = Ret w →
  ∃ c, lookups w acc = Ret c ∧
    ic_lru c = last_n n (remove_dups (string_of_bytes ∘ snd <$> acc)) ∧
    ∀ s, is_Some (ic_cache c !! s) ↔ s ∈ last_n n (remove_dups (string_of_bytes ∘ snd <$> acc)).
Proof.
  intros Hp Hn Hnew.
  destruct (New_cached_ok m k _ w Hp Hnew) as ([Hu _] & Hwf0 & Hv & Hcap & Hlru0).
  destruct (lookups_lru n w [] acc Hn) as (c & Hl & Hwf & Hlru); [by split_and!|done..|].
  cbn [app] in Hlru.
  exists c. split_and!; [done|done|]. intros s. rewrite <- Hlru. symmetry. apply Hwf.
Qed.
End policy.

(** * Closed instances *)

Section witnesses.
#[local] Existing Instance byte_sum.

Definition ex_w0 : CountingBloomFilterWithCache := mkCached ex_f0 (mkCache 2 ∅ []).
Definition ex_sys : CachedSystem := mkSys (λ n, Z.of_nat n) 0 ex_w0.

Lemma ex_New_cached : NewCountingBloomFilterWithCache 7 3 2 = Ret ex_w0.
Proof. vm_compute. reflexivity. Qed.

Lemma ex_cached_ok : cached_ok ex_w0.
Proof.
  destruct (New_cached_ok 7 3 2 ex_w0 ex_params ex_New_cached) as ([Hu _] & ? & ? & _). by split_and!.
Qed.

Lemma cached_refines_witness : let ops := [OpAdd ex_item; OpContains ex_item; OpRemove ex_item; OpContains ex_item] in
  ∃ f' y', exec_all ex_f0 ops = Ret (f', [OutErr None; OutBool true; OutDone; OutBool false]) ∧
    exec_all ex_sys ops = Ret (y', [OutErr None; OutBool true; OutDone; OutBool false]) ∧
    cache_wf (cached_cache (sys_filter y')).
Proof.
  intros ops. destruct (cached_refines ex_sys ops ex_cached_ok) as (f' & y' & outs & Hf & Hy & _ & _ & Hwf & _).
  assert (∃ f, exec_all ex_f0 ops = Ret (f, [OutErr None; OutBool true; OutDone; OutBool false])) as [f Hf'] by (eexists; vm_compute; reflexivity).
  cbn [ex_sys sys_filter ex_w0 cached_filter] in Hf. rewrite Hf' in Hf. injection Hf as <- <-. eauto.
Defined.

Lemma ex_cached_reach : ∃ y, reach ex_sys y (∅ ⊎ {[+ ex_item +]}).
Proof.
  eexists. eapply (reach_step ex_sys ex_sys ∅ (OpAdd ex_item) _ (OutErr None)); [constructor|done|].
  vm_compute. reflexivity.
Qed.

Lemma cached_no_false_negative_witness :
  ∃ y y', reach ex_sys y (∅ ⊎ {[+ ex_item +]}) ∧ cf_contains y ex_item = Ret (y', true).
Proof.
  destruct ex_cached_reach as [y Hy].
  destruct (cached_no_false_negative 7 3 2 _ _ _ _ _ ex_params ex_New_cached Hy ex_in) as [y' Hy'].
  exists y, y'. exact (conj Hy Hy').
Defined.

Definition ex_acc : list (Z * list byte) :=
  [(1, bytes_of_string "a"); (2, bytes_of_string "b"); (3, bytes_of_string "a"); (4, bytes_of_string "c")].

Lemma cache_is_lru_witness :
  last_n 2 (remove_dups (string_of_bytes ∘ snd <$> ex_acc)) = ["a"; "c"] ∧
  ∃ c, lookups ex_w0 ex_acc = Ret c ∧
    ic_lru c = last_n 2 (remove_dups (string_of_bytes ∘ snd <$> ex_acc)) ∧
    ∀ s, is_Some (ic_cache c !! s) ↔ s ∈ last_n 2 (remove_dups (string_of_bytes ∘ snd <$> ex_acc)).
Proof.
  split; [reflexivity|].
  exact (cache_is_lru 7 3 2 ex_w0 ex_acc ex_params ltac:(lia) ex_New_cached).
Defined.
End witnesses.
