(* ===== verification/Compression.v ===== *)
(** [pkg/bloom/compression.go]: compressed filters and snapshot containers.

    [compress/gzip] is the class [Gzip]: a writer of a given level, closed,
    yields [gzip_deflate level written]; [gzip.NewReader] followed by
    [io.ReadAll] yields [gzip_inflate input].  [GzipLaws] states what is relied
    on.  A [bytes.Reader] is the list of bytes not yet read.  The
    [float64] ratios are left out of the statistics. *)

From S2P Require Import Prelude GoBytes Hash Counting CountingSpec CountingCodec.

(** * Definitions *)

Inductive gz_error : Type := GzReader | GzData.

Class Gzip : Type := {
  gzip_deflate : Z → list byte → list byte;
  gzip_inflate : list byte → result gz_error (list byte)
}.

(** Documented behaviour: a reader returns what the writer was given, and an
    empty input has no gzip header. *)
Class GzipLaws `{Gzip} : Prop := {
  gzip_round_trip level d : 1 ≤ level ≤ 9 → gzip_inflate (gzip_deflate level d) = Ok d;
  gzip_empty : gzip_inflate [] = Err GzReader
}.

Inductive compression_error : Type :=
  | CGzip (e : gz_error)
  | CBadLevel                      (* gzip.NewWriterLevel *)
  | CBloom (e : bloom_error)
  | CReadMagic                     (* io.EOF *)
  | CFormat                        (* "invalid snapshot format" *)
  | CEOF
  | CUnexpectedEOF.

Definition lift_gzip {A} (r : result gz_error A) : result compression_error A :=
  match r with Ok a => Ok a | Err e => Err (CGzip e) end.
Definition lift_bloom {A} (r : result bloom_error A) : result compression_error A :=
  match r with Ok a => Ok a | Err e => Err (CBloom e) end.

Definition BestSpeed : Z := 1.
Definition BestCompression : Z := 9.

(** [gzip.NewWriterLevel]: levels [HuffmanOnly] = -2 to [BestCompression]. *)
Definition NewWriterLevel (level : Z) : result compression_error Z :=
  if decide (-2 ≤ level ≤ 9) then Ok level else Err CBadLevel.

(** [bytes.Reader.Read] into a buffer of [n] bytes: at the end of the input it
    fails whatever [n] is, else it returns at most [n] bytes; the rest of the
    buffer keeps its zeros. *)
Definition reader_Read (n : Z) (r : list byte) : result compression_error (list byte * list byte) :=
  match r with
  | [] => Err CEOF
  | _ => Ok (go_copy (replicate (Z.to_nat n) (byte_of 0)) (slice r 0 n), drop (Z.to_nat n) r)
  end.

(** [binary.Read] of an [n]-byte value reads all of it ([io.ReadFull]). *)
Definition reader_ReadFull (n : Z) (r : list byte)
  : result compression_error (list byte * list byte) :=
  if decide (len r = 0) then Err CEOF
  else if decide (len r < n) then Err CUnexpectedEOF
  else Ok (slice r 0 n, drop (Z.to_nat n) r).

Section compression.
Context `{Gzip}.

Definition CompressSerialize (f : CountingBloomFilter) : result compression_error (list byte) :=
  let data := Serialize f in
  level ← NewWriterLevel BestSpeed;
  Ok (gzip_deflate level (PutUint32 (u32 (len data)) ++ data)).

Definition DecompressDeserialize (compressedData : list byte)
  : result compression_error CountingBloomFilter :=
  decompressed ← lift_gzip (gzip_inflate compressedData);
  lift_bloom (Deserialize decompressed).

Definition CompressSerializeZstd (f : CountingBloomFilter) : result compression_error (list byte) :=
  CompressSerialize f.

(** The integer part of the result: original and compressed sizes. *)
Definition CompressionRatio (f : CountingBloomFilter) : result compression_error (Z * Z) :=
  let original := len (Serialize f) in
  compressedData ← CompressSerialize f;
  Ok (original, len compressedData).

Record storage_stats : Type := mkStats {
  original_size : Z;
  compressed_size : Z;
  space_saved : Z
}.

Definition OptimizeForStorage (f : CountingBloomFilter)
  : result compression_error (list byte * storage_stats) :=
  let originalData := Serialize f in
  compressedData ← CompressSerialize f;
  Ok (compressedData, mkStats (len originalData) (len compressedData)
                        (len originalData - len compressedData)).

(** ** SnapshotCompressor *)

Record SnapshotCompressor : Type := mkCompressor { sc_level : Z }.

Definition NewSnapshotCompressor (level : Z) : SnapshotCompressor :=
  let level := if decide (level < 1) then BestSpeed
               else if decide (9 < level) then BestCompression else level in
  mkCompressor level.

(** Metadata in the order the map iteration delivers it, the values already
    printed by [%v]. *)
Abbreviation metadata_entries := (list (list byte * list byte)).

Definition serializeMetadata (metadata : metadata_entries) : list byte :=
  mbind (λ '(k, v), k ++ bytes_of_string ":" ++ v ++ [byte_of 10]) metadata.

Definition deserializeMetadata (data : list byte) : gmap (list byte) (list byte) := ∅.

Definition Compress (sc : SnapshotCompressor) (data : list byte) (metadata : metadata_entries)
  : result compression_error (list byte) :=
  let metadataBytes := serializeMetadata metadata in
  let buf := bytes_of_string "DBFS" ++ [byte_of (u8 (sc_level sc))] ++
             PutUint32 (u32 (len metadataBytes)) ++ metadataBytes in
  level ← NewWriterLevel (sc_level sc);
  Ok (buf ++ gzip_deflate level data).

Definition Decompress (compressedData : list byte)
  : result compression_error (list byte * gmap (list byte) (list byte)) :=
  match reader_Read 4 compressedData with
  | Err _ => Err CReadMagic
  | Ok (magic, r) =>
      if decide (magic ≠ bytes_of_string "DBFS") then Err CFormat
      else
        '(_, r) ← reader_ReadFull 1 r;
        '(sz, r) ← reader_ReadFull 4 r;
        let metadataSize := Uint32 sz in
        '(metadataBytes, r) ← reader_Read metadataSize r;
        let metadata := deserializeMetadata metadataBytes in
        data ← lift_gzip (gzip_inflate r);
        Ok (data, metadata)
  end.

(** * Theorems *)

(** The size prefix is part of what [DecompressDeserialize] hands to
    [Deserialize], which then reads a length four bytes off. *)
Lemma Deserialize_prefixed f : filter_wf f → cbf_m f + 12 < 2 ^ 32 →
  Deserialize (PutUint32 (u32 (len (Serialize f))) ++ Serialize f) = Err ErrInvalidData.
Proof.
  intros [Hlen _] Hm. pose proof (len_nonneg (cbf_counters f)).
  assert (Hs : len (Serialize f) = 12 + cbf_m f).
  { unfold len in *. rewrite Serialize_sealed, length_sealed, length_body. lia. }
  unfold Deserialize. rewrite Hs, (slice_all (PutUint32 _)) by done.
  rewrite Uint32_Put. rewrite (u32_small (12 + cbf_m f)), u32_small by lia.
  case_decide; [done|]. case_decide; [done|]. case_decide; [done|].
  rewrite decide_True; [done|]. rewrite len_app, Hs. change (len (PutUint32 _)) with 4. lia.
Qed.

Lemma NewSnapshotCompressor_level level : 1 ≤ sc_level (NewSnapshotCompressor level) ≤ 9.
Proof. unfold NewSnapshotCompressor. repeat case_decide; cbn; unfold BestSpeed, BestCompression; lia. Qed.

Lemma ReadFull_app (n : Z) (a b : list byte) : len a = n → 0 < n → reader_ReadFull n (a ++ b) = Ok (a, b).
Proof.
  intros Ha Hn. unfold reader_ReadFull. pose proof (len_nonneg b). rewrite len_app.
  rewrite !decide_False by lia. rewrite (slice_all a) by done.
  unfold len in Ha. by rewrite <- Ha, Nat2Z.id, drop_app_length.
Qed.

Lemma Read_app (n : Z) (a b : list byte) : len a = n → a ++ b ≠ [] → reader_Read n (a ++ b) = Ok (a, b).
Proof.
  intros Ha Hne. unfold reader_Read. destruct (a ++ b) eqn:E; [done|]. rewrite <- E.
  rewrite (slice_all a) by done. unfold len in Ha.
  rewrite go_copy_full by (rewrite length_replicate; lia).
  by rewrite <- Ha, Nat2Z.id, drop_app_length.
Qed.

(** A compressed filter cannot be loaded again: the output of
    [CompressSerialize] is rejected by [DecompressDeserialize], for every
    well-formed filter, since the size written in front of the data is never
    stripped. *)
Theorem compressed_filter_unreadable `{!GzipLaws} f :
  filter_wf f → cbf_m f + 12 < 2 ^ 32 →
  ∃ z, CompressSerialize f = Ok z ∧ DecompressDeserialize z = Err (CBloom ErrInvalidData).
Proof.
  intros Hwf Hm. eexists. split; [done|]. unfold DecompressDeserialize.
  rewrite gzip_round_trip by (unfold BestSpeed; lia). cbn [lift_gzip mbind result_bind].
  by rewrite Deserialize_prefixed.
Qed.

(** The snapshot container round trip: whatever level is asked for,
    [Compress] succeeds and [Decompress] returns the data, but the metadata
    comes back empty. *)
Theorem snapshot_round_trip `{!GzipLaws} level data metadata :
  len (serializeMetadata metadata) < 2 ^ 32 →
  ∃ z, Compress (NewSnapshotCompressor level) data metadata = Ok z ∧
    Decompress z = Ok (data, ∅).
Proof.
  intros Hsz. pose proof (NewSnapshotCompressor_level level) as Hlevel. revert Hlevel.
  generalize (NewSnapshotCompressor level) as sc. intros sc Hlevel.
  unfold Compress, NewWriterLevel. rewrite decide_True by lia. cbn [mbind result_bind].
  eexists. split; [done|]. rewrite <- !(assoc_L (++)). unfold Decompress.
  rewrite Read_app by done. rewrite decide_False by (intros Hn; by destruct Hn).
  rewrite (ReadFull_app 1) by done. cbn [mbind result_bind].
  rewrite (ReadFull_app 4) by done. cbn [mbind result_bind].
  rewrite Uint32_Put.
  pose proof (len_nonneg (serializeMetadata metadata)). rewrite (u32_small (len _)), u32_small by lia.
  assert (Hne : gzip_deflate (sc_level sc) data ≠ []).
  { intros Hn. pose proof (gzip_round_trip (sc_level sc) data Hlevel) as Hr.
    rewrite Hn, gzip_empty in Hr. done. }
  rewrite Read_app; [|done|by intros [_ ?]%app_nil]. cbn [mbind result_bind].
  by rewrite gzip_round_trip.
Qed.

(** [Decompress] accepts nothing that does not carry the magic number. *)
Theorem Decompress_magic z r :
  Decompress z = Ok r → slice z 0 4 = bytes_of_string "DBFS".
Proof.
  unfold Decompress, reader_Read. destruct z as [|b z']; [done|]. set (z := b :: z').
  case_decide as Hm; [done|]. intros _. unfold go_copy in Hm.
  rewrite length_replicate in Hm. remember (slice z 0 4) as s eqn:Es.
  assert (length s ≤ 4)%nat by (subst s; apply (firstn_le_length 4)).
  destruct s as [|s0 [|s1 [|s2 [|s3 [|]]]]]; cbn in *; try lia; done.
Qed.
End compression.

(** * Closed instances *)

(** A codec that stores its input after a header byte. *)
Definition stored_gzip : Gzip := {|
  gzip_deflate _ d := byte_of 31 :: d;
  gzip_inflate z := match z with [] => Err GzReader | _ :: d => Ok d end
|}.

Section witnesses.
#[local] Existing Instance stored_gzip.

Lemma stored_gzip_laws : GzipLaws.
Proof. by split. Qed.

Lemma compressed_filter_unreadable_witness :
  ∃ z, CompressSerialize ex_f1 = Ok z ∧ DecompressDeserialize z = Err (CBloom ErrInvalidData).
Proof.
  apply (@compressed_filter_unreadable _ stored_gzip_laws ex_f1).
  - split; [reflexivity|]. cbn. repeat constructor; lia.
  - reflexivity.
Defined.

Definition ex_metadata : list (list byte * list byte) :=
  [(bytes_of_string "index", bytes_of_string "42")].

Lemma snapshot_round_trip_witness :
  ∃ z, Compress (NewSnapshotCompressor 12) ex_item ex_metadata = Ok z ∧
    Decompress z = Ok (ex_item, ∅).
Proof. exact (@snapshot_round_trip _ stored_gzip_laws 12 ex_item ex_metadata eq_refl). Defined.

Lemma Decompress_magic_witness :
  slice (bytes_of_string "DBFS" ++ [byte_of 1; byte_of 0; byte_of 0; byte_of 0; byte_of 0; byte_of 31]) 0 4
    = bytes_of_string "DBFS".
Proof. apply (Decompress_magic _ ([], ∅)). reflexivity. Defined.
End witnesses.
