(* ===== verification/Locks.v ===== *)
(** The read-write mutex of [CountingBloomFilter] and the methods that take it.

    The other files treat a method of the filter as one atomic step.  This one
    justifies that: threads run the lock operations of the methods they call
    under the semantics of [sync.RWMutex], and the invariant shows that a
    method inside its write section is alone and that the methods of
    [counting.go] never deadlock.  [CompressSerialize] read-locks a second time
    through [Serialize], which deadlocks with a writer in between.

    [Lock] is two steps, as in the implementation of [sync.RWMutex]: it first
    takes the writer slot, which blocks new readers, then waits for the current
    readers to leave. *)

From S2P Require Import Prelude.

(** * Definitions *)

Inductive act : Type :=
  | ARLock | ARUnlock
  | ALock | ADrain | AUnlock.

#[export] Instance act_eq_dec : EqDecision act.
Proof. solve_decision. Defined.

Inductive method : Type :=
  | MAdd | MRemove | MBatchAdd | MBatchRemove | MContains | MBatchContains | MCount
  | MReset | MSize | MHashCount | MSerialize | MCompressSerialize.

(** The lock operations of each method, [defer]red ones last. *)
Definition counting_locks (m : method) : list act :=
  match m with
  | MAdd | MRemove | MBatchAdd | MBatchRemove | MReset => [ALock; ADrain; AUnlock]
  | MContains | MBatchContains | MCount | MSerialize => [ARLock; ARUnlock]
  | _ => []
  end.

Definition CompressSerialize_locks : list act :=
  [ARLock] ++ counting_locks MSerialize ++ [ARUnlock].

Definition method_locks (m : method) : list act :=
  match m with MCompressSerialize => CompressSerialize_locks | _ => counting_locks m end.

Record lock_state : Type := mkLocks {
  ls_readers : Z;
  ls_writer : option nat;          (* the thread in the writer slot *)
  ls_threads : list (list act)     (* what each thread still has to do *)
}.

Inductive lock_step : lock_state → lock_state → Prop :=
  | step_rlock r ts t p : ts !! t = Some (ARLock :: p) →
      lock_step (mkLocks r None ts) (mkLocks (r + 1) None (<[t := p]> ts))
  | step_runlock r w ts t p : ts !! t = Some (ARUnlock :: p) →
      lock_step (mkLocks r w ts) (mkLocks (r - 1) w (<[t := p]> ts))
  | step_lock r ts t p : ts !! t = Some (ALock :: p) →
      lock_step (mkLocks r None ts) (mkLocks r (Some t) (<[t := p]> ts))
  | step_drain ts t p : ts !! t = Some (ADrain :: p) →
      lock_step (mkLocks 0 (Some t) ts) (mkLocks 0 (Some t) (<[t := p]> ts))
  | step_unlock r ts t p : ts !! t = Some (AUnlock :: p) →
      lock_step (mkLocks r (Some t) ts) (mkLocks r None (<[t := p]> ts)).

(** Each thread calls a sequence of methods. *)
Definition start (clients : list (list method)) : lock_state :=
  mkLocks 0 None ((λ ms, ms ≫= method_locks) <$> clients).

Definition finished (s : lock_state) : Prop := Forall (λ p, p = []) (ls_threads s).

Definition lock_reach (clients : list (list method)) : lock_state → Prop :=
  rtc lock_step (start clients).

(** * The invariant *)

(** Programs of disjoint sections, between two calls ... *)
Fixpoint sections (p : list act) : bool :=
  match p with
  | [] => true
  | ARLock :: ARUnlock :: p' => sections p'
  | ALock :: ADrain :: AUnlock :: p' => sections p'
  | _ => false
  end.

(** ... or inside one. *)
Definition shape (p : list act) : bool :=
  match p with
  | ARUnlock :: p' | ADrain :: AUnlock :: p' | AUnlock :: p' => sections p'
  | _ => sections p
  end.

Definition in_read (p : list act) : Z := match p with ARUnlock :: _ => 1 | _ => 0 end.
Definition in_write (p : list act) : Z := match p with ADrain :: _ | AUnlock :: _ => 1 | _ => 0 end.

Record lock_inv (s : lock_state) : Prop := {
  li_shape : Forall (λ p, shape p = true) (ls_threads s);
  li_readers : ls_readers s = zsum in_read (ls_threads s);
  li_writers : zsum in_write (ls_threads s) = if ls_writer s is Some _ then 1 else 0;
  li_owner t : ls_writer s = Some t → ∃ p, ls_threads s !! t = Some p ∧ in_write p = 1;
  li_drained t p : ls_threads s !! t = Some (AUnlock :: p) → ls_readers s = 0
}.

Lemma in_read_nonneg p : 0 ≤ in_read p.
Proof. destruct p as [|[] ?]; cbn; lia. Qed.
Lemma in_write_nonneg p : 0 ≤ in_write p.
Proof. destruct p as [|[] ?]; cbn; lia. Qed.

Lemma sections_app p q : sections p = true → sections (p ++ q) = sections q.
Proof.
  revert q. induction p as [p IH] using (induction_ltof1 _ length).
  unfold ltof in IH.
  intros q Hp. destruct p as [|a p]; [done|].
  destruct a; cbn in Hp; try done; destruct p as [|[] p]; try done.
  - cbn. apply IH; [cbn; lia|done].
  - destruct p as [|[] p]; try done. cbn. apply IH; [cbn; lia|done].
Qed.

(** What remains of a program after its first step. *)
Lemma shape_step a p : shape (a :: p) = true →
  match a with
  | ARLock => shape p = true ∧ in_read p = 1 ∧ in_write p = 0
  | ALock => shape p = true ∧ in_read p = 0 ∧ in_write p = 1 ∧ head p = Some ADrain
  | ADrain => shape p = true ∧ in_read p = 0 ∧ in_write p = 1
  | ARUnlock | AUnlock => shape p = true ∧ in_read p = 0 ∧ in_write p = 0
  end.
Proof.
  destruct a; cbn; intros Hp; try done; destruct p as [|b p]; try done; destruct b; try done;
    destruct p as [|c p]; try done; destruct c; try done; by destruct p as [|[] p].
Qed.

Lemma start_inv clients : Forall (Forall (λ m, m ≠ MCompressSerialize)) clients →
  lock_inv (start clients).
Proof.
  intros Hc. assert (Hsec : Forall (λ p, sections p = true ∧ in_read p = 0 ∧ in_write p = 0)
    ((λ ms, ms ≫= method_locks) <$> clients)).
  { apply Forall_fmap. eapply Forall_impl; [exact Hc|]. cbn. intros ms Hms.
    assert (Hs : sections (ms ≫= method_locks) = true).
    { induction Hms as [|m ms Hm _ IH]; [done|]. change ((m :: ms) ≫= method_locks)
        with (method_locks m ++ (ms ≫= method_locks)). rewrite sections_app; [done|].
      by destruct m. }
    split; [done|]. by destruct (ms ≫= method_locks) as [|[] ?]. }
  unfold start. revert Hsec. generalize ((λ ms, ms ≫= method_locks) <$> clients) as ts.
  intros ts Hsec.
  assert (zsum in_read ts = 0 ∧ zsum in_write ts = 0) as [Hr Hw].
  { induction Hsec as [|p ts (_ & ? & ?) _ [? ?]]; [done|]. rewrite !zsum_cons. lia. }
  split; cbn; try done.
  eapply Forall_impl; [exact Hsec|]. cbn. intros p (Hs & ? & ?). by destruct p as [|[] ?].
Qed.

(** One thread [t] moves from [a :: p] to [p]. *)
Lemma threads_step ts t a p : Forall (λ p, shape p = true) ts → ts !! t = Some (a :: p) →
  shape p = true →
  Forall (λ p, shape p = true) (<[t := p]> ts) ∧
  zsum in_read (<[t := p]> ts) = zsum in_read ts - in_read (a :: p) + in_read p ∧
  zsum in_write (<[t := p]> ts) = zsum in_write ts - in_write (a :: p) + in_write p.
Proof. intros Hs Ht Hp. split_and!; [by apply Forall_insert|by apply zsum_insert..]. Qed.

Lemma other_writer ts t t' p p' : ts !! t = Some p → ts !! t' = Some p' →
  zsum in_write ts ≤ 1 → in_write p = 1 → in_write p' = 1 → t = t'.
Proof.
  intros Ht Ht' Hle Hw Hw'. destruct (decide (t = t')) as [|Hne]; [done|]. exfalso.
  pose proof (zsum_insert in_write ts t p [] Ht) as Hs. cbn in Hs.
  pose proof (zsum_elem_le in_write (<[t := []]> ts) t' p' in_write_nonneg) as Hle'.
  rewrite list_lookup_insert_ne in Hle' by done. specialize (Hle' Ht'). lia.
Qed.

Lemma no_writer_no_unlock ts t p : zsum in_write ts = 0 → ts !! t = Some (AUnlock :: p) → False.
Proof. intros Hz Ht. pose proof (zsum_elem_le in_write ts t _ in_write_nonneg Ht) as Hle. cbn in Hle. lia. Qed.

Lemma lock_step_inv s s' : lock_inv s → lock_step s s' → lock_inv s'.
Proof.
  intros [Hs Hr Hw Ho Hd] Hstep.
  destruct Hstep as [r ts t p Ht|r w ts t p Ht|r ts t p Ht|ts t p Ht|r ts t p Ht];
    cbn in *; pose proof Ht as Hp; eapply Forall_lookup_1 in Hp; [|exact Hs| |exact Hs| |exact Hs| |exact Hs| |exact Hs];
    apply shape_step in Hp; cbn in Hp.
  all: destruct (threads_step ts t _ p Hs Ht) as (Hs' & Hr' & Hw'); [tauto|]; cbn in Hr', Hw'.
  - destruct Hp as (_ & Hpr & Hpw). split; cbn; [done|lia|lia|done|].
    intros t' p' Ht'. exfalso. eapply (no_writer_no_unlock _ t' p'); [|exact Ht']. lia.
  - destruct Hp as (_ & Hpr & Hpw). split; cbn; [done|lia|rewrite Hw', Hw; destruct w; lia| |].
    + intros t' Hw0. destruct (Ho t' Hw0) as (q & Hq & Hqw). exists q. split; [|done].
      rewrite list_lookup_insert_ne; [done|]. intros ->. rewrite Ht in Hq. by injection Hq as <-.
    + intros t' p' Ht'. pose proof (zsum_elem_le in_read ts t _ in_read_nonneg Ht) as Hle. cbn in Hle.
      destruct (decide (t = t')) as [<-|Hne].
      * rewrite list_lookup_insert_eq in Ht' by (by eapply lookup_lt_Some). injection Ht' as ->. done.
      * rewrite list_lookup_insert_ne in Ht' by done. apply Hd in Ht'. lia.
  - destruct Hp as (_ & Hpr & Hpw & Hh). split; cbn; [done|lia|lia| |].
    + intros t' [= <-]. exists p. split; [|done]. apply list_lookup_insert_eq. by eapply lookup_lt_Some.
    + intros t' p' Ht'. exfalso. destruct (decide (t = t')) as [<-|Hne].
      * rewrite list_lookup_insert_eq in Ht' by (by eapply lookup_lt_Some). by injection Ht' as ->.
      * rewrite list_lookup_insert_ne in Ht' by done. by eapply no_writer_no_unlock.
  - destruct Hp as (_ & Hpr & Hpw). split; cbn; [done|lia|lia| |done].
    intros t' [= <-]. exists p. split; [|done]. apply list_lookup_insert_eq. by eapply lookup_lt_Some.
  - destruct Hp as (_ & Hpr & Hpw). split; cbn; [done|lia|lia|done|].
    intros t' p' Ht'. exfalso. eapply (no_writer_no_unlock _ t' p'); [|exact Ht']. lia.
Qed.

Lemma lock_reach_inv clients s : Forall (Forall (λ m, m ≠ MCompressSerialize)) clients →
  lock_reach clients s → lock_inv s.
Proof.
  intros Hc Hreach. pose proof (start_inv clients Hc) as Hi. unfold lock_reach in Hreach.
  revert Hi. induction Hreach as [|s1 s2 s3 Hstep _ IH]; eauto using lock_step_inv.
Qed.

(** Mutual exclusion, which makes a method one atomic step: in every
    interleaving of the methods of [counting.go], while one thread is in its
    write section no other thread is in a read section or in a write section. *)
Theorem write_section_alone clients s t p t' p' :
  Forall (Forall (λ m, m ≠ MCompressSerialize)) clients → lock_reach clients s →
  ls_threads s !! t = Some (AUnlock :: p) → ls_threads s !! t' = Some p' → t' ≠ t →
  in_read p' = 0 ∧ in_write p' = 0.
Proof.
  intros Hc Hreach Ht Ht' Hne. destruct (lock_reach_inv clients s Hc Hreach) as [_ Hr Hw _ Hd].
  pose proof (Hd t p Ht) as Hzero.
  pose proof (zsum_elem_le in_read _ t' p' in_read_nonneg Ht').
  pose proof (in_read_nonneg p'). split; [lia|].
  destruct (decide (in_write p' = 0)) as [|Hn]; [done|]. exfalso. apply Hne. symmetry.
  eapply other_writer; [exact Ht|exact Ht'| |done|by destruct p' as [|[] ?]].
  rewrite Hw. by destruct (ls_writer s).
Qed.

(** C34: the methods of [counting.go] never deadlock: in every reachable state
    either all threads have finished or some thread can take a step. *)
Theorem methods_deadlock_free clients s :
  Forall (Forall (λ m, m ≠ MCompressSerialize)) clients → lock_reach clients s →
  finished s ∨ ∃ s', lock_step s s'.
Proof.
  intros Hc Hreach. destruct (lock_reach_inv clients s Hc Hreach) as [Hs Hr Hw Ho Hd].
  destruct s as [r w ts]. cbn in *.
  assert (Hread : 0 < r → ∃ s', lock_step (mkLocks r w ts) s').
  { intros Hpos. destruct (zsum_pos_elem in_read ts) as (t & p & Ht & Hp); [lia|].
    destruct p as [|[] p]; try done. eexists. by eapply step_runlock. }
  destruct w as [t|].
  - right. destruct (Ho t eq_refl) as (p & Ht & Hp). destruct p as [|[] p]; try done.
    + destruct (decide (0 < r)); [auto|].
      assert (r = 0) as -> by (pose proof (zsum_nonneg in_read ts in_read_nonneg); lia).
      eexists. by eapply step_drain.
    + eexists. by eapply step_unlock.
  - destruct (decide (Forall (λ p, p = []) ts)) as [Hf|Hf]; [by left|]. right.
    apply not_Forall_Exists in Hf; [|apply _]. apply Exists_exists in Hf as (p & Hin & Hne).
    apply list_elem_of_lookup in Hin as [t Ht].
    pose proof (zsum_elem_le in_write ts t p in_write_nonneg Ht).
    destruct p as [|[] p]; cbn in *; try done; try lia.
    + eexists. by eapply step_rlock.
    + eexists. by eapply step_runlock.
    + eexists. by eapply step_lock.
Qed.

(** [CompressSerialize] holds the read lock while [Serialize] asks for it
    again: with one concurrent [Add] between the two requests neither thread
    can ever continue. *)
Theorem CompressSerialize_deadlock :
  ∃ s, lock_reach [[MCompressSerialize]; [MAdd]] s ∧ ¬ finished s ∧ ∀ s', ¬ lock_step s s'.
Proof.
  exists (mkLocks 1 (Some 1%nat) [[ARLock; ARUnlock; ARUnlock]; [ADrain; AUnlock]]). split_and!.
  - eapply rtc_l; [eapply (step_rlock 0 _ 0); reflexivity|].
    eapply rtc_l; [eapply (step_lock 1 _ 1); reflexivity|]. apply rtc_refl.
  - intros Hf. by inversion Hf.
  - intros s' Hstep. inversion Hstep as [|? ? ? t p Ht| |? ? Ht|? ? t p Ht]; subst; try done.
    by destruct t as [|[|t]].
Qed.

(** * Closed instances *)

Definition ex_clients : list (list method) := [[MAdd; MContains]; [MSerialize]].

Lemma ex_clients_ok : Forall (Forall (λ m, m ≠ MCompressSerialize)) ex_clients.
Proof. repeat constructor; discriminate. Qed.

Lemma ex_lock_reach :
  lock_reach ex_clients (mkLocks 0 (Some 0%nat) [[AUnlock; ARLock; ARUnlock]; [ARLock; ARUnlock]]).
Proof.
  eapply rtc_l; [eapply (step_lock 0 _ 0); reflexivity|].
  eapply rtc_l; [eapply (step_drain _ 0); reflexivity|]. apply rtc_refl.
Qed.

Lemma write_section_alone_witness :
  in_read [ARLock; ARUnlock] = 0 ∧ in_write [ARLock; ARUnlock] = 0.
Proof.
  exact (write_section_alone ex_clients _ 0 _ 1 _ ex_clients_ok ex_lock_reach eq_refl eq_refl
    ltac:(discriminate)).
Defined.

Lemma methods_deadlock_free_witness :
  let s := mkLocks 0 (Some 0%nat) [[AUnlock; ARLock; ARUnlock]; [ARLock; ARUnlock]] in
  finished s ∨ ∃ s', lock_step s s'.
Proof. exact (methods_deadlock_free ex_clients _ ex_clients_ok ex_lock_reach). Defined.
