(* ===== verification/WalCrypto.v ===== *)
(** [internal/wal/encryptor.go], the encryptor: keys, versions and the record
    format [length(4) | version(4) | nonce(12) | sealed data].

    AES-GCM is the class [AEAD]; [AEADLaws] states what [crypto/cipher]
    documents of [Seal] and [Open].  Bytes from [crypto/rand] are arguments,
    [None] when the source fails.  The Kubernetes secret is a directory in a
    map from paths to contents. *)

From S2P Require Import Prelude GoBytes GoFmt CountingCodec.

(** * Definitions *)

Definition KeyCacheDuration : Z := 5 * 60 * 10 ^ 9.
Definition NonceSize : Z := 12.

Abbreviation key := (list byte).

Class AEAD : Type := {
  gcm_seal : key → list byte → list byte → list byte;
  gcm_open : key → list byte → list byte → option (list byte)
}.

(** [aes.NewCipher] accepts keys of 16, 24 or 32 bytes. *)
Definition aes_key (k : key) : bool :=
  bool_decide (len k = 16 ∨ len k = 24 ∨ len k = 32).

(** [Open] undoes [Seal], and accepts nothing but what [Seal] produces. *)
Class AEADLaws `{AEAD} : Prop := {
  open_seal k n p : aes_key k = true → len n = NonceSize → gcm_open k n (gcm_seal k n p) = Some p;
  open_inv k n c p : aes_key k = true → len n = NonceSize → gcm_open k n c = Some p → c = gcm_seal k n p
}.

Inductive wal_error : Type :=
  | EReadKey
  | EKeyTooShort
  | EKeyVersion (v : Z)
  | ECipher
  | ERandom
  | ETooShort
  | EDecrypt
  | EClosed                 (* os.ErrClosed *)
  | ENotExist               (* os.ErrNotExist *)
  | EIsDir.

#[export] Instance wal_error_eq_dec : EqDecision wal_error.
Proof. solve_decision. Defined.

Record WALEncryptor : Type := mkEncryptor {
  currentKey : key;
  keyVersion : Z;
  keyCache : gmap Z key;
  keyCacheTime : Z;
  secretPath : string       (* the K8s loader is present iff not empty *)
}.

(** ** Keys *)

Definition secret_file (dir name : string) : string := (dir +:+ "/" +:+ name).

Definition LoadKey (fs : gmap string (list byte)) (dir : string) : result wal_error (key * Z) :=
  match fs !! secret_file dir "key" with
  | None => Err EReadKey
  | Some keyData =>
      let versionData := default (bytes_of_string "1") (fs !! secret_file dir "version") in
      let text := string_of_bytes versionData in
      let version := default 0 (Sscanf_d (no_width text) 32 text) in
      let version := if decide (version = 0) then 1 else version in
      if decide (len keyData < 32) then Err EKeyTooShort
      else Ok (slice keyData 0 32, version)
  end.

Definition NewWALEncryptor (fs : gmap string (list byte)) (rnd : option key) (now : Z) (path : string)
  : result wal_error WALEncryptor :=
  if decide (path ≠ "") then
    '(k, version) ← LoadKey fs path;
    Ok (mkEncryptor k version {[version := k]} now path)
  else
    match rnd with
    | None => Err ERandom
    | Some k => Ok (mkEncryptor k 1 {[1 := k]} now path)
    end.

Definition RefreshKey (fs : gmap string (list byte)) (now : Z) (e : WALEncryptor)
  : WALEncryptor * option wal_error :=
  if decide (now - keyCacheTime e < KeyCacheDuration) then (e, None)
  else if decide (secretPath e ≠ "") then
    match LoadKey fs (secretPath e) with
    | Err err => (e, Some err)
    | Ok (k, version) =>
        (mkEncryptor k version (<[version := k]> (keyCache e)) now (secretPath e), None)
    end
  else (e, None).

Definition GetCurrentKey (e : WALEncryptor) : key * Z := (currentKey e, keyVersion e).

Definition GetKeyByVersion (e : WALEncryptor) (version : Z) : result wal_error key :=
  match keyCache e !! version with
  | None => Err (EKeyVersion version)
  | Some k => Ok k
  end.

Definition RotateKey (rnd : option key) (now : Z) (e : WALEncryptor) : WALEncryptor * option wal_error :=
  match rnd with
  | None => (e, Some ERandom)
  | Some newKey =>
      let v := u32 (keyVersion e + 1) in
      (mkEncryptor newKey v (<[v := newKey]> (keyCache e)) now (secretPath e), None)
  end.

(** ** Records *)

Section records.
Context `{AEAD}.

Definition Encrypt (e : WALEncryptor) (rnd : option (list byte)) (plaintext : list byte)
  : result wal_error (list byte) :=
  if negb (aes_key (currentKey e)) then Err ECipher
  else
    match rnd with
    | None => Err ERandom
    | Some nonce =>
        let ciphertext := nonce ++ gcm_seal (currentKey e) nonce plaintext in
        Ok (PutUint32 (u32 (4 + len ciphertext)) ++ PutUint32 (keyVersion e) ++ ciphertext)
    end.

(** [data[:nonceSize]] and [data[nonceSize:cipherLen]] are in bounds exactly
    when [nonceSize <= cipherLen]. *)
Definition Decrypt (e : WALEncryptor) (ciphertext : list byte) : go (result wal_error (list byte)) :=
  if decide (len ciphertext < 8) then Ret (Err ETooShort)
  else
    let totalLen := Uint32 (slice ciphertext 0 4) in
    let version := Uint32 (slice ciphertext 4 8) in
    match GetKeyByVersion e version with
    | Err err => Ret (Err err)
    | Ok k =>
        if negb (aes_key k) then Ret (Err ECipher)
        else
          let data := drop 8 ciphertext in
          let cipherLen := totalLen - 4 in
          if decide (len data < cipherLen) then Ret (Err ETooShort)
          else if decide (cipherLen < NonceSize) then Panic SliceBoundsOutOfRange
          else
            let nonce := slice data 0 NonceSize in
            match gcm_open k nonce (slice data NonceSize cipherLen) with
            | None => Ret (Err EDecrypt)
            | Some plaintext => Ret (Ok plaintext)
            end
    end.

(** * Lemmas *)

Definition record_of (k : key) (v : Z) (nonce p : list byte) : list byte :=
  PutUint32 (u32 (4 + len (nonce ++ gcm_seal k nonce p))) ++ PutUint32 v ++ nonce ++ gcm_seal k nonce p.

(** A record fits its 32-bit length field. *)
Definition fits (k : key) (nonce p : list byte) : Prop :=
  len nonce = NonceSize ∧ 4 + len (nonce ++ gcm_seal k nonce p) < 2 ^ 32.

Definition encryptor_ok (e : WALEncryptor) : Prop :=
  aes_key (currentKey e) = true ∧ 0 ≤ keyVersion e < 2 ^ 32 ∧
  keyCache e !! keyVersion e = Some (currentKey e).

Lemma Encrypt_record e nonce p : aes_key (currentKey e) = true →
  Encrypt e (Some nonce) p = Ok (record_of (currentKey e) (keyVersion e) nonce p).
Proof. intros Hk. unfold Encrypt, record_of. by rewrite Hk. Qed.

Lemma drop_app_len {A} (a b : list A) n : length a = n → drop n (a ++ b) = b.
Proof. intros <-. apply drop_app_length. Qed.

(** [Decrypt] reads a record back under any encryptor that knows its key. *)
Lemma Decrypt_record `{!AEADLaws} e k v nonce p tail :
  keyCache e !! v = Some k → aes_key k = true → 0 ≤ v < 2 ^ 32 → fits k nonce p →
  Decrypt e (record_of k v nonce p ++ tail) = Ret (Ok p).
Proof.
  intros Hk Hkey Hv [Hn Hfit]. unfold record_of.
  set (c := nonce ++ gcm_seal k nonce p) in *. pose proof (len_nonneg c) as Hc0.
  assert (Hlc : NonceSize ≤ len c) by (unfold c; rewrite len_app, Hn; pose proof (len_nonneg (gcm_seal k nonce p)); lia).
  rewrite <- !(assoc_L (++)). unfold Decrypt. pose proof (len_nonneg tail).
  rewrite decide_False by (rewrite !len_app; change (len (PutUint32 _)) with 4; lia).
  rewrite slice_all by done. rewrite slice_app_r by (change (len (PutUint32 _)) with 4; lia).
  change (len (PutUint32 (u32 (4 + len c)))) with 4. rewrite (slice_all (PutUint32 v)) by done.
  rewrite !Uint32_Put. rewrite (u32_small (4 + len c)), (u32_small v), u32_small by lia.
  unfold GetKeyByVersion. rewrite Hk, Hkey. cbn [negb].
  rewrite (assoc_L (++) (PutUint32 _) (PutUint32 v)), drop_app_len by done.
  rewrite decide_False by (rewrite len_app; lia). rewrite decide_False by lia.
  unfold c at 1 2. rewrite <- (assoc_L (++)). rewrite (slice_all nonce) by done.
  rewrite slice_app_r by lia. rewrite Hn, Z.sub_diag.
  rewrite slice_all by (unfold c; rewrite len_app; lia). by rewrite open_seal.
Qed.

Lemma length_record k v nonce p : length (record_of k v nonce p) = (8 + length (nonce ++ gcm_seal k nonce p))%nat.
Proof. unfold record_of. by rewrite !length_app. Qed.

(** A record whose length field is below 16 and whose version is known makes
    [Decrypt] panic instead of returning an error. *)
Lemma Decrypt_short_record_panics e v k n tail :
  keyCache e !! v = Some k → aes_key k = true → 0 ≤ v < 2 ^ 32 →
  0 ≤ n < 16 → n - 4 ≤ len tail →
  Decrypt e (PutUint32 n ++ PutUint32 v ++ tail) = Panic SliceBoundsOutOfRange.
Proof.
  intros Hk Hkey Hv Hn Ht. unfold Decrypt. pose proof (len_nonneg tail).
  rewrite decide_False by (rewrite !len_app; change (len (PutUint32 _)) with 4; lia).
  rewrite slice_all by done. rewrite slice_app_r by (change (len (PutUint32 _)) with 4; lia).
  change (len (PutUint32 n)) with 4. rewrite (slice_all (PutUint32 v)) by done.
  rewrite !Uint32_Put, !u32_small by lia. unfold GetKeyByVersion. rewrite Hk, Hkey. cbn [negb].
  rewrite (assoc_L (++)), drop_app_len by done. rewrite decide_False by lia.
  unfold NonceSize. by rewrite decide_True by lia.
Qed.
End records.

(** ** Rotation *)

(** No cached version is newer than the current one: true of a new encryptor
    and kept by [RotateKey]. *)
Definition versions_below (e : WALEncryptor) : Prop :=
  ∀ v k, keyCache e !! v = Some k → v ≤ keyVersion e.

Fixpoint rotations (ks : list (key * Z)) (e : WALEncryptor) : WALEncryptor :=
  match ks with
  | [] => e
  | (k, now) :: ks' => rotations ks' (RotateKey (Some k) now e).1
  end.

(** Keys of [e] are still the keys of [e']. *)
Definition keys_kept (e e' : WALEncryptor) : Prop := keyCache e ⊆ keyCache e'.

Lemma rotate_ok k now e : encryptor_ok e → versions_below e → aes_key k = true →
  keyVersion e + 1 < 2 ^ 32 →
  let e' := (RotateKey (Some k) now e).1 in
  encryptor_ok e' ∧ versions_below e' ∧ keys_kept e e' ∧ keyVersion e' = keyVersion e + 1.
Proof.
  intros (Hk & Hv & Hc) Hb Hk' Hlt e'. unfold e'; cbn. rewrite u32_small by lia.
  assert (Hfresh : keyCache e !! (keyVersion e + 1) = None).
  { destruct (keyCache e !! (keyVersion e + 1)) eqn:E; [|done]. apply Hb in E. lia. }
  split_and!; [split_and!; cbn|..]; cbn; try lia; [done|by rewrite lookup_insert_eq| |by apply insert_subseteq].
  intros v k1. cbn. intros [[<- <-]|[_ Hv1]]%lookup_insert_Some; [lia|]. apply Hb in Hv1. lia.
Qed.

Lemma rotations_ok ks e : encryptor_ok e → versions_below e →
  Forall (λ kn, aes_key kn.1 = true) ks → keyVersion e + len ks < 2 ^ 32 →
  encryptor_ok (rotations ks e) ∧ keys_kept e (rotations ks e).
Proof.
  intros He Hb Hks. revert e He Hb. induction Hks as [|[k now] ks Hk Hks IH]; intros e He Hb Hlt.
  { split; [done|]. unfold keys_kept. reflexivity. }
  rewrite len_cons in Hlt. pose proof (len_nonneg ks).
  destruct (rotate_ok k now e He Hb Hk) as (He' & Hb' & Hkept & Hv'); [lia|].
  destruct (IH _ He' Hb') as [H1 H2]; [lia|]. split; [done|]. unfold keys_kept in *. by etransitivity.
Qed.

Section theorems.
Context `{AEADLaws}.

(** C19: the record format round trip across key rotations: what an encryptor
    encrypts, the same encryptor decrypts after any number of rotations that
    does not exhaust the 32-bit version counter. *)
Theorem Decrypt_after_rotations e ks nonce p :
  encryptor_ok e → versions_below e → Forall (λ kn, aes_key kn.1 = true) ks →
  keyVersion e + len ks < 2 ^ 32 → fits (currentKey e) nonce p →
  ∃ c, Encrypt e (Some nonce) p = Ok c ∧ Decrypt (rotations ks e) c = Ret (Ok p).
Proof.
  intros He Hb Hks Hlt Hfit. pose proof He as (Hk & Hv & Hc).
  destruct (rotations_ok ks e He Hb Hks Hlt) as [_ Hkept].
  eexists. split; [by apply Encrypt_record|]. rewrite <- (app_nil_r (record_of _ _ _ _)).
  apply Decrypt_record; [|done..]. by eapply lookup_weaken.
Qed.

(** Authenticity of what [Decrypt] accepts: a plaintext is only ever
    returned for bytes that carry the version of a known key and, after a
    12-byte nonce, exactly the sealing of that plaintext under that key. *)
Theorem Decrypt_authentic e c p :
  Decrypt e c = Ret (Ok p) →
  ∃ n v k nonce tail, keyCache e !! v = Some k ∧ len nonce = NonceSize ∧
    c = PutUint32 n ++ PutUint32 v ++ nonce ++ gcm_seal k nonce p ++ tail.
Proof.
  unfold Decrypt. case_decide as H8; [done|].
  destruct c as [|b0 [|b1 [|b2 [|b3 [|b4 [|b5 [|b6 [|b7 data]]]]]]]]; try (destruct H8; reflexivity).
  change (slice _ 0 4) with [b0; b1; b2; b3]. change (slice _ 4 8) with [b4; b5; b6; b7].
  change (drop 8 _) with data. unfold GetKeyByVersion.
  destruct (keyCache e !! _) as [k|] eqn:Hk; [|done].
  destruct (aes_key k) eqn:Hkey; [|done]. cbn [negb]. case_decide as Hlen; [done|].
  case_decide as Hn; [done|].
  set (nonce := slice data 0 NonceSize). set (cl := Uint32 [b0; b1; b2; b3] - 4) in *.
  destruct (gcm_open k nonce _) as [q|] eqn:Ho; [|done]. intros [= ->].
  assert (Hnl : len nonce = NonceSize).
  { unfold nonce, slice, len in *. rewrite length_take, length_drop. unfold NonceSize in *. lia. }
  apply open_inv in Ho; [|done..].
  exists (Uint32 [b0; b1; b2; b3]), (Uint32 [b4; b5; b6; b7]), k, nonce, (drop (Z.to_nat cl) data).
  split_and!; [done..|]. rewrite !PutUint32_Uint32, <- Ho.
  change (b0 :: b1 :: b2 :: b3 :: b4 :: b5 :: b6 :: b7 :: data)
    with ([b0; b1; b2; b3] ++ [b4; b5; b6; b7] ++ data). do 2 f_equal.
  unfold nonce, slice. rewrite Z.sub_0_r. change (drop (Z.to_nat 0) data) with data.
  rewrite <- (take_drop (Z.to_nat NonceSize) data) at 1. f_equal.
  rewrite <- (take_drop (Z.to_nat (cl - NonceSize)) (drop (Z.to_nat NonceSize) data)) at 1. f_equal.
  rewrite drop_drop. f_equal. unfold NonceSize in *. lia.
Qed.

End theorems.

(** Versions are reused after a reload: with a mounted secret, a rotation,
    a refresh (which goes back to the version of the secret) and a second
    rotation give two different keys the same version, and the first of them,
    with everything written under it, is gone. *)
Theorem rotation_reuses_version fs rnd now path e k2 now2 now3 k3 now4 :
  NewWALEncryptor fs rnd now path = Ok e → path ≠ "" →
  now2 + KeyCacheDuration ≤ now3 →
  let e2 := (RotateKey (Some k2) now2 e).1 in
  let e3 := (RefreshKey fs now3 e2).1 in
  let e4 := (RotateKey (Some k3) now4 e3).1 in
  keyVersion e4 = keyVersion e2 ∧
  keyCache e2 !! keyVersion e2 = Some k2 ∧ keyCache e4 !! keyVersion e2 = Some k3.
Proof.
  intros Hnew Hp Ht. unfold NewWALEncryptor in Hnew. rewrite decide_True in Hnew by done.
  apply result_bind_Ok in Hnew as ([k v] & Hload & [= <-]). cbn zeta.
  unfold RefreshKey. cbn [RotateKey fst keyCacheTime secretPath keyVersion keyCache].
  rewrite decide_False by lia. rewrite decide_True by done. rewrite Hload.
  cbn [RotateKey fst keyVersion keyCache]. split_and!; [done|by rewrite lookup_insert_eq..].
Qed.

(** * Closed instances *)

(** A sealing that appends the key and the nonce as its tag. *)
Definition tag_aead : AEAD := {|
  gcm_seal k n p := p ++ n ++ k;
  gcm_open k n c :=
    let m := (length c - length (n ++ k))%nat in
    if decide (c = take m c ++ n ++ k) then Some (take m c) else None
|}.

Section witnesses.
#[local] Existing Instance tag_aead.

Lemma tag_aead_laws : AEADLaws.
Proof.
  split; cbn.
  - intros k n p _ _. rewrite (length_app p), Nat.add_sub, take_app_length.
    by rewrite decide_True.
  - intros k n c p _ _ Hc. case_decide as Hd; [|done]. by injection Hc as <-.
Qed.

Definition ex_key (b : Z) : key := replicate 32 (byte_of b).
Definition ex_enc : WALEncryptor := mkEncryptor (ex_key 1) 1 {[1 := ex_key 1]} 0 "".
Definition ex_nonce : list byte := replicate 12 (byte_of 9).
Definition ex_plain : list byte := bytes_of_string "add user:1".

Lemma ex_enc_ok : encryptor_ok ex_enc ∧ versions_below ex_enc.
Proof.
  split; [done|]. intros v k. cbn. intros [<- _]%lookup_singleton_Some. lia.
Qed.

Lemma Decrypt_after_rotations_witness :
  ∃ c, Encrypt ex_enc (Some ex_nonce) ex_plain = Ok c ∧
    Decrypt (rotations [(ex_key 2, 5); (ex_key 3, 6)] ex_enc) c = Ret (Ok ex_plain).
Proof.
  apply (@Decrypt_after_rotations _ tag_aead_laws).
  - apply ex_enc_ok.
  - apply ex_enc_ok.
  - repeat constructor.
  - reflexivity.
  - split; reflexivity.
Defined.

Lemma Decrypt_authentic_witness :
  ∃ n v k nonce tail, keyCache ex_enc !! v = Some k ∧ len nonce = NonceSize ∧
    record_of (ex_key 1) 1 ex_nonce ex_plain =
      PutUint32 n ++ PutUint32 v ++ nonce ++ gcm_seal k nonce ex_plain ++ tail.
Proof. apply (@Decrypt_authentic _ tag_aead_laws). vm_compute. reflexivity. Defined.

Definition ex_secret : gmap string (list byte) :=
  {[ "/keys/key" := ex_key 1; "/keys/version" := bytes_of_string "4" ]}.
Definition ex_secret_enc : WALEncryptor := mkEncryptor (ex_key 1) 4 {[4 := ex_key 1]} 0 "/keys".

Lemma rotation_reuses_version_witness :
  let e2 := (RotateKey (Some (ex_key 2)) 10 ex_secret_enc).1 in
  let e3 := (RefreshKey ex_secret (10 + KeyCacheDuration) e2).1 in
  let e4 := (RotateKey (Some (ex_key 3)) 20 e3).1 in
  keyVersion e4 = keyVersion e2 ∧
  keyCache e2 !! keyVersion e2 = Some (ex_key 2) ∧ keyCache e4 !! keyVersion e2 = Some (ex_key 3).
Proof.
  apply (rotation_reuses_version ex_secret None 0 "/keys" ex_secret_enc); [|done|lia].
  vm_compute. reflexivity.
Defined.
End witnesses.
