(* ===== verification/WalFiles.v ===== *)
(** [internal/wal/encryptor.go], the log files: [WALWriter] with rolling and
    clean-up, and [WALReader].

    The directory is a map from names to files and subdirectories.  Disk
    operations succeed, except where the source tests for a missing file, a
    closed file or a directory in the place of a file.  A call reads the clock
    once ([now]).  The encryptor, a shared pointer in the source, is an
    argument of each call: its state at that moment. *)

From S2P Require Import Prelude GoBytes GoFmt CountingCodec WalCrypto.
From stdpp Require Import sorting.
#[local] Open Scope Z_scope.

(** * Definitions *)

Definition DefaultMaxFileSize : Z := 100 * 1024 * 1024.
Definition DefaultRollingInterval : Z := 5 * 60 * 10 ^ 9.
Definition DefaultMaxFiles : Z := 10.
Definition FileExtension : string := ".wal.enc".

Record file : Type := mkFile { f_data : list byte; f_mtime : Z }.
Inductive node : Type := NFile (f : file) | NDir.
Abbreviation dir := (gmap string node).

Record walFileInfo : Type := mkInfo {
  fi_name : string;
  fi_index : Z;
  fi_modTime : Z;
  fi_size : Z
}.

(** [os.ReadDir]: the entries sorted by name. *)
Definition entry_le (a b : string * node) : Prop := String.leb a.1 b.1 = true.
#[export] Instance entry_le_dec : RelDecision entry_le := λ a b, decide (String.leb a.1 b.1 = true).
Definition ReadDir (d : dir) : list (string * node) := merge_sort entry_le (map_to_list d).

(** The body of the loop over the entries. *)
Definition entry_info (entry : string * node) : option walFileInfo :=
  match entry.2 with
  | NDir => None
  | NFile f =>
      if HasSuffix entry.1 FileExtension then
        Some (mkInfo entry.1 (default 0 (Sscanf_d 6 64 entry.1)) (f_mtime f) (len (f_data f)))
      else None
  end.

(** The inner loop of the sort: compare [x], the element at position [i], with
    each later element, exchanging them when they are out of order. *)
Fixpoint exchange_inner (x : walFileInfo) (l : list walFileInfo) : walFileInfo * list walFileInfo :=
  match l with
  | [] => (x, [])
  | y :: l' =>
      if decide (fi_index y < fi_index x) then
        let '(m, l'') := exchange_inner y l' in (m, x :: l'')
      else
        let '(m, l'') := exchange_inner x l' in (m, y :: l'')
  end.

Fixpoint exchange_outer (n : nat) (l : list walFileInfo) : list walFileInfo :=
  match n, l with
  | S n', x :: l' => let '(m, l'') := exchange_inner x l' in m :: exchange_outer n' l''
  | _, _ => l
  end.

Definition exchange_sort (l : list walFileInfo) : list walFileInfo := exchange_outer (length l) l.

Definition getWALFiles (d : dir) : list walFileInfo := exchange_sort (omap entry_info (ReadDir d)).

(** ** WALWriter *)

Record WALWriter : Type := mkWriter {
  w_currentName : string;
  w_currentSize : Z;
  w_currentTime : Z;
  w_maxFileSize : Z;
  w_rollingInterval : Z;
  w_maxFiles : Z;
  w_currentIndex : Z;
  w_closed : bool               (* of currentFile *)
}.

Definition wal_name (index : Z) : string := Sprintf_06d index +:+ FileExtension.

Definition with_file (w : WALWriter) (name : string) (size time : Z) : WALWriter :=
  mkWriter name size time (w_maxFileSize w) (w_rollingInterval w) (w_maxFiles w)
    (w_currentIndex w) false.

Definition openCurrentFile (now : Z) (d : dir) (w : WALWriter) : dir * WALWriter * option wal_error :=
  let filename := wal_name (w_currentIndex w) in
  match d !! filename with
  | Some (NFile f) => (d, with_file w filename (len (f_data f)) (f_mtime f), None)
  | Some NDir => (d, w, Some EIsDir)
  | None => (<[filename := NFile (mkFile [] now)]> d, with_file w filename 0 now, None)
  end.

(** [for len(files) > maxFiles { os.Remove(files[0]); files = files[1:] }] *)
Fixpoint cleanup_loop (maxFiles : Z) (files : list walFileInfo) (d : dir) : go dir :=
  match files with
  | [] => if decide (maxFiles < 0) then Panic IndexOutOfRange else Ret d
  | oldest :: rest =>
      if decide (maxFiles < len files) then cleanup_loop maxFiles rest (delete (fi_name oldest) d)
      else Ret d
  end.

Definition cleanupOldFiles (d : dir) (w : WALWriter) : go dir :=
  cleanup_loop (w_maxFiles w) (getWALFiles d) d.

Definition doRollFile (now : Z) (d : dir) (w : WALWriter) : go (dir * WALWriter * option wal_error) :=
  if w_closed w then Ret (d, w, Some EClosed)
  else
    let w := mkWriter (w_currentName w) (w_currentSize w) (w_currentTime w) (w_maxFileSize w)
               (w_rollingInterval w) (w_maxFiles w) (u64 (w_currentIndex w + 1)) true in
    let '(d, w, err) := openCurrentFile now d w in
    match err with
    | Some e => Ret (d, w, Some e)
    | None => d ← cleanupOldFiles d w; Ret (d, w, None)
    end.

(** Appending through the open file: a file that was unlinked takes the data
    with it. *)
Definition append_file (now : Z) (d : dir) (name : string) (bytes : list byte) : dir :=
  match d !! name with
  | Some (NFile f) => <[name := NFile (mkFile (f_data f ++ bytes) now)]> d
  | _ => d
  end.

Definition NewWALWriterWithConfig (now : Z) (d : dir) (maxFileSize rollingInterval maxFiles : Z)
  : dir * result wal_error WALWriter :=
  let files := getWALFiles d in
  let index := match last files with Some f => u64 (fi_index f + 1) | None => 1 end in
  let '(d, w, err) :=
    openCurrentFile now d (mkWriter "" 0 0 maxFileSize rollingInterval maxFiles index false) in
  (d, match err with Some e => Err e | None => Ok w end).

Definition NewWALWriter (now : Z) (d : dir) : dir * result wal_error WALWriter :=
  NewWALWriterWithConfig now d DefaultMaxFileSize DefaultRollingInterval DefaultMaxFiles.

Section io.
Context `{AEAD}.

Definition Write (e : WALEncryptor) (rnd : option (list byte)) (now : Z) (data : list byte)
    (d : dir) (w : WALWriter) : go (dir * WALWriter * option wal_error) :=
  match Encrypt e rnd data with
  | Err err => Ret (d, w, Some err)
  | Ok encrypted =>
      let needRoll := bool_decide (w_maxFileSize w < w_currentSize w + len encrypted) ||
                      bool_decide (w_rollingInterval w < now - w_currentTime w) in
      '(d, w, err) ← (if needRoll then doRollFile now d w else Ret (d, w, None));
      match err with
      | Some err => Ret (d, w, Some err)
      | None =>
          if w_closed w then Ret (d, w, Some EClosed)
          else
            let d := append_file now d (w_currentName w) encrypted in
            Ret (d, mkWriter (w_currentName w) (i64 (w_currentSize w + len encrypted)) (w_currentTime w)
                      (w_maxFileSize w) (w_rollingInterval w) (w_maxFiles w) (w_currentIndex w) false, None)
      end
  end.

Definition wal_Close (w : WALWriter) : WALWriter * option wal_error :=
  if w_closed w then (w, Some EClosed)
  else (mkWriter (w_currentName w) (w_currentSize w) (w_currentTime w) (w_maxFileSize w)
          (w_rollingInterval w) (w_maxFiles w) (w_currentIndex w) true, None).

(** ** WALReader *)

(** [data] is what lies after [offset]; every round consumes at least the four
    bytes of the length field. *)
Fixpoint read_loop (fuel : nat) (e : WALEncryptor) (data : list byte) : go (list (list byte)) :=
  match fuel with
  | O => Ret []
  | S fuel' =>
      if decide (len data < 4) then Ret []
      else
        let totalLen := Uint32 (slice data 0 4) in
        let recordLen := 4 + totalLen in
        if decide (len data < recordLen) then Ret []
        else
          r ← Decrypt e (slice data 0 recordLen);
          match r with
          | Err _ => Ret []
          | Ok plaintext =>
              records ← read_loop fuel' e (drop (Z.to_nat recordLen) data);
              Ret (plaintext :: records)
          end
  end.

Definition readFile (e : WALEncryptor) (d : dir) (name : string)
  : go (result wal_error (list (list byte))) :=
  match d !! name with
  | Some (NFile f) => records ← read_loop (length (f_data f)) e (f_data f); Ret (Ok records)
  | Some NDir => Ret (Err EIsDir)
  | None => Ret (Err ENotExist)
  end.

Fixpoint read_files (e : WALEncryptor) (d : dir) (files : list walFileInfo)
  : go (result wal_error (list (list byte))) :=
  match files with
  | [] => Ret (Ok [])
  | f :: files' =>
      r ← readFile e d (fi_name f);
      match r with
      | Err err => Ret (Err err)
      | Ok data =>
          r' ← read_files e d files';
          match r' with
          | Err err => Ret (Err err)
          | Ok rest => Ret (Ok (data ++ rest))
          end
      end
  end.

Definition ReadAll (e : WALEncryptor) (d : dir) : go (result wal_error (list (list byte))) :=
  read_files e d (getWALFiles d).
End io.

(** * The sort *)

Definition index_le (a b : walFileInfo) : Prop := fi_index a ≤ fi_index b.

Lemma exchange_inner_spec x l m l' : exchange_inner x l = (m, l') →
  x :: l ≡ₚ m :: l' ∧ Forall (index_le m) (x :: l).
Proof.
  revert x m l'. induction l as [|y l IH]; intros x m l' Heq; cbn in Heq.
  { injection Heq as <- <-. split; [done|]. repeat constructor. unfold index_le. lia. }
  case_decide as Hlt.
  - destruct (exchange_inner y l) as [m1 l1] eqn:E. injection Heq as <- <-.
    destruct (IH y m1 l1 E) as [Hp Hf]. split; [rewrite Hp; apply Permutation_swap|].
    inversion Hf; subst. constructor; [|by constructor]. unfold index_le in *. lia.
  - destruct (exchange_inner x l) as [m1 l1] eqn:E. injection Heq as <- <-.
    destruct (IH x m1 l1 E) as [Hp Hf]. split.
    + rewrite (Permutation_swap y x l), Hp. apply Permutation_swap.
    + inversion Hf; subst. repeat constructor; [done| |done]. unfold index_le in *. lia.
Qed.

Lemma exchange_outer_spec n l : (length l ≤ n)%nat →
  exchange_outer n l ≡ₚ l ∧ StronglySorted index_le (exchange_outer n l).
Proof.
  revert l. induction n as [|n IH]; intros l Hn.
  { destruct l; [|cbn in Hn; lia]. split; [done|constructor]. }
  destruct l as [|x l]; cbn; [split; [done|constructor]|].
  destruct (exchange_inner x l) as [m l'] eqn:E.
  destruct (exchange_inner_spec x l m l' E) as [Hp Hf].
  assert (length l' = length l) by (apply Permutation_length in Hp; cbn in Hp; lia).
  destruct (IH l') as [Hp' Hs]; [cbn in Hn; lia|]. split.
  - rewrite Hp', <- Hp. done.
  - constructor; [done|]. rewrite Hp'. rewrite Hp in Hf. by inversion Hf.
Qed.

Lemma exchange_sort_spec l :
  exchange_sort l ≡ₚ l ∧ StronglySorted index_le (exchange_sort l).
Proof. by apply exchange_outer_spec. Qed.

(** A list already in strict order of its indices is what the sort returns, from
    any arrangement. *)
Lemma exchange_sort_unique l k : l ≡ₚ k → StronglySorted index_le k →
  NoDup (fi_index <$> k) → exchange_sort l = k.
Proof.
  intros Hp Hs Hnd. destruct (exchange_sort_spec l) as [Hp' Hs'].
  eapply StronglySorted_unique_strong; [|done|done|by rewrite Hp', Hp].
  intros x y Hx Hy H1 H2. rewrite Hp', Hp in Hx. unfold index_le in *.
  apply list_elem_of_lookup in Hx as [i Hi], Hy as [j Hj].
  assert (i = j) as ->.
  { eapply NoDup_lookup; [exact Hnd|rewrite list_lookup_fmap, Hi; done|].
    rewrite list_lookup_fmap, Hj. cbn. f_equal. lia. }
  congruence.
Qed.

(** * Reading records back *)

(** A record as it was written. *)
Record rec : Type := mkRec { r_key : key; r_version : Z; r_nonce : list byte; r_plain : list byte }.

(** The contents of a log directory: per file its index, modification time and
    records. *)
Abbreviation segment := (Z * (Z * list rec))%type.

Section reading.
Context `{AEAD}.

Definition enc (r : rec) : list byte := record_of (r_key r) (r_version r) (r_nonce r) (r_plain r).

(** The encryptor [e] can read [r]. *)
Definition rec_ok (e : WALEncryptor) (r : rec) : Prop :=
  keyCache e !! r_version r = Some (r_key r) ∧ aes_key (r_key r) = true ∧
  0 ≤ r_version r < 2 ^ 32 ∧ fits (r_key r) (r_nonce r) (r_plain r).

Lemma enc_header r tail : fits (r_key r) (r_nonce r) (r_plain r) →
  Uint32 (slice (enc r ++ tail) 0 4) = len (enc r) - 4 ∧ 20 ≤ len (enc r).
Proof.
  intros [Hn Hfit]. unfold enc, len in *. rewrite length_record.
  unfold record_of at 1. rewrite <- !(assoc_L (++)), slice_all by done. rewrite Uint32_Put.
  rewrite (u32_small (4 + _)), u32_small by (unfold len; lia). split; [unfold len; lia|].
  rewrite length_app. unfold NonceSize in Hn. lia.
Qed.

Lemma read_loop_record `{!AEADLaws} fuel e r tail : rec_ok e r →
  read_loop (S fuel) e (enc r ++ tail) = (rs ← read_loop fuel e tail; Ret (r_plain r :: rs)).
Proof.
  intros (Hk & Hkey & Hv & Hfit). destruct (enc_header r tail Hfit) as [Hh H20].
  cbn [read_loop]. pose proof (len_nonneg tail).
  rewrite decide_False by (rewrite len_app; lia). rewrite Hh.
  replace (4 + (len (enc r) - 4)) with (len (enc r)) by lia.
  rewrite decide_False by (rewrite len_app; lia). rewrite (slice_all (enc r)) by done.
  assert (Hd : Decrypt e (enc r) = Ret (Ok (r_plain r))).
  { rewrite <- (app_nil_r (enc r)). unfold enc. by rewrite (Decrypt_record e _ _ _ _ [] Hk). }
  rewrite Hd.
  cbn [mbind go_bind]. unfold len. by rewrite Nat2Z.id, drop_app_length.
Qed.

Lemma read_loop_records `{!AEADLaws} fuel e rs tail : Forall (rec_ok e) rs →
  (length (rs ≫= enc) + length tail ≤ fuel)%nat →
  ∃ fuel', (length tail ≤ fuel')%nat ∧
    read_loop fuel e ((rs ≫= enc) ++ tail) =
      (rest ← read_loop fuel' e tail; Ret ((r_plain <$> rs) ++ rest)).
Proof.
  intros Hrs. revert fuel. induction Hrs as [|r rs Hr Hrs IH]; intros fuel Hf.
  { exists fuel. split; [cbn in Hf; lia|]. cbn. by destruct (read_loop fuel e tail). }
  cbn [mbind list_bind] in *. rewrite length_app in Hf.
  destruct (enc_header r [] ltac:(apply Hr)) as [_ H20]. unfold len in H20.
  destruct fuel as [|fuel]; [lia|]. destruct (IH fuel) as (fuel' & Hf' & Heq); [lia|].
  exists fuel'. split; [done|]. rewrite <- (assoc_L (++)), read_loop_record, Heq by done.
  by destruct (read_loop fuel' e tail).
Qed.

Lemma read_loop_nil fuel e : read_loop fuel e [] = Ret [].
Proof. by destruct fuel. Qed.

(** A record that was cut off is not read. *)
Lemma read_loop_torn fuel e r n : fits (r_key r) (r_nonce r) (r_plain r) →
  (n < length (enc r))%nat → read_loop fuel e (take n (enc r)) = Ret [].
Proof.
  intros Hfit Hn. destruct fuel as [|fuel]; [done|]. cbn [read_loop].
  case_decide as H4; [done|]. unfold len in *. rewrite length_take in *.
  assert (Hs : slice (take n (enc r)) 0 4 = slice (enc r ++ []) 0 4).
  { unfold slice. change (Z.to_nat 0) with 0%nat. rewrite !drop_0, app_nil_r, take_take.
    f_equal. lia. }
  rewrite Hs. destruct (enc_header r [] Hfit) as [-> _]. unfold len.
  by rewrite decide_True by lia.
Qed.

(** ** Segments *)

Definition seg_data (s : segment) : list byte := s.2.2 ≫= enc.
Definition seg_entry (s : segment) : string * node := (wal_name s.1, NFile (mkFile (seg_data s) s.2.1)).
Definition seg_info (s : segment) : walFileInfo := mkInfo (wal_name s.1) s.1 s.2.1 (len (seg_data s)).
Definition dir_of (segs : list segment) : dir := list_to_map (seg_entry <$> segs).

(** Files are numbered consecutively from [a], below the six digits the reader
    can parse. *)
Definition consecutive (a : Z) (segs : list segment) : Prop :=
  fst <$> segs = seqZ a (len segs) ∧ 0 ≤ a ∧ a + len segs ≤ 10 ^ 6.

Lemma wal_name_index i : 0 ≤ i < 10 ^ 6 → Sscanf_d 6 64 (wal_name i) = Some i.
Proof.
  intros Hi. destruct (Sprintf_06d_spec i) as (Hd & Hv & H6 & Hlen); [lia|].
  specialize (Hlen ltac:(lia)). unfold wal_name. rewrite <- Hv at 2.
  apply Sscanf_digits; [done| |lia|by right|lia].
  intros Hn. by rewrite Hn in Hlen.
Qed.

Lemma wal_name_inj i j : 0 ≤ i < 10 ^ 6 → 0 ≤ j < 10 ^ 6 → wal_name i = wal_name j → i = j.
Proof.
  intros Hi Hj Heq. pose proof (wal_name_index i Hi) as H1.
  rewrite Heq, wal_name_index in H1 by done. congruence.
Qed.

Lemma consecutive_range a segs s : consecutive a segs → s ∈ segs → a ≤ s.1 < a + len segs.
Proof.
  intros [Hf _] Hs. assert (Hin : s.1 ∈ fst <$> segs) by by apply list_elem_of_fmap_2.
  rewrite Hf in Hin. by apply elem_of_seqZ in Hin.
Qed.

Lemma consecutive_names a segs : consecutive a segs → NoDup ((seg_entry <$> segs).*1).
Proof.
  intros Hc. pose proof Hc as (Hf & Ha & Hle).
  assert ((seg_entry <$> segs).*1 = wal_name <$> (fst <$> segs)) as ->.
  { rewrite <- !list_fmap_compose. done. }
  rewrite Hf. apply NoDup_fmap_2_strong; [|apply NoDup_seqZ].
  intros i j Hi%elem_of_seqZ Hj%elem_of_seqZ. apply wal_name_inj; lia.
Qed.

Lemma seqZ_sorted a n : StronglySorted Z.lt (seqZ a (Z.of_nat n)).
Proof.
  revert a. induction n as [|n IH]; intros a; [constructor|].
  rewrite seqZ_cons by lia. constructor.
  - replace (Z.pred (Z.of_nat (S n))) with (Z.of_nat n) by lia. apply IH.
  - apply Forall_forall. intros i Hi%elem_of_seqZ. lia.
Qed.

Lemma consecutive_sorted a segs : consecutive a segs → StronglySorted index_le (seg_info <$> segs).
Proof.
  intros (Hf & _ & _). pose proof (seqZ_sorted a (length segs)) as Hs.
  unfold len in Hf. rewrite <- Hf in Hs. clear Hf. induction segs as [|s segs IH]; [constructor|].
  cbn in *. inversion Hs as [|?? Hs' Hall]; subst. constructor; [auto|].
  apply Forall_fmap, Forall_forall. intros x Hx.
  rewrite Forall_forall in Hall. specialize (Hall x.1 (list_elem_of_fmap_2 fst _ _ Hx)).
  unfold index_le. cbn. lia.
Qed.

(** Both [getWALFiles] list the files of the log in the order they were
    created. *)
Lemma getWALFiles_segs a segs : consecutive a segs → getWALFiles (dir_of segs) = seg_info <$> segs.
Proof.
  intros Hc. unfold getWALFiles. apply exchange_sort_unique; [|by eapply consecutive_sorted|].
  - unfold ReadDir. rewrite merge_sort_Permutation. unfold dir_of.
    rewrite map_to_list_to_map by by eapply consecutive_names.
    assert (omap entry_info (seg_entry <$> segs) = seg_info <$> segs) as ->; [|done].
    assert (Hr : Forall (λ s, 0 ≤ s.1 < 10 ^ 6) segs).
    { apply Forall_forall. intros s Hs. pose proof (consecutive_range a segs s Hc Hs).
      destruct Hc as (_ & ? & ?). lia. }
    clear Hc. induction Hr as [|s segs Hs Hr IH]; [done|].
    assert (Hh : entry_info (seg_entry s) = Some (seg_info s)).
    { unfold entry_info. cbn [fst snd seg_entry].
      assert (HasSuffix (wal_name s.1) FileExtension = true) as -> by apply HasSuffix_app.
      by rewrite wal_name_index. }
    rewrite !fmap_cons. rewrite <- IH.
    change (omap entry_info (seg_entry s :: ?l)) with
      (match entry_info (seg_entry s) with Some y => y :: omap entry_info l | None => omap entry_info l end).
    by rewrite Hh.
  - rewrite <- list_fmap_compose. destruct Hc as [Hf _].
    assert (fi_index ∘ seg_info <$> segs = fst <$> segs) as -> by done.
    rewrite Hf. apply NoDup_seqZ.
Qed.

Lemma dir_of_lookup a segs s : consecutive a segs → s ∈ segs →
  dir_of segs !! wal_name s.1 = Some (NFile (mkFile (seg_data s) s.2.1)).
Proof.
  intros Hc Hs. apply elem_of_list_to_map_1; [by eapply consecutive_names|].
  by apply (list_elem_of_fmap_2 seg_entry) in Hs.
Qed.

(** Reading a whole directory. *)
Lemma ReadAll_segs `{!AEADLaws} e a segs : consecutive a segs →
  Forall (λ s, Forall (rec_ok e) s.2.2) segs →
  ReadAll e (dir_of segs) = Ret (Ok (r_plain <$> (segs ≫= λ s, s.2.2))).
Proof.
  intros Hc Hok. unfold ReadAll. rewrite (getWALFiles_segs a) by done.
  assert (Hin : Forall (λ s, dir_of segs !! wal_name s.1 = Some (NFile (mkFile (seg_data s) s.2.1))) segs).
  { apply Forall_forall. intros s Hs. by eapply dir_of_lookup. }
  revert Hok Hin. generalize (dir_of segs) as d. clear Hc.
  induction segs as [|s segs IH]; intros d Hok Hin; [done|].
  apply Forall_cons in Hok as [Hs Hok]. apply Forall_cons in Hin as [Hd Hin].
  cbn [fmap list_fmap read_files]. unfold readFile. cbn [seg_info fi_name]. rewrite Hd. cbn [f_data].
  destruct (read_loop_records (length (seg_data s)) e s.2.2 [] Hs) as (fuel' & _ & Hl).
  { unfold seg_data. cbn. lia. }
  rewrite app_nil_r, read_loop_nil in Hl. unfold seg_data at 2. rewrite Hl. cbn [mbind go_bind].
  rewrite app_nil_r, IH by done. cbn [mbind go_bind list_bind]. by rewrite fmap_app.
Qed.
End reading.

(** * The writer *)

Section writing.
Context `{AEAD}.

Definition seg_small (max : Z) (s : segment) : Prop := len (seg_data s) ≤ max ∨ (length s.2.2 ≤ 1)%nat.

Record wal_inv (a : Z) (segs : list segment) (d : dir) (w : WALWriter) : Prop := {
  wi_dir : d = dir_of segs;
  wi_cons : consecutive a segs;
  wi_last : ∃ init t rs, segs = init ++ [(w_currentIndex w, (t, rs))] ∧
              w_currentSize w = len (rs ≫= enc);
  wi_name : w_currentName w = wal_name (w_currentIndex w);
  wi_open : w_closed w = false
}.

Definition same_config (w w' : WALWriter) : Prop :=
  w_maxFileSize w' = w_maxFileSize w ∧ w_rollingInterval w' = w_rollingInterval w ∧
  w_maxFiles w' = w_maxFiles w.

Lemma consecutive_tail a s segs : consecutive a (s :: segs) → consecutive (a + 1) segs ∧ s.1 = a.
Proof.
  intros (Hf & Ha & Hle). pose proof (len_nonneg segs). rewrite len_cons, seqZ_cons in Hf by lia.
  rewrite len_cons in Hle. rewrite fmap_cons in Hf. injection Hf as Hs Hf. split; [|done].
  split_and!; [|lia|lia]. rewrite Hf. f_equal; lia.
Qed.

Lemma consecutive_drop n a segs : (n ≤ length segs)%nat → consecutive a segs →
  consecutive (a + Z.of_nat n) (drop n segs).
Proof.
  revert a segs. induction n as [|n IH]; intros a segs Hn Hc; [by rewrite Z.add_0_r, drop_0|].
  destruct segs as [|s segs]; [cbn in Hn; lia|]. apply consecutive_tail in Hc as [Hc _].
  cbn [drop]. replace (a + Z.of_nat (S n)) with (a + 1 + Z.of_nat n) by lia.
  apply IH; [cbn in Hn; lia|done].
Qed.

Lemma consecutive_snoc a segs t rs : consecutive a segs → a + len segs < 10 ^ 6 →
  consecutive a (segs ++ [(a + len segs, (t, rs))]).
Proof.
  intros (Hf & Ha & Hle) Hlt. pose proof (len_nonneg segs). split_and!; [|lia|lens].
  rewrite fmap_app, Hf, len_app. change (len [_]) with 1. by rewrite seqZ_app by lia.
Qed.

Lemma consecutive_last a init s : consecutive a (init ++ [s]) → s.1 = a + len init.
Proof.
  intros (Hf & _ & _). pose proof (len_nonneg init).
  rewrite fmap_app, len_app in Hf. change (len [s]) with 1 in Hf. rewrite seqZ_app in Hf by lia.
  apply app_inj_2 in Hf as [_ Hf]; [|done]. by injection Hf.
Qed.

Lemma consecutive_replace a init i s s' :
  consecutive a (init ++ [(i, s)]) → consecutive a (init ++ [(i, s')]).
Proof. unfold consecutive. rewrite !fmap_app, !len_app. done. Qed.

Lemma dir_of_snoc a init s : consecutive a (init ++ [s]) →
  dir_of (init ++ [s]) = <[wal_name s.1 := NFile (mkFile (seg_data s) s.2.1)]> (dir_of init).
Proof.
  intros Hc%consecutive_names. unfold dir_of. rewrite fmap_app in *. cbn in *.
  apply list_to_map_snoc. rewrite fmap_app in Hc. apply NoDup_app in Hc as (_ & Hd & _).
  intros Hin. apply (Hd _ Hin). by left.
Qed.

Lemma cleanup_segs n a segs d : 1 ≤ n → consecutive a segs → d = dir_of segs →
  cleanup_loop n (seg_info <$> segs) d = Ret (dir_of (drop (length segs - Z.to_nat n) segs)).
Proof.
  intros Hn. revert a d. induction segs as [|s segs IH]; intros a d Hc ->.
  { cbn. by rewrite decide_False by lia. }
  cbn [fmap list_fmap cleanup_loop]. rewrite len_cons. unfold len. rewrite length_fmap.
  destruct (consecutive_tail a s segs Hc) as [Hc' _]. case_decide as Hlt.
  - rewrite (IH (a + 1)); [|done|].
    + replace (length (s :: segs) - Z.to_nat n)%nat with (S (length segs - Z.to_nat n)) by (cbn; lia).
      done.
    + unfold dir_of. rewrite fmap_cons. cbn [list_to_map foldr seg_entry uncurry].
      cbn [fi_name seg_info]. apply delete_insert_id.
      apply not_elem_of_list_to_map_1.
      apply consecutive_names in Hc. rewrite fmap_cons, fmap_cons in Hc. by apply NoDup_cons in Hc as [? _].
  - replace (length (s :: segs) - Z.to_nat n)%nat with 0%nat by (cbn; lia). done.
Qed.

(** [openCurrentFile] on the next index creates an empty file. *)
Lemma open_next now a segs w : consecutive a segs → a + len segs < 10 ^ 6 →
  w_currentIndex w = a + len segs →
  ∃ d' w', openCurrentFile now (dir_of segs) w = (d', w', None) ∧
    wal_inv a (segs ++ [(a + len segs, (now, []))]) d' w' ∧ same_config w w' ∧ w_currentSize w' = 0.
Proof.
  intros Hc Hlt Hi. pose proof (consecutive_snoc a segs now [] Hc Hlt) as Hc'.
  assert (Hnone : dir_of segs !! wal_name (w_currentIndex w) = None).
  { apply not_elem_of_list_to_map_1. apply consecutive_names in Hc'. rewrite !fmap_app in Hc'.
    apply NoDup_app in Hc' as (_ & Hd & _). intros Hin. apply (Hd _ Hin). rewrite Hi. by left. }
  unfold openCurrentFile. rewrite Hnone. eexists _, _. split; [done|]. split; [|done]. split.
  - rewrite (dir_of_snoc a) by done. rewrite Hi. done.
  - done.
  - exists segs, now, []. cbn. by rewrite Hi.
  - done.
  - done.
Qed.

Lemma append_last now a init i t rs r d : consecutive a (init ++ [(i, (t, rs))]) →
  d = dir_of (init ++ [(i, (t, rs))]) →
  append_file now d (wal_name i) (enc r) = dir_of (init ++ [(i, (now, rs ++ [r]))]).
Proof.
  intros Hc ->. rewrite !(dir_of_snoc a) by (eapply consecutive_replace; done).
  unfold append_file. cbn [fst snd]. rewrite lookup_insert_eq. cbn [f_data].
  rewrite insert_insert_eq. f_equal. do 2 f_equal. unfold seg_data. cbn [fst snd].
  rewrite bind_app. cbn. by rewrite app_nil_r.
Qed.

Definition written (segs : list segment) : list rec := segs ≫= λ s, s.2.2.

Lemma written_snoc init s : written (init ++ [s]) = written init ++ s.2.2.
Proof. unfold written. rewrite bind_app. cbn. by rewrite app_nil_r. Qed.

Definition rec_by (e : WALEncryptor) (nonce p : list byte) : rec :=
  mkRec (currentKey e) (keyVersion e) nonce p.

(** The last part of [Write]. *)
Lemma append_inv now a segs d w r : wal_inv a segs d w →
  0 ≤ w_currentSize w + len (enc r) < 2 ^ 63 → Forall (seg_small (w_maxFileSize w)) segs →
  w_currentSize w + len (enc r) ≤ w_maxFileSize w ∨ w_currentSize w = 0 ∧ (∀ init s, segs = init ++ [s] → s.2.2 = []) →
  ∃ segs', wal_inv a segs' (append_file now d (w_currentName w) (enc r))
      (mkWriter (w_currentName w) (i64 (w_currentSize w + len (enc r))) (w_currentTime w)
        (w_maxFileSize w) (w_rollingInterval w) (w_maxFiles w) (w_currentIndex w) false) ∧
    written segs' = written segs ++ [r] ∧ len segs' = len segs ∧
    Forall (seg_small (w_maxFileSize w)) segs' ∧
    ∃ init i t rs, segs = init ++ [(i, (t, rs))] ∧ segs' = init ++ [(i, (now, rs ++ [r]))].
Proof.
  intros [-> Hc (init & t & rs & -> & Hsz) Hname Hopen] Hb Hsmall Hfits.
  assert (Hdata : (rs ++ [r]) ≫= enc = (rs ≫= enc) ++ enc r).
  { rewrite bind_app. cbn. by rewrite app_nil_r. }
  exists (init ++ [(w_currentIndex w, (now, rs ++ [r]))]). split_and!.
  - split; cbn [w_currentIndex w_currentSize w_currentName w_closed];
      [|by eapply consecutive_replace| |done|done].
    + rewrite Hname. by eapply append_last.
    + eexists _, _, _. split; [done|]. rewrite i64_small by lia. by rewrite Hdata, len_app, Hsz.
  - rewrite !written_snoc. cbn. by rewrite (assoc_L (++)).
  - by rewrite !len_app.
  - apply Forall_app in Hsmall as [Hsmall _]. apply Forall_app. split; [done|].
    apply Forall_singleton. unfold seg_small, seg_data. cbn [fst snd]. destruct Hfits as [Hle|[_ Hnil]].
    + left. rewrite Hdata, len_app, <- Hsz. done.
    + right. specialize (Hnil init _ eq_refl). cbn in Hnil. by rewrite Hnil.
  - by eexists _, _, _, _.
Qed.

Lemma roll_inv now a segs d w : wal_inv a segs d w → a + len segs < 10 ^ 6 → 1 ≤ w_maxFiles w →
  ∃ d' w' n, doRollFile now d w = Ret (d', w', None) ∧ (n ≤ length segs)%nat ∧
    wal_inv (a + Z.of_nat n) (drop n segs ++ [(a + len segs, (now, []))]) d' w' ∧
    same_config w w' ∧ w_currentSize w' = 0 ∧ (len segs < w_maxFiles w → n = 0%nat) ∧
    Z.of_nat n ≤ Z.max 0 (len segs + 1 - w_maxFiles w).
Proof.
  intros [-> Hc (init & t & rs & Hsegs & Hsz) Hname Hopen] Hlt Hmf. unfold doRollFile. rewrite Hopen.
  assert (Hi : u64 (w_currentIndex w + 1) = a + len segs).
  { pose proof Hc as (_ & Ha & _). rewrite Hsegs in Hc |- *. apply consecutive_last in Hc. cbn in Hc.
    pose proof (len_nonneg init). rewrite len_app. change (len [_]) with 1.
    rewrite Hsegs, len_app in Hlt. change (len [_]) with 1 in Hlt. rewrite u64_small by lia. lia. }
  set (w1 := mkWriter _ _ _ _ _ _ _ _).
  destruct (open_next now a segs w1 Hc Hlt Hi) as (d2 & w2 & -> & Hinv & Hcfg & Hsize).
  unfold cleanupOldFiles. pose proof Hinv as [-> Hc2 _ Hname2 Hopen2].
  rewrite (getWALFiles_segs a) by done. destruct Hcfg as (Hm1 & Hm2 & Hm3). rewrite Hm3. cbn [w1 w_maxFiles].
  rewrite (cleanup_segs _ a) by done. cbn [mbind go_bind].
  set (segs2 := segs ++ _). set (n := (length segs2 - Z.to_nat (w_maxFiles w))%nat).
  assert (Hls : length segs2 = S (length segs)) by (unfold segs2; rewrite length_app; cbn; lia).
  assert (Hn : (n ≤ length segs)%nat) by lia.
  assert (Hdrop : drop n segs2 = drop n segs ++ [(a + len segs, (now, []))])
    by (unfold segs2; by rewrite drop_app_le).
  exists (dir_of (drop n segs2)), w2, n. split_and!; [done|done| |done..|unfold len; lia|unfold len; lia].
  rewrite Hdrop. split; [done| | |done|done].
  - rewrite <- Hdrop. apply consecutive_drop; [lia|done].
  - exists (drop n segs), now, []. split; [|done]. do 2 f_equal.
    destruct Hinv as [_ _ (i2 & t2 & rs2 & He & _) _ _].
    apply app_inj_2 in He as [_ He]; [|done]. by injection He as ->.
Qed.

Lemma written_drop n segs : ∃ m, written (drop n segs) = drop m (written segs).
Proof.
  revert segs. induction n as [|n IH]; intros segs; [by exists 0%nat|].
  destruct segs as [|s segs]; [by exists 0%nat|]. destruct (IH segs) as [m Hm]. cbn [drop].
  exists (length s.2.2 + m)%nat. rewrite Hm. unfold written at 2. cbn [mbind list_bind].
  rewrite <- drop_drop. by rewrite drop_app_length.
Qed.

Lemma list_elem_of_drop {A} (x : A) n l : x ∈ drop n l → x ∈ l.
Proof. intros Hx. rewrite <- (take_drop n l). apply elem_of_app. by right. Qed.

Lemma Forall_drop_snoc {A} (P : A → Prop) n l x : Forall P l → P x → Forall P (drop n l ++ [x]).
Proof. intros Hl Hx. apply Forall_app. split; [by apply Forall_drop|by constructor]. Qed.

(** The files of a log grow at the end: its last file is extended or followed by others. *)
Definition grown (segs all : list segment) : Prop :=
  ∃ init s more, segs = init ++ [s] ∧ all = init ++ more ∧ more ≠ [].

(** What one successful [Write] does to the log: it appends the record to the
    newest file or to a fresh one, and may delete the oldest files above [maxFiles].
    [all] are the files before the deletion. *)
Lemma Write_files e nonce now p a segs d w :
  wal_inv a segs d w → a + len segs < 10 ^ 6 → 1 ≤ w_maxFiles w → 0 ≤ w_maxFileSize w < 2 ^ 62 →
  Forall (seg_small (w_maxFileSize w)) segs →
  aes_key (currentKey e) = true → fits (currentKey e) nonce p →
  ∃ d' w' all n,
    Write e (Some nonce) now p d w = Ret (d', w', None) ∧ wal_inv (a + Z.of_nat n) (drop n all) d' w' ∧
    same_config w w' ∧ Forall (seg_small (w_maxFileSize w)) (drop n all) ∧
    (n < length all)%nat ∧ Z.of_nat n ≤ Z.max 0 (len all - w_maxFiles w) ∧ grown segs all ∧
    (all.*1 = segs.*1 ∨ all.*1 = segs.*1 ++ [a + len segs]) ∧
    written all = written segs ++ [rec_by e nonce p] ∧ ∃ l, written (drop n all) = l ++ [rec_by e nonce p].
Proof.
  intros Hinv Hlt Hmf Hmax Hsmall Hkey Hfit.
  set (r := rec_by e nonce p). assert (Hrl : 0 ≤ len (enc r) < 2 ^ 33).
  { destruct Hfit as [_ Hf]. unfold enc, len in *. rewrite length_record.
    cbn [r rec_by r_key r_nonce r_plain] in *. lia. }
  assert (Hsz0 : 0 ≤ w_currentSize w) by
    (destruct Hinv as [_ _ (? & ? & ? & _ & ->) _ _]; apply len_nonneg).
  unfold Write. rewrite Encrypt_record by done. change (record_of _ _ _ _) with (enc r).
  destruct (bool_decide _ || bool_decide _) eqn:Hroll.
  - destruct (roll_inv now a segs d w Hinv Hlt Hmf) as (d1 & w1 & n & -> & Hn & Hinv1 & Hcfg & Hs1 & _ & Hnb).
    cbn [mbind go_bind]. rewrite (wi_open _ _ _ _ Hinv1). destruct Hcfg as (Hm1 & Hm2 & Hm3).
    destruct (append_inv now _ _ d1 w1 r Hinv1) as (segs' & Hinv2 & Hw & _ & Hsm & init & i & t & rs & Hi & ->).
    { lia. }
    { rewrite Hm1. apply Forall_drop_snoc; [done|right; cbn; lia]. }
    { right. split; [done|]. intros init' s' Heq. by apply app_inj_2 in Heq as [_ [= <-]]. }
    apply app_inj_2 in Hi as [<- Hi]; [|done]. injection Hi as <- <- <-. cbn [app] in *.
    eexists _, _, (segs ++ [(a + len segs, (now, [r]))]), n. rewrite drop_app_le by done.
    split_and!; [done|done|done|by rewrite <- Hm1|rewrite length_app; cbn; lia|rewrite len_app; change (len [_]) with 1; lia| | | |].
    + destruct Hinv as [_ _ (init & t & rs & Hsegs & _) _ _]. exists init, (w_currentIndex w, (t, rs)), [(w_currentIndex w, (t, rs)); (a + len segs, (now, [r]))].
      split_and!; [done| |done]. rewrite Hsegs at 1. by rewrite <- (assoc_L (++)).
    + right. by rewrite fmap_app.
    + by rewrite written_snoc.
    + eexists. by rewrite written_snoc.
  - apply orb_false_iff in Hroll as [Hroll%bool_decide_eq_false _]. cbn [mbind go_bind].
    rewrite (wi_open _ _ _ _ Hinv).
    destruct (append_inv now a segs d w r Hinv) as (segs' & Hinv2 & Hw & Hl & Hsm & init & i & t & rs & -> & ->); [lia|done|left; lia|].
    eexists _, _, (init ++ [(i, (now, rs ++ [r]))]), 0%nat. rewrite drop_0, Z.add_0_r.
    split_and!; [done|done|done|done|rewrite length_app; cbn; lia|lia| |left; by rewrite !fmap_app|done|].
    + by eexists _, _, _.
    + eexists. exact Hw.
Qed.

Lemma Write_inv e nonce now p a segs d w :
  wal_inv a segs d w → a + len segs < 10 ^ 6 → 1 ≤ w_maxFiles w → 0 ≤ w_maxFileSize w < 2 ^ 62 →
  Forall (seg_small (w_maxFileSize w)) segs →
  aes_key (currentKey e) = true → fits (currentKey e) nonce p →
  ∃ a' segs' d' w' n,
    Write e (Some nonce) now p d w = Ret (d', w', None) ∧ wal_inv a' segs' d' w' ∧
    same_config w w' ∧ Forall (seg_small (w_maxFileSize w)) segs' ∧
    a' + len segs' ≤ a + len segs + 1 ∧ len segs' ≤ len segs + 1 ∧
    written segs' = drop n (written segs) ++ [rec_by e nonce p] ∧
    (len segs < w_maxFiles w → n = 0%nat).
Proof.
  intros Hinv Hlt Hmf Hmax Hsmall Hkey Hfit.
  destruct (Write_files e nonce now p a segs d w Hinv Hlt Hmf Hmax Hsmall Hkey Hfit)
    as (d' & w' & all & n & HW & Hinv' & Hcfg & Hsm & Hn & Hnb & _ & Hfst & Hall & l & Hlast).
  assert (len all ≤ len segs + 1) as Hlen.
  { unfold len. rewrite <- (length_fmap fst all), <- (length_fmap fst segs).
    destruct Hfst as [-> | ->]; rewrite ?length_app; cbn; lia. }
  destruct (written_drop n all) as [m Hm]. exists (a + Z.of_nat n), (drop n all), d', w', (if decide (n = 0%nat) then 0%nat else m).
  assert (Hd : len (drop n all) = len all - Z.of_nat n) by (unfold len; rewrite length_drop; lia).
  split_and!; [done|done|done|done|lia|lia| |intros; rewrite decide_True; [done|lia]].
  case_decide as Hz; [by rewrite Hz, !drop_0|]. rewrite Hm, Hall in *. rewrite drop_app in Hlast |- *.
  destruct (m - length (written segs))%nat as [|x] eqn:Hx; [done|]. exfalso. cbn [drop] in Hlast. rewrite drop_nil, app_nil_r in Hlast.
  rewrite drop_ge in Hlast by lia. by destruct l.
Qed.

(** A sequence of writes, each with the encryptor, nonce and clock reading of
    its call, and the errors they return. *)
Record wreq : Type := mkReq { q_enc : WALEncryptor; q_nonce : list byte; q_now : Z; q_data : list byte }.

Fixpoint write_all (qs : list wreq) (d : dir) (w : WALWriter)
  : go (dir * WALWriter * list (option wal_error)) :=
  match qs with
  | [] => Ret (d, w, [])
  | q :: qs' =>
      '(d1, w1, err) ← Write (q_enc q) (Some (q_nonce q)) (q_now q) (q_data q) d w;
      '(d2, w2, errs) ← write_all qs' d1 w1;
      Ret (d2, w2, err :: errs)
  end.

Definition req_rec (q : wreq) : rec := rec_by (q_enc q) (q_nonce q) (q_data q).
Definition req_ok (q : wreq) : Prop :=
  aes_key (currentKey (q_enc q)) = true ∧ fits (currentKey (q_enc q)) (q_nonce q) (q_data q).

Lemma write_all_inv qs a segs d w :
  wal_inv a segs d w → a + len segs + len qs ≤ 10 ^ 6 → 1 ≤ w_maxFiles w → 0 ≤ w_maxFileSize w < 2 ^ 62 →
  Forall (seg_small (w_maxFileSize w)) segs → Forall req_ok qs →
  ∃ a' segs' d' w' k,
    write_all qs d w = Ret (d', w', replicate (length qs) None) ∧ wal_inv a' segs' d' w' ∧
    Forall (seg_small (w_maxFileSize w)) segs' ∧
    written segs' = drop k (written segs ++ (req_rec <$> qs)) ∧
    (len segs + len qs ≤ w_maxFiles w → k = 0%nat) ∧
    (if qs is [] then k = 0%nat else (k < length (written segs) + length qs)%nat).
Proof.
  intros Hinv Hlt Hmf Hmax Hsm Hqs. revert a segs d w Hinv Hlt Hmf Hmax Hsm.
  induction Hqs as [|q qs [Hk Hfit] Hqs IH]; intros a segs d w Hinv Hlt Hmf Hmax Hsm.
  { exists a, segs, d, w, 0%nat. rewrite app_nil_r. by split_and!. }
  rewrite len_cons in *. pose proof (len_nonneg qs).
  destruct (Write_inv (q_enc q) (q_nonce q) (q_now q) (q_data q) a segs d w Hinv)
    as (a1 & segs1 & d1 & w1 & n & HW & Hinv1 & (Hc1 & Hc2 & Hc3) & Hsm1 & Hb1 & Hb2 & Hwr & Hn); [lia|done..|].
  destruct (IH a1 segs1 d1 w1 Hinv1) as (a2 & segs2 & d2 & w2 & k & HWs & Hinv2 & Hsm2 & Hwr2 & Hk0 & Hkl);
    [lia|lia|lia|by rewrite Hc1|].
  rewrite Hc1, Hc3 in *.
  exists a2, segs2, d2, w2, (Nat.min n (length (written segs)) + k)%nat.
  cbn [write_all]. go_step HW. go_step HWs. split_and!; [done|done|done| | |].
  - rewrite Hwr2, Hwr, <- drop_drop, <- (assoc_L (++)). f_equal.
    rewrite fmap_cons. change (rec_by _ _ _) with (req_rec q). cbn [app].
    destruct (decide (n ≤ length (written segs))%nat).
    + rewrite Nat.min_l by lia. by rewrite drop_app_le.
    + rewrite Nat.min_r by lia. rewrite drop_app_length. by rewrite drop_ge by lia.
  - intros Hle. rewrite Hn, Hk0 by lia. done.
  - cbn [length]. destruct qs as [|q' qs]; [lia|]. rewrite Hwr, length_app, length_drop in Hkl. cbn in *. lia.
Qed.

Lemma grown_app gone segs all : grown segs all → grown (gone ++ segs) (gone ++ all).
Proof. intros (init & s & more & -> & -> & Hm). exists (gone ++ init), s, more. by rewrite !(assoc_L (++)). Qed.

Lemma grown_prefix old more all : grown (old ++ more) all → more ≠ [] → ∃ more', all = old ++ more' ∧ more' ≠ [].
Proof.
  intros (init & s & new & Heq & -> & Hnew) Hm. destruct (exists_last Hm) as (more0 & x & ->). rename more0 into more.
  rewrite (assoc_L (++)) in Heq. apply app_inj_2 in Heq as [<- _]; [|done]. exists (more ++ new).
  rewrite (assoc_L (++)). split; [done|]. by destruct more.
Qed.

(** The files a run of writes has ever created, [gone ++ segs], of which the directory
    holds [segs]: the first ones may be gone once there are more than [maxFiles]. *)
Record wal_files (a : Z) (gone segs : list segment) (d : dir) (w : WALWriter) : Prop := {
  wf_inv : wal_inv (a + len gone) segs d w;
  wf_fst : (gone ++ segs).*1 = seqZ a (len (gone ++ segs));
  wf_gone : len gone ≤ Z.max 0 (len (gone ++ segs) - w_maxFiles w)
}.

Lemma write_all_files qs a gone segs d w :
  wal_files a gone segs d w → a + len (gone ++ segs) + len qs ≤ 10 ^ 6 → 1 ≤ w_maxFiles w → 0 ≤ w_maxFileSize w < 2 ^ 62 →
  Forall (seg_small (w_maxFileSize w)) segs → Forall req_ok qs →
  ∃ gone' segs' d' w',
    write_all qs d w = Ret (d', w', replicate (length qs) None) ∧ wal_files a gone' segs' d' w' ∧
    same_config w w' ∧ Forall (seg_small (w_maxFileSize w)) segs' ∧ len (gone' ++ segs') ≤ len (gone ++ segs) + len qs ∧
    written (gone' ++ segs') = written (gone ++ segs) ++ (req_rec <$> qs) ∧
    (∀ old more, gone ++ segs = old ++ more → more ≠ [] → ∃ more', gone' ++ segs' = old ++ more' ∧ more' ≠ []) ∧
    (if last qs is Some q then ∃ l, written segs' = l ++ [req_rec q] else segs' = segs).
Proof.
  intros Hinv Hlt Hmf Hmax Hsm Hqs. revert gone segs d w Hinv Hlt Hmf Hmax Hsm.
  induction Hqs as [|q qs [Hk Hfit] Hqs IH]; intros gone segs d w Hinv Hlt Hmf Hmax Hsm.
  { exists gone, segs, d, w. rewrite app_nil_r. split_and!; try done; [unfold len; cbn; lia|eauto]. }
  rewrite len_cons in *. pose proof (len_nonneg qs). pose proof Hinv as [Hi Hfst Hgone]. rewrite len_app in *.
  destruct (Write_files (q_enc q) (q_nonce q) (q_now q) (q_data q) _ segs d w Hi)
    as (d1 & w1 & all & n & HW & Hi1 & (Hc1 & Hc2 & Hc3) & Hsm1 & Hn & Hnb & Hgr & Hfst1 & Hwr & Hlast); [lia|done..|].
  assert (len all = len segs ∨ len all = len segs + 1) as Hlen.
  { unfold len. rewrite <- (length_fmap fst all), <- (length_fmap fst segs).
    destruct Hfst1 as [-> | ->]; rewrite ?length_app; cbn; [left|right]; lia. }
  set (gone1 := gone ++ take n all). set (segs1 := drop n all).
  assert (gone1 ++ segs1 = gone ++ all) as Hall by (unfold gone1, segs1; by rewrite <- (assoc_L (++)), take_drop).
  assert (len gone1 = len gone + Z.of_nat n) as Hg1.
  { unfold gone1. rewrite len_app. f_equal. unfold len. rewrite length_take. lia. }
  assert (wal_files a gone1 segs1 d1 w1) as Hinv1.
  { split; [by rewrite Hg1, Z.add_assoc| |rewrite Hall, Hg1, len_app, Hc3; lia]. rewrite Hall, fmap_app, len_app.
    rewrite fmap_app in Hfst. destruct Hfst1 as [Hf|Hf]; rewrite Hf.
    - destruct Hlen as [-> |Hl]; [done|]. exfalso. apply (f_equal length) in Hf. rewrite !length_fmap in Hf. unfold len in Hl. lia.
    - destruct Hlen as [Hl| ->]; [exfalso; apply (f_equal length) in Hf; rewrite length_app, !length_fmap in Hf; unfold len in Hl; cbn in Hf; lia|].
      rewrite (assoc_L (++)), Hfst. replace (len gone + (len segs + 1)) with (len gone + len segs + 1) by lia.
      pose proof (len_nonneg gone). pose proof (len_nonneg segs). rewrite (seqZ_app a (len gone + len segs) 1) by lia. f_equal. change (seqZ ?x 1) with [0 + x]. f_equal. lia. }
  destruct (IH gone1 segs1 d1 w1 Hinv1) as (gone2 & segs2 & d2 & w2 & HWs & Hinv2 & (Hm1 & Hm2 & Hm3) & Hsm2 & Hl2 & Hwr2 & Hpre2 & Hlast2);
    [rewrite Hall, len_app; lia|lia|lia|by rewrite Hc1|].
  exists gone2, segs2, d2, w2. cbn [write_all]. go_step HW. go_step HWs. rewrite Hall in *.
  split_and!; [done|done|split_and!; congruence|by rewrite <- Hc1|rewrite !len_app in *; lia| | |].
  - rewrite Hwr2. unfold written in *. rewrite !bind_app, Hwr, fmap_cons. by rewrite <- !(assoc_L (++)).
  - intros old more Heq Hm. pose proof (grown_app gone _ _ Hgr) as Hg. rewrite Heq in Hg.
    destruct (grown_prefix old more _ Hg Hm) as (more' & Heq' & Hm'). by apply (Hpre2 old more').
  - destruct qs as [|q1 qs]; [|]. { by rewrite Hlast2. }
    change (last (q :: q1 :: qs)) with (last (q1 :: qs)). destruct (last (q1 :: qs)) eqn:El; [done|by apply last_None in El].
Qed.

(** Opening an existing log starts the next file. *)
Lemma New_inv now a segs maxFileSize interval maxFiles :
  consecutive a segs → a + len segs < 10 ^ 6 → (segs = [] → a = 1) →
  ∃ d w, NewWALWriterWithConfig now (dir_of segs) maxFileSize interval maxFiles = (d, Ok w) ∧
    wal_inv a (segs ++ [(a + len segs, (now, []))]) d w ∧
    w_maxFileSize w = maxFileSize ∧ w_maxFiles w = maxFiles.
Proof.
  intros Hc Hlt H1. unfold NewWALWriterWithConfig. rewrite (getWALFiles_segs a) by done.
  set (index := match last _ with Some _ => _ | None => _ end).
  assert (Hidx : index = a + len segs).
  { unfold index. rewrite fmap_last. destruct (last segs) as [s|] eqn:Hl; cbn.
    - apply last_Some in Hl as [init ->]. pose proof Hc as (_ & Ha & _).
      apply consecutive_last in Hc. pose proof (len_nonneg init). rewrite len_app in *.
      change (len [s]) with 1 in *. rewrite Hc, u64_small by lia. lia.
    - apply last_None in Hl as ->. rewrite H1 by done. done. }
  destruct (open_next now a segs (mkWriter "" 0 0 maxFileSize interval maxFiles index false) Hc Hlt Hidx)
    as (d & w & -> & Hinv & (Hm1 & Hm2 & Hm3) & _).
  exists d, w. by split_and!.
Qed.

(** The encryptor [e] knows the key of the request. *)
Definition req_known (e : WALEncryptor) (q : wreq) : Prop :=
  encryptor_ok (q_enc q) ∧ fits (currentKey (q_enc q)) (q_nonce q) (q_data q) ∧
  keyCache e !! keyVersion (q_enc q) = Some (currentKey (q_enc q)).

Lemma req_known_ok e q : req_known e q → req_ok q ∧ rec_ok e (req_rec q).
Proof. intros ((Hk & Hv & _) & Hf & Hc). by split. Qed.

(** What a reader finds after a run of writes, for any writer in a good state. *)
Lemma ReadAll_files `{!AEADLaws} e a gone segs d w : wal_files a gone segs d w →
  Forall (rec_ok e) (written segs) → ReadAll e d = Ret (Ok (r_plain <$> written segs)).
Proof.
  intros [Hinv _ _] Hok. pose proof (wi_dir _ _ _ _ Hinv) as ->. rewrite (ReadAll_segs e (a + len gone)); [done|apply Hinv|].
  apply Forall_forall. intros s Hs. apply Forall_forall. intros r Hr. rewrite Forall_forall in Hok. apply Hok.
  apply list_elem_of_bind. eauto.
Qed.

Lemma new_wal_files now a segs maxFileSize interval maxFiles :
  consecutive a segs → a + len segs < 10 ^ 6 → (segs = [] → a = 1) →
  ∃ d w, NewWALWriterWithConfig now (dir_of segs) maxFileSize interval maxFiles = (d, Ok w) ∧
    wal_files a [] (segs ++ [(a + len segs, (now, []))]) d w ∧ w_maxFileSize w = maxFileSize ∧ w_maxFiles w = maxFiles.
Proof.
  intros Hc Hlt H1. destruct (New_inv now a segs maxFileSize interval maxFiles Hc Hlt H1) as (d & w & Hnew & Hinv & Hm1 & Hm2).
  exists d, w. split_and!; [done| |done..]. split; [by rewrite Z.add_0_r|apply Hinv|unfold len; cbn; lia].
Qed.


(** C30: a crash in the middle of a write loses only the record being written:
    reading a file that holds complete records and a proper prefix of one more
    returns exactly the complete ones, without an error. *)
Theorem torn_tail_recovery `{!AEADLaws} e d name rs r n t :
  Forall (rec_ok e) rs → fits (r_key r) (r_nonce r) (r_plain r) → (n < length (enc r))%nat →
  d !! name = Some (NFile (mkFile ((rs ≫= enc) ++ take n (enc r)) t)) →
  readFile e d name = Ret (Ok (r_plain <$> rs)).
Proof.
  intros Hrs Hfit Hn Hd. unfold readFile. rewrite Hd. cbn [f_data].
  destruct (read_loop_records (length ((rs ≫= enc) ++ take n (enc r))) e rs (take n (enc r)) Hrs)
    as (fuel' & _ & ->); [by rewrite length_app|].
  rewrite read_loop_torn by done. cbn. by rewrite app_nil_r.
Qed.

(** Rolling bounds the files: in a log written from an empty directory
    every file stays within [maxFileSize], unless it holds a single record. *)
Theorem file_size_bound now maxFileSize interval maxFiles qs :
  1 + 1 + len qs ≤ 10 ^ 6 → 1 ≤ maxFiles → 0 ≤ maxFileSize < 2 ^ 62 → Forall req_ok qs →
  ∃ d0 w0 d w segs,
    NewWALWriterWithConfig now ∅ maxFileSize interval maxFiles = (d0, Ok w0) ∧
    write_all qs d0 w0 = Ret (d, w, replicate (length qs) None) ∧
    d = dir_of segs ∧ Forall (seg_small maxFileSize) segs.
Proof.
  intros Hlt Hmf Hmax Hqs. pose proof (len_nonneg qs).
  destruct (New_inv now 1 [] maxFileSize interval maxFiles) as (d0 & w0 & Hnew & Hinv & Hm1 & Hm2);
    [done|done|done|].
  destruct (write_all_inv qs 1 ([] ++ [(1 + len [], (now, []))]) d0 w0 Hinv)
    as (a' & segs' & d' & w' & k & Hall & Hinv' & Hsm & _).
  { change (len _) with 1 at 1. lia. } { lia. } { lia. }
  { apply Forall_singleton. right. cbn. lia. } { done. }
  exists d0, w0, d', w', segs'. split_and!; [done|done|apply Hinv'|by rewrite <- Hm1].
Qed.

(** A damaged record can crash the reader: after any number of good
    records, a record whose length field was changed to a value from 4 to 15
    makes [readFile] panic on a slice bound, where the loop means to stop. *)
Theorem readFile_panics_on_short_record `{!AEADLaws} e d name rs t v k n tail rest :
  Forall (rec_ok e) rs → keyCache e !! v = Some k → aes_key k = true → 0 ≤ v < 2 ^ 32 →
  4 ≤ n < 16 → len tail = n - 4 →
  d !! name = Some (NFile (mkFile ((rs ≫= enc) ++ PutUint32 n ++ PutUint32 v ++ tail ++ rest) t)) →
  readFile e d name = Panic SliceBoundsOutOfRange.
Proof.
  intros Hrs Hk Hkey Hv Hn Ht Hd. unfold readFile. rewrite Hd. cbn [f_data].
  set (bad := PutUint32 n ++ PutUint32 v ++ tail ++ rest).
  destruct (read_loop_records (length ((rs ≫= enc) ++ bad)) e rs bad Hrs)
    as (fuel' & Hf & ->); [by rewrite length_app|].
  assert (Hbad : bad = (PutUint32 n ++ PutUint32 v ++ tail) ++ rest) by (unfold bad; by rewrite <- !(assoc_L (++))).
  assert (Hlb : len (PutUint32 n ++ PutUint32 v ++ tail) = 4 + n).
  { rewrite !len_app. change (len (PutUint32 _)) with 4. lia. }
  pose proof (len_nonneg rest). destruct fuel' as [|fuel'];
    [rewrite Hbad, length_app in Hf; unfold len in Hlb; lia|].
  cbn [read_loop]. rewrite decide_False by (rewrite Hbad, len_app; lia).
  assert (Uint32 (slice bad 0 4) = n) as ->.
  { unfold bad. rewrite slice_all, Uint32_Put by done. apply u32_small. lia. }
  rewrite decide_False by (rewrite Hbad, len_app; lia).
  rewrite Hbad, slice_all by done. by rewrite (Decrypt_short_record_panics e v k) by (done || lia).
Qed.
End writing.

(** The index is printed with at least six digits and read back from the
    first six, so from file 1000000 on the order is wrong: next to file 999999
    it is listed first, where the clean-up looks for the oldest. *)
Theorem million_file_order f g :
  fi_name <$> getWALFiles (<[wal_name 999999 := NFile f]> {[wal_name 1000000 := NFile g]}) =
    [wal_name 1000000; wal_name 999999].
Proof. by vm_compute. Qed.

(** * Closed instances *)

Section witnesses.
#[local] Existing Instance tag_aead.

Definition ex_req (b : Z) (text : string) : wreq :=
  mkReq ex_enc (replicate 12 (byte_of b)) b (bytes_of_string text).
Definition ex_reqs : list wreq := [ex_req 1 "add a"; ex_req 2 "add b"].

Lemma ex_reqs_known : Forall (req_known ex_enc) ex_reqs.
Proof.
  repeat constructor; try reflexivity; try (vm_compute; congruence); apply ex_enc_ok.
Qed.

Lemma ex_reqs_ok : Forall req_ok ex_reqs.
Proof. eapply Forall_impl; [exact ex_reqs_known|]. intros q Hq. by apply (req_known_ok ex_enc). Qed.


Definition ex_rec : rec := req_rec (ex_req 1 "add a").

Lemma ex_rec_ok : rec_ok ex_enc ex_rec.
Proof. repeat constructor; try reflexivity; vm_compute; congruence. Qed.

Lemma torn_tail_recovery_witness :
  readFile ex_enc {["000001.wal.enc" := NFile (mkFile (([ex_rec; ex_rec] ≫= enc) ++ take 30 (enc ex_rec)) 0)]}
    "000001.wal.enc" = Ret (Ok (r_plain <$> [ex_rec; ex_rec])).
Proof.
  apply (@torn_tail_recovery _ tag_aead_laws ex_enc _ _ [ex_rec; ex_rec] ex_rec 30 0).
  - repeat constructor; apply ex_rec_ok.
  - apply ex_rec_ok.
  - vm_compute. lia.
  - reflexivity.
Defined.

Lemma file_size_bound_witness :
  ∃ d0 w0 d w segs,
    NewWALWriterWithConfig 0 ∅ 100 60 4 = (d0, Ok w0) ∧
    write_all ex_reqs d0 w0 = Ret (d, w, replicate (length ex_reqs) None) ∧
    d = dir_of segs ∧ Forall (seg_small 100) segs.
Proof.
  apply file_size_bound; [vm_compute; congruence|lia|lia|exact ex_reqs_ok].
Defined.

Lemma readFile_panics_on_short_record_witness :
  readFile ex_enc {["000001.wal.enc" := NFile (mkFile (([ex_rec] ≫= enc) ++
      PutUint32 5 ++ PutUint32 1 ++ [byte_of 0] ++ []) 0)]} "000001.wal.enc" = Panic SliceBoundsOutOfRange.
Proof.
  apply (@readFile_panics_on_short_record _ tag_aead_laws ex_enc _ _ [ex_rec] 0 1 (ex_key 1) 5 [byte_of 0] []).
  - repeat constructor; apply ex_rec_ok.
  - reflexivity.
  - reflexivity.
  - lia.
  - lia.
  - reflexivity.
  - reflexivity.
Defined.
End witnesses.
