(* ===== verification/WalFaults.v ===== *)
(** [internal/wal/encryptor.go], [WALWriter.Write] when the file system refuses data.

    [io] is what the system answers to the write of a record: [None], or the number
    of bytes it took before an error.  The source returns the error and leaves its
    size as it was; the bytes stay in the file. *)

From S2P Require Import Prelude GoBytes GoFmt CountingCodec WalCrypto WalFiles.
#[local] Open Scope Z_scope.

(** * Definitions *)

Inductive write_error : Type :=
  | WWal (e : wal_error)
  | WShort (written : nat).

Section faults.
Context `{AEAD}.

Definition Write_io (io : option nat) (e : WALEncryptor) (rnd : option (list byte)) (now : Z) (data : list byte)
    (d : dir) (w : WALWriter) : go (dir * WALWriter * option write_error) :=
  match Encrypt e rnd data with
  | Err err => Ret (d, w, Some (WWal err))
  | Ok encrypted =>
      let needRoll := bool_decide (w_maxFileSize w < w_currentSize w + len encrypted) ||
                      bool_decide (w_rollingInterval w < now - w_currentTime w) in
      '(d, w, err) ← (if needRoll then doRollFile now d w else Ret (d, w, None));
      match err with
      | Some err => Ret (d, w, Some (WWal err))
      | None =>
          if w_closed w then Ret (d, w, Some (WWal EClosed))
          else
            match io with
            | Some k => Ret (append_file now d (w_currentName w) (take k encrypted), w, Some (WShort k))
            | None =>
                let d := append_file now d (w_currentName w) encrypted in
                Ret (d, mkWriter (w_currentName w) (i64 (w_currentSize w + len encrypted)) (w_currentTime w)
                          (w_maxFileSize w) (w_rollingInterval w) (w_maxFiles w) (w_currentIndex w) false, None)
            end
      end
  end.

(** A run of writes with the answers of the system. *)
Record freq : Type := mkFaulty { f_req : wreq; f_io : option nat }.

Fixpoint write_faulty (qs : list freq) (d : dir) (w : WALWriter)
  : go (dir * WALWriter * list (option write_error)) :=
  match qs with
  | [] => Ret (d, w, [])
  | q :: qs =>
      let r := f_req q in
      '(d, w, err) ← Write_io (f_io q) (q_enc r) (Some (q_nonce r)) (q_now r) (q_data r) d w;
      '(d, w, errs) ← write_faulty qs d w;
      Ret (d, w, err :: errs)
  end.

(** The records whose [Write] returned no error. *)
Definition accepted (qs : list freq) : list rec :=
  omap (λ q, match f_io q with None => Some (req_rec (f_req q)) | Some _ => None end) qs.

(** * Facts *)

Lemma Write_io_None e rnd now data d w :
  Write_io None e rnd now data d w = ('(d, w, err) ← Write e rnd now data d w; Ret (d, w, option_map WWal err)).
Proof.
  unfold Write_io, Write. destruct (Encrypt e rnd data) as [c|]; [|done].
  destruct (if _ || _ then doRollFile now d w else _) as [[[d1 w1] [err|]]|]; cbn [mbind go_bind]; [done| |done].
  by destruct (w_closed w1).
Qed.

(** Nothing appended: only the modification time changes. *)
Lemma append_nothing now a segs d w : wal_inv a segs d w → Forall (seg_small (w_maxFileSize w)) segs →
  ∃ segs', wal_inv a segs' (append_file now d (w_currentName w) []) w ∧ written segs' = written segs ∧
    len segs' = len segs ∧ Forall (seg_small (w_maxFileSize w)) segs'.
Proof.
  intros [-> Hc (init & t & rs & -> & Hsz) Hname Hopen] Hsm. exists (init ++ [(w_currentIndex w, (now, rs))]).
  split_and!; [|by rewrite !written_snoc|by rewrite !len_app
    |by apply Forall_app in Hsm as [Hi Ht]; apply Forall_app; split; [|inversion_clear Ht; constructor]].
  split; [|by eapply consecutive_replace|by eexists _, _, _|done|done].
  rewrite Hname, !(dir_of_snoc a) by (eapply consecutive_replace; done).
  unfold append_file. cbn [fst snd]. rewrite lookup_insert_eq. cbn [f_data]. by rewrite insert_insert_eq, app_nil_r.
Qed.

(** A write that is refused before its first byte may roll the file, and does no more. *)
Lemma Write_io_refused e nonce now p a segs d w :
  wal_inv a segs d w → a + len segs < 10 ^ 6 → 1 ≤ w_maxFiles w → 0 ≤ w_maxFileSize w →
  Forall (seg_small (w_maxFileSize w)) segs →
  aes_key (currentKey e) = true → fits (currentKey e) nonce p →
  ∃ a' segs' d' w' n,
    Write_io (Some 0%nat) e (Some nonce) now p d w = Ret (d', w', Some (WShort 0)) ∧ wal_inv a' segs' d' w' ∧
    same_config w w' ∧ Forall (seg_small (w_maxFileSize w)) segs' ∧
    a' + len segs' ≤ a + len segs + 1 ∧ len segs' ≤ len segs + 1 ∧
    written segs' = drop n (written segs) ∧ (len segs < w_maxFiles w → n = 0%nat).
Proof.
  intros Hinv Hlt Hmf Hmax Hsm Hkey Hfit. unfold Write_io. rewrite Encrypt_record by done.
  destruct (bool_decide _ || bool_decide _).
  - destruct (roll_inv now a segs d w Hinv Hlt Hmf) as (d1 & w1 & n & -> & Hn & Hinv1 & Hcfg & _ & H0 & _).
    cbn [mbind go_bind]. rewrite (wi_open _ _ _ _ Hinv1). pose proof Hcfg as (Hm1 & _).
    destruct (append_nothing now _ _ d1 w1 Hinv1) as (segs' & Hinv2 & Hw & Hl & Hsm').
    { rewrite Hm1. apply Forall_drop_snoc; [done|right; cbn; lia]. }
    destruct (written_drop n segs) as [m Hm].
    assert (Hd : len (drop n segs) = len segs - Z.of_nat n) by (unfold len; rewrite length_drop; lia).
    exists (a + Z.of_nat n), segs'. eexists _, _, (if decide (n = 0%nat) then 0%nat else m).
    rewrite Hl, len_app, Hd. change (len [_]) with 1.
    split_and!; [done|done|done|by rewrite <- Hm1|lia|lia| |intros; by rewrite decide_True by auto].
    rewrite Hw, written_snoc. cbn [snd]. rewrite app_nil_r.
    destruct (decide (n = 0%nat)) as [Hz|Hz]; [by rewrite Hz, drop_0|by rewrite Hm].
  - cbn [mbind go_bind]. rewrite (wi_open _ _ _ _ Hinv).
    destruct (append_nothing now a segs d w Hinv Hsm) as (segs' & Hinv2 & Hw & Hl & Hsm').
    exists a, segs'. eexists _, _, 0%nat. by split_and!; try done; try lia.
Qed.

(** Every failure of the run came before the first byte. *)
Definition refused_only (q : freq) : Prop := f_io q = None ∨ f_io q = Some 0%nat.

Definition answer (q : freq) : option write_error := WShort <$> f_io q.

Lemma drop_min_app {A} n k (l m : list A) :
  drop k (drop n l ++ m) = drop (Nat.min n (length l) + k) (l ++ m).
Proof.
  rewrite <- drop_drop. f_equal. destruct (decide (n ≤ length l)%nat).
  - rewrite Nat.min_l by lia. by rewrite drop_app_le.
  - rewrite Nat.min_r by lia. rewrite drop_app_length. by rewrite drop_ge by lia.
Qed.

(** One write, accepted or refused. *)
Lemma Write_io_inv q a segs d w :
  refused_only q → req_ok (f_req q) → wal_inv a segs d w → a + len segs < 10 ^ 6 → 1 ≤ w_maxFiles w →
  0 ≤ w_maxFileSize w < 2 ^ 62 → Forall (seg_small (w_maxFileSize w)) segs →
  ∃ a' segs' d' w' n,
    Write_io (f_io q) (q_enc (f_req q)) (Some (q_nonce (f_req q))) (q_now (f_req q)) (q_data (f_req q)) d w
      = Ret (d', w', answer q) ∧
    wal_inv a' segs' d' w' ∧ same_config w w' ∧ Forall (seg_small (w_maxFileSize w)) segs' ∧
    a' + len segs' ≤ a + len segs + 1 ∧ len segs' ≤ len segs + 1 ∧
    written segs' = drop n (written segs) ++ accepted [q] ∧ (len segs < w_maxFiles w → n = 0%nat).
Proof.
  intros Hio [Hk Hfit] Hinv Hlt Hmf Hmax Hsm. unfold answer, accepted. cbn [omap list_omap].
  destruct Hio as [->| ->].
  - destruct (Write_inv (q_enc (f_req q)) (q_nonce (f_req q)) (q_now (f_req q)) (q_data (f_req q)) a segs d w)
      as (a' & segs' & d' & w' & n & HW & HR); [done..|].
    exists a', segs', d', w', n. rewrite Write_io_None, HW. by split; [|].
  - destruct (Write_io_refused (q_enc (f_req q)) (q_nonce (f_req q)) (q_now (f_req q)) (q_data (f_req q)) a segs d w)
      as (a' & segs' & d' & w' & n & HW & HR); [done..|lia|done|done|done|].
    exists a', segs', d', w', n. rewrite HW, app_nil_r. by split; [|].
Qed.

Lemma write_faulty_inv qs a segs d w :
  Forall refused_only qs → Forall (λ q, req_ok (f_req q)) qs →
  wal_inv a segs d w → a + len segs + len qs ≤ 10 ^ 6 → 1 ≤ w_maxFiles w →
  0 ≤ w_maxFileSize w < 2 ^ 62 → Forall (seg_small (w_maxFileSize w)) segs →
  ∃ a' segs' d' w' k,
    write_faulty qs d w = Ret (d', w', answer <$> qs) ∧ wal_inv a' segs' d' w' ∧
    written segs' = drop k (written segs ++ accepted qs) ∧
    (len segs + len qs ≤ w_maxFiles w → k = 0%nat).
Proof.
  intros Hio Hqs. revert a segs d w Hqs. induction Hio as [|q qs Hq Hio IH];
    intros a segs d w Hqs Hinv Hlt Hmf Hmax Hsm.
  { exists a, segs, d, w, 0%nat. rewrite app_nil_r. by split_and!. }
  inversion_clear Hqs as [|? ? Hok Hqs']. rewrite len_cons in *. pose proof (len_nonneg qs).
  destruct (Write_io_inv q a segs d w)
    as (a1 & segs1 & d1 & w1 & n & HW & Hinv1 & (Hc1 & Hc2 & Hc3) & Hsm1 & Hb1 & Hb2 & Hwr & Hn); [try done; lia..|].
  destruct (IH a1 segs1 d1 w1 Hqs' Hinv1) as (a2 & segs2 & d2 & w2 & k & HWs & Hinv2 & Hwr2 & Hk0);
    [lia|lia|lia|by rewrite Hc1|].
  rewrite Hc3 in Hk0. exists a2, segs2, d2, w2, (Nat.min n (length (written segs)) + k)%nat.
  cbn [write_faulty]. go_step HW. go_step HWs. split_and!; [done|done| |].
  - rewrite Hwr2, Hwr, <- (assoc_L (++)), drop_min_app. do 2 f_equal.
    unfold accepted. cbn [omap list_omap]. by destruct (f_io q).
  - intros Hle. rewrite Hn, Hk0 by lia. done.
Qed.

(** A log whose disk refuses some records before their first byte loses
    nothing else: every refusal is reported to its caller, and a reader that knows
    the keys gets the accepted records in order, less those of deleted files. *)
Theorem ReadAll_after_refusals `{!AEADLaws} e qs a segs d w :
  wal_inv a segs d w → a + len segs + len qs ≤ 10 ^ 6 → 1 ≤ w_maxFiles w →
  0 ≤ w_maxFileSize w < 2 ^ 62 → Forall (seg_small (w_maxFileSize w)) segs →
  Forall (rec_ok e) (written segs) → Forall refused_only qs → Forall (λ q, req_known e (f_req q)) qs →
  ∃ d' w' k,
    write_faulty qs d w = Ret (d', w', answer <$> qs) ∧
    ReadAll e d' = Ret (Ok (drop k (r_plain <$> written segs ++ accepted qs))) ∧
    (len segs + len qs ≤ w_maxFiles w → k = 0%nat).
Proof.
  intros Hinv Hlt Hmf Hmax Hsm Hold Hio Hqs.
  destruct (write_faulty_inv qs a segs d w Hio) as (a' & segs' & d' & w' & k & HW & Hinv' & Hwr & Hk); [|done..|].
  { eapply Forall_impl; [exact Hqs|]. intros q Hq. by apply (req_known_ok e). }
  exists d', w', k. split_and!; [done| |done]. rewrite (wi_dir _ _ _ _ Hinv'), (ReadAll_segs e a').
  - change (segs' ≫= _) with (written segs'). by rewrite Hwr, fmap_drop.
  - apply Hinv'.
  - apply Forall_forall. intros s Hs. apply Forall_forall. intros r Hr.
    assert (Hin : r ∈ written segs') by (apply list_elem_of_bind; eauto).
    rewrite Hwr in Hin. apply list_elem_of_drop, elem_of_app in Hin as [Hin|Hin].
    { by eapply Forall_forall in Hold. }
    apply list_elem_of_omap in Hin as (q & Hq & Heq). eapply Forall_forall in Hqs; [|exact Hq].
    destruct (f_io q); simplify_eq. by apply req_known_ok.
Qed.
End faults.

(** * Closed instances *)

Section witnesses.
#[local] Existing Instance tag_aead.

Definition ex_freqs (io : option nat) : list freq :=
  [mkFaulty (ex_req 1 "add a") None; mkFaulty (ex_req 2 "add b") io; mkFaulty (ex_req 3 "add c") None].

Definition ex_open : dir * result wal_error WALWriter := NewWALWriterWithConfig 0 ∅ 1000 60 4.

Definition ex_run (io : option nat) : go (list (option write_error) * result wal_error (list (list byte))) :=
  match ex_open with
  | (d, Ok w) =>
      '(d, _, errs) ← write_faulty (ex_freqs io) d w;
      r ← ReadAll ex_enc d;
      Ret (errs, r)
  | (_, Err e) => Ret ([], Err e)
  end.

Example refused_write_is_harmless : ex_run (Some 0%nat) = Ret ([None; Some (WShort 0); None], Ok (bytes_of_string <$> ["add a"; "add c"])).
Proof. vm_compute. reflexivity. Qed.

(** A write that fails after some of its bytes makes every later record
    of the file unreadable, although their own [Write] reported success: the
    rest of the short record stays in the file and the reader stops there. *)
Theorem short_write_hides_records : ex_run (Some 10%nat) = Ret ([None; Some (WShort 10); None], Ok [bytes_of_string "add a"]).
Proof. vm_compute. reflexivity. Qed.

(** The log of [ex_open]: one empty file. *)
Definition ex_segs : list segment := [(1, (0, []))].
Definition ex_writer : WALWriter := mkWriter (wal_name 1) 0 0 1000 60 4 1 false.

Lemma ex_open_inv : ex_open = (dir_of ex_segs, Ok ex_writer) ∧ wal_inv 1 ex_segs (dir_of ex_segs) ex_writer.
Proof.
  split; [by vm_compute|]. split; [done| |by exists [], 0, []|done|done].
  split_and!; vm_compute; congruence.
Qed.

Lemma ex_freqs_known io : Forall (λ q, req_known ex_enc (f_req q)) (ex_freqs io).
Proof. repeat constructor; try reflexivity; try (vm_compute; congruence); apply ex_enc_ok. Qed.

Lemma ReadAll_after_refusals_witness :
  ∃ d' w' k,
    write_faulty (ex_freqs (Some 0%nat)) (dir_of ex_segs) ex_writer = Ret (d', w', answer <$> ex_freqs (Some 0%nat)) ∧
    ReadAll ex_enc d' = Ret (Ok (drop k (r_plain <$> written ex_segs ++ accepted (ex_freqs (Some 0%nat))))) ∧
    (len ex_segs + len (ex_freqs (Some 0%nat)) ≤ 4 → k = 0%nat).
Proof.
  apply (@ReadAll_after_refusals _ tag_aead_laws ex_enc (ex_freqs (Some 0%nat)) 1 ex_segs (dir_of ex_segs) ex_writer).
  - apply ex_open_inv.
  - vm_compute. congruence.
  - cbn. lia.
  - cbn. lia.
  - constructor; [right; cbn; lia|constructor].
  - constructor.
  - repeat constructor; (by left) || (by right).
  - apply ex_freqs_known.
Defined.
End witnesses.
