(* ===== verification/WalAsync.v ===== *)
(** [internal/wal/async_wal.go]: the asynchronous and the batching writer.

    [AsyncWALWriter] is a labelled transition system over the writer and the directory
    of [WalFiles].  Clients call [WriteAsync] and [Flush]; the goroutine [flushLoop]
    reacts to the signal channel, the timer and the stop channel.  A flush takes the
    buffer under the mutex and writes it after releasing the mutex, so taking and
    writing are two steps and flushes of different goroutines interleave; the write
    itself is one call of [WALWriter.Write], which has its own mutex.  What that call
    reads from outside, the encryptor, a nonce and the clock, is in the label. *)

From S2P Require Import Prelude GoBytes GoFmt CountingCodec WalCrypto WalFiles.
#[local] Open Scope Z_scope.

(** * Definitions *)

Record WalEntry : Type := mkWalEntry {
  we_data : list byte;
  we_timestamp : Z;
  we_callback : option nat
}.

Inductive loop_phase : Type := LRunning | LFlushing | LStopping | LDone.

#[export] Instance loop_phase_eq_dec : EqDecision loop_phase.
Proof. solve_decision. Defined.

Record AsyncWALWriter : Type := mkAsync {
  a_buffer : list WalEntry;
  a_flushCh : bool;                               (* capacity 1 *)
  a_stopCh : bool;                                (* closed *)
  a_maxBatchSize : Z;
  a_phase : loop_phase;
  a_loop : list WalEntry;                         (* entries flushLoop is writing *)
  a_clients : gmap nat (list WalEntry);           (* entries each caller of Flush is writing *)
  a_totalWrites : Z;
  a_totalFlushes : Z;
  a_lastBatchSize : Z;
  a_dir : dir;                                    (* the files *)
  a_writer : WALWriter;                           (* the base writer *)
  a_callbacks : list (nat * option wal_error)     (* calls of callbacks *)
}.

Definition NewAsyncWALWriter (maxBatchSize : Z) (d : dir) (w : WALWriter) : AsyncWALWriter :=
  mkAsync [] false false maxBatchSize LRunning [] ∅ 0 0 0 d w [].

Definition WriteAsync (e : WalEntry) (a : AsyncWALWriter) : AsyncWALWriter :=
  let buffer := a_buffer a ++ [e] in
  let shouldFlush := bool_decide (a_maxBatchSize a ≤ len buffer) in
  mkAsync buffer (a_flushCh a || shouldFlush) (a_stopCh a) (a_maxBatchSize a) (a_phase a) (a_loop a)
    (a_clients a) (i64 (a_totalWrites a + 1)) (a_totalFlushes a) (a_lastBatchSize a) (a_dir a)
    (a_writer a) (a_callbacks a).

(** What a call of [WALWriter.Write] reads. *)
Record write_env : Type := mkWEnv {
  wv_enc : WALEncryptor;
  wv_nonce : option (list byte);
  wv_now : Z
}.

Definition batch_data (entries : list WalEntry) : list byte := entries ≫= we_data.

Definition with_phase (a : AsyncWALWriter) (buffer : list WalEntry) (ch : bool) (ph : loop_phase)
    (lp : list WalEntry) : AsyncWALWriter :=
  mkAsync buffer ch (a_stopCh a) (a_maxBatchSize a) ph lp (a_clients a) (a_totalWrites a)
    (a_totalFlushes a) (a_lastBatchSize a) (a_dir a) (a_writer a) (a_callbacks a).

Definition with_clients (a : AsyncWALWriter) (buffer : list WalEntry)
    (cl : gmap nat (list WalEntry)) : AsyncWALWriter :=
  mkAsync buffer (a_flushCh a) (a_stopCh a) (a_maxBatchSize a) (a_phase a) (a_loop a) cl
    (a_totalWrites a) (a_totalFlushes a) (a_lastBatchSize a) (a_dir a) (a_writer a) (a_callbacks a).

(** The locked part of [doFlushFromBuffer]: with an empty buffer the goroutine
    goes straight to its next phase. *)
Definition take_for_loop (busy idle : loop_phase) (ch : bool) (a : AsyncWALWriter) : AsyncWALWriter :=
  if decide (a_buffer a = []) then with_phase a [] ch idle []
  else with_phase a [] ch busy (a_buffer a).

(** The locked part of [Flush]. *)
Definition take_for_client (t : nat) (a : AsyncWALWriter) : AsyncWALWriter :=
  if decide (a_buffer a = []) then a
  else with_clients a [] (<[t := a_buffer a]> (a_clients a)).

Inductive label : Type :=
  | CWriteAsync (e : WalEntry)
  | CFlushTake (t : nat)
  | CFlushWrite (t : nat) (env : write_env)
  | CClose                                        (* close(stopCh), by the first Close *)
  | LSignal                                       (* <-flushCh *)
  | LTimer                                        (* <-flushTimer.C *)
  | LStop                                         (* <-stopCh *)
  | LWrite (env : write_env)
  | CCloseFile.                                   (* the rest of Close, after <-flushDone *)

Section async.
Context `{AEAD}.

(** [doFlush]: one record for the whole batch, then the statistics and the
    callbacks with the result of the write. *)
Definition doFlush (entries : list WalEntry) (env : write_env) (a : AsyncWALWriter) : go AsyncWALWriter :=
  if decide (entries = []) then Ret a
  else
    '(d, w, lastErr) ←
      (if decide (0 < len (batch_data entries))
       then Write (wv_enc env) (wv_nonce env) (wv_now env) (batch_data entries) (a_dir a) (a_writer a)
       else Ret (a_dir a, a_writer a, None));
    Ret (mkAsync (a_buffer a) (a_flushCh a) (a_stopCh a) (a_maxBatchSize a) (a_phase a) (a_loop a)
      (a_clients a) (a_totalWrites a) (i64 (a_totalFlushes a + 1)) (len entries) d w
      (a_callbacks a ++ ((λ c, (c, lastErr)) <$> omap we_callback entries))).

Definition async_step (l : label) (a : AsyncWALWriter) : go (option AsyncWALWriter) :=
  match l with
  | CWriteAsync e => Ret (Some (WriteAsync e a))
  | CFlushTake t =>
      match a_clients a !! t with None => Ret (Some (take_for_client t a)) | Some _ => Ret None end
  | CFlushWrite t env =>
      match a_clients a !! t with
      | Some entries => a' ← doFlush entries env (with_clients a (a_buffer a) (delete t (a_clients a))); Ret (Some a')
      | None => Ret None
      end
  | CClose =>
      if a_stopCh a then Ret None
      else Ret (Some (mkAsync (a_buffer a) (a_flushCh a) true (a_maxBatchSize a) (a_phase a) (a_loop a)
                   (a_clients a) (a_totalWrites a) (a_totalFlushes a) (a_lastBatchSize a) (a_dir a)
                   (a_writer a) (a_callbacks a)))
  | LSignal =>
      if decide (a_phase a = LRunning ∧ a_flushCh a = true)
      then Ret (Some (take_for_loop LFlushing LRunning false a)) else Ret None
  | LTimer =>
      if decide (a_phase a = LRunning)
      then Ret (Some (take_for_loop LFlushing LRunning (a_flushCh a) a)) else Ret None
  | LStop =>
      if decide (a_phase a = LRunning ∧ a_stopCh a = true)
      then Ret (Some (take_for_loop LStopping LDone (a_flushCh a) a)) else Ret None
  | LWrite env =>
      match a_phase a with
      | LFlushing => a' ← doFlush (a_loop a) env a; Ret (Some (with_phase a' (a_buffer a') (a_flushCh a') LRunning []))
      | LStopping => a' ← doFlush (a_loop a) env a; Ret (Some (with_phase a' (a_buffer a') (a_flushCh a') LDone []))
      | _ => Ret None
      end
  | CCloseFile =>
      if decide (a_phase a = LDone)
      then Ret (Some (mkAsync (a_buffer a) (a_flushCh a) (a_stopCh a) (a_maxBatchSize a) (a_phase a) (a_loop a)
                   (a_clients a) (a_totalWrites a) (a_totalFlushes a) (a_lastBatchSize a) (a_dir a)
                   (wal_Close (a_writer a)).1 (a_callbacks a)))
      else Ret None
  end.

(** [Ret None]: the steps are not those of a run. *)
Fixpoint async_run (ls : list label) (a : AsyncWALWriter) : go (option AsyncWALWriter) :=
  match ls with
  | [] => Ret (Some a)
  | l :: ls' =>
      r ← async_step l a;
      match r with Some a' => async_run ls' a' | None => Ret None end
  end.
End async.

(** ** SyncWALWriter, over any base writer *)

Record SyncWALWriter : Type := mkSync { s_buffer : list (list byte); s_maxSize : Z }.

Section sync.
Context {B : Type} (base_Write : list byte → B → B * option wal_error).

Fixpoint write_each (ds : list (list byte)) (b : B) : B * option wal_error :=
  match ds with
  | [] => (b, None)
  | d :: ds' =>
      let '(b', err) := base_Write d b in
      match err with Some e => (b', Some e) | None => write_each ds' b' end
  end.

Definition sync_Flush (s : SyncWALWriter) (b : B) : SyncWALWriter * B * option wal_error :=
  if decide (s_buffer s = []) then (s, b, None)
  else
    let '(b', err) := write_each (s_buffer s) b in
    (mkSync [] (s_maxSize s), b', err).

Definition sync_Write (d : list byte) (s : SyncWALWriter) (b : B)
  : SyncWALWriter * B * option wal_error :=
  let s := mkSync (s_buffer s ++ [d]) (s_maxSize s) in
  if decide (s_maxSize s ≤ len (s_buffer s)) then sync_Flush s b else (s, b, None).

Fixpoint sync_writes (ds : list (list byte)) (s : SyncWALWriter) (b : B)
  : SyncWALWriter * B * list (option wal_error) :=
  match ds with
  | [] => (s, b, [])
  | d :: ds' =>
      let '(s1, b1, err) := sync_Write d s b in
      let '(s2, b2, errs) := sync_writes ds' s1 b1 in
      (s2, b2, err :: errs)
  end.
End sync.

(** * Lemmas *)

(** All entries some caller of [Flush] is writing. *)
Definition client_entries (m : gmap nat (list WalEntry)) : list WalEntry :=
  (map_to_list m).*2 ≫= id.

Lemma client_entries_insert m t es : m !! t = None →
  client_entries (<[t := es]> m) ≡ₚ es ++ client_entries m.
Proof. intros Hm. unfold client_entries. by rewrite map_to_list_insert. Qed.

Lemma client_entries_delete m t es : m !! t = Some es →
  client_entries m ≡ₚ es ++ client_entries (delete t m).
Proof. intros Hm. unfold client_entries. rewrite <- (map_to_list_delete m t es) at 1 by done. done. Qed.

(** The entries handed to [WriteAsync] in a run. *)
Definition submitted (ls : list label) : list WalEntry :=
  omap (λ l, match l with CWriteAsync e => Some e | _ => None end) ls.

Lemma submitted_app l1 l2 : submitted (l1 ++ l2) = submitted l1 ++ submitted l2.
Proof. apply omap_app. Qed.

(** The flushes of a run, in the order of their writes: their entries and their results. *)
Abbreviation flushes := (list (list WalEntry * option wal_error)).

Definition flushed (fl : flushes) : list WalEntry := fl ≫= fst.

(** The records they leave: one for each that succeeded and has bytes. *)
Definition stored (fl : flushes) : list (list byte) :=
  omap (λ fe, match fe.2 with
              | None => if decide (0 < len (batch_data fe.1)) then Some (batch_data fe.1) else None
              | Some _ => None
              end) fl.

(** The callbacks they call: each entry that has one, with the result of its flush. *)
Definition called (fl : flushes) : list (nat * option wal_error) :=
  fl ≫= λ fe, (λ c, (c, fe.2)) <$> omap we_callback fe.1.

Definition bytes (l : list WalEntry) : Z := zsum (λ e, len (we_data e)) l.

Lemma bytes_app l1 l2 : bytes (l1 ++ l2) = bytes l1 + bytes l2.
Proof. apply zsum_app. Qed.
Lemma bytes_nonneg l : 0 ≤ bytes l.
Proof. apply zsum_nonneg. intros e. apply len_nonneg. Qed.
Lemma bytes_perm l1 l2 : l1 ≡ₚ l2 → bytes l1 = bytes l2.
Proof. unfold bytes. induction 1; rewrite ?zsum_cons; lia. Qed.
Lemma len_batch_data l : len (batch_data l) = bytes l.
Proof. unfold batch_data, bytes. induction l as [|e l IH]; [done|]. cbn [mbind list_bind]. rewrite zsum_cons, len_app. cbn [mbind] in IH. lia. Qed.

Section lemmas.
Context `{AEAD}.

(** The nonce of a write has the length of a nonce, and up to [total] bytes under its key
    fit the length field of a record. *)
Definition env_ok (total : Z) (env : write_env) : Prop :=
  ∀ nonce p, wv_nonce env = Some nonce → len p ≤ total → fits (currentKey (wv_enc env)) nonce p.

Definition label_ok (total : Z) (l : label) : Prop :=
  match l with CFlushWrite _ env | LWrite env => env_ok total env | _ => True end.

(** The encryption of a write succeeds. *)
Definition env_writes (env : write_env) : Prop :=
  aes_key (currentKey (wv_enc env)) = true ∧ is_Some (wv_nonce env).

Definition opened (w : WALWriter) : WALWriter :=
  mkWriter (w_currentName w) (w_currentSize w) (w_currentTime w) (w_maxFileSize w) (w_rollingInterval w)
    (w_maxFiles w) (w_currentIndex w) false.

(** The files hold the records of the flushes so far, at most one more than there were flushes. *)
Record files_hold (fl : flushes) (gone kept : list segment) (a : AsyncWALWriter) : Prop := {
  fh_files : wal_files 1 gone kept (a_dir a) (opened (a_writer a));
  fh_stored : r_plain <$> written (gone ++ kept) = stored fl;
  fh_called : a_callbacks a = called fl;
  fh_small : Forall (seg_small (w_maxFileSize (a_writer a))) kept;
  fh_count : len (gone ++ kept) ≤ 1 + len fl;
  fh_max : w_maxFiles (a_writer a) = DefaultMaxFiles ∧ w_maxFileSize (a_writer a) = DefaultMaxFileSize
}.

(** What a flush leaves alone. *)
Definition control (a : AsyncWALWriter) :=
  (a_buffer a, a_flushCh a, a_stopCh a, a_phase a, a_loop a, a_clients a).

(** A write of the base writer in a good state: it adds the record, or fails and changes nothing. *)
Lemma base_write env p gone kept d w : wal_files 1 gone kept d (opened w) → env_ok (len p) env →
  1 + len (gone ++ kept) + 1 ≤ 10 ^ 6 → 1 ≤ w_maxFiles w → 0 ≤ w_maxFileSize w < 2 ^ 62 →
  Forall (seg_small (w_maxFileSize w)) kept →
  ∃ d' w' err gone' kept', Write (wv_enc env) (wv_nonce env) (wv_now env) p d w = Ret (d', w', err) ∧
    wal_files 1 gone' kept' d' (opened w') ∧ same_config w w' ∧ Forall (seg_small (w_maxFileSize w)) kept' ∧
    len (gone' ++ kept') ≤ len (gone ++ kept) + 1 ∧ w_closed w' = w_closed w ∧
    r_plain <$> written (gone' ++ kept') = (r_plain <$> written (gone ++ kept)) ++ (if err is None then [p] else []) ∧
    (env_writes env → w_closed w = false → err = None).
Proof.
  intros Hf He Hlen Hmf Hmax Hsm.
  assert (∀ err, (env_writes env → w_closed w = false → err = None) → (if err is None then False else True) →
    Write (wv_enc env) (wv_nonce env) (wv_now env) p d w = Ret (d, w, err) →
    ∃ d' w' err gone' kept', Write (wv_enc env) (wv_nonce env) (wv_now env) p d w = Ret (d', w', err) ∧
    wal_files 1 gone' kept' d' (opened w') ∧ same_config w w' ∧ Forall (seg_small (w_maxFileSize w)) kept' ∧
    len (gone' ++ kept') ≤ len (gone ++ kept) + 1 ∧ w_closed w' = w_closed w ∧
    r_plain <$> written (gone' ++ kept') = (r_plain <$> written (gone ++ kept)) ++ (if err is None then [p] else []) ∧
    (env_writes env → w_closed w = false → err = None)) as Hfail.
  { intros err Herr Hno HW. exists d, w, err, gone, kept. rewrite HW. destruct err; [|done]. rewrite app_nil_r. by split_and!; try lia. }
  destruct (aes_key (currentKey (wv_enc env))) eqn:Hk.
  2: { apply (Hfail (Some ECipher)); [by intros [? _]; congruence|done|]. unfold Write, Encrypt. by rewrite Hk. }
  destruct (wv_nonce env) as [nonce|] eqn:Hn.
  2: { apply (Hfail (Some ERandom)); [intros [_ [? ?]]; congruence|done|]. unfold Write, Encrypt. by rewrite Hk. }
  destruct (w_closed w) eqn:Hcl.
  { apply (Hfail (Some EClosed)); [done|done|]. unfold Write. rewrite Encrypt_record by done. unfold doRollFile. rewrite Hcl.
    destruct (_ || _); cbn [mbind go_bind]; by rewrite ?Hcl. }
  assert (opened w = w) as Ho by (destruct w; cbn in Hcl; by subst). rewrite Ho in Hf.
  destruct (write_all_files [mkReq (wv_enc env) nonce (wv_now env) p] 1 gone kept d w Hf) as (gone' & kept' & d' & w' & HW & Hf' & Hcfg & Hsm' & Hl & Hwr & _);
    [change (len [_]) with 1; lia|done..| |].
  { apply Forall_singleton. split; [done|]. by apply (He nonce p). }
  cbn [write_all q_enc q_nonce q_now q_data length replicate] in HW. destruct (Write _ _ _ _ d w) as [[[d1 w1] err]|] eqn:EW; [|done].
  cbn [mbind go_bind] in HW. injection HW as -> -> ->. exists d', w', None, gone', kept'.
  assert (w_closed w' = false) as Hcl' by apply Hf'. assert (opened w' = w') as -> by (destruct w'; cbn in Hcl'; by subst).
  split_and!; try done. by rewrite Hwr, fmap_app.
Qed.

Lemma stored_app f1 f2 : stored (f1 ++ f2) = stored f1 ++ stored f2.
Proof. apply omap_app. Qed.
Lemma called_app f1 f2 : called (f1 ++ f2) = called f1 ++ called f2.
Proof. apply bind_app. Qed.
Lemma flushed_snoc fl es err : flushed (fl ++ [(es, err)]) = flushed fl ++ es.
Proof. unfold flushed. rewrite bind_app. cbn. by rewrite app_nil_r. Qed.

Lemma doFlush_files es env a total fl gone kept : files_hold fl gone kept a → es ≠ [] → bytes es ≤ total → env_ok total env →
  3 + len fl ≤ 10 ^ 6 →
  ∃ a' err gone' kept', doFlush es env a = Ret a' ∧ files_hold (fl ++ [(es, err)]) gone' kept' a' ∧ control a' = control a ∧
    w_closed (a_writer a') = w_closed (a_writer a) ∧
    (env_writes env → w_closed (a_writer a) = false → err = None).
Proof.
  intros [Hf Hst Hcb Hsm Hcnt [Hm1 Hm2]] Hes Hb He Hlen. unfold doFlush. rewrite decide_False by done.
  assert (∃ d w err gone' kept', (if decide (0 < len (batch_data es))
       then Write (wv_enc env) (wv_nonce env) (wv_now env) (batch_data es) (a_dir a) (a_writer a)
       else Ret (a_dir a, a_writer a, None)) = Ret (d, w, err) ∧
    wal_files 1 gone' kept' d (opened w) ∧ same_config (a_writer a) w ∧ Forall (seg_small (w_maxFileSize (a_writer a))) kept' ∧
    len (gone' ++ kept') ≤ len (gone ++ kept) + 1 ∧ w_closed w = w_closed (a_writer a) ∧
    r_plain <$> written (gone' ++ kept') = stored (fl ++ [(es, err)]) ∧
    (env_writes env → w_closed (a_writer a) = false → err = None)) as (d & w & err & gone' & kept' & -> & Hf' & (Hc1 & Hc2 & Hc3) & Hsm' & Hl & Hcl & Hw & Hok).
  { case_decide as Hd.
    - destruct (base_write env (batch_data es) gone kept (a_dir a) (a_writer a)) as (d & w & err & gone' & kept' & HW & Hf' & Hcfg & Hsm' & Hl & Hcl & Hw & Hok);
        [done| |lia|by rewrite Hm1|by rewrite Hm2|done|].
      { intros nonce p Hn Hp. apply He; [done|]. rewrite len_batch_data in Hp. lia. }
      exists d, w, err, gone', kept'. split_and!; [done..| |done]. rewrite Hw, Hst, stored_app. f_equal.
      cbn. destruct err; [done|]. by rewrite decide_True.
    - exists (a_dir a), (a_writer a), None, gone, kept. split_and!; [done..|lia|done| |done]. rewrite Hst, stored_app. cbn. by rewrite decide_False, app_nil_r. }
  cbn [mbind go_bind]. eexists _, err, gone', kept'. split; [done|]. split; [|by split_and!]. split; cbn; [done|done| |by rewrite Hc1| |by rewrite Hc1, Hc3].
  - rewrite Hcb, called_app. cbn. by rewrite app_nil_r.
  - rewrite (len_app fl). change (len [_]) with 1. lia.
Qed.

(** Where the submitted entries are. *)
Record placed (ls : list label) (fl : flushes) (gone kept : list segment) (a : AsyncWALWriter) : Prop := {
  pl_where : submitted ls ≡ₚ flushed fl ++ a_loop a ++ client_entries (a_clients a) ++ a_buffer a;
  pl_idle : a_phase a = LRunning ∨ a_phase a = LDone → a_loop a = [];
  pl_busy : a_phase a = LFlushing ∨ a_phase a = LStopping → a_loop a ≠ [];
  pl_clients t es : a_clients a !! t = Some es → es ≠ [];
  pl_files : files_hold fl gone kept a;
  pl_len : len fl ≤ len ls
}.

(** A step that writes nothing. *)
Lemma placed_frame ls l fl gone kept a a' : placed ls fl gone kept a →
  a_dir a' = a_dir a → opened (a_writer a') = opened (a_writer a) → a_callbacks a' = a_callbacks a →
  submitted (ls ++ [l]) ≡ₚ flushed fl ++ a_loop a' ++ client_entries (a_clients a') ++ a_buffer a' →
  (a_phase a' = LRunning ∨ a_phase a' = LDone → a_loop a' = []) →
  (a_phase a' = LFlushing ∨ a_phase a' = LStopping → a_loop a' ≠ []) →
  (∀ t es, a_clients a' !! t = Some es → es ≠ []) → placed (ls ++ [l]) fl gone kept a'.
Proof.
  intros [_ _ _ _ [Hf Hst Hcb Hsm Hcnt Hm] Hlen] Hd Hw Hc Hsub Hi Hb Hcl. split; [done..| |rewrite len_app; change (len [_]) with 1; lia].
  assert (w_maxFiles (a_writer a') = w_maxFiles (a_writer a)) as Hm1 by (by injection Hw).
  assert (w_maxFileSize (a_writer a') = w_maxFileSize (a_writer a)) as Hm2 by (by injection Hw).
  split; [by rewrite Hd, Hw|done|congruence|by rewrite Hm2|done|by rewrite Hm1, Hm2].
Qed.

Lemma submitted_other ls l : (if l is CWriteAsync _ then False else True) → submitted (ls ++ [l]) = submitted ls.
Proof. intros Hl. rewrite submitted_app. destruct l; [done|..]; cbn; by rewrite app_nil_r. Qed.

Lemma take_placed ls l fl gone kept a busy idle ch : placed ls fl gone kept a → (if l is CWriteAsync _ then False else True) →
  a_phase a = LRunning → busy = LFlushing ∨ busy = LStopping → idle = LRunning ∨ idle = LDone →
  placed (ls ++ [l]) fl gone kept (take_for_loop busy idle ch a).
Proof.
  intros Hp Hl Hph Hb Hi. pose proof Hp as [Hw Hidle Hbusy Hcl Hf Hlen]. rewrite Hidle in Hw by tauto.
  unfold take_for_loop. case_decide as Hbuf; eapply placed_frame; try done; cbn; rewrite ?submitted_other by done.
  - by rewrite Hw, Hbuf.
  - destruct Hi as [-> | ->]; intros [?|?]; done.
  - rewrite Hw, app_nil_r. cbn. f_equiv. by rewrite (comm (++)).
  - destruct Hb as [-> | ->]; intros [?|?]; done.
Qed.

(** The bytes of what is being written are among the submitted ones. *)
Lemma placed_bytes ls fl gone kept a es : placed ls fl gone kept a →
  a_loop a = es ∨ (∃ t, a_clients a !! t = Some es) → bytes es ≤ bytes (submitted ls).
Proof.
  intros [Hw _ _ _ _ _] Hes. rewrite (bytes_perm _ _ Hw), !bytes_app. pose proof (bytes_nonneg (flushed fl)).
  pose proof (bytes_nonneg (a_loop a)). pose proof (bytes_nonneg (client_entries (a_clients a))). pose proof (bytes_nonneg (a_buffer a)).
  destruct Hes as [<-|[t Ht]]; [lia|]. rewrite (bytes_perm _ _ (client_entries_delete _ t es Ht)) in *. rewrite bytes_app in *.
  pose proof (bytes_nonneg (client_entries (delete t (a_clients a)))). lia.
Qed.

(** One step.  The result of a flush is [None] when its write can succeed. *)
Definition flush_step (l : label) (a : AsyncWALWriter) (fl fl' : flushes) : Prop :=
  match l with
  | CFlushWrite t env => ∃ es err, fl' = fl ++ [(es, err)] ∧ (env_writes env → w_closed (a_writer a) = false → err = None)
  | LWrite env => ∃ err, fl' = fl ++ [(a_loop a, err)] ∧ (env_writes env → w_closed (a_writer a) = false → err = None)
  | _ => fl' = fl
  end.

Lemma async_step_placed total ls l fl gone kept a : placed ls fl gone kept a → label_ok total l →
  bytes (submitted ls) ≤ total → 3 + len ls ≤ 10 ^ 6 →
  ∃ r, async_step l a = Ret r ∧ ∀ a', r = Some a' → ∃ fl' gone' kept', placed (ls ++ [l]) fl' gone' kept' a' ∧ flush_step l a fl fl' ∧
    (w_closed (a_writer a') = w_closed (a_writer a) ∨ l = CCloseFile).
Proof.
  intros Hp Hl Hb Hlen. pose proof Hp as [Hw Hidle Hbusy Hcl Hf Hlf].
  assert ((if l is CFlushWrite _ _ then False else if l is LWrite _ then False else True) →
    ∀ a', placed (ls ++ [l]) fl gone kept a' → w_closed (a_writer a') = w_closed (a_writer a) ∨ l = CCloseFile →
    ∃ r, Ret (Some a') = Ret r ∧ ∀ a', r = Some a' → ∃ fl' gone' kept', placed (ls ++ [l]) fl' gone' kept' a' ∧ flush_step l a fl fl' ∧
    (w_closed (a_writer a') = w_closed (a_writer a) ∨ l = CCloseFile)) as Hsame.
  { intros Hno a' Ha' Hc. eexists. split; [done|]. intros ? [= <-]. exists fl, gone, kept. split_and!; [done|by destruct l|done]. }
  assert (∃ r : option AsyncWALWriter, Ret None = Ret r ∧ ∀ a', r = Some a' → ∃ fl' gone' kept', placed (ls ++ [l]) fl' gone' kept' a' ∧ flush_step l a fl fl' ∧
    (w_closed (a_writer a') = w_closed (a_writer a) ∨ l = CCloseFile)) as Hnone by by eexists.
  destruct l as [e|t|t env| | | | |env|]; cbn [async_step label_ok] in *.
  - apply Hsame; [done| |by left]. eapply placed_frame; try done. rewrite submitted_app. cbn. by rewrite Hw, <- !(assoc_L (++)).
  - destruct (a_clients a !! t) eqn:Ht; [done|]. apply Hsame; [done| |left; unfold take_for_client; by case_decide]. unfold take_for_client.
    case_decide as Hbuf; eapply placed_frame; try done; cbn.
    + by rewrite submitted_other.
    + rewrite submitted_other by done. rewrite Hw, client_entries_insert, app_nil_r by done. do 2 f_equiv. by rewrite (comm (++)).
    + intros t' es [[_ <-]|[_ ?]]%lookup_insert_Some; [done|by eapply Hcl].
  - destruct (a_clients a !! t) as [es|] eqn:Ht; [|done].
    destruct (doFlush_files es env (with_clients a (a_buffer a) (delete t (a_clients a))) total fl gone kept) as (a' & err & gone' & kept' & Hd & Hf' & Hctl & Hc & Hok).
    { by destruct Hf as [? ? ? ? ? ?]. } { by eapply Hcl. }
    { etrans; [|exact Hb]. eapply placed_bytes; [done|]. right. by exists t. } { done. } { lia. }
    rewrite Hd. cbn [mbind go_bind]. eexists. split; [done|]. intros ? [= <-]. exists (fl ++ [(es, err)]), gone', kept'.
    unfold control in Hctl. cbn in Hctl, Hc, Hok. injection Hctl as H1 H2 H3 H4 H5 H6. split_and!; [|by eexists _, _; split_and!|by left].
    split; [|by rewrite H4, H5|by rewrite H4, H5| |done|rewrite !len_app; change (len [(es, err)]) with 1; change (len [CFlushWrite t env]) with 1; lia].
    + rewrite submitted_other by done. rewrite flushed_snoc, H1, H5, H6, Hw, (client_entries_delete _ t es) by done.
      rewrite <- !(assoc_L (++)). f_equiv. rewrite !(assoc (++)). do 2 f_equiv. by rewrite (comm (++)).
    + rewrite H6. intros t' es' [_ ?]%lookup_delete_Some. by eapply Hcl.
  - destruct (a_stopCh a); [done|]. apply Hsame; [done| |by left]. eapply placed_frame; try done. cbn. by rewrite submitted_other.
  - case_decide as Hd; [|done]. apply Hsame; [done| |left; unfold take_for_loop; by case_decide]. apply take_placed; tauto.
  - case_decide as Hd; [|done]. apply Hsame; [done| |left; unfold take_for_loop; by case_decide]. apply take_placed; tauto.
  - case_decide as Hd; [|done]. apply Hsame; [done| |left; unfold take_for_loop; by case_decide]. apply take_placed; tauto.
  - assert (∀ ph, a_phase a = LFlushing ∨ a_phase a = LStopping → ph = LRunning ∨ ph = LDone →
      ∃ r, (a' ← doFlush (a_loop a) env a; Ret (Some (with_phase a' (a_buffer a') (a_flushCh a') ph []))) = Ret r ∧ ∀ a', r = Some a' →
        ∃ fl' gone' kept', placed (ls ++ [LWrite env]) fl' gone' kept' a' ∧ flush_step (LWrite env) a fl fl' ∧
        (w_closed (a_writer a') = w_closed (a_writer a) ∨ LWrite env = CCloseFile)) as Hgo.
    { intros ph Hph Hph'. destruct (doFlush_files (a_loop a) env a total fl gone kept) as (a' & err & gone' & kept' & Hd & Hf' & Hctl & Hc & Hok);
        [done|by apply Hbusy|etrans; [|exact Hb]; eapply placed_bytes; [done|by left]|done|lia|].
      rewrite Hd. cbn [mbind go_bind]. eexists. split; [done|]. intros ? [= <-]. exists (fl ++ [(a_loop a, err)]), gone', kept'.
      unfold control in Hctl. injection Hctl as H1 H2 H3 H4 H5 H6. split_and!; [|by eexists; split_and!|by left].
      split; cbn [with_phase a_loop a_clients a_buffer a_phase]; [|done| | |by destruct Hf' as [? ? ? ? ? ?]|rewrite !len_app; change (len [(a_loop a, err)]) with 1; change (len [LWrite env]) with 1; lia].
      - rewrite submitted_other by done. rewrite flushed_snoc, H1, H6, Hw. by rewrite <- !(assoc_L (++)).
      - destruct Hph' as [-> | ->]; intros [?|?]; done.
      - by rewrite H6. }
    destruct (a_phase a); try done; apply Hgo; tauto.
  - case_decide as Hd; [|done]. apply Hsame; [done| |by right]. eapply placed_frame; try done; [|by rewrite submitted_other].
    cbn. unfold wal_Close. by destruct (w_closed (a_writer a)).
Qed.

(** A property of a state and the steps that led to it, kept by every step of a run. *)
Lemma async_run_ind (P : list label → AsyncWALWriter → Prop) pre ls a :
  (∀ ls1 l ls2 a, pre ++ ls = ls1 ++ l :: ls2 → P ls1 a → ∃ r, async_step l a = Ret r ∧ ∀ a', r = Some a' → P (ls1 ++ [l]) a') →
  P pre a → ∃ r, async_run ls a = Ret r ∧ ∀ a', r = Some a' → P (pre ++ ls) a'.
Proof.
  revert pre a. induction ls as [|l ls IH]; intros pre a Hstep Ha.
  { exists (Some a). split; [done|]. intros a' [= <-]. by rewrite app_nil_r. }
  destruct (Hstep pre l ls a eq_refl Ha) as (r & Hr & Ha'). cbn [async_run]. rewrite Hr. cbn [mbind go_bind].
  destruct r as [a1|]; [|by exists None]. destruct (IH (pre ++ [l]) a1) as (r & Hrun & HP).
  { intros ls1 l' ls2 a2 Heq. apply (Hstep ls1 l' ls2). by rewrite <- Heq, <- (assoc_L (++)). } { by apply Ha'. }
  exists r. split; [done|]. intros a' Hr'. rewrite <- (assoc_L (++)) in HP. by apply HP.
Qed.

(** ** Runs in which only the goroutine flushes *)

(** Nobody but the goroutine flushes, and its writes can succeed. *)
Definition loop_only (l : label) : Prop :=
  match l with CFlushTake _ | CFlushWrite _ _ => False | LWrite env => env_writes env | _ => True end.

Definition not_write (l : label) : Prop := match l with CWriteAsync _ => False | _ => True end.

Record ordered (ls : list label) (fl : flushes) (a : AsyncWALWriter) : Prop := {
  or_where : submitted ls = flushed fl ++ a_loop a ++ a_buffer a;
  or_clients : a_clients a = ∅;
  or_ok : Forall (λ fe, fe.2 = None) fl;
  or_stop : a_stopCh a = false → a_phase a = LRunning ∨ a_phase a = LFlushing;
  or_open : w_closed (a_writer a) = true → a_phase a = LDone
}.

Lemma doFlush_control es env a a' : doFlush es env a = Ret a' → control a' = control a.
Proof.
  unfold doFlush. case_decide; [by intros [= ->]|]. destruct (if decide (0 < _) then _ else _) as [[[d w] err]|]; [|done].
  cbn [mbind go_bind]. by intros [= <-].
Qed.

Lemma take_ordered ls l fl a busy idle ch gone kept : placed ls fl gone kept a → ordered ls fl a →
  (if l is CWriteAsync _ then False else True) → a_phase a = LRunning →
  busy = LFlushing ∨ busy = LStopping ∧ a_stopCh a = true → idle = LRunning ∨ idle = LDone ∧ a_stopCh a = true →
  ordered (ls ++ [l]) fl (take_for_loop busy idle ch a).
Proof.
  intros [_ Hidle _ _ _ _] [Hw Hc Hok Hst Hop] Hl Hph Hb Hi. rewrite Hidle in Hw by tauto. cbn [app] in Hw.
  assert (w_closed (a_writer a) = true → False) as Hno by (intros Ht; by rewrite Hop in Hph).
  unfold take_for_loop. case_decide as Hbuf; split; cbn; rewrite ?submitted_other by done; try done.
  - by rewrite Hw, Hbuf.
  - intros Hf. destruct Hi as [-> |[_ ?]]; [by left|congruence].
  - by rewrite Hw, app_nil_r.
  - intros Hf. destruct Hb as [-> |[_ ?]]; [by right|congruence].
Qed.

Lemma async_step_ordered ls l fl gone kept a a' fl' : placed ls fl gone kept a → ordered ls fl a → loop_only l →
  async_step l a = Ret (Some a') → flush_step l a fl fl' →
  (w_closed (a_writer a') = w_closed (a_writer a) ∨ l = CCloseFile) → ordered (ls ++ [l]) fl' a'.
Proof.
  intros Hp Ho Hl Hs Hfl Hcl. pose proof Ho as [Hw Hc Hok Hst Hop].
  destruct l as [e|t|t env| | | | |env|]; cbn [async_step flush_step loop_only] in *; try done.
  - subst fl'. injection Hs as <-. split; cbn; try done. rewrite submitted_app, Hw. cbn. by rewrite <- !(assoc_L (++)).
  - subst fl'. destruct (a_stopCh a); [done|]. injection Hs as <-. split; cbn; rewrite ?submitted_other by done; try done.
  - subst fl'. case_decide as Hd; [|done]. injection Hs as <-. eapply take_ordered; try done; [tauto|by left|by left].
  - subst fl'. case_decide as Hd; [|done]. injection Hs as <-. eapply take_ordered; try done; by left.
  - subst fl'. case_decide as Hd; [|done]. injection Hs as <-. eapply take_ordered; try done; [tauto|right; tauto|right; tauto].
  - destruct Hfl as (err & -> & Herr). assert (a_phase a = LFlushing ∨ a_phase a = LStopping) as Hph by (destruct (a_phase a); tauto || done).
    assert (∃ a1, doFlush (a_loop a) env a = Ret a1 ∧
      a' = with_phase a1 (a_buffer a1) (a_flushCh a1) (match a_phase a with LFlushing => LRunning | _ => LDone end) []) as (a1 & Hd & ->).
    { destruct Hph as [Hph|Hph]; rewrite Hph in Hs |- *; destruct (doFlush (a_loop a) env a) as [a1|]; try done; cbn [mbind go_bind] in Hs;
        injection Hs as <-; by exists a1. }
    apply doFlush_control in Hd. unfold control in Hd. injection Hd as H1 H2 H3 H4 H5 H6.
    assert (w_closed (a_writer a) = false) as Hopen.
    { destruct (w_closed (a_writer a)) eqn:E; [|done]. rewrite Hop in Hph by done. by destruct Hph. }
    split; cbn [with_phase a_loop a_buffer a_clients a_stopCh a_phase a_writer].
    + rewrite submitted_other by done. rewrite flushed_snoc, H1, Hw. by rewrite <- !(assoc_L (++)).
    + by rewrite H6.
    + apply Forall_app. split; [done|]. constructor; [cbn; auto|done].
    + rewrite H3. intros Hf. destruct (Hst Hf) as [E|E]; rewrite E in *; [by destruct Hph|by left].
    + destruct Hcl as [Hcl|]; [|done]. cbn in Hcl. rewrite Hcl, Hopen. done.
  - subst fl'. case_decide as Hd; [|done]. injection Hs as <-. split; cbn; rewrite ?submitted_other by done; try done.
Qed.

(** Once the stop has been noticed the buffer is empty and stays so. *)
Definition drained (a : AsyncWALWriter) : Prop :=
  a_phase a = LStopping ∨ a_phase a = LDone → a_buffer a = [].

Lemma async_step_drained l a a' : not_write l → loop_only l → drained a →
  async_step l a = Ret (Some a') → drained a'.
Proof.
  unfold drained. intros Hn Hlo Hd Hs. destruct l as [e|t|t env| | | | |env|]; cbn [async_step] in Hs; try done.
  - destruct (a_stopCh a); [done|]. by injection Hs as <-.
  - case_decide; [|done]. injection Hs as <-. unfold take_for_loop. by case_decide.
  - case_decide; [|done]. injection Hs as <-. unfold take_for_loop. by case_decide.
  - case_decide; [|done]. injection Hs as <-. unfold take_for_loop. by case_decide.
  - destruct (doFlush (a_loop a) env a) as [a1|] eqn:E; [|by destruct (a_phase a)]. apply doFlush_control in E.
    unfold control in E. injection E as H1 _ _ _ _ _. destruct (a_phase a) eqn:Hp; try done; cbn [mbind go_bind] in Hs; injection Hs as <-; cbn.
    + intros [?|?]; done.
    + intros _. rewrite H1. apply Hd. by left.
  - case_decide; [|done]. by injection Hs as <-.
Qed.

(** ** The start *)

Lemma New_placed now n : ∃ d w, NewWALWriter now ∅ = (d, Ok w) ∧ w_closed w = false ∧
  ∀ ls, submitted ls = [] → placed ls [] [] [(1, (now, []))] (NewAsyncWALWriter n d w).
Proof.
  destruct (new_wal_files now 1 [] DefaultMaxFileSize DefaultRollingInterval DefaultMaxFiles) as (d & w & Hnew & Hf & Hm1 & Hm2); [done..|].
  exists d, w. assert (w_closed w = false) as Hcl by apply Hf. split_and!; [exact Hnew|done|]. intros ls Hls.
  split; cbn; try done; [by rewrite Hls|by intros [?|?]| |apply len_nonneg].
  split; cbn; [|done|done| |unfold len; cbn; lia|by rewrite Hm1, Hm2].
  - assert (opened w = w) as -> by (destruct w; cbn in Hcl; by subst). exact Hf.
  - constructor; [|done]. right. cbn. lia.
Qed.

Lemma prefix_bytes (ls1 : list label) l ls2 : bytes (submitted ls1) ≤ bytes (submitted (ls1 ++ l :: ls2)).
Proof. rewrite submitted_app, bytes_app. pose proof (bytes_nonneg (submitted (l :: ls2))). lia. Qed.

(** The files of a log that holds the records of some flushes. *)
Definition log_of (fl : flushes) (gone kept : list segment) (d : dir) : Prop :=
  r_plain <$> written (gone ++ kept) = stored fl ∧ d = dir_of kept ∧ (gone ++ kept).*1 = seqZ 1 (len (gone ++ kept)) ∧
  len gone ≤ Z.max 0 (len (gone ++ kept) - DefaultMaxFiles).

Lemma files_hold_log fl gone kept a : files_hold fl gone kept a → log_of fl gone kept (a_dir a).
Proof.
  intros [[Hi Hf Hg] Hst _ _ _ [Hm _]]. split_and!; [done|apply Hi|done|]. by rewrite <- Hm.
Qed.

(** * Theorems *)


(** Closing flushes everything, in order: if only the background goroutine
    flushes, with writes that can succeed, and nobody writes after [Close], then when
    the goroutine has ended the records of the log hold the bytes of all submitted
    entries in submission order. *)
Theorem async_close_flushes now n ls1 ls2 : let ls := ls1 ++ CClose :: ls2 in
  3 + len ls ≤ 10 ^ 6 → Forall (λ l, label_ok (bytes (submitted ls)) l ∧ loop_only l) ls → Forall not_write ls2 →
  ∃ d w r, NewWALWriter now ∅ = (d, Ok w) ∧ async_run ls (NewAsyncWALWriter n d w) = Ret r ∧
    ∀ a, r = Some a → a_phase a = LDone → ∃ fl gone kept,
      submitted ls = flushed fl ∧ log_of fl gone kept (a_dir a) ∧ stored fl ≫= id = batch_data (submitted ls).
Proof.
  intros ls Hlen Hok Hnw. destruct (New_placed now n) as (d & w & Hnew & Hcl & Hp).
  destruct (async_run_ind (λ pre a, ∃ fl gone kept, placed pre fl gone kept a ∧ ordered pre fl a ∧
    (length ls1 < length pre → drained a)%nat) [] ls (NewAsyncWALWriter n d w)) as (r & Hr & HP).
  - intros l1 l l2 a Heq (fl & gone & kept & Hpl & Hord & Hdr). cbn [app] in Heq. rewrite Heq in Hok, Hlen.
    rewrite len_app, len_cons in Hlen. pose proof (len_nonneg l2). apply Forall_app in Hok as [_ [[Hl Hlo] _]%Forall_cons].
    destruct (async_step_placed _ l1 l fl gone kept a Hpl Hl) as (r & Hr & Ha'); [apply prefix_bytes|lia|].
    exists r. split; [done|]. intros a' ->. destruct (Ha' a' eq_refl) as (fl' & gone' & kept' & Hpl' & Hfl & Hc).
    exists fl', gone', kept'. split_and!; [done|by eapply async_step_ordered|]. rewrite length_app. cbn. intros Hlt.
    destruct (decide (length ls1 < length l1)%nat) as [Hlt'|Hge].
    + eapply (async_step_drained l a a'); [|done|by apply Hdr|done]. rewrite Forall_forall in Hnw. apply Hnw.
      apply (f_equal (drop (S (length ls1)))) in Heq. unfold ls in Heq. rewrite drop_app_ge in Heq by lia.
      replace (S (length ls1) - length ls1)%nat with 1%nat in Heq by lia. cbn [drop] in Heq. rewrite drop_0 in Heq. rewrite Heq, drop_app_le by lia.
      apply elem_of_app. right. left.
    + assert (length l1 = length ls1) as Hl1 by lia. unfold ls in Heq. apply app_inj_1 in Heq as [<- [= <- <-]]; [|done].
      cbn [async_step] in Hr. destruct (a_stopCh a) eqn:Hs; [done|]. injection Hr as <-. unfold drained. cbn.
      destruct (or_stop _ _ _ Hord Hs) as [-> | ->]; intros [?|?]; done.
  - exists [], [], [(1, (now, []))]. split; [by apply Hp|]. split; [split; cbn; try done; [by left|congruence]|cbn; lia].
  - exists d, w, r. split_and!; [done|done|]. intros a -> Hph. destruct (HP a eq_refl) as (fl & gone & kept & Hpl & [Hw Hc Hfl _ _] & Hdr).
    cbn [app] in *. rewrite (pl_idle _ _ _ _ _ Hpl), Hdr, !app_nil_r in Hw; [|unfold ls; rewrite length_app; cbn; lia|by right|by right].
    exists fl, gone, kept. split_and!; [done|apply files_hold_log, Hpl|]. rewrite Hw. clear -Hfl. unfold flushed, batch_data.
    induction Hfl as [|[es err] fl He _ IH]; [done|]. cbn in He. subst err. rewrite bind_cons, bind_app, <- IH.
    pose proof (stored_app [(es, None)] fl) as Hst. cbn [app] in Hst. rewrite Hst, bind_app. f_equal. cbn.
    fold (batch_data es). case_decide as Hd; cbn; [by rewrite app_nil_r|]. destruct (batch_data es); [done|]. unfold len in Hd. cbn in Hd. lia.
Qed.
End lemmas.

Section sync_theorems.
Context {B : Type} (base_Write : list byte → B → B * option wal_error) (contents : B → list (list byte)).
Hypothesis base_ok : ∀ d b, ∃ b', base_Write d b = (b', None) ∧ contents b' = contents b ++ [d].

Lemma write_each_ok ds b :
  ∃ b', write_each base_Write ds b = (b', None) ∧ contents b' = contents b ++ ds.
Proof using base_ok.
  revert b. induction ds as [|d ds IH]; intros b; cbn; [exists b; by rewrite app_nil_r|].
  destruct (base_ok d b) as (b1 & -> & H1). destruct (IH b1) as (b2 & -> & H2).
  exists b2. split; [done|]. by rewrite H2, H1, <- (assoc_L (++)).
Qed.

Lemma sync_Write_ok d s b :
  ∃ s' b', sync_Write base_Write d s b = (s', b', None) ∧ s_maxSize s' = s_maxSize s ∧
    contents b' ++ s_buffer s' = contents b ++ s_buffer s ++ [d] ∧
    (s_buffer s' = [] ∨ len (s_buffer s') < s_maxSize s).
Proof using base_ok.
  unfold sync_Write, sync_Flush. cbn. case_decide as Hf.
  - rewrite decide_False by (by destruct (s_buffer s)).
    destruct (write_each_ok (s_buffer s ++ [d]) b) as (b' & -> & Hb'). eexists _, _. split; [done|].
    cbn. rewrite app_nil_r. split_and!; [done|done|by left].
  - eexists _, _. split; [done|]. cbn. split_and!; [done|done|right; lia].
Qed.

(** The batching writer keeps every record and its boundaries: over a base
    writer that succeeds, the records written and those still buffered are, in
    order, the records before and the new ones, and fewer than [maxBatchSize]
    records are ever left unwritten. *)
Theorem sync_writes_in_order ds s b :
  s_buffer s = [] ∨ len (s_buffer s) < s_maxSize s →
  ∃ s' b', sync_writes base_Write ds s b = (s', b', replicate (length ds) None) ∧
    contents b' ++ s_buffer s' = contents b ++ s_buffer s ++ ds ∧
    (s_buffer s' = [] ∨ len (s_buffer s') < s_maxSize s).
Proof using base_ok.
  revert s b. induction ds as [|d ds IH]; intros s b Hs.
  { exists s, b. by rewrite app_nil_r. }
  cbn. destruct (sync_Write_ok d s b) as (s1 & b1 & -> & Hmax & Hc & Hs1). rewrite <- Hmax in Hs1.
  destruct (IH s1 b1 Hs1) as (s2 & b2 & -> & Hc2 & Hs2). exists s2, b2. rewrite Hmax in Hs2.
  split_and!; [done| |done]. rewrite Hc2, (assoc_L (++)), Hc. by rewrite <- !(assoc_L (++)).
Qed.
End sync_theorems.

(** * Closed instances *)

Section witnesses.
#[local] Existing Instance tag_aead.

Definition entry (s : string) : WalEntry := mkWalEntry (bytes_of_string s) 0 None.
Definition ex_wenv (nonce : option (list byte)) : write_env := mkWEnv ex_enc nonce 7.
Definition ex_new (n : Z) : go (option AsyncWALWriter) :=
  match NewWALWriter 0 ∅ with (d, Ok w) => Ret (Some (NewAsyncWALWriter n d w)) | (_, Err _) => Ret None end.

(** A run from a new writer on an empty directory, and what a reader finds afterwards. *)
Definition ex_reads (n : Z) (ls : list label) : go (option (result wal_error (list (list byte)))) :=
  r ← ex_new n;
  match r with
  | Some a =>
      r ← async_run ls a;
      match r with Some a' => x ← ReadAll ex_enc (a_dir a'); Ret (Some x) | None => Ret None end
  | None => Ret None
  end.

(** An explicit [Flush] can overtake the background flush: the buffer is
    taken under the mutex but written outside it, so two entries submitted in
    order reach the log in the opposite order. *)
Theorem async_flush_reorders :
  let w := ex_wenv (Some ex_nonce) in
  let ls := [CWriteAsync (entry "add x"); LSignal; CWriteAsync (entry "remove x");
             CFlushTake 1; CFlushWrite 1 w; LWrite w] in
  we_data <$> submitted ls = [bytes_of_string "add x"; bytes_of_string "remove x"] ∧
  ex_reads 1 ls = Ret (Some (Ok [bytes_of_string "remove x"; bytes_of_string "add x"])).
Proof. split; vm_compute; reflexivity. Qed.

(** A batch loses the boundaries between its entries: two different
    sequences of entries, both flushed completely, leave the same log. *)
Theorem async_batches_lose_framing :
  let w := ex_wenv (Some ex_nonce) in
  let ls a b := [CWriteAsync (entry a); CWriteAsync (entry b); LSignal; LWrite w] in
  ex_reads 2 (ls "ab" "c") = Ret (Some (Ok [bytes_of_string "abc"])) ∧
  ex_reads 2 (ls "a" "bc") = Ret (Some (Ok [bytes_of_string "abc"])).
Proof. split; vm_compute; reflexivity. Qed.

(** A flush whose write fails loses its entries: they are in no buffer any more, and only
    their callbacks tell. *)
Theorem failed_flush_loses_entries :
  ex_reads 1 [CWriteAsync (entry "add x"); LSignal; LWrite (ex_wenv None); CWriteAsync (entry "add y"); LSignal;
              LWrite (ex_wenv (Some ex_nonce))] = Ret (Some (Ok [bytes_of_string "add y"])).
Proof. vm_compute. reflexivity. Qed.

Definition ex_run : list label :=
  [CWriteAsync (entry "a"); CWriteAsync (entry "b"); LSignal; LWrite (ex_wenv (Some ex_nonce)); CWriteAsync (entry "c")].

Lemma ex_env_ok total : total ≤ 1000 → env_ok total (ex_wenv (Some ex_nonce)).
Proof.
  intros Ht nonce p [= <-] Hp. split; [reflexivity|]. cbn [gcm_seal tag_aead ex_wenv wv_enc].
  pose proof (len_nonneg p). cbn. lens.
Qed.


Lemma async_close_flushes_witness : let ls := ex_run ++ CClose :: [LStop; LWrite (ex_wenv (Some ex_nonce)); CCloseFile] in
  ∃ d w r, NewWALWriter 0 ∅ = (d, Ok w) ∧ async_run ls (NewAsyncWALWriter 2 d w) = Ret r ∧
    ∀ a, r = Some a → a_phase a = LDone → ∃ fl gone kept,
      submitted ls = flushed fl ∧ log_of fl gone kept (a_dir a) ∧ stored fl ≫= id = batch_data (submitted ls).
Proof.
  apply (async_close_flushes 0 2 ex_run [LStop; LWrite (ex_wenv (Some ex_nonce)); CCloseFile]);
    [vm_compute; congruence| |repeat constructor].
  repeat first [apply Forall_nil_2|apply Forall_cons_2]; (split; cbn [label_ok loop_only];
    first [exact I|apply ex_env_ok; vm_compute; congruence|split; [reflexivity|by eexists]]).
Defined.

Definition list_write (d : list byte) (b : list (list byte)) : list (list byte) * option wal_error :=
  (b ++ [d], None).

Lemma sync_writes_in_order_witness :
  ∃ s' b', sync_writes list_write [[byte_of 1]; [byte_of 2]; [byte_of 3]] (mkSync [] 2) [] =
      (s', b', replicate 3 None) ∧
    b' ++ s_buffer s' = [] ++ [] ++ [[byte_of 1]; [byte_of 2]; [byte_of 3]] ∧
    (s_buffer s' = [] ∨ len (s_buffer s') < 2).
Proof.
  apply (sync_writes_in_order list_write id (λ d b, ex_intro _ (b ++ [d]) (conj eq_refl eq_refl))
    [[byte_of 1]; [byte_of 2]; [byte_of 3]] (mkSync [] 2) []). by left.
Defined.
End witnesses.
