(* ===== verification/Json.v ===== *)
(** [encoding/json] as the sources use it: values, the encoding of [[]byte] as
    base64, and decoding into struct fields.

    A value is its syntax tree; the text layer (tokens, escapes, white space)
    is the class [JsonText] with its round trip.  [time.Time] is encoded by
    [TimeText].  Decoding follows [json.Unmarshal]: unknown keys are ignored,
    keys match without regard to ASCII case, [null] leaves a field unchanged,
    and a value of the wrong type is an error. *)

From S2P Require Import Prelude GoBytes GoFmt.
From Stdlib Require Import Ascii String.

#[local] Open Scope Z_scope.

(** * Values *)

Inductive json : Type :=
  | JNull
  | JBool (b : bool)
  | JInt (z : Z)                      (* a number without fraction or exponent *)
  | JFrac (text : string)             (* any other number *)
  | JStr (s : string)
  | JArr (l : list json)
  | JObj (l : list (string * json)).

Class JsonText : Type := {
  json_print : json → list byte;
  json_parse : list byte → option json
}.

(** Values whose strings are ASCII: Go replaces invalid UTF-8 when it prints. *)
Fixpoint json_ascii (v : json) : bool :=
  match v with
  | JNull | JBool _ | JInt _ => true
  | JFrac _ => false
  | JStr s => is_ascii s
  | JArr l => forallb json_ascii l
  | JObj l => forallb (λ kv, is_ascii kv.1 && json_ascii kv.2) l
  end.

(** The text of such a value parses back to it; an object starts with a brace; no
    value starts with a control character other than white space. *)
Class JsonTextLaws `{JsonText} : Prop := {
  json_parse_print v : json_ascii v = true → json_parse (json_print v) = Some v;
  json_print_obj l : ∃ rest, json_print (JObj l) = byte_of 123 :: rest;
  json_parse_control b l : byte_val b < 9 → json_parse (b :: l) = None
}.

Class TimeText : Type := {
  time_print : Z → string;
  time_parse : string → option Z
}.

(** RFC 3339 writes the years 1 to 9998 in four digits, whatever the zone. *)
Definition year_ok (t : Z) : Prop := - 62135596800 * 10 ^ 9 ≤ t < 253370764800 * 10 ^ 9.

(** The zero [time.Time]. *)
Definition zero_time : Z := - 62135596800 * 10 ^ 9.

Class TimeTextLaws `{TimeText} : Prop := {
  time_parse_print t : year_ok t → time_parse (time_print t) = Some t;
  time_print_ascii t : is_ascii (time_print t) = true
}.

(** * base64.StdEncoding *)

Definition b64_char (n : Z) : ascii :=
  ascii_of_nat (Z.to_nat
    (if decide (n < 26) then 65 + n
     else if decide (n < 52) then 97 + (n - 26)
     else if decide (n < 62) then 48 + (n - 52)
     else if decide (n = 62) then 43 else 47)).

Definition b64_val (c : ascii) : option Z :=
  let v := Z.of_nat (nat_of_ascii c) in
  if decide (65 ≤ v ≤ 90) then Some (v - 65)
  else if decide (97 ≤ v ≤ 122) then Some (v - 97 + 26)
  else if decide (48 ≤ v ≤ 57) then Some (v - 48 + 52)
  else if decide (v = 43) then Some 62
  else if decide (v = 47) then Some 63
  else None.

Definition b64_pad : ascii := "="%char.

Fixpoint base64_encode (l : list byte) : string :=
  match l with
  | [] => EmptyString
  | [a] =>
      let a := byte_val a in
      String (b64_char (a / 4)) (String (b64_char (a mod 4 * 16))
        (String b64_pad (String b64_pad EmptyString)))
  | [a; b] =>
      let a := byte_val a in let b := byte_val b in
      String (b64_char (a / 4)) (String (b64_char (a mod 4 * 16 + b / 16))
        (String (b64_char (b mod 16 * 4)) (String b64_pad EmptyString)))
  | a :: b :: c :: r =>
      let a := byte_val a in let b := byte_val b in let c := byte_val c in
      String (b64_char (a / 4)) (String (b64_char (a mod 4 * 16 + b / 16))
        (String (b64_char (b mod 16 * 4 + c / 64)) (String (b64_char (c mod 64))
          (base64_encode r))))
  end.

(** Line breaks, which the decoder skips, are not modelled. *)
Fixpoint base64_decode (s : string) : option (list byte) :=
  match s with
  | EmptyString => Some []
  | String c0 (String c1 (String c2 (String c3 r))) =>
      v0 ← b64_val c0; v1 ← b64_val c1;
      if decide (c2 = b64_pad) then
        if decide (c3 = b64_pad ∧ r = EmptyString) then Some [byte_of (v0 * 4 + v1 / 16)] else None
      else
        v2 ← b64_val c2;
        if decide (c3 = b64_pad) then
          if decide (r = EmptyString)
          then Some [byte_of (v0 * 4 + v1 / 16); byte_of (v1 mod 16 * 16 + v2 / 4)] else None
        else
          v3 ← b64_val c3; rest ← base64_decode r;
          Some (byte_of (v0 * 4 + v1 / 16) :: byte_of (v1 mod 16 * 16 + v2 / 4) ::
                byte_of (v2 mod 4 * 64 + v3) :: rest)
  | _ => None
  end.

(** * Decoding fields *)

Definition to_lower (c : ascii) : ascii :=
  let n := nat_of_ascii c in
  if decide (65 ≤ n ≤ 90)%nat then ascii_of_nat (n + 32) else c.

Fixpoint lower (s : string) : string :=
  match s with EmptyString => EmptyString | String c s' => String (to_lower c) (lower s') end.

(** Does the object key name the field? *)
Definition key_is (key field : string) : bool := bool_decide (lower key = field).

Definition decode_string (old : string) (v : json) : option string :=
  match v with JStr s => Some s | JNull => Some old | _ => None end.

Definition decode_bool (old : bool) (v : json) : option bool :=
  match v with JBool b => Some b | JNull => Some old | _ => None end.

Definition decode_int64 (old : Z) (v : json) : option Z :=
  match v with
  | JInt z => if decide (- 2 ^ 63 ≤ z < 2 ^ 63) then Some z else None
  | JNull => Some old
  | _ => None
  end.

Definition decode_uint64 (old : Z) (v : json) : option Z :=
  match v with
  | JInt z => if decide (0 ≤ z < 2 ^ 64) then Some z else None
  | JNull => Some old
  | _ => None
  end.

Definition decode_byte (v : json) : option byte :=
  match v with
  | JInt z => if decide (0 ≤ z < 2 ^ 8) then Some (byte_of z) else None
  | JNull => Some (byte_of 0)
  | _ => None
  end.

(** [[]byte]: a base64 string, or an array of numbers. *)
Definition decode_bytes (v : json) : option (list byte) :=
  match v with
  | JStr s => base64_decode s
  | JArr l => mapM decode_byte l
  | JNull => Some []
  | _ => None
  end.

Definition encode_bytes (l : list byte) : json := JStr (base64_encode l).

Definition decode_time `{TimeText} (old : Z) (v : json) : option Z :=
  match v with JStr s => time_parse s | JNull => Some old | _ => None end.

Definition encode_time `{TimeText} (t : Z) : json := JStr (time_print t).

(** Decoding into a struct: [field] decodes one member. *)
Fixpoint decode_members {S : Type} (field : string → json → S → option S)
    (l : list (string * json)) (s : S) : option S :=
  match l with
  | [] => Some s
  | (k, v) :: l' => s' ← field k v s; decode_members field l' s'
  end.

Definition decode_struct {S : Type} (zero : S) (field : string → json → S → option S) (v : json)
  : option S :=
  match v with
  | JObj l => decode_members field l zero
  | JNull => Some zero
  | _ => None
  end.

(** * Lemmas *)

Lemma b64_table : forallb (λ n, bool_decide (b64_val (b64_char (Z.of_nat n)) = Some (Z.of_nat n) ∧
  b64_char (Z.of_nat n) ≠ b64_pad)) (seq 0 64) = true.
Proof. vm_compute. reflexivity. Qed.

Lemma b64_val_char n : 0 ≤ n < 64 → b64_val (b64_char n) = Some n ∧ b64_char n ≠ b64_pad.
Proof.
  intros Hn. pose proof b64_table as Ht. rewrite forallb_forall in Ht.
  specialize (Ht (Z.to_nat n)). rewrite in_seq in Ht. specialize (Ht ltac:(lia)).
  rewrite Z2Nat.id in Ht by lia. by apply bool_decide_eq_true in Ht.
Qed.

Lemma byte_of_eq z b : z = byte_val b → byte_of z = b.
Proof. intros ->. apply byte_of_val. Qed.

Lemma base64_round_trip l : base64_decode (base64_encode l) = Some l.
Proof.
  induction l as [l IH] using (induction_ltof1 _ (@Datatypes.length byte)). unfold ltof in IH.
  destruct l as [|a [|b [|c r]]]; [done|..];
    pose proof (byte_val_range a) as Ha; try pose proof (byte_val_range b) as Hb;
    try pose proof (byte_val_range c) as Hc; cbn [base64_encode base64_decode].
  - destruct (b64_val_char (byte_val a / 4)) as [-> _]; [Z.div_mod_to_equations; lia|].
    destruct (b64_val_char (byte_val a mod 4 * 16)) as [-> _]; [Z.div_mod_to_equations; lia|].
    cbn [mbind option_bind]. rewrite !decide_True by done. f_equal. f_equal.
    apply byte_of_eq. Z.div_mod_to_equations. lia.
  - destruct (b64_val_char (byte_val a / 4)) as [-> _]; [Z.div_mod_to_equations; lia|].
    destruct (b64_val_char (byte_val a mod 4 * 16 + byte_val b / 16)) as [-> _];
      [Z.div_mod_to_equations; lia|].
    destruct (b64_val_char (byte_val b mod 16 * 4)) as [-> Hp]; [Z.div_mod_to_equations; lia|].
    cbn [mbind option_bind]. rewrite decide_False, !decide_True by done. f_equal.
    f_equal; [|f_equal]; apply byte_of_eq; Z.div_mod_to_equations; lia.
  - destruct (b64_val_char (byte_val a / 4)) as [-> _]; [Z.div_mod_to_equations; lia|].
    destruct (b64_val_char (byte_val a mod 4 * 16 + byte_val b / 16)) as [-> _];
      [Z.div_mod_to_equations; lia|].
    destruct (b64_val_char (byte_val b mod 16 * 4 + byte_val c / 64)) as [-> Hp];
      [Z.div_mod_to_equations; lia|].
    destruct (b64_val_char (byte_val c mod 64)) as [-> Hp']; [Z.div_mod_to_equations; lia|].
    cbn [mbind option_bind]. rewrite !decide_False by done. rewrite IH by (cbn; lia).
    cbn [mbind option_bind]. f_equal.
    f_equal; [|f_equal; [|f_equal]]; apply byte_of_eq; Z.div_mod_to_equations; lia.
Qed.

Lemma b64_char_ascii n : bool_decide (char_code (b64_char n) < 128) = true.
Proof.
  apply bool_decide_eq_true. unfold char_code, b64_char. rewrite Ascii.nat_ascii_embedding by (repeat case_decide; lia).
  repeat case_decide; lia.
Qed.

Lemma base64_ascii l : is_ascii (base64_encode l) = true.
Proof.
  enough (∀ n l, (Datatypes.length l ≤ n)%nat → is_ascii (base64_encode l) = true) as Hn by (by eapply Hn).
  clear l. intros n. induction n as [|n IH]; intros l Hl; [by destruct l; [|cbn in Hl; lia]|].
  destruct l as [|a [|b [|c r]]]; cbn -[b64_char bool_decide]; rewrite ?b64_char_ascii; [done..|].
  cbn [andb]. apply IH. cbn in Hl. lia.
Qed.

Lemma decode_encode_bytes l : decode_bytes (encode_bytes l) = Some l.
Proof. apply base64_round_trip. Qed.

(** * A concrete text layer

    Not the JSON grammar, but a text layer with the stated laws: a brace and
    the binary digits of an injective numbering of the trees. *)

Fixpoint json_to_tree (v : json) : gen_tree (string + Z) :=
  match v with
  | JNull => GenNode 0 []
  | JBool b => GenNode (if b then 1 else 2) []
  | JInt z => GenLeaf (inr z)
  | JFrac t => GenNode 3 [GenLeaf (inl t)]
  | JStr s => GenLeaf (inl s)
  | JArr l => GenNode 4 (map json_to_tree l)
  | JObj l => GenNode 5 (map (λ kv, GenNode 6 [GenLeaf (inl kv.1); json_to_tree kv.2]) l)
  end.

Fixpoint tree_to_json (t : gen_tree (string + Z)) : json :=
  match t with
  | GenLeaf (inl s) => JStr s
  | GenLeaf (inr z) => JInt z
  | GenNode 0 _ => JNull
  | GenNode 1 _ => JBool true
  | GenNode 2 _ => JBool false
  | GenNode 3 [GenLeaf (inl t)] => JFrac t
  | GenNode 4 l => JArr (map tree_to_json l)
  | GenNode 5 l =>
      JObj (map (λ t, match t with
                      | GenNode _ [GenLeaf (inl k); t'] => (k, tree_to_json t')
                      | _ => (EmptyString, JNull)
                      end) l)
  | _ => JNull
  end.

Fixpoint json_tree_inv (v : json) : tree_to_json (json_to_tree v) = v.
Proof.
  destruct v as [|[]|z|t|s|l|l]; try reflexivity; cbn; f_equal.
  - induction l as [|v l IH]; cbn; [reflexivity|]. by rewrite json_tree_inv, IH.
  - induction l as [|[k v] l IH]; cbn; [reflexivity|]. by rewrite json_tree_inv, IH.
Qed.

#[export] Instance json_eq_dec : EqDecision json.
Proof.
  intros v w. destruct (decide (json_to_tree v = json_to_tree w)) as [Heq|Hne].
  - left. by rewrite <- (json_tree_inv v), Heq, json_tree_inv.
  - right. congruence.
Defined.
#[export] Instance json_countable : Countable json :=
  inj_countable' json_to_tree tree_to_json json_tree_inv.

Fixpoint pos_bytes (p : positive) : list byte :=
  match p with
  | xH => []
  | xO p' => byte_of 48 :: pos_bytes p'
  | xI p' => byte_of 49 :: pos_bytes p'
  end.

Fixpoint bytes_pos (l : list byte) : positive :=
  match l with
  | [] => xH
  | b :: l' => if decide (b = byte_of 49) then xI (bytes_pos l') else xO (bytes_pos l')
  end.

Lemma bytes_pos_inv p : bytes_pos (pos_bytes p) = p.
Proof. induction p as [p IH|p IH|]; cbn; by rewrite ?IH. Qed.

Definition tree_text : JsonText := {|
  json_print v := byte_of 123 :: pos_bytes (encode v);
  json_parse l :=
    match l with
    | b :: l' => if decide (b = byte_of 123) then decode (bytes_pos l') else None
    | [] => None
    end
|}.

Lemma tree_text_laws : JsonTextLaws (H:=tree_text).
Proof.
  split.
  - intros v _. cbn [json_parse json_print tree_text]. rewrite decide_True by done.
    by rewrite bytes_pos_inv, decode_encode.
  - intros l. by eexists.
  - intros b l Hb. cbn. rewrite decide_False; [done|]. intros ->. by vm_compute in Hb.
Qed.

(** Times as their decimal numbering. *)
Definition tree_time : TimeText := {|
  time_print t := string_of_bytes (pos_bytes (encode t));
  time_parse s := decode (bytes_pos (bytes_of_string s))
|}.

Lemma pos_bytes_ascii p : is_ascii (string_of_bytes (pos_bytes p)) = true.
Proof. induction p as [p IH|p IH|]; [| |done]; exact IH. Qed.

Lemma tree_time_laws : TimeTextLaws (H:=tree_time).
Proof.
  split; intros t; cbn [time_parse time_print tree_time].
  - intros _. by rewrite bytes_of_string_of_bytes, bytes_pos_inv, decode_encode.
  - apply pos_bytes_ascii.
Qed.

(** * Tactics *)

(** Evaluate the comparisons of object keys. *)
Ltac keys := repeat match goal with
  | |- context [key_is ?a ?b] => let v := eval vm_compute in (key_is a b) in change (key_is a b) with v
  end; cbn [mbind option_bind].

(** The texts of a message are ASCII. *)
Ltac texts := cbn -[is_ascii base64_encode]; rewrite ?base64_ascii, ?time_print_ascii; cbn -[base64_encode];
  repeat match goal with H : _ = true |- _ => rewrite H; clear H end; reflexivity.
