(* ===== verification/GoAny.v ===== *)
(** Go values of type [interface{}] as JSON carries them: the values of
    configuration maps and of event metadata.

    A number read back is a [float64]; a map is written in the order of its
    keys and read back with later members over earlier ones. *)

From S2P Require Import Prelude GoBytes GoFmt Json.
From stdpp Require Import sorting.
From Stdlib Require Import Ascii String.
#[local] Open Scope Z_scope.

(** * Values *)

(** Values of [map[string]interface{}]. *)
Inductive value : Type :=
  | VNil
  | VBool (b : bool)
  | VInt (z : Z)                       (* any Go integer type *)
  | VFloat (z : Z)                     (* an integral float64, at most 2^53 in magnitude *)
  | VFrac (text : string)              (* the float64 nearest to another number *)
  | VString (s : string)
  | VSlice (l : list value)
  | VMap (l : list (string * value))   (* in the order of keys *)
  | VOther.                            (* functions, channels: no JSON *)

(** The entries of a map in the order [encoding/json] writes them. *)
Definition sorted_entries {A} (m : gmap string A) : list (string * A) :=
  omap (λ k, (k,.) <$> m !! k) (merge_sort name_le (elements (dom m))).

(** Members are stored in the order of the text, later ones over earlier ones. *)
Definition entries_map {A} (m : gmap string A) (l : list (string * A)) : gmap string A :=
  foldl (λ m kv, <[kv.1 := kv.2]> m) m l.

Fixpoint value_json (v : value) : option json :=
  match v with
  | VNil => Some JNull
  | VBool b => Some (JBool b)
  | VInt z | VFloat z => Some (JInt z)
  | VFrac t => Some (JFrac t)
  | VString s => Some (JStr s)
  | VSlice l => JArr <$> mapM value_json l
  | VMap l => JObj <$> mapM (λ kv, (kv.1,.) <$> value_json kv.2) l
  | VOther => None
  end.

(** A number decodes to a [float64]. *)
Definition decode_number (z : Z) : value :=
  if decide (- 2 ^ 53 ≤ z ≤ 2 ^ 53) then VFloat z else VFrac (Sprintf_int z).

Fixpoint decode_any (v : json) : value :=
  match v with
  | JNull => VNil
  | JBool b => VBool b
  | JInt z => decode_number z
  | JFrac t => VFrac t
  | JStr s => VString s
  | JArr l => VSlice (map decode_any l)
  | JObj l => VMap (sorted_entries (entries_map ∅ (map (λ kv, (kv.1, decode_any kv.2)) l)))
  end.

(** * The round trip *)

(** Values that survive a save: ASCII text, integers a [float64] holds exactly,
    maps with their keys in order. *)
Fixpoint keys_sorted {A} (l : list (string * A)) : bool :=
  match l with
  | (k, _) :: (((k', _) :: _) as l') => String.leb k k' && negb (String.eqb k k') && keys_sorted l'
  | _ => true
  end.

Fixpoint value_ok (v : value) : bool :=
  match v with
  | VNil | VBool _ => true
  | VInt z | VFloat z => bool_decide (- 2 ^ 53 ≤ z ≤ 2 ^ 53)
  | VString s => is_ascii s
  | VSlice l => forallb value_ok l
  | VMap l => keys_sorted l && forallb (λ kv, is_ascii kv.1 && value_ok kv.2) l
  | VFrac _ | VOther => false
  end.

(** What a value becomes when it is saved and loaded: integers become floats. *)
Fixpoint loaded (v : value) : value :=
  match v with
  | VInt z => VFloat z
  | VSlice l => VSlice (map loaded l)
  | VMap l => VMap (map (λ kv, (kv.1, loaded kv.2)) l)
  | _ => v
  end.

Section entries.
Context {A : Type}.
Implicit Types (m : gmap string A) (l : list (string * A)).

Lemma entries_map_spec l m : NoDup l.*1 → entries_map m l = list_to_map l ∪ m.
Proof.
  unfold entries_map. revert m. induction l as [|[k x] l IH]; intros m Hnd; cbn [foldl].
  - symmetry. apply map_empty_union.
  - apply NoDup_cons in Hnd as [Hk Hnd]. rewrite IH by done. cbn [fst snd]. rewrite list_to_map_cons.
    rewrite <- insert_union_l, insert_union_r; [done|]. by apply not_elem_of_list_to_map.
Qed.

Lemma entries_map_fmap {B} (f : A → B) l m :
  entries_map (f <$> m) (map (λ kv, (kv.1, f kv.2)) l) = f <$> entries_map m l.
Proof.
  unfold entries_map. revert m. induction l as [|[k x] l IH]; intros m; cbn [foldl map fst snd]; [done|].
  by rewrite <- IH, fmap_insert.
Qed.

Lemma sorted_entries_keys m : (sorted_entries m).*1 = merge_sort name_le (elements (dom m)).
Proof.
  unfold sorted_entries.
  assert (∀ k, k ∈ merge_sort name_le (elements (dom m)) → is_Some (m !! k)) as Hin.
  { intros k. rewrite merge_sort_Permutation, elem_of_elements. apply elem_of_dom. }
  induction (merge_sort _ _) as [|k ks IH]; [done|]. cbn.
  destruct (Hin k) as [x Hx]; [by left|]. rewrite Hx. cbn. f_equal. apply IH. intros k' Hk'. apply Hin. by right.
Qed.

Lemma sorted_entries_NoDup m : NoDup (sorted_entries m).*1.
Proof. rewrite sorted_entries_keys, merge_sort_Permutation. apply NoDup_elements. Qed.

Lemma elem_of_sorted_entries m k x : (k, x) ∈ sorted_entries m ↔ m !! k = Some x.
Proof.
  unfold sorted_entries. rewrite list_elem_of_omap. setoid_rewrite merge_sort_Permutation.
  setoid_rewrite elem_of_elements. split.
  - intros (k' & Hk' & Heq). destruct (m !! k') eqn:Hm; naive_solver.
  - intros Hm. exists k. rewrite Hm. split; [by apply elem_of_dom|done].
Qed.

Lemma list_to_map_sorted_entries m : list_to_map (sorted_entries m) = m.
Proof.
  apply map_eq. intros k. apply option_eq. intros x.
  rewrite <- elem_of_list_to_map by apply sorted_entries_NoDup. apply elem_of_sorted_entries.
Qed.

Lemma entries_map_sorted m : entries_map ∅ (sorted_entries m) = m.
Proof.
  rewrite entries_map_spec by apply sorted_entries_NoDup.
  by rewrite list_to_map_sorted_entries, map_union_empty.
Qed.

Lemma keys_sorted_spec l : keys_sorted l = true → StronglySorted name_le l.*1 ∧ NoDup l.*1.
Proof.
  intros Hl. enough (StronglySorted (λ a b, name_le a b ∧ a ≠ b) l.*1) as Hs.
  { induction l as [|[k x] l IH]; [split; constructor|].
    apply StronglySorted_inv in Hs as [Hs Hf]. destruct IH as [? ?]; [|done|].
    - by destruct l as [|[k' y] l]; [|apply andb_true_iff in Hl as [_ Hl]].
    - split; constructor; try done.
      + eapply List.Forall_impl; [|exact Hf]. naive_solver.
      + intros Hk. rewrite List.Forall_forall in Hf. apply list_elem_of_In in Hk. apply Hf in Hk. naive_solver. }
  apply Sorted_StronglySorted.
  { intros a b c [Hab Hab'] [Hbc Hbc']. split; [by etrans|]. intros ->. apply Hbc'. by apply (anti_symm name_le). }
  induction l as [|[k x] [|[k' y] l] IH]; [constructor|repeat constructor|].
  cbn [keys_sorted] in Hl. apply andb_true_iff in Hl as [[Hle Hne]%andb_true_iff Hl].
  constructor; [by apply IH|]. constructor. split; [done|]. intros Heq. cbn in Heq. subst k'. by rewrite String.eqb_refl in Hne.
Qed.

Lemma sorted_entries_list_to_map l : keys_sorted l = true → sorted_entries (list_to_map l) = l.
Proof.
  intros [Hs Hnd]%keys_sorted_spec. unfold sorted_entries.
  replace (merge_sort name_le (elements (dom (list_to_map l : gmap string A)))) with (l.*1).
  - clear Hs. assert (∀ k x, (k, x) ∈ l → (list_to_map l : gmap string A) !! k = Some x) as Hm.
    { intros k x. by apply elem_of_list_to_map. }
    revert Hm. generalize (list_to_map l : gmap string A). intros m Hm. clear Hnd.
    induction l as [|[k x] l IH]; [done|]. cbn. rewrite (Hm k x) by (by left). cbn. f_equal.
    apply IH. intros k' x' Hin. apply Hm. by right.
  - apply (StronglySorted_unique name_le); [done|apply StronglySorted_merge_sort; apply _|].
    rewrite merge_sort_Permutation. apply NoDup_Permutation; [done|apply NoDup_elements|].
    intros k. by rewrite elem_of_elements, dom_list_to_map_L, elem_of_list_to_set.
Qed.

Lemma sorted_entries_map l : keys_sorted l = true → sorted_entries (entries_map ∅ l) = l.
Proof.
  intros Hl. destruct (keys_sorted_spec _ Hl) as [_ Hnd]. rewrite entries_map_spec by done.
  rewrite map_union_empty. by apply sorted_entries_list_to_map.
Qed.
End entries.

Lemma keys_sorted_map {A B} (f : A → B) l :
  keys_sorted (map (λ kv, (kv.1, f kv.2)) l) = keys_sorted l.
Proof. induction l as [|[k x] [|[k' y] l] IH]; [done..|]. cbn in *. by rewrite IH. Qed.

(** The members written for a list of entries whose values round-trip. *)
Definition round_trips (v : value) : Prop :=
  ∃ j, value_json v = Some j ∧ json_ascii j = true ∧ decode_any j = loaded v.

Lemma entries_round (l : list (string * value)) :
  (∀ k v, (k, v) ∈ l → is_ascii k = true ∧ round_trips v) →
  ∃ js, mapM (λ kv, (kv.1,.) <$> value_json kv.2) l = Some js ∧ json_ascii (JObj js) = true ∧
    map (λ kv, (kv.1, decode_any kv.2)) js = map (λ kv, (kv.1, loaded kv.2)) l.
Proof.
  induction l as [|[k v] l IH]; intros Hl; [by exists []|].
  destruct IH as (js & Hm & Ha & Hd). { intros k' v' Hin. apply Hl. by right. }
  destruct (Hl k v) as [Hk (j & Hj & Hja & Hjd)]; [by left|].
  exists ((k, j) :: js). cbn [mapM fst snd]. rewrite Hj. cbn [fmap option_fmap option_map mbind option_bind].
  rewrite Hm. cbn [mbind option_bind mret option_ret]. split; [done|].
  cbn [json_ascii forallb map fst snd] in *. by rewrite Hk, Hja, Hjd, Hd, Ha.
Qed.

Lemma values_round (l : list value) : (∀ v, v ∈ l → round_trips v) →
  ∃ js, mapM value_json l = Some js ∧ json_ascii (JArr js) = true ∧ map decode_any js = map loaded l.
Proof.
  induction l as [|v l IH]; intros Hl; [by exists []|].
  destruct IH as (js & Hm & Ha & Hd). { intros v' Hin. apply Hl. by right. }
  destruct (Hl v) as (j & Hj & Hja & Hjd); [by left|].
  exists (j :: js). cbn [mapM]. rewrite Hj. cbn [mbind option_bind]. rewrite Hm.
  cbn [mbind option_bind mret option_ret]. split; [done|].
  cbn [json_ascii forallb map] in *. by rewrite Hja, Hjd, Hd, Ha.
Qed.

Fixpoint value_round (v : value) : value_ok v = true → round_trips v.
Proof.
  intros Hv. destruct v as [|b|z|z|t|s|l|l|]; try done; cbn [value_ok] in Hv.
  - by exists JNull.
  - by exists (JBool b).
  - exists (JInt z). split_and!; [done..|]. cbn. unfold decode_number.
    apply bool_decide_eq_true in Hv. by rewrite decide_True.
  - exists (JInt z). split_and!; [done..|]. cbn. unfold decode_number.
    apply bool_decide_eq_true in Hv. by rewrite decide_True.
  - exists (JStr s). split_and!; [done..|]. done.
  - destruct (values_round l) as (js & Hm & Ha & Hd).
    { clear -value_round Hv. induction l as [|v l IH]; [by intros v ?%elem_of_nil|].
      apply andb_true_iff in Hv as [Hv Hl]. intros v' [->|Hin]%elem_of_cons; [by apply value_round|by apply IH]. }
    exists (JArr js). cbn [value_json decode_any loaded]. by rewrite Hm, Hd.
  - apply andb_true_iff in Hv as [Hs Hv]. destruct (entries_round l) as (js & Hm & Ha & Hd).
    { clear -value_round Hv. induction l as [|[k v] l IH]; [by intros k v ?%elem_of_nil|].
      apply andb_true_iff in Hv as [[Hk Hv]%andb_true_iff Hl].
      intros k' v' [[= -> ->]|Hin]%elem_of_cons; [split; [done|by apply value_round]|by apply IH]. }
    exists (JObj js). cbn [value_json decode_any loaded]. rewrite Hm, Hd. split_and!; [done..|].
    by rewrite sorted_entries_map; rewrite ?keys_sorted_map.
Qed.

Fixpoint value_ok_loaded (v : value) : value_ok v = true → value_ok (loaded v) = true.
Proof.
  intros Hv. destruct v as [|b|z|z|t|s|l|l|]; try done; cbn [value_ok loaded] in *.
  - induction l as [|v l IH]; [done|]. cbn [forallb map] in *. apply andb_true_iff in Hv as [Hv Hl].
    by rewrite value_ok_loaded, IH.
  - rewrite keys_sorted_map. apply andb_true_iff in Hv as [-> Hv]. cbn [andb].
    induction l as [|[k v] l IH]; [done|]. cbn [forallb map fst snd] in *.
    apply andb_true_iff in Hv as [[-> Hv]%andb_true_iff Hl]. by rewrite value_ok_loaded, IH.
Qed.

(** * Slices of strings *)

(** A slice: [null] is nil. *)
Definition decode_strings (v : json) : option (option (list string)) :=
  match v with
  | JNull => Some None
  | JArr l => Some <$> mapM (decode_string "") l
  | _ => None
  end.

Lemma strings_round (l : list string) : Forall (λ n, is_ascii n = true) l →
  json_ascii (JArr (JStr <$> l)) = true ∧ mapM (decode_string "") (JStr <$> l) = Some l.
Proof.
  induction 1 as [|n l Hn _ [IHa IHd]]; [done|]. cbn [fmap list_fmap json_ascii forallb mapM decode_string] in *.
  rewrite Hn. cbn [mbind option_bind]. rewrite IHd. done.
Qed.
