(* ===== verification/RaftFsm.v ===== *)
(** [internal/raft/log.go] (commands), [internal/raft/fsm.go] (the state
    machine with its WAL) and the state-machine half of
    [internal/raft/node.go].

    The Raft library delivers committed entries to [Apply] one after the other;
    it is outside the model.  An environment [apply_env] holds what a call
    reads from the outside: the clock, the encryptor and a nonce.  The state of
    the WAL is its directory and writer. *)

From S2P Require Import Prelude GoBytes GoFmt Hash Counting CountingSpec CountingCodec.
From S2P Require Import WalCrypto WalFiles Json.

(** * Commands *)

Record Command : Type := mkCommand {
  cmd_Type : string;
  cmd_Item : list byte;
  cmd_Timestamp : Z
}.

Record FSMCommand : Type := mkFSMCommand {
  fcmd_Type : string;
  fcmd_Item : list byte;
  fcmd_Timestamp : Z;
  fcmd_Index : Z;
  fcmd_Term : Z
}.

Section json.
Context `{JsonText, TimeText}.

Definition NewCommand (now : Z) (cmdType : string) (item : list byte) : Command :=
  mkCommand cmdType item now.

Definition Command_json (c : Command) : json :=
  JObj [("type", JStr (cmd_Type c)); ("item", encode_bytes (cmd_Item c));
        ("timestamp", encode_time (cmd_Timestamp c))].

Definition Command_field (k : string) (v : json) (c : Command) : option Command :=
  if key_is k "type" then t ← decode_string (cmd_Type c) v; Some (mkCommand t (cmd_Item c) (cmd_Timestamp c))
  else if key_is k "item" then i ← decode_bytes v; Some (mkCommand (cmd_Type c) i (cmd_Timestamp c))
  else if key_is k "timestamp" then t ← decode_time (cmd_Timestamp c) v; Some (mkCommand (cmd_Type c) (cmd_Item c) t)
  else Some c.

Definition Command_of_json (v : json) : option Command :=
  decode_struct (mkCommand "" [] zero_time) Command_field v.

Definition Marshal (c : Command) : list byte := json_print (Command_json c).

Definition UnmarshalCommand (data : list byte) : option Command :=
  v ← json_parse data; Command_of_json v.

Definition FSMCommand_json (c : FSMCommand) : json :=
  JObj [("type", JStr (fcmd_Type c)); ("item", encode_bytes (fcmd_Item c));
        ("timestamp", JInt (fcmd_Timestamp c)); ("index", JInt (fcmd_Index c));
        ("term", JInt (fcmd_Term c))].

Definition FSMCommand_field (k : string) (v : json) (c : FSMCommand) : option FSMCommand :=
  let 'mkFSMCommand ty it ts ix tm := c in
  if key_is k "type" then x ← decode_string ty v; Some (mkFSMCommand x it ts ix tm)
  else if key_is k "item" then x ← decode_bytes v; Some (mkFSMCommand ty x ts ix tm)
  else if key_is k "timestamp" then x ← decode_int64 ts v; Some (mkFSMCommand ty it x ix tm)
  else if key_is k "index" then x ← decode_uint64 ix v; Some (mkFSMCommand ty it ts x tm)
  else if key_is k "term" then x ← decode_uint64 tm v; Some (mkFSMCommand ty it ts ix x)
  else Some c.

Definition FSMCommand_of_json (v : json) : option FSMCommand :=
  decode_struct (mkFSMCommand "" [] 0 0 0) FSMCommand_field v.

Definition unmarshal_FSMCommand (data : list byte) : option FSMCommand :=
  v ← json_parse data; FSMCommand_of_json v.

(** The two-format parsing at the start of [BloomFSM.Apply]. *)
Definition parse_command (data : list byte) : option Command :=
  match UnmarshalCommand data with
  | Some c => Some c
  | None =>
      f ← unmarshal_FSMCommand data;
      Some (mkCommand (fcmd_Type f) (fcmd_Item f) (fcmd_Timestamp f))
  end.

(** * The state machine *)

Record Log : Type := mkLog { log_Index : Z; log_Term : Z; log_Data : list byte }.

Inductive apply_error : Type :=
  | AParse
  | ABloom (e : bloom_error)
  | AUnknown (t : string).

Record BloomFSM : Type := mkFSM {
  fsm_bloom : CountingBloomFilter;
  fsm_wal : option (dir * WALWriter);
  lastAppliedIndex : Z;
  lastAppliedTerm : Z;
  fsm_startTime : Z
}.

Record apply_env : Type := mkEnv {
  env_now : Z;
  env_enc : WALEncryptor;
  env_nonce : option (list byte)
}.

Definition NewBloomFSM (now : Z) (f : CountingBloomFilter) (walDir : option dir)
  : result wal_error BloomFSM :=
  match walDir with
  | None => Ok (mkFSM f None 0 0 now)
  | Some d =>
      match NewWALWriter now d with
      | (d', Ok w) => Ok (mkFSM f (Some (d', w)) 0 0 now)
      | (_, Err e) => Err e
      end
  end.

Context `{Murmur3, AEAD}.

(** The [switch] on the command type. *)
Definition exec_command (f : CountingBloomFilter) (c : Command)
  : go (CountingBloomFilter * option apply_error) :=
  if decide (cmd_Type c = "add") then
    '(f', err) ← Add f (cmd_Item c); Ret (f', option_map ABloom err)
  else if decide (cmd_Type c = "remove") then
    f' ← Remove f (cmd_Item c); Ret (f', None)
  else Ret (f, Some (AUnknown (cmd_Type c))).

(** The WAL part: skipped without a writer or after an error; errors of the
    writer are logged and ignored. *)
Definition wal_append (env : apply_env) (log : Log) (c : Command) (r : option apply_error)
    (wal : option (dir * WALWriter)) : go (option (dir * WALWriter)) :=
  match wal, r with
  | Some (d, w), None =>
      let walEntry := mkFSMCommand (cmd_Type c) (cmd_Item c) (env_now env) (log_Index log) (log_Term log) in
      '(d', w', _) ← Write (env_enc env) (env_nonce env) (env_now env) (json_print (FSMCommand_json walEntry)) d w;
      Ret (Some (d', w'))
  | _, _ => Ret wal
  end.

Definition Apply (env : apply_env) (log : Log) (f : BloomFSM) : go (BloomFSM * option apply_error) :=
  match parse_command (log_Data log) with
  | None => Ret (f, Some AParse)
  | Some c =>
      '(b, r) ← exec_command (fsm_bloom f) c;
      wal ← wal_append env log c r (fsm_wal f);
      Ret (mkFSM b wal (log_Index log) (log_Term log) (fsm_startTime f), r)
  end.

Definition fsm_Close (f : BloomFSM) : BloomFSM * option wal_error :=
  match fsm_wal f with
  | None => (f, None)
  | Some (d, w) =>
      let '(w', err) := wal_Close w in
      (mkFSM (fsm_bloom f) (Some (d, w')) (lastAppliedIndex f) (lastAppliedTerm f) (fsm_startTime f), err)
  end.

(** ** Snapshots *)

Record SnapshotData : Type := mkSnapshotData {
  sd_BloomFilter : list byte;
  sd_Metadata : json;
  sd_Timestamp : Z;
  sd_Index : Z;
  sd_Term : Z
}.

Definition SnapshotData_json (s : SnapshotData) : json :=
  JObj [("bloom_filter", encode_bytes (sd_BloomFilter s)); ("metadata", sd_Metadata s);
        ("timestamp", encode_time (sd_Timestamp s)); ("index", JInt (sd_Index s)); ("term", JInt (sd_Term s))].

(** [map[string]interface{}]: any object or null.  The numbers inside, which Go turns into
    [float64], are kept as written; no code reads them back. *)
Definition decode_metadata (old v : json) : option json :=
  match v with JObj _ => Some v | JNull => Some JNull | _ => None end.

Definition SnapshotData_field (k : string) (v : json) (s : SnapshotData) : option SnapshotData :=
  let 'mkSnapshotData bf md ts ix tm := s in
  if key_is k "bloom_filter" then x ← decode_bytes v; Some (mkSnapshotData x md ts ix tm)
  else if key_is k "metadata" then x ← decode_metadata md v; Some (mkSnapshotData bf x ts ix tm)
  else if key_is k "timestamp" then x ← decode_time ts v; Some (mkSnapshotData bf md x ix tm)
  else if key_is k "index" then x ← decode_uint64 ix v; Some (mkSnapshotData bf md ts x tm)
  else if key_is k "term" then x ← decode_uint64 tm v; Some (mkSnapshotData bf md ts ix x)
  else Some s.

Definition unmarshal_SnapshotData (data : list byte) : option SnapshotData :=
  v ← json_parse data; decode_struct (mkSnapshotData [] JNull zero_time 0 0) SnapshotData_field v.

Record fsmSnapshot : Type := mkFsmSnapshot { snap_bloomData : list byte; snap_metadata : json }.

Definition Snapshot (now : Z) (f : BloomFSM) : fsmSnapshot :=
  mkFsmSnapshot (Serialize (fsm_bloom f))
    (JObj [("bloom_k", JInt (HashCount (fsm_bloom f))); ("bloom_size", JInt (Size (fsm_bloom f)));
           ("created_by", JStr "distributed-bloom-filter");
           ("last_applied_index", JInt (lastAppliedIndex f)); ("last_applied_term", JInt (lastAppliedTerm f));
           ("start_time", JInt (fsm_startTime f)); ("timestamp", JInt now); ("version", JStr "1.0")]).

(** What [Persist] writes to the sink. *)
Definition Persist (now : Z) (s : fsmSnapshot) : list byte :=
  json_print (SnapshotData_json (mkSnapshotData (snap_bloomData s) (snap_metadata s) now 0 0)).

Definition Restore (data : list byte) (f : BloomFSM) : BloomFSM * option bloom_error :=
  match unmarshal_SnapshotData data with
  | Some s =>
      match Deserialize (sd_BloomFilter s) with
      | Err e => (f, Some e)
      | Ok newFilter => (mkFSM newFilter (fsm_wal f) (sd_Index s) (sd_Term s) (sd_Timestamp s), None)
      end
  | None =>
      match Deserialize data with
      | Err e => (f, Some e)
      | Ok newFilter =>
          (mkFSM newFilter (fsm_wal f) (lastAppliedIndex f) (lastAppliedTerm f) (fsm_startTime f), None)
      end
  end.

(** * Node as a state machine *)

Definition Node_Apply (log : Log) (f : CountingBloomFilter)
  : go (CountingBloomFilter * option apply_error) :=
  match UnmarshalCommand (log_Data log) with
  | None => Ret (f, Some AParse)
  | Some c =>
      if decide (cmd_Type c = "add") then '(f', _) ← Add f (cmd_Item c); Ret (f', None)
      else if decide (cmd_Type c = "remove") then f' ← Remove f (cmd_Item c); Ret (f', None)
      else Ret (f, Some (AUnknown (cmd_Type c)))
  end.

Definition Node_Snapshot (f : CountingBloomFilter) : fsmSnapshot := mkFsmSnapshot (Serialize f) JNull.

Definition Node_Restore (data : list byte) (f : CountingBloomFilter)
  : CountingBloomFilter * option bloom_error :=
  match Deserialize data with
  | Err e => (f, Some e)
  | Ok newFilter => (newFilter, None)
  end.
End json.

(** * Parsing *)

Section parsing.
Context `{JsonTextLaws, TimeTextLaws}.

Lemma UnmarshalCommand_Marshal c : is_ascii (cmd_Type c) = true → year_ok (cmd_Timestamp c) →
  UnmarshalCommand (Marshal c) = Some c.
Proof.
  destruct c as [ty it ts]. cbn [cmd_Type cmd_Timestamp]. intros Hty Hts.
  unfold UnmarshalCommand, Marshal. rewrite json_parse_print by texts.
  cbn [mbind option_bind]. unfold Command_of_json, Command_json.
  cbn [decode_struct decode_members cmd_Type cmd_Item cmd_Timestamp]. unfold Command_field. keys.
  rewrite decode_encode_bytes. cbn [mbind option_bind cmd_Type cmd_Item cmd_Timestamp decode_string].
  keys. unfold decode_time, encode_time. by rewrite time_parse_print.
Qed.

Definition fcmd_ok (c : FSMCommand) : Prop :=
  is_ascii (fcmd_Type c) = true ∧ - 2 ^ 63 ≤ fcmd_Timestamp c < 2 ^ 63 ∧ 0 ≤ fcmd_Index c < 2 ^ 64 ∧ 0 ≤ fcmd_Term c < 2 ^ 64.

Lemma parse_FSMCommand c : fcmd_ok c →
  parse_command (json_print (FSMCommand_json c)) =
    Some (mkCommand (fcmd_Type c) (fcmd_Item c) (fcmd_Timestamp c)).
Proof.
  destruct c as [ty it ts ix tm]. intros (Hty & Hts & Hix & Htm). cbn [fcmd_Type fcmd_Timestamp fcmd_Index fcmd_Term] in Hty, Hts, Hix, Htm.
  unfold parse_command, UnmarshalCommand, unmarshal_FSMCommand. rewrite json_parse_print by texts.
  cbn [mbind option_bind]. unfold Command_of_json, FSMCommand_of_json, FSMCommand_json.
  cbn [decode_struct decode_members fcmd_Type fcmd_Item fcmd_Timestamp fcmd_Index fcmd_Term].
  unfold Command_field, FSMCommand_field. keys. rewrite !decode_encode_bytes.
  cbn [mbind option_bind decode_time decode_string decode_int64 decode_uint64]. keys.
  cbn [decode_time decode_int64 decode_uint64 mbind option_bind]. keys.
  by rewrite !decide_True.
Qed.

(** The data of an entry that carries a command: what [Node] proposes, or the record of
    the WAL. *)
Definition encodes (data : list byte) (c : Command) : Prop :=
  (data = Marshal c ∧ is_ascii (cmd_Type c) = true ∧ year_ok (cmd_Timestamp c)) ∨
  ∃ ix tm, let e := mkFSMCommand (cmd_Type c) (cmd_Item c) (cmd_Timestamp c) ix tm in
    data = json_print (FSMCommand_json e) ∧ fcmd_ok e.

Lemma encodes_parse data c : encodes data c → parse_command data = Some c.
Proof.
  intros [(-> & Hty & Hts)|(ix & tm & -> & Hok)].
  - unfold parse_command. by rewrite UnmarshalCommand_Marshal.
  - rewrite parse_FSMCommand by done. by destruct c.
Qed.

Lemma unmarshal_SnapshotData_print s : 0 ≤ sd_Index s < 2 ^ 64 → 0 ≤ sd_Term s < 2 ^ 64 →
  year_ok (sd_Timestamp s) → json_ascii (sd_Metadata s) = true →
  (sd_Metadata s = JNull ∨ ∃ l, sd_Metadata s = JObj l) →
  unmarshal_SnapshotData (json_print (SnapshotData_json s)) = Some s.
Proof.
  destruct s as [bf md ts ix tm]. cbn [sd_Index sd_Term sd_Timestamp sd_Metadata]. intros Hix Htm Hts Hasc Hmd.
  unfold unmarshal_SnapshotData. rewrite json_parse_print by texts. cbn [mbind option_bind].
  unfold SnapshotData_json. cbn [decode_struct decode_members sd_BloomFilter sd_Metadata sd_Timestamp sd_Index sd_Term].
  unfold SnapshotData_field. keys. rewrite decode_encode_bytes. cbn [mbind option_bind]. keys.
  assert (decode_metadata JNull md = Some md) as -> by (by destruct Hmd as [->|[l ->]]).
  cbn [mbind option_bind]. keys. unfold decode_time, encode_time. rewrite time_parse_print by done.
  cbn [mbind option_bind decode_uint64]. keys. rewrite !decide_True by done. cbn [mbind option_bind]. keys.
  done.
Qed.

(** Raw filter data is never mistaken for JSON. *)
Lemma raw_filter_not_json f : codec_params (cbf_m f) (cbf_k f) →
  unmarshal_SnapshotData (Serialize f) = None.
Proof.
  intros [Hm _]. unfold unmarshal_SnapshotData, Serialize, PutUint32. cbn [app].
  rewrite json_parse_control; [done|].
  rewrite byte_val_of. unfold MaxFilterSize in Hm. rewrite u32_small by lia.
  rewrite Z.shiftr_div_pow2 by lia. rewrite u8_small; Z.div_mod_to_equations; lia.
Qed.

(** JSON is never mistaken for raw filter data. *)
Lemma json_not_raw_filter l : Deserialize (json_print (JObj l)) = Err ErrInvalidData.
Proof.
  destruct (json_print_obj l) as [rest ->]. unfold Deserialize. case_decide as H12; [done|].
  destruct rest as [|b1 [|b2 [|b3 rest]]]; try (destruct H12; done).
  change (slice _ 0 4) with [byte_of 123; b1; b2; b3]. rewrite decide_True; [done|].
  rewrite Uint32_arith, byte_val_of. unfold MaxFilterSize.
  pose proof (byte_val_range b1). pose proof (byte_val_range b2). pose proof (byte_val_range b3).
  rewrite u8_small by lia. lia.
Qed.
End parsing.

(** * Applying *)

Section applying.
Context `{JsonText, TimeText, Murmur3, AEAD}.

Definition wal_ok (wal : option (dir * WALWriter)) : Prop :=
  match wal with None => True | Some (_, w) => 0 ≤ w_maxFiles w end.

Lemma cleanup_returns n files d : 0 ≤ n → ∃ d', cleanup_loop n files d = Ret d'.
Proof.
  intros Hn. revert d. induction files as [|f files IH]; intros d; cbn.
  - rewrite decide_False by lia. eauto.
  - case_decide; eauto.
Qed.

Lemma Write_returns e rnd now data d w : 0 ≤ w_maxFiles w →
  ∃ d' w' err, Write e rnd now data d w = Ret (d', w', err) ∧ w_maxFiles w' = w_maxFiles w.
Proof.
  intros Hn. unfold Write. destruct (Encrypt e rnd data) as [enc|err]; [|by eexists _, _, _].
  assert (∃ d1 w1 err1, doRollFile now d w = Ret (d1, w1, err1) ∧ w_maxFiles w1 = w_maxFiles w)
    as (d1 & w1 & err1 & Hroll & Hw1).
  { unfold doRollFile. destruct (w_closed w); [by eexists _, _, _|].
    unfold openCurrentFile. destruct (d !! _) as [[f|]|]; [|by eexists _, _, _|].
    - destruct (cleanup_returns (w_maxFiles w) (getWALFiles d) d Hn) as [d2 Hd2].
      unfold cleanupOldFiles. cbn. rewrite Hd2. by eexists _, _, _.
    - set (d1 := <[_ := _]> d).
      destruct (cleanup_returns (w_maxFiles w) (getWALFiles d1) d1 Hn) as [d2 Hd2].
      unfold cleanupOldFiles. cbn. rewrite Hd2. by eexists _, _, _. }
  destruct (_ || _); [rewrite Hroll|]; cbn [mbind go_bind].
  - destruct err1; [by eexists _, _, _|]. destruct (w_closed w1); by eexists _, _, _.
  - destruct (w_closed w); by eexists _, _, _.
Qed.

Lemma wal_append_returns env log c r wal : wal_ok wal →
  ∃ wal', wal_append env log c r wal = Ret wal' ∧ wal_ok wal'.
Proof.
  intros Hok. unfold wal_append. destruct wal as [[d w]|]; [|by exists None].
  destruct r; [by exists (Some (d, w))|].
  destruct (Write_returns (env_enc env) (env_nonce env) (env_now env)
    (json_print (FSMCommand_json (mkFSMCommand (cmd_Type c) (cmd_Item c) (env_now env) (log_Index log) (log_Term log)))) d w Hok)
    as (d' & w' & err & -> & Hw). eexists. split; [done|]. cbn. by rewrite Hw.
Qed.

(** What a command that was applied with result [r] means for the items. *)
Definition cmd_allowed (M : items) (c : Command) : Prop := cmd_Type c = "remove" → cmd_Item c ∈ M.

Definition cmd_effect (M : items) (c : Command) (r : option apply_error) : items :=
  if decide (cmd_Type c = "add") then
    match r with None => M ⊎ {[+ cmd_Item c +]} | Some _ => M end
  else if decide (cmd_Type c = "remove") then M ∖ {[+ cmd_Item c +]} else M.

(** What executing a command does to the counters, and the result it reports. *)
Definition executed (f : CountingBloomFilter) (c : Command) (f' : CountingBloomFilter) (r : option apply_error) : Prop :=
  same_params f f' ∧
  if decide (cmd_Type c = "add") then
    ∃ err, added (fctr f) (idx_of f (cmd_Item c)) (fctr f') err ∧ r = option_map ABloom err
  else if decide (cmd_Type c = "remove") then removed (fctr f) (idx_of f (cmd_Item c)) (fctr f') ∧ r = None
  else f' = f ∧ r = Some (AUnknown (cmd_Type c)).

Lemma exec_command_counters f c : usable f →
  ∃ f' r, exec_command f c = Ret (f', r) ∧ usable f' ∧ executed f c f' r.
Proof.
  intros Hu. unfold exec_command, executed. repeat case_decide.
  - destruct (Add_counters f (cmd_Item c) Hu) as (f' & err & -> & ? & ? & ?). cbn. eauto 10.
  - destruct (Remove_spec f (cmd_Item c) Hu) as (f' & -> & ? & ? & ?). cbn. eauto 10.
  - eexists _, _. by split_and!.
Qed.

Lemma exec_command_repr f M c : counting_repr f M → cmd_allowed M c →
  ∃ f' r, exec_command f c = Ret (f', r) ∧ counting_repr f' (cmd_effect M c r).
Proof.
  intros Hr Ha. unfold exec_command, cmd_effect. change (cf_repr f M) in Hr.
  destruct (decide (cmd_Type c = "add")) as [|_].
  - destruct (cf_add_ok f M (cmd_Item c) Hr) as (f' & err & Hadd & Hr').
    change (cf_add f (cmd_Item c)) with (Add f (cmd_Item c)) in Hadd. rewrite Hadd.
    cbn [mbind go_bind]. eexists _, _. split; [done|]. by destruct err.
  - destruct (decide (cmd_Type c = "remove")) as [Heq|_]; [|by eexists _, _].
    destruct (cf_remove_ok f M (cmd_Item c) Hr (Ha Heq)) as (f' & Hrem & Hr').
    change (cf_remove f (cmd_Item c)) with (Remove f (cmd_Item c)) in Hrem. rewrite Hrem.
    cbn [mbind go_bind]. by eexists _, _.
Qed.

(** On a usable filter a command always completes. *)
Lemma exec_command_usable f c : usable f → ∃ f' r, exec_command f c = Ret (f', r) ∧ usable f'.
Proof. intros Hu. destruct (exec_command_counters f c Hu) as (f' & r & ? & ? & _). eauto. Qed.

(** The part of [Apply] that replicas share. *)
Definition apply_core (log : Log) (f : CountingBloomFilter) : go (CountingBloomFilter * option apply_error) :=
  match parse_command (log_Data log) with
  | None => Ret (f, Some AParse)
  | Some c => exec_command f c
  end.

Lemma Apply_core env log f : usable (fsm_bloom f) → wal_ok (fsm_wal f) →
  ∃ f' r, Apply env log f = Ret (f', r) ∧ apply_core log (fsm_bloom f) = Ret (fsm_bloom f', r) ∧
    usable (fsm_bloom f') ∧ wal_ok (fsm_wal f').
Proof.
  intros Hu Hw. unfold Apply, apply_core. destruct (parse_command (log_Data log)) as [c|]; [|by eexists _, _].
  destruct (exec_command_usable (fsm_bloom f) c Hu) as (b & r & -> & Hu'). cbn [mbind go_bind].
  destruct (wal_append_returns env log c r (fsm_wal f) Hw) as (wal' & -> & Hw'). cbn [mbind go_bind].
  by eexists _, _.
Qed.

Fixpoint apply_all (els : list (apply_env * Log)) (f : BloomFSM) : go (BloomFSM * list (option apply_error)) :=
  match els with
  | [] => Ret (f, [])
  | (env, log) :: els' =>
      '(f1, r) ← Apply env log f;
      '(f2, rs) ← apply_all els' f1;
      Ret (f2, r :: rs)
  end.

Lemma replicas_agree_lemma els1 els2 f1 f2 : els1.*2 = els2.*2 →
  fsm_bloom f1 = fsm_bloom f2 → usable (fsm_bloom f1) → wal_ok (fsm_wal f1) → wal_ok (fsm_wal f2) →
  ∃ g1 g2 rs, apply_all els1 f1 = Ret (g1, rs) ∧ apply_all els2 f2 = Ret (g2, rs) ∧
    fsm_bloom g1 = fsm_bloom g2.
Proof.
  revert els2 f1 f2. induction els1 as [|[env1 log] els1 IH]; intros els2 f1 f2 Hl Hb Hu Hw1 Hw2;
    destruct els2 as [|[env2 log2] els2]; try done; [by eexists _, _, _|].
  cbn in Hl. injection Hl as <- Hl. cbn [apply_all].
  destruct (Apply_core env1 log f1 Hu Hw1) as (g1 & r1 & -> & Hc1 & Hu1 & Hw1').
  rewrite Hb in Hu, Hc1. destruct (Apply_core env2 log f2 Hu Hw2) as (g2 & r2 & -> & Hc2 & Hu2 & Hw2').
  rewrite Hc1 in Hc2. injection Hc2 as Hg <-. cbn [mbind go_bind].
  destruct (IH els2 g1 g2 Hl Hg Hu1 Hw1' Hw2') as (h1 & h2 & rs & -> & -> & Hh). cbn [mbind go_bind].
  by eexists _, _, _.
Qed.
End applying.

(** * Theorems *)

Section theorems.
Context `{!JsonText, !JsonTextLaws, !TimeText, !TimeTextLaws, !Murmur3, !AEAD}.

(** C5: the replicated state machine executes every committed command exactly.
    Let the filter be usable and the WAL well-formed.  Whichever of the two encodings the
    entry carries and whatever the writes to the WAL do,
    [Apply] completes and records the position of the entry.  An addition raises every
    counter by the number of times the item hashes to it, or reports
    [ErrCounterOverflow] after the indices before the first full counter; a removal
    lowers every counter by that number, down to zero; another type is reported as
    unknown and changes nothing.  So the filter represents the items with the command
    carried out, as long as a removed item is present.  Data that is no command is
    reported and changes nothing, the recorded position included. *)
Theorem Apply_refines env log f :
  usable (fsm_bloom f) → wal_ok (fsm_wal f) →
  (∀ c, encodes (log_Data log) c →
    ∃ f' r, Apply env log f = Ret (f', r) ∧ executed (fsm_bloom f) c (fsm_bloom f') r ∧
      lastAppliedIndex f' = log_Index log ∧ lastAppliedTerm f' = log_Term log ∧
      usable (fsm_bloom f') ∧ wal_ok (fsm_wal f') ∧
      ∀ M, counting_repr (fsm_bloom f) M → cmd_allowed M c → counting_repr (fsm_bloom f') (cmd_effect M c r)) ∧
  (parse_command (log_Data log) = None → Apply env log f = Ret (f, Some AParse)).
Proof.
  intros Hu Hw. unfold Apply. split; [|by intros ->]. intros c Hp%encodes_parse. rewrite Hp.
  destruct (exec_command_counters (fsm_bloom f) c Hu) as (b & r & Hex & Hu' & Hc). rewrite Hex. cbn [mbind go_bind].
  destruct (wal_append_returns env log c r (fsm_wal f) Hw) as (wal' & -> & Hw'). cbn [mbind go_bind].
  eexists _, _. split_and!; [done..|]. intros M Hr Ha.
  destruct (exec_command_repr (fsm_bloom f) M c Hr Ha) as (b' & r' & Hex' & Hr'). rewrite Hex in Hex'. by injection Hex' as <- <-.
Qed.

(** C6: replicas agree: two state machines that start with the same filter and
    apply the same entries end with the same filter and report the same
    results, whatever their clocks, keys, nonces and WAL directories. *)
Theorem replicas_agree els1 els2 f1 f2 :
  els1.*2 = els2.*2 → fsm_bloom f1 = fsm_bloom f2 → usable (fsm_bloom f1) →
  wal_ok (fsm_wal f1) → wal_ok (fsm_wal f2) →
  ∃ g1 g2 rs, apply_all els1 f1 = Ret (g1, rs) ∧ apply_all els2 f2 = Ret (g2, rs) ∧
    fsm_bloom g1 = fsm_bloom g2.
Proof. exact (replicas_agree_lemma els1 els2 f1 f2). Qed.

Lemma Restore_Persist now t f g : year_ok now →
  filter_wf (fsm_bloom f) → codec_params (cbf_m (fsm_bloom f)) (cbf_k (fsm_bloom f)) →
  Restore (Persist now (Snapshot t f)) g = (mkFSM (fsm_bloom f) (fsm_wal g) 0 0 now, None).
Proof.
  intros Hnow Hwf Hp. unfold Restore, Persist. rewrite unmarshal_SnapshotData_print;
    [|done|done|done|reflexivity|right; by eexists].
  cbn [sd_BloomFilter sd_Index sd_Term sd_Timestamp snap_bloomData Snapshot].
  by rewrite (Deserialize_complete _ (fsm_bloom f)).
Qed.

(** C17: a replica restored from a snapshot catches up: after restoring what
    [Persist] wrote and applying the same further entries it has the same
    filter, and gives the same results, as the replica the snapshot was taken
    from. *)
Theorem snapshot_catch_up now t els1 els2 f g :
  year_ok now → els1.*2 = els2.*2 → usable (fsm_bloom f) →
  codec_params (cbf_m (fsm_bloom f)) (cbf_k (fsm_bloom f)) →
  wal_ok (fsm_wal f) → wal_ok (fsm_wal g) →
  ∃ g0 f' g' rs, Restore (Persist now (Snapshot t f)) g = (g0, None) ∧
    apply_all els1 f = Ret (f', rs) ∧ apply_all els2 g0 = Ret (g', rs) ∧
    fsm_bloom f' = fsm_bloom g'.
Proof.
  intros Hnow Hl Hu Hp Hwf Hwg. rewrite Restore_Persist by (done || apply Hu).
  set (g0 := mkFSM (fsm_bloom f) (fsm_wal g) 0 0 now).
  destruct (replicas_agree_lemma els1 els2 f g0) as (f' & g' & rs & ? & ? & ?); [done..|].
  by exists g0, f', g', rs.
Qed.

(** The log position does not survive a snapshot: [Persist] writes index 0
    and term 0, so after restoring its own snapshot the state machine reports
    that nothing has been applied, although the position is in the metadata. *)
Theorem snapshot_loses_position now t f g :
  year_ok now → filter_wf (fsm_bloom f) → codec_params (cbf_m (fsm_bloom f)) (cbf_k (fsm_bloom f)) →
  ∃ g', Restore (Persist now (Snapshot t f)) g = (g', None) ∧
    lastAppliedIndex g' = 0 ∧ lastAppliedTerm g' = 0.
Proof. intros Hnow Hwf Hp. eexists. by rewrite Restore_Persist. Qed.

(** Snapshots in the old format, the bare serialised filter, are restored
    too: they are never mistaken for JSON, and keep the position. *)
Theorem Restore_raw_filter b f :
  filter_wf b → codec_params (cbf_m b) (cbf_k b) →
  Restore (Serialize b) f =
    (mkFSM b (fsm_wal f) (lastAppliedIndex f) (lastAppliedTerm f) (fsm_startTime f), None).
Proof.
  intros Hwf Hp. unfold Restore. rewrite raw_filter_not_json by done.
  by rewrite (Deserialize_complete _ b).
Qed.

(** [Node] cannot read its own snapshots: [Node.Snapshot] shares the JSON
    writer with [BloomFSM], but [Node.Restore] only knows the bare format, so
    restoring fails for every filter and leaves the old state. *)
Theorem Node_snapshot_unreadable now f g :
  Node_Restore (Persist now (Node_Snapshot f)) g = (g, Some ErrInvalidData).
Proof. unfold Node_Restore, Persist, SnapshotData_json. by rewrite json_not_raw_filter. Qed.
End theorems.

(** [Node.Apply] discards the error of [Add]: for an item with a full
    counter the entry is reported as applied, yet the item is absent
    afterwards. *)
Theorem Node_Apply_hides_overflow `{JsonTextLaws, TimeTextLaws} now : year_ok now →
  let _ := byte_sum in
  ∃ f x f', usable f ∧
    Node_Apply (mkLog 1 1 (Marshal (NewCommand now "add" x))) f = Ret (f', None) ∧
    Contains f' x = Ret false.
Proof.
  intros Hnow Hm. exists (mkCBF 7 3 [0; 0; 255; 0; 0; 0; 0]), [byte_of 2], (mkCBF 7 3 [0; 0; 255; 0; 0; 0; 0]).
  split_and!.
  - split; [|unfold params_ok; cbn; lia]. split; [done|]. cbn. repeat constructor; lia.
  - unfold Node_Apply. cbn [log_Data]. rewrite UnmarshalCommand_Marshal by done. vm_compute. reflexivity.
  - vm_compute. reflexivity.
Qed.

(** * Closed instances *)

Section witnesses.
#[local] Existing Instance tree_text.
#[local] Existing Instance tree_text_laws.
#[local] Existing Instance tree_time.
#[local] Existing Instance tree_time_laws.
#[local] Existing Instance byte_sum.
#[local] Existing Instance tag_aead.

Definition ex_env (t : Z) : apply_env := mkEnv t ex_enc (Some ex_nonce).
Definition ex_cmd : Command := NewCommand 3 "add" ex_item.
Definition ex_log : Log := mkLog 5 2 (Marshal ex_cmd).
Definition ex_fsm (wal : option (dir * WALWriter)) : BloomFSM := mkFSM ex_f0 wal 0 0 0.
Definition ex_wal : option (dir * WALWriter) :=
  match NewWALWriter 0 ∅ with (d, Ok w) => Some (d, w) | _ => None end.

Lemma ex_parse : parse_command (log_Data ex_log) = Some ex_cmd.
Proof. unfold parse_command. cbn [log_Data ex_log]. by rewrite UnmarshalCommand_Marshal. Qed.
Lemma ex_year t : 0 ≤ t < 2 ^ 60 → year_ok t.
Proof. unfold year_ok. lia. Qed.
Lemma ex_repr0 : counting_repr ex_f0 ∅.
Proof. exact (New_repr 7 3 ex_f0 ex_params ex_New). Qed.
Lemma ex_codec : codec_params 7 3.
Proof. unfold codec_params, MaxFilterSize, MaxHashFunctions. lia. Qed.
Lemma ex_wal_ok : wal_ok ex_wal.
Proof. vm_compute. congruence. Qed.

Lemma ex_encodes : encodes (log_Data ex_log) ex_cmd.
Proof. left. split_and!; [done..|by apply ex_year]. Qed.

Lemma Apply_refines_witness :
  ∃ f' r, Apply (ex_env 7) ex_log (ex_fsm ex_wal) = Ret (f', r) ∧ executed ex_f0 ex_cmd (fsm_bloom f') r ∧
    lastAppliedIndex f' = 5 ∧ lastAppliedTerm f' = 2 ∧ usable (fsm_bloom f') ∧ wal_ok (fsm_wal f') ∧
    ∀ M, counting_repr ex_f0 M → cmd_allowed M ex_cmd → counting_repr (fsm_bloom f') (cmd_effect M ex_cmd r).
Proof. exact (proj1 (Apply_refines (ex_env 7) ex_log (ex_fsm ex_wal) ex_usable ex_wal_ok) ex_cmd ex_encodes). Defined.

Lemma replicas_agree_witness :
  ∃ g1 g2 rs, apply_all [(ex_env 7, ex_log)] (ex_fsm ex_wal) = Ret (g1, rs) ∧
    apply_all [(ex_env 9, ex_log)] (ex_fsm None) = Ret (g2, rs) ∧ fsm_bloom g1 = fsm_bloom g2.
Proof.
  exact (replicas_agree [(ex_env 7, ex_log)] [(ex_env 9, ex_log)] (ex_fsm ex_wal) (ex_fsm None)
    eq_refl eq_refl ex_usable ex_wal_ok I).
Defined.

Lemma snapshot_catch_up_witness :
  ∃ g0 f' g' rs, Restore (Persist 1 (Snapshot 2 (ex_fsm ex_wal))) (ex_fsm None) = (g0, None) ∧
    apply_all [(ex_env 7, ex_log)] (ex_fsm ex_wal) = Ret (f', rs) ∧
    apply_all [(ex_env 9, ex_log)] g0 = Ret (g', rs) ∧ fsm_bloom f' = fsm_bloom g'.
Proof.
  exact (snapshot_catch_up 1 2 [(ex_env 7, ex_log)] [(ex_env 9, ex_log)] (ex_fsm ex_wal) (ex_fsm None)
    (ex_year 1 ltac:(lia)) eq_refl ex_usable ex_codec ex_wal_ok I).
Defined.

Definition ex_applied : BloomFSM := mkFSM ex_f1 None 42 3 0.

Lemma ex_f1_wf : filter_wf ex_f1.
Proof. split; [reflexivity|]. cbn. repeat constructor; lia. Qed.

Lemma snapshot_loses_position_witness :
  ∃ g', Restore (Persist 1 (Snapshot 2 ex_applied)) ex_applied = (g', None) ∧
    lastAppliedIndex g' = 0 ∧ lastAppliedTerm g' = 0.
Proof. exact (snapshot_loses_position 1 2 ex_applied ex_applied (ex_year 1 ltac:(lia)) ex_f1_wf ex_codec). Defined.

Lemma Restore_raw_filter_witness :
  Restore (Serialize ex_f1) (ex_fsm None) = (mkFSM ex_f1 None 0 0 0, None).
Proof. exact (Restore_raw_filter ex_f1 (ex_fsm None) ex_f1_wf ex_codec). Defined.

Lemma Node_snapshot_unreadable_witness :
  Node_Restore (Persist 1 (Node_Snapshot ex_f1)) ex_f0 = (ex_f0, Some ErrInvalidData).
Proof. exact (Node_snapshot_unreadable 1 ex_f1 ex_f0). Defined.

Lemma Node_Apply_hides_overflow_witness :
  ∃ f x f', usable f ∧
    Node_Apply (mkLog 1 1 (Marshal (NewCommand 4 "add" x))) f = Ret (f', None) ∧
    Contains f' x = Ret false.
Proof. exact (Node_Apply_hides_overflow 4 (ex_year 4 ltac:(lia))). Defined.
End witnesses.
