(* ===== verification/Recovery.v ===== *)
(** What the write-ahead log of [BloomFSM] is good for: [Apply] of [internal/raft/fsm.go] on
    top of the writer and reader of [internal/wal/encryptor.go].

    A state machine opens its log, applies entries and appends one encrypted record for
    each that succeeded.  [replay] gives the records of a reader back to [Apply] as the
    data of log entries; no code of the repository does so. *)

From S2P Require Import Prelude GoBytes GoFmt Hash Counting CountingSpec CountingCodec.
From S2P Require Import WalCrypto WalFiles Json RaftFsm.
#[local] Open Scope Z_scope.

(** * Definitions *)

Section recovery.
Context `{JsonText, TimeText, Murmur3, AEAD}.

(** The record of an applied command, and the write that appends it. *)
Definition entry_record (env : apply_env) (log : Log) (c : Command) : list byte :=
  json_print (FSMCommand_json (mkFSMCommand (cmd_Type c) (cmd_Item c) (env_now env) (log_Index log) (log_Term log))).

Definition requests_of (el : apply_env * Log) (r : option apply_error) : list wreq :=
  match parse_command (log_Data el.2), env_nonce el.1, r with
  | Some c, Some nonce, None => [mkReq (env_enc el.1) nonce (env_now el.1) (entry_record el.1 el.2 c)]
  | _, _, _ => []
  end.

Definition requests (els : list (apply_env * Log)) (rs : list (option apply_error)) : list wreq :=
  zip_with requests_of els rs ≫= id.

(** The records as the data of log entries: what [Apply] does to the filter with each. *)
Fixpoint replay (recs : list (list byte)) (f : CountingBloomFilter) : go CountingBloomFilter :=
  match recs with
  | [] => Ret f
  | rec :: recs' => '(f', _) ← apply_core (mkLog 0 0 rec) f; replay recs' f'
  end.

(** * Theorems *)

(** What [Apply] needs of its surroundings to log an entry: random bytes, a clock within
    [int64] and indices within [uint64]. *)
Definition el_ok (el : apply_env * Log) : Prop :=
  is_Some (env_nonce el.1) ∧ - 2 ^ 63 ≤ env_now el.1 < 2 ^ 63 ∧ 0 ≤ log_Index el.2 < 2 ^ 64 ∧ 0 ≤ log_Term el.2 < 2 ^ 64.

(** No [Add] met a full counter. *)
Definition no_overflow (rs : list (option apply_error)) : Prop := Forall (λ r, ∀ e, r ≠ Some (ABloom e)) rs.

Lemma write_all_app qs1 qs2 d w d1 w1 errs1 : write_all qs1 d w = Ret (d1, w1, errs1) →
  write_all (qs1 ++ qs2) d w = '(d2, w2, errs2) ← write_all qs2 d1 w1; Ret (d2, w2, errs1 ++ errs2).
Proof.
  revert d w d1 w1 errs1. induction qs1 as [|q qs1 IH]; intros d w d1 w1 errs1; cbn [write_all app].
  { intros [= <- <- <-]. by destruct (write_all qs2 d w) as [[[]]|]. }
  destruct (Write _ _ _ _ d w) as [[[d' w'] err]|]; [|done]. cbn [mbind go_bind].
  destruct (write_all qs1 d' w') as [[[d'' w''] errs]|] eqn:E; [|done]. cbn [mbind go_bind]. intros [= <- <- <-].
  rewrite (IH _ _ _ _ _ E). by destruct (write_all qs2 d'' w'') as [[[]]|].
Qed.

(** One entry: its write, if it has one. *)
Lemma Apply_writes env log f d w g r : fsm_wal f = Some (d, w) → is_Some (env_nonce env) → Apply env log f = Ret (g, r) →
  ∃ d' w' errs, write_all (requests_of (env, log) r) d w = Ret (d', w', errs) ∧ fsm_wal g = Some (d', w').
Proof.
  intros Hw [nonce Hn]. unfold Apply, requests_of. cbn [fst snd]. rewrite Hn. destruct (parse_command (log_Data log)) as [c|].
  2: { intros [= <- <-]. by exists d, w, []. }
  destruct (exec_command (fsm_bloom f) c) as [[b r']|]; [|done]. cbn [mbind go_bind]. rewrite Hw. unfold wal_append.
  destruct r' as [e|].
  { cbn [mbind go_bind]. intros [= <- <-]. by exists d, w, []. }
  rewrite Hn. fold (entry_record env log c). destruct (Write _ _ _ _ d w) as [[[d' w'] err]|] eqn:E; [|done].
  cbn [mbind go_bind]. intros [= <- <-]. exists d', w', [err]. split; [|done]. cbn [write_all q_enc q_nonce q_now q_data]. by rewrite E.
Qed.

Lemma apply_all_writes els f d w g rs : fsm_wal f = Some (d, w) → Forall (λ el, is_Some (env_nonce el.1)) els →
  apply_all els f = Ret (g, rs) →
  ∃ d' w' errs, write_all (requests els rs) d w = Ret (d', w', errs) ∧ fsm_wal g = Some (d', w').
Proof.
  revert f d w g rs. induction els as [|[env log] els IH]; intros f d w g rs Hw Hn; cbn [apply_all].
  { intros [= <- <-]. by exists d, w, []. }
  apply Forall_cons in Hn as [Hn Hns]. destruct (Apply env log f) as [[f1 r]|] eqn:E1; [|done]. cbn [mbind go_bind].
  destruct (apply_all els f1) as [[f2 rs']|] eqn:E2; [|done]. cbn [mbind go_bind]. intros [= <- <-].
  destruct (Apply_writes env log f d w f1 r Hw Hn E1) as (d1 & w1 & errs1 & Hwr & Hw1).
  destruct (IH _ _ _ _ _ Hw1 Hns E2) as (d2 & w2 & errs2 & Hwr2 & Hw2). exists d2, w2, (errs1 ++ errs2). split; [|done].
  unfold requests in *. cbn [zip_with mbind list_bind id]. rewrite (write_all_app _ _ _ _ _ _ _ Hwr), Hwr2. done.
Qed.

Lemma replay_app l1 l2 f : replay (l1 ++ l2) f = f' ← replay l1 f; replay l2 f'.
Proof.
  revert f. induction l1 as [|x l1 IH]; intros f; [done|]. cbn [app replay]. destruct (apply_core _ f) as [[f' r]|]; [apply IH|done].
Qed.
End recovery.

Section theorems.
Context `{JsonTextLaws, TimeTextLaws, Murmur3, !AEAD, !AEADLaws}.

(** The record of an entry does to the filter what the entry did. *)
Lemma replay_entry env log f g r : el_ok (env, log) → (∀ e, r ≠ Some (ABloom e)) →
  apply_core log f = Ret (g, r) → replay (q_data <$> requests_of (env, log) r) f = Ret g.
Proof.
  intros ([nonce Hn] & Hnow & Hix & Htm) Hr. unfold apply_core, requests_of. cbn [fst snd] in *. rewrite Hn.
  destruct (parse_command (log_Data log)) as [c|]; [|by intros [= <- <-]].
  intros Hex. assert (r = None → is_ascii (cmd_Type c) = true) as Hty.
  { intros ->. revert Hex. unfold exec_command. case_decide as Ha; [by rewrite Ha|]. case_decide as Hb; [by rewrite Hb|done]. }
  destruct r as [e|].
  - cbn. revert Hex. unfold exec_command. repeat case_decide.
    + destruct (Add f (cmd_Item c)) as [[f' err]|]; [|done]. cbn [mbind go_bind]. intros [= <- He]. destruct err as [err|]; [|done].
      cbn in He. injection He as <-. by destruct (Hr err).
    + destruct (Remove f (cmd_Item c)); [|done]. cbn [mbind go_bind]. congruence.
    + by intros [= <- _].
  - cbn [fmap list_fmap q_data replay]. unfold apply_core. cbn [log_Data]. unfold entry_record. rewrite parse_FSMCommand by (unfold fcmd_ok; cbn; auto).
    cbn [fcmd_Type fcmd_Item fcmd_Timestamp]. change (exec_command f (mkCommand _ _ _)) with (exec_command f c). by rewrite Hex.
Qed.

Lemma replay_requests els f g rs : usable (fsm_bloom f) → wal_ok (fsm_wal f) → Forall el_ok els → no_overflow rs →
  apply_all els f = Ret (g, rs) → replay (q_data <$> requests els rs) (fsm_bloom f) = Ret (fsm_bloom g).
Proof.
  revert f g rs. induction els as [|[env log] els IH]; intros f g rs Hu Hw He Hr; cbn [apply_all]; [by intros [= <- <-]|].
  apply Forall_cons in He as [He Hes]. destruct (Apply_core env log f Hu Hw) as (f1 & r & -> & Hc & Hu1 & Hw1). cbn [mbind go_bind].
  destruct (apply_all els f1) as [[f2 rs']|] eqn:E; [|done]. cbn [mbind go_bind]. intros [= <- <-].
  apply Forall_cons in Hr as [Hr Hrs]. unfold requests in *. cbn [zip_with mbind list_bind id]. rewrite fmap_app, replay_app.
  rewrite (replay_entry env log _ _ _ He Hr Hc). cbn [mbind go_bind]. by apply IH.
Qed.

Lemma apply_all_total els f : usable (fsm_bloom f) → wal_ok (fsm_wal f) → ∃ g rs, apply_all els f = Ret (g, rs).
Proof.
  revert f. induction els as [|[env log] els IH]; intros f Hu Hw; [by eexists _, _|]. cbn [apply_all].
  destruct (Apply_core env log f Hu Hw) as (f1 & r & -> & _ & Hu1 & Hw1). cbn [mbind go_bind].
  destruct (IH f1 Hu1 Hw1) as (g & rs & ->). by eexists _, _.
Qed.

Lemma len_requests els rs : len (requests els rs) ≤ len els.
Proof.
  revert rs. induction els as [|el els IH]; intros rs; [done|]. destruct rs as [|r rs]; [by cbn; lens|]. unfold requests in *.
  cbn [zip_with mbind list_bind id]. rewrite len_app, len_cons. specialize (IH rs). cbn [mbind] in *.
  assert (len (requests_of el r) ≤ 1) by (unfold requests_of; repeat case_match; cbn; lens). lia.
Qed.

(** What a log written from an empty directory holds: the records of the files [kept], after
    those of the files [gone] that were deleted because there were more than ten. *)
Definition log_files (recs : list (list byte)) (gone kept : list segment) (d : dir) : Prop :=
  recs = (r_plain <$> written gone) ++ (r_plain <$> written kept) ∧ d = dir_of kept ∧
  (gone ++ kept).*1 = seqZ 1 (len (gone ++ kept)) ∧ len (gone ++ kept) ≤ 1 + len recs ∧
  len gone ≤ Z.max 0 (len (gone ++ kept) - DefaultMaxFiles).

Lemma new_log_reads e now qs : 2 + len qs ≤ 10 ^ 6 → Forall (req_known e) qs →
  ∃ d0 w0 d w gone kept, NewWALWriter now ∅ = (d0, Ok w0) ∧ write_all qs d0 w0 = Ret (d, w, replicate (length qs) None) ∧
    log_files (q_data <$> qs) gone kept d ∧ ReadAll e d = Ret (Ok (r_plain <$> written kept)) ∧
    (if last qs is Some q then ∃ l, r_plain <$> written kept = l ++ [q_data q] else True).
Proof.
  intros Hlt Hqs. pose proof (len_nonneg qs).
  destruct (new_wal_files now 1 [] DefaultMaxFileSize DefaultRollingInterval DefaultMaxFiles) as (d0 & w0 & Hnew & Hinv & Hm1 & Hm2); [done..|].
  destruct (write_all_files qs 1 [] _ d0 w0 Hinv) as (gone & kept & d & w & Hall & Hinv' & (_ & _ & Hm) & _ & Hlen & Hwr & _ & Hlast).
  { change (len ([] ++ _)) with 1. lia. } { rewrite Hm2. done. } { rewrite Hm1. done. }
  { apply Forall_singleton. right. cbn. lia. }
  { eapply Forall_impl; [exact Hqs|]. intros q Hq. by apply (req_known_ok e). }
  exists d0, w0, d, w, gone, kept. pose proof Hinv' as [Hi Hfst Hgone]. change (written ([] ++ _)) with (@nil rec) in Hwr.
  cbn [app] in Hwr. split_and!; [exact Hnew|done| | |].
  - unfold log_files. unfold written in *. rewrite bind_app in Hwr. split_and!; [|apply Hi|done| |by rewrite <- Hm2, <- Hm].
    + rewrite <- fmap_app, Hwr, <- list_fmap_compose. done.
    + assert (len (q_data <$> qs) = len qs) as -> by (unfold len; by rewrite length_fmap). exact Hlen.
  - eapply ReadAll_files; [exact Hinv'|]. apply Forall_forall. intros r Hr.
    assert (r ∈ written (gone ++ kept)) as Hin by (unfold written; rewrite bind_app; apply elem_of_app; by right).
    rewrite Hwr in Hin. apply list_elem_of_fmap in Hin as (q & -> & Hq). rewrite Forall_forall in Hqs. by apply req_known_ok, Hqs.
  - destruct (last qs) as [q|]; [|done]. destruct Hlast as [l ->]. exists (r_plain <$> l). by rewrite fmap_app.
Qed.

End theorems.

(** * Instances *)

Section witnesses.
#[local] Existing Instance tree_text.
#[local] Existing Instance tree_text_laws.
#[local] Existing Instance tree_time.
#[local] Existing Instance tree_time_laws.
#[local] Existing Instance byte_sum.
#[local] Existing Instance tag_aead.
#[local] Existing Instance tag_aead_laws.

Definition rc_log (ix : Z) (ty : string) (item : Z) : Log := mkLog ix 2 (Marshal (NewCommand 3 ty [byte_of item])).
Definition rc_els : list (apply_env * Log) :=
  [(ex_env 7, rc_log 5 "add" 1); (ex_env 8, rc_log 6 "noop" 1); (ex_env 9, rc_log 7 "add" 2); (ex_env 10, rc_log 8 "remove" 1)].
Definition rc_rs : list (option apply_error) := [None; Some (AUnknown "noop"); None; None].

Lemma Ret_pair {A B} (x x' : A) (y y' : B) : Ret (x, y) = Ret (x', y') → x = x' ∧ y = y'.
Proof. by intros [= -> ->]. Qed.

Definition rc_f : BloomFSM := match NewBloomFSM 0 ex_f0 (Some ∅) with Ok f => f | Err _ => ex_fsm None end.
Definition rc_g : BloomFSM := match apply_all rc_els rc_f with Ret (g, _) => g | Panic _ => rc_f end.

Lemma rc_new : NewBloomFSM 0 ex_f0 (Some ∅) = Ok rc_f.
Proof. vm_compute. reflexivity. Qed.
Lemma rc_run : apply_all rc_els rc_f = Ret (rc_g, rc_rs).
Proof. vm_compute. reflexivity. Qed.
Lemma rc_length : length (q_data <$> requests rc_els rc_rs) = 3%nat.
Proof. vm_compute. reflexivity. Qed.


(** An [Add] that meets a full counter has raised the counters before it, and leaves no
    record: the filter then differs from what its log says. *)
Definition rc_full : CountingBloomFilter := mkCBF 7 3 [0; 0; 0; 255; 0; 0; 0].

Theorem failed_add_is_not_logged wal : Apply (ex_env 7) (rc_log 5 "add" 1) (mkFSM rc_full wal 0 0 0) =
  Ret (mkFSM (mkCBF 7 3 [0; 1; 0; 255; 0; 0; 0]) wal 5 2 0, Some (ABloom ErrCounterOverflow)).
Proof. vm_compute. by destruct wal as [[]|]. Qed.
End witnesses.
