(* ===== verification/RaftSnapshot.v ===== *)
(** [internal/raft/snapshot.go]: [SnapshotManager], which keeps snapshots of the
    filter in files, encrypted when an encryptor is configured.

    The snapshot directory is a map from file names to contents, [None] when no
    directory is configured; other paths are a map of their own.  SHA-256 is
    the class [Sha256].  The reader of a stored snapshot picks the file whose
    name sorts last. *)

From S2P Require Import Prelude GoBytes GoFmt Hash Counting CountingSpec CountingCodec.
From S2P Require Import WalCrypto Json RaftFsm.
From stdpp Require Import sorting.
From Stdlib Require Import Ascii String.
#[local] Open Scope Z_scope.

(** * Definitions *)

Class Sha256 := Sum256 : list byte → list byte.
Class Sha256Laws `{Sha256} : Prop := { length_Sum256 l : Datatypes.length (Sum256 l) = 32%nat }.

(** [hex.EncodeToString] *)
Definition hex_digit (n : Z) : byte := byte_of (if decide (n < 10) then 48 + n else 97 + (n - 10)).
Definition hex_encode (l : list byte) : list byte :=
  l ≫= λ b, [hex_digit (byte_val b / 16); hex_digit (byte_val b mod 16)].

Record SnapshotStats : Type := mkSnapStats {
  ss_TotalSnapshots : Z;
  ss_TotalSnapshotSize : Z;
  ss_LastSnapshotIndex : Z;
  ss_LastSnapshotTerm : Z;
  ss_LastSnapshotTime : Z;
  ss_TotalRestores : Z;
  ss_AverageSnapshotSize : Z
}.

Record SnapshotManager : Type := mkSM {
  sm_bloomFilter : option CountingBloomFilter;
  sm_encryptor : option WALEncryptor;
  sm_stats : SnapshotStats;
  sm_lastSnapshotIndex : Z;
  sm_lastSnapshotTerm : Z;
  sm_lastSnapshotTime : Z
}.

Inductive snapshot_error : Type :=
  | SNotInitialized
  | SNoDir
  | SNotFound
  | SFormat
  | SChecksum
  | SWal (e : wal_error)
  | SBloom (e : bloom_error)
  | SJson
  | SRead.

(** The configured directory and its files. *)
Abbreviation snapdir := (option (gmap string (list byte))).

Definition NewSnapshotManagerWithEncryption (f : option CountingBloomFilter) (e : option WALEncryptor)
  : SnapshotManager := mkSM f e (mkSnapStats 0 0 0 0 zero_time 0 0) 0 0 zero_time.

Definition NewSnapshotManager (f : option CountingBloomFilter) : SnapshotManager :=
  NewSnapshotManagerWithEncryption f None.

Definition snapshot_name (sm : SnapshotManager) (now : Z) (ext : string) : string :=
  "snapshot_" +:+ Sprintf_d (sm_lastSnapshotIndex sm) +:+ "_" +:+ Sprintf_d now +:+ ext.

Definition writeSnapshotFile (ext : string) (now : Z) (sm : SnapshotManager) (data : list byte) (d : snapdir)
  : snapdir * option snapshot_error :=
  match d with
  | None => (d, Some SNoDir)
  | Some files => (Some (<[snapshot_name sm now ext := data]> files), None)
  end.

(** [filepath.Glob(dir/snapshot_*ext)]: matching names, sorted. *)
Definition glob_match (ext name : string) : bool :=
  HasPrefix name "snapshot_" && HasSuffix name ext &&
  bool_decide (String.length "snapshot_" + String.length ext ≤ String.length name)%nat.

Definition Glob (ext : string) (files : gmap string (list byte)) : list string :=
  merge_sort name_le (List.filter (glob_match ext) (elements (dom files))).

(** The last of the names. *)
Definition readLatest (ext : string) (d : snapdir) : result snapshot_error (list byte) :=
  match d with
  | None => Err SNoDir
  | Some files =>
      match last (Glob ext files) with
      | None => Err SNotFound
      | Some name => match files !! name with Some data => Ok data | None => Err SRead end
      end
  end.

Section snapshots.
Context `{Sha256, AEAD, JsonText, TimeText}.

(** [checksum in hex(64) | newline | encrypted data] *)
Definition snapshot_file (data encrypted : list byte) : list byte :=
  (hex_encode (Sum256 data) ++ [byte_of 10]) ++ encrypted.

Definition SaveSnapshot (rnd : option (list byte)) (now : Z) (data : list byte) (sm : SnapshotManager)
    (d : snapdir) : snapdir * option snapshot_error :=
  match sm_encryptor sm with
  | None => writeSnapshotFile ".json" now sm data d
  | Some e =>
      match Encrypt e rnd data with
      | Err err => (d, Some (SWal err))
      | Ok encryptedData => writeSnapshotFile ".enc" now sm (snapshot_file data encryptedData) d
      end
  end.

(** Position of the first newline, the length when there is none. *)
Fixpoint newline_index (l : list byte) : nat :=
  match l with [] => O | b :: l' => if decide (b = byte_of 10) then O else S (newline_index l') end.

Definition LoadSnapshot (sm : SnapshotManager) (d : snapdir) : go (result snapshot_error (list byte)) :=
  match sm_encryptor sm with
  | None => Ret (readLatest ".json" d)
  | Some e =>
      match readLatest ".enc" d with
      | Err err => Ret (Err err)
      | Ok fileData =>
          if decide (newline_index fileData = Datatypes.length fileData ∨ newline_index fileData ≠ 64%nat)
          then Ret (Err SFormat)
          else
            let checksumHex := take 64 fileData in
            let encryptedData := drop 65 fileData in
            r ← Decrypt e encryptedData;
            match r with
            | Err err => Ret (Err (SWal err))
            | Ok decryptedData =>
                if decide (hex_encode (Sum256 decryptedData) ≠ checksumHex) then Ret (Err SChecksum)
                else Ret (Ok decryptedData)
            end
      end
  end.

Definition sm_set (sm : SnapshotManager) (f : CountingBloomFilter) (restores index term time : Z) : SnapshotManager :=
  let s := sm_stats sm in
  mkSM (Some f) (sm_encryptor sm)
    (mkSnapStats (ss_TotalSnapshots s) (ss_TotalSnapshotSize s) (ss_LastSnapshotIndex s) (ss_LastSnapshotTerm s)
       (ss_LastSnapshotTime s) restores (ss_AverageSnapshotSize s)) index term time.

(** [CreateSnapshot] only updates the statistics; the data is not kept.  The
    division is by the incremented count. *)
Definition CreateSnapshot (now index term : Z) (sm : SnapshotManager) : go (SnapshotManager * option snapshot_error) :=
  match sm_bloomFilter sm with
  | None => Ret (sm, Some SNotInitialized)
  | Some f =>
      let data := json_print (SnapshotData_json (mkSnapshotData (Serialize f)
        (JObj [("bloom_k", JInt (HashCount f)); ("bloom_size", JInt (Counting.Size f));
               ("created_by", JStr "distributed-bloom-filter"); ("version", JStr "1.0")]) now index term)) in
      let s := sm_stats sm in
      let total := i64 (ss_TotalSnapshots s + 1) in
      let size := i64 (ss_TotalSnapshotSize s + len data) in
      if decide (total = 0) then Panic IntegerDivideByZero
      else
        Ret (mkSM (sm_bloomFilter sm) (sm_encryptor sm)
               (mkSnapStats total size index term now (ss_TotalRestores s) (i64 (Z.quot size total)))
               index term now, None)
  end.

Definition RestoreSnapshot (data : list byte) (sm : SnapshotManager) : SnapshotManager * option snapshot_error :=
  match sm_bloomFilter sm with
  | None => (sm, Some SNotInitialized)
  | Some _ =>
      let restores := i64 (ss_TotalRestores (sm_stats sm) + 1) in
      match unmarshal_SnapshotData data with
      | Some s =>
          match Deserialize (sd_BloomFilter s) with
          | Err e => (sm, Some (SBloom e))
          | Ok f => (sm_set sm f restores (sd_Index s) (sd_Term s) (sd_Timestamp s), None)
          end
      | None =>
          match Deserialize data with
          | Err e => (sm, Some (SBloom e))
          | Ok f => (sm_set sm f restores (sm_lastSnapshotIndex sm) (sm_lastSnapshotTerm sm)
                       (sm_lastSnapshotTime sm), None)
          end
      end
  end.

Definition RestoreFromFSM (now index term : Z) (sm : SnapshotManager) : SnapshotManager :=
  mkSM (sm_bloomFilter sm) (sm_encryptor sm) (sm_stats sm) index term now.

Definition GetSnapshot (now : Z) (sm : SnapshotManager) : result snapshot_error fsmSnapshot :=
  match sm_bloomFilter sm with
  | None => Err SNotInitialized
  | Some f =>
      Ok (mkFsmSnapshot (Serialize f) (JObj [("size", JInt (len (Serialize f))); ("timestamp", JInt now)]))
  end.

(** [json.MarshalIndent] writes the same value with other white space; the
    text layer only promises that it reads back. *)
Definition SaveSnapshotToFile (path : string) (now : Z) (sm : SnapshotManager) (fs : gmap string (list byte))
  : gmap string (list byte) * option snapshot_error :=
  match sm_bloomFilter sm with
  | None => (fs, Some SNotInitialized)
  | Some f =>
      let data := json_print (SnapshotData_json (mkSnapshotData (Serialize f)
        (JObj [("created_by", JStr "distributed-bloom-filter"); ("version", JStr "1.0")])
        now (sm_lastSnapshotIndex sm) (sm_lastSnapshotTerm sm))) in
      (<[path := data]> fs, None)
  end.

Definition LoadSnapshotFromFile (path : string) (sm : SnapshotManager) (fs : gmap string (list byte))
  : SnapshotManager * option snapshot_error :=
  match sm_bloomFilter sm with
  | None => (sm, Some SNotInitialized)
  | Some _ =>
      match fs !! path with
      | None => (sm, Some SRead)
      | Some data =>
          match unmarshal_SnapshotData data with
          | None => (sm, Some SJson)
          | Some s =>
              match Deserialize (sd_BloomFilter s) with
              | Err e => (sm, Some (SBloom e))
              | Ok f => (sm_set sm f (ss_TotalRestores (sm_stats sm)) (sd_Index s) (sd_Term s) (sd_Timestamp s), None)
              end
          end
      end
  end.
End snapshots.

(** * Lemmas *)

(** The entry that sorts last is the last of the sorted list. *)
Lemma merge_sort_last (l : list string) x : NoDup l → x ∈ l → (∀ y, y ∈ l → name_le y x) →
  last (merge_sort name_le l) = Some x.
Proof.
  intros Hnd Hx Hle. assert (Htot : Total name_le).
  { intros a b. unfold name_le. destruct (String.leb_total a b); auto. }
  pose proof (Sorted_merge_sort name_le l) as Hs.
  pose proof (merge_sort_Permutation name_le l) as Hp.
  assert (Hx' : x ∈ merge_sort name_le l) by by rewrite Hp.
  destruct (last (merge_sort name_le l)) as [z|] eqn:Hl.
  - f_equal. apply last_Some in Hl as [init Hinit]. rewrite Hinit in Hs, Hx'.
    assert (Hz : z ∈ l) by (rewrite <- Hp, Hinit; apply elem_of_app; right; by left).
    apply (Sorted_StronglySorted) in Hs; [|intros a b c; apply leb_trans].
    apply elem_of_app in Hx' as [Hx'|Hx'%list_elem_of_singleton]; [|done].
    assert (name_le x z). { eapply StronglySorted_app_1_elem_of; [exact Hs|done|by left]. }
    apply String.leb_antisym; [|done]. by apply Hle.
  - apply last_None in Hl. rewrite Hl in Hx'. by apply elem_of_nil in Hx'.
Qed.

Lemma name_le_refl a : name_le a a.
Proof. unfold name_le. by destruct (String.leb_total a a). Qed.

Lemma snapshot_name_split sm now ext :
  snapshot_name sm now ext =
    ("snapshot_" +:+ Sprintf_d (sm_lastSnapshotIndex sm) +:+ "_") +:+ (Sprintf_d now +:+ ext).
Proof. unfold snapshot_name. by rewrite <- !string_app_assoc. Qed.

Lemma snapshot_name_glob sm now ext : glob_match ext (snapshot_name sm now ext) = true.
Proof.
  unfold glob_match. apply andb_true_iff. split; [apply andb_true_iff; split|].
  - apply HasPrefix_app.
  - rewrite snapshot_name_split, string_app_assoc. apply HasSuffix_app.
  - apply bool_decide_eq_true. unfold snapshot_name. rewrite !string_app_length. lia.
Qed.

(** The file of a snapshot at log index [i] and time [t] comes before the one [sm] writes at time [now]: its
    index is smaller and has as many digits, or it is the same and the file is older. *)
Definition comes_before (i t : Z) (sm : SnapshotManager) (now : Z) : Prop :=
  0 ≤ i ∧ 10 ^ 18 ≤ t < 10 ^ 19 ∧
  ((i = sm_lastSnapshotIndex sm ∧ t < now) ∨
   (i < sm_lastSnapshotIndex sm ∧ String.length (Sprintf_d i) = String.length (Sprintf_d (sm_lastSnapshotIndex sm)))).

Lemma digits_le n n' u v : 0 ≤ n → n < n' → String.length (Sprintf_d n) = String.length (Sprintf_d n') →
  String.leb (Sprintf_d n +:+ u) (Sprintf_d n' +:+ v) = true.
Proof.
  intros Hn Hlt Hlen. destruct (Sprintf_d_spec n) as (Hd & Hv & _); [lia|]. destruct (Sprintf_d_spec n') as (Hd' & Hv' & _); [lia|].
  apply leb_digits; [done..|lia].
Qed.

Lemma snapshot_name_le sm0 sm t now ext : 10 ^ 18 ≤ now < 10 ^ 19 →
  comes_before (sm_lastSnapshotIndex sm0) t sm now →
  name_le (snapshot_name sm0 t ext) (snapshot_name sm now ext).
Proof.
  intros Hnow (Hi & Ht & [[Heq Hlt]|[Hlt Hlen]]); unfold name_le.
  - rewrite !snapshot_name_split, Heq, leb_app. apply digits_le; [lia|done|]. by rewrite !(Sprintf_d_length _ 18) by (cbn; lia).
  - unfold snapshot_name. rewrite leb_app. by apply digits_le.
Qed.

(** A new file whose name sorts last is the one that is read. *)
Lemma readLatest_insert ext files name data :
  glob_match ext name = true →
  (∀ n, n ∈ dom files → glob_match ext n = true → name_le n name) →
  readLatest ext (Some (<[name := data]> files)) = Ok data.
Proof.
  intros Hm Hle. unfold readLatest, Glob.
  rewrite (merge_sort_last _ name).
  - by rewrite lookup_insert_eq.
  - apply NoDup_ListNoDup, List.NoDup_filter, NoDup_ListNoDup, NoDup_elements.
  - apply list_elem_of_In, List.filter_In. split; [|done]. apply list_elem_of_In, elem_of_elements. set_solver.
  - intros y Hy%list_elem_of_In. apply List.filter_In in Hy as [Hy Hym].
    apply list_elem_of_In, elem_of_elements in Hy. rewrite dom_insert, elem_of_union, elem_of_singleton in Hy.
    destruct Hy as [->|Hy]; [apply name_le_refl|by apply Hle].
Qed.

Lemma newline_index_app l r : (∀ b, b ∈ l → b ≠ byte_of 10) →
  newline_index (l ++ byte_of 10 :: r) = Datatypes.length l.
Proof.
  induction l as [|b l IH]; intros Hl; [done|]. cbn [app newline_index Datatypes.length].
  rewrite decide_False by (apply Hl; left). rewrite IH; [done|]. intros c Hc. apply Hl. by right.
Qed.

Lemma hex_digit_not_newline n : 0 ≤ n < 16 → hex_digit n ≠ byte_of 10.
Proof.
  intros Hn Heq. apply (f_equal byte_val) in Heq. unfold hex_digit in Heq.
  rewrite !byte_val_of in Heq. case_decide; rewrite !u8_small in Heq by lia; lia.
Qed.

Lemma hex_encode_newline l b : b ∈ hex_encode l → b ≠ byte_of 10.
Proof.
  unfold hex_encode. intros (x & Hb & _)%list_elem_of_bind. pose proof (byte_val_range x).
  apply elem_of_cons in Hb as [->|Hb%list_elem_of_singleton]; [|subst b];
    apply hex_digit_not_newline; Z.div_mod_to_equations; lia.
Qed.

Lemma length_hex_encode l : Datatypes.length (hex_encode l) = (2 * Datatypes.length l)%nat.
Proof. induction l as [|b l IH]; [done|]. unfold hex_encode in *. cbn in *. lia. Qed.

(** * Theorems *)

Section theorems.
Context `{!Sha256, !Sha256Laws, !AEAD, !AEADLaws, !JsonText, !JsonTextLaws, !TimeText, !TimeTextLaws}.

(** A manager reads what another writes: neither has an encryptor, or both do, the nonce and the sizes fit and
    the reader still has the key of the writer. *)
Definition compatible (sm sm' : SnapshotManager) (rnd : option (list byte)) (data : list byte) : Prop :=
  match sm_encryptor sm, sm_encryptor sm' with
  | None, None => True
  | Some e, Some e' => encryptor_ok e ∧ keyCache e' !! keyVersion e = Some (currentKey e) ∧
      ∃ nonce, rnd = Some nonce ∧ fits (currentKey e) nonce data
  | _, _ => False
  end.

Definition snapshot_ext (sm : SnapshotManager) : string := if sm_encryptor sm is Some _ then ".enc" else ".json".

Lemma load_encrypted e e' nonce data : encryptor_ok e → fits (currentKey e) nonce data →
  keyCache e' !! keyVersion e = Some (currentKey e) → ∃ r, Encrypt e (Some nonce) data = Ok r ∧
  ∀ sm' d, sm_encryptor sm' = Some e' → readLatest ".enc" d = Ok (snapshot_file data r) → LoadSnapshot sm' d = Ret (Ok data).
Proof.
  intros (Hkey & Hv & _) Hfit Hc. rewrite Encrypt_record by done. eexists. split; [done|].
  intros sm' d He' Hread. unfold LoadSnapshot. rewrite He', Hread.
  set (hx := hex_encode (Sum256 data)). set (r := record_of _ _ _ _).
  assert (Hl : Datatypes.length hx = 64%nat) by (unfold hx; by rewrite length_hex_encode, length_Sum256).
  assert (Hf : snapshot_file data r = hx ++ byte_of 10 :: r) by (unfold snapshot_file; by rewrite <- (assoc_L (++))).
  rewrite Hf, newline_index_app by apply hex_encode_newline. rewrite Hl.
  rewrite decide_False; [|intros [Heq|?]; [|done]; rewrite length_app in Heq; cbn in Heq; lia].
  assert (take 64 (hx ++ byte_of 10 :: r) = hx) as -> by (rewrite <- Hl; apply take_app_length).
  assert (drop 65 (hx ++ byte_of 10 :: r) = r) as ->.
  { rewrite drop_app_ge by lia. by rewrite Hl. }
  rewrite <- (app_nil_r r). unfold r. rewrite Decrypt_record by done. cbn [mbind go_bind].
  by rewrite decide_False by (intros Hn; by destruct Hn).
Qed.

(** C36: a snapshot is read back intact, in the clear or encrypted, then also after the reader's key was
    rotated.  [LoadSnapshot] finds the file that [SaveSnapshot] just wrote, provided that every other snapshot
    file of the directory is of the same log index and older, or of a smaller index with as many digits (names
    sort as text: see [LoadSnapshot_picks_stale] for indices 9 and 10); with an encryptor it decrypts the file
    and accepts its checksum.  Times are in nanoseconds of nineteen digits, the years 2001 to 2286. *)
Theorem LoadSnapshot_SaveSnapshot sm sm' rnd now data files :
  compatible sm sm' rnd data → 10 ^ 18 ≤ now < 10 ^ 19 →
  (∀ name, name ∈ dom files → glob_match (snapshot_ext sm) name = true →
     ∃ sm0 t, name = snapshot_name sm0 t (snapshot_ext sm) ∧ comes_before (sm_lastSnapshotIndex sm0) t sm now) →
  ∃ d, SaveSnapshot rnd now data sm (Some files) = (d, None) ∧ LoadSnapshot sm' d = Ret (Ok data).
Proof.
  intros Hc Hnow Hold.
  assert (∀ content, readLatest (snapshot_ext sm) (Some (<[snapshot_name sm now (snapshot_ext sm) := content]> files)) = Ok content) as Hread.
  { intros content. apply readLatest_insert; [apply snapshot_name_glob|]. intros n Hn Hm.
    destruct (Hold n Hn Hm) as (sm0 & t & -> & Hb). by apply snapshot_name_le. }
  unfold compatible, snapshot_ext in *. unfold SaveSnapshot.
  destruct (sm_encryptor sm) as [e|] eqn:He, (sm_encryptor sm') as [e'|] eqn:He'; try done.
  - destruct Hc as (Hok & Hkey & nonce & -> & Hfit). destruct (load_encrypted e e' nonce data Hok Hfit Hkey) as (r & -> & Hload).
    eexists. split; [done|]. by apply Hload.
  - eexists. split; [done|]. unfold LoadSnapshot. by rewrite He', Hread.
Qed.

(** A backup file restores the filter and the position it was saved with. *)
Theorem LoadSnapshotFromFile_SaveSnapshotToFile path now sm sm' f g fs :
  year_ok now → sm_bloomFilter sm = Some f → sm_bloomFilter sm' = Some g →
  filter_wf f → codec_params (cbf_m f) (cbf_k f) →
  0 ≤ sm_lastSnapshotIndex sm < 2 ^ 64 → 0 ≤ sm_lastSnapshotTerm sm < 2 ^ 64 →
  ∃ fs' sm'', SaveSnapshotToFile path now sm fs = (fs', None) ∧
    LoadSnapshotFromFile path sm' fs' = (sm'', None) ∧
    sm_bloomFilter sm'' = Some f ∧ sm_lastSnapshotIndex sm'' = sm_lastSnapshotIndex sm ∧
    sm_lastSnapshotTerm sm'' = sm_lastSnapshotTerm sm ∧ sm_lastSnapshotTime sm'' = now.
Proof.
  intros Hnow Hf Hg Hwf Hp Hi Ht. unfold SaveSnapshotToFile, LoadSnapshotFromFile. rewrite Hf, Hg.
  eexists _, _. split; [done|]. rewrite lookup_insert_eq.
  rewrite unmarshal_SnapshotData_print; [|done|done|done|reflexivity|right; by eexists].
  cbn [sd_BloomFilter]. rewrite (Deserialize_complete _ f) by done. by split_and!.
Qed.

(** The position taken from a stored snapshot through [RestoreSnapshot] is
    the one it was written with, and a state machine's own snapshot, written
    with position 0, resets it. *)
Theorem RestoreSnapshot_Persist now t (m : BloomFSM) sm g :
  year_ok now → sm_bloomFilter sm = Some g →
  filter_wf (fsm_bloom m) → codec_params (cbf_m (fsm_bloom m)) (cbf_k (fsm_bloom m)) →
  ∃ sm', RestoreSnapshot (Persist now (Snapshot t m)) sm = (sm', None) ∧
    sm_bloomFilter sm' = Some (fsm_bloom m) ∧ sm_lastSnapshotIndex sm' = 0.
Proof.
  intros Hnow Hg Hwf Hp. unfold RestoreSnapshot, Persist. rewrite Hg.
  rewrite unmarshal_SnapshotData_print; [|done|done|done|reflexivity|right; by eexists].
  cbn [sd_BloomFilter snap_bloomData Snapshot].
  rewrite (Deserialize_complete _ (fsm_bloom m)) by done. eexists. by split_and!.
Qed.
End theorems.

(** The newest snapshot is not always the one loaded: names sort as text,
    so after a snapshot at index 9 one at index 10 is ignored, whatever the
    times, and the stale one is returned. *)
Theorem LoadSnapshot_picks_stale `{!Sha256, !AEAD} f t1 t2 old new :
  let at_index i := mkSM f None (mkSnapStats 0 0 0 0 0 0 0) i 1 0 in
  let d1 := (SaveSnapshot None t1 old (at_index 9) (Some ∅)).1 in
  let d2 := (SaveSnapshot None t2 new (at_index 10) d1).1 in
  LoadSnapshot (at_index 10) d2 = Ret (Ok old).
Proof.
  intros at_index d1 d2. unfold LoadSnapshot. cbn [sm_encryptor at_index].
  assert (d2 = Some (<[snapshot_name (at_index 9) t1 ".json" := old]>
    {[snapshot_name (at_index 10) t2 ".json" := new]})) as ->.
  { assert (Hname : snapshot_name (at_index 9) t1 ".json" ≠ snapshot_name (at_index 10) t2 ".json").
    { rewrite !snapshot_name_split. intros Heq. vm_compute in Heq. discriminate. }
    change d2 with (Some (<[snapshot_name (at_index 10) t2 ".json" := new]>
      (<[snapshot_name (at_index 9) t1 ".json" := old]> (∅ : gmap string (list byte))))).
    by rewrite insert_insert_ne by done. }
  f_equal. apply readLatest_insert; [apply snapshot_name_glob|].
  intros n Hn _. rewrite dom_singleton, elem_of_singleton in Hn. subst n.
  unfold name_le. rewrite !snapshot_name_split.
  generalize (Sprintf_d t1 +:+ ".json") (Sprintf_d t2 +:+ ".json"). intros u v. reflexivity.
Qed.

(** * Closed instances *)

(** A digest of the right length: the CRC, padded. *)
Definition crc_digest : Sha256 := λ l, PutUint32 (Checksum l) ++ replicate 28 (byte_of 0).

Section witnesses.
#[local] Existing Instance crc_digest.
#[local] Existing Instance tag_aead.
#[local] Existing Instance tag_aead_laws.
#[local] Existing Instance tree_text.
#[local] Existing Instance tree_text_laws.
#[local] Existing Instance tree_time.
#[local] Existing Instance tree_time_laws.

#[local] Instance crc_digest_laws : Sha256Laws.
Proof. by split. Qed.

Definition ex_sm : SnapshotManager := mkSM (Some ex_f1) (Some ex_enc) (mkSnapStats 0 0 0 0 0 0 0) 7 2 0.
Definition ex_sm_rotated : SnapshotManager :=
  mkSM None (Some (rotations [(ex_key 2, 5)] ex_enc)) (mkSnapStats 0 0 0 0 0 0 0) 0 0 0.

(** The directory already holds the snapshot of index 6. *)
Definition ex_older : SnapshotManager := mkSM None (Some ex_enc) (mkSnapStats 0 0 0 0 0 0 0) 6 2 0.

Lemma LoadSnapshot_SaveSnapshot_witness :
  ∃ d, SaveSnapshot (Some ex_nonce) (1700000000 * 10 ^ 9) ex_plain ex_sm
         (Some {[ snapshot_name ex_older (1600000000 * 10 ^ 9) ".enc" := [] ]}) = (d, None) ∧
    LoadSnapshot ex_sm_rotated d = Ret (Ok ex_plain).
Proof.
  apply (LoadSnapshot_SaveSnapshot ex_sm ex_sm_rotated (Some ex_nonce) (1700000000 * 10 ^ 9) ex_plain).
  - split; [apply ex_enc_ok|]. split; [reflexivity|]. exists ex_nonce. split; [reflexivity|]. split; reflexivity.
  - lia.
  - intros name Hn _. rewrite dom_singleton, elem_of_singleton in Hn. exists ex_older, (1600000000 * 10 ^ 9). split; [exact Hn|].
    split; [cbn; lia|]. split; [lia|]. right. split; [cbn; lia|reflexivity].
Defined.

Lemma LoadSnapshotFromFile_SaveSnapshotToFile_witness :
  ∃ fs' sm'', SaveSnapshotToFile "/backup/s.json" 3 ex_sm ∅ = (fs', None) ∧
    LoadSnapshotFromFile "/backup/s.json" ex_sm fs' = (sm'', None) ∧
    sm_bloomFilter sm'' = Some ex_f1 ∧ sm_lastSnapshotIndex sm'' = 7 ∧
    sm_lastSnapshotTerm sm'' = 2 ∧ sm_lastSnapshotTime sm'' = 3.
Proof.
  apply (LoadSnapshotFromFile_SaveSnapshotToFile "/backup/s.json" 3 ex_sm ex_sm ex_f1 ex_f1 ∅);
    [apply (ex_year 3); lia|reflexivity|reflexivity|exact ex_f1_wf|exact ex_codec|cbn; lia|cbn; lia].
Defined.

Lemma RestoreSnapshot_Persist_witness :
  ∃ sm', RestoreSnapshot (Persist 1 (Snapshot 2 ex_applied)) ex_sm = (sm', None) ∧
    sm_bloomFilter sm' = Some ex_f1 ∧ sm_lastSnapshotIndex sm' = 0.
Proof.
  exact (RestoreSnapshot_Persist 1 2 ex_applied ex_sm ex_f1 (ex_year 1 ltac:(lia)) eq_refl ex_f1_wf ex_codec).
Defined.
End witnesses.
