(* ===== verification/NetAddr.v ===== *)
(** What the sources use of [net] and [strings] on addresses: IP addresses and
    their text, networks, [SplitHostPort], [Split] and [TrimSpace].

    An address is its 4 or 16 bytes and nil is the empty list.  The parsers
    follow [netip.ParseAddr] and [net.ParseCIDR]; zones are refused, as
    [net.ParseIP] does.  [TrimSpace] trims ASCII white space. *)

From S2P Require Import Prelude GoBytes GoFmt.
From Stdlib Require Import Ascii String.
#[local] Open Scope Z_scope.

(** * Strings *)

(** [strings.Split] by one character: never empty. *)
Fixpoint split_on (sep : ascii) (s : string) : string * list string :=
  match s with
  | EmptyString => (EmptyString, [])
  | String c s' =>
      let '(h, t) := split_on sep s' in
      if decide (c = sep) then (EmptyString, h :: t) else (String c h, t)
  end.
Definition Split (s : string) (sep : ascii) : list string :=
  let '(h, t) := split_on sep s in h :: t.

(** [strings.Join] with one character. *)
Fixpoint Join (l : list string) (sep : ascii) : string :=
  match l with
  | [] => EmptyString
  | [s] => s
  | s :: l' => (s ++ String sep (Join l' sep))%string
  end.

Definition is_space (c : ascii) : bool :=
  let n := char_code c in bool_decide (9 ≤ n ≤ 13 ∨ n = 32).

Fixpoint trim_left (s : string) : string :=
  match s with String c s' => if is_space c then trim_left s' else s | EmptyString => s end.
Fixpoint trim_right (s : string) : string :=
  match s with
  | EmptyString => EmptyString
  | String c s' =>
      match trim_right s' with
      | EmptyString => if is_space c then EmptyString else String c EmptyString
      | t => String c t
      end
  end.
Definition TrimSpace (s : string) : string := trim_right (trim_left s).

Fixpoint has_char (c : ascii) (s : string) : bool :=
  match s with EmptyString => false | String d s' => bool_decide (c = d) || has_char c s' end.

(** The parts of [s] around the first [sep]. *)
Fixpoint cut (sep : ascii) (s : string) : option (string * string) :=
  match s with
  | EmptyString => None
  | String c s' =>
      if decide (c = sep) then Some (EmptyString, s')
      else '(a, b) ← cut sep s'; Some (String c a, b)
  end.

(** The parts around the last [sep]. *)
Fixpoint cut_last (sep : ascii) (s : string) : option (string * string) :=
  match s with
  | EmptyString => None
  | String c s' =>
      match cut_last sep s' with
      | Some (a, b) => Some (String c a, b)
      | None => if decide (c = sep) then Some (EmptyString, s') else None
      end
  end.

(** [net.SplitHostPort]: the host, [None] on error. *)
Definition SplitHostPort (hostport : string) : option string :=
  '(before, _) ← cut_last ":" hostport;
  match hostport with
  | String "[" rest =>
      '(host, after) ← cut "]" rest;
      match after with
      | String ":" port =>
          if has_char ":" port || has_char "[" rest || has_char "]" after then None else Some host
      | _ => None
      end
  | _ =>
      if has_char ":" before || has_char "[" hostport || has_char "]" hostport then None else Some before
  end.

(** * Parsing addresses *)

Definition hex_val (c : ascii) : option Z :=
  let n := char_code c in
  if decide (48 ≤ n ≤ 57) then Some (n - 48)
  else if decide (97 ≤ n ≤ 102) then Some (n - 97 + 10)
  else if decide (65 ≤ n ≤ 70) then Some (n - 65 + 10)
  else None.

(** A field of a dotted address: digits without a leading zero, at most 255. *)
Definition parse_octet (s : string) : option byte :=
  match s with
  | EmptyString => None
  | String c s' =>
      if all_digits s && (bool_decide (s' = EmptyString) || negb (bool_decide (c = "0"%char))) &&
         bool_decide (digits_value 0 s ≤ 255)
      then Some (byte_of (digits_value 0 s)) else None
  end.

Definition parse_v4 (s : string) : option (list byte) :=
  l ← mapM parse_octet (Split s "."); if decide (Datatypes.length l = 4%nat) then Some l else None.

(** The hexadecimal digits at the head: value, their number and the rest. *)
Fixpoint hex_prefix (acc : Z) (n : nat) (s : string) : Z * nat * string :=
  match s with
  | String c s' =>
      match hex_val c with Some v => hex_prefix (acc * 16 + v) (S n) s' | None => (acc, n, s) end
  | EmptyString => (acc, n, s)
  end.

Definition expand (ip : list byte) (ellipsis : option nat) : option (list byte) :=
  let n := Datatypes.length ip in
  match ellipsis with
  | Some e => if decide (n < 16)%nat then Some (take e ip ++ replicate (16 - n) (byte_of 0) ++ drop e ip) else None
  | None => if decide (n = 16)%nat then Some ip else None
  end.

(** Groups of at most four digits; [ellipsis] is where a double colon was. *)
Fixpoint parse_v6_loop (fuel : nat) (ip : list byte) (ellipsis : option nat) (s : string)
  : option (list byte) :=
  match fuel with
  | O => None                                    (* sixteen bytes and text left *)
  | S fuel =>
      let '(acc, n, rest) := hex_prefix 0 0 s in
      if decide (n = 0 ∨ 4 < n)%nat then None else
      match rest with
      | String "." _ =>
          if decide ((ellipsis = None ∧ Datatypes.length ip ≠ 12%nat) ∨ (12 < Datatypes.length ip)%nat) then None
          else v4 ← parse_v4 s; expand (ip ++ v4) ellipsis
      | _ =>
          let ip := ip ++ [byte_of (acc / 256); byte_of acc] in
          match rest with
          | EmptyString => expand ip ellipsis
          | String ":" EmptyString => None
          | String ":" (String ":" rest) =>
              match ellipsis with
              | Some _ => None
              | None =>
                  match rest with
                  | EmptyString => expand ip (Some (Datatypes.length ip))
                  | _ => parse_v6_loop fuel ip (Some (Datatypes.length ip)) rest
                  end
              end
          | String ":" rest => parse_v6_loop fuel ip ellipsis rest
          | _ => None
          end
      end
  end.

Definition parse_v6 (s : string) : option (list byte) :=
  match s with
  | String ":" (String ":" EmptyString) => Some (replicate 16 (byte_of 0))
  | String ":" (String ":" rest) => parse_v6_loop 8 [] (Some 0%nat) rest
  | _ => parse_v6_loop 8 [] None s
  end.

(** The 4 or 16 bytes of the text: the first dot or colon decides. *)
Fixpoint first_mark (s : string) : option ascii :=
  match s with
  | EmptyString => None
  | String c s' => if decide (c = "."%char ∨ c = ":"%char ∨ c = "%"%char) then Some c else first_mark s'
  end.

Definition ParseAddr (s : string) : option (list byte) :=
  if has_char "%" s then None
  else match first_mark s with
       | Some "."%char => parse_v4 s
       | Some ":"%char => parse_v6 s
       | _ => None
       end.

(** * Addresses and networks *)

Definition v4InV6Prefix : list byte := replicate 10 (byte_of 0) ++ [byte_of 255; byte_of 255].

Definition To16 (ip : list byte) : list byte :=
  if decide (Datatypes.length ip = 4%nat) then v4InV6Prefix ++ ip else ip.

(** [IP.To4]: nil when it is not an IPv4 address. *)
Definition To4 (ip : list byte) : option (list byte) :=
  if decide (Datatypes.length ip = 4%nat) then Some ip
  else if decide (Datatypes.length ip = 16%nat ∧ take 12 ip = v4InV6Prefix) then Some (drop 12 ip)
  else None.

Definition ParseIP (s : string) : option (list byte) := To16 <$> ParseAddr s.

Record IPNet : Type := mkIPNet { net_IP : list byte; net_Mask : list byte }.

Definition byte_and (a b : byte) : byte := byte_of (Z.land (byte_val a) (byte_val b)).

(** The byte with its first [n] of eight bits set. *)
Definition mask_byte (n : Z) : byte := byte_of (256 - 2 ^ (8 - Z.max 0 (Z.min 8 n))).

Definition CIDRMask (ones : Z) (bytes : nat) : list byte :=
  map (λ i, mask_byte (ones - 8 * Z.of_nat i)) (seq 0 bytes).

Definition parse_prefix_length (s : string) : option Z :=
  if negb (bool_decide (s = EmptyString)) && all_digits s && bool_decide (digits_value 0 s < 16777215)
  then Some (digits_value 0 s) else None.

Definition ParseCIDR (s : string) : option IPNet :=
  '(addr, mask) ← cut "/" s;
  ip ← ParseAddr addr;
  n ← parse_prefix_length mask;
  let size := Datatypes.length ip in
  if decide (n ≤ 8 * Z.of_nat size) then
    let m := CIDRMask n size in Some (mkIPNet (zip_with byte_and ip m) m)
  else None.

Definition networkNumberAndMask (n : IPNet) : option (list byte * list byte) :=
  ip ← match To4 (net_IP n) with
       | Some x => Some x
       | None => if decide (Datatypes.length (net_IP n) = 16%nat) then Some (net_IP n) else None
       end;
  let m := net_Mask n in
  if decide (Datatypes.length m = 4%nat) then
    if decide (Datatypes.length ip = 4%nat) then Some (ip, m) else None
  else if decide (Datatypes.length m = 16%nat) then
    Some (ip, if decide (Datatypes.length ip = 4%nat) then drop 12 m else m)
  else None.

(** [IPNet.Contains]; a malformed network is nil and matches only nil. *)
Definition net_Contains (n : IPNet) (ip : list byte) : bool :=
  let '(nn, m) := default ([], []) (networkNumberAndMask n) in
  let ip := default ip (To4 ip) in
  bool_decide (Datatypes.length ip = Datatypes.length nn) &&
  bool_decide (zip_with byte_and nn m = zip_with byte_and ip m).

(** * Printing addresses *)

Definition octet_text (b : byte) : string := Sprintf_d (byte_val b).

Definition v4_text (ip : list byte) : string := Join (map octet_text ip) ".".

Definition hex_char (n : Z) : ascii :=
  ascii_of_nat (Z.to_nat (if decide (n < 10) then 48 + n else 97 + (n - 10))).

(** A group in hexadecimal without leading zeros. *)
Fixpoint hex_loop (fuel : nat) (n : Z) (acc : string) : string :=
  match fuel with
  | O => acc
  | S fuel =>
      let acc := String (hex_char (n mod 16)) acc in
      if decide (n / 16 = 0) then acc else hex_loop fuel (n / 16) acc
  end.
Definition hex_text (n : Z) : string := hex_loop 4 n EmptyString.

Fixpoint groups (ip : list byte) : list Z :=
  match ip with a :: b :: r => (byte_val a * 256 + byte_val b) :: groups r | _ => [] end.

Fixpoint zero_run (l : list Z) : nat :=
  match l with 0 :: l' => S (zero_run l') | _ => O end.

(** The first longest run of at least two zero groups: its start and length. *)
Definition longest_run (l : list Z) : option (nat * nat) :=
  foldl (λ best i,
    let n := zero_run (drop i l) in
    if decide (2 ≤ n ∧ from_option snd 0 best < n)%nat then Some (i, n) else best) None (seq 0 (Datatypes.length l)).

Definition v6_text (ip : list byte) : string :=
  let l := groups ip in
  match longest_run l with
  | Some (i, n) =>
      (Join (map hex_text (take i l)) ":" ++ "::" ++ Join (map hex_text (drop (i + n) l)) ":")%string
  | None => Join (map hex_text l) ":"
  end.

(** [IP.String]; slices of another length are printed after a question mark. *)
Definition IP_String (ip : list byte) : string :=
  if decide (ip = []) then "<nil>"
  else match To4 ip with
       | Some ip4 => v4_text ip4
       | None =>
           if decide (Datatypes.length ip = 16%nat) then v6_text ip
           else ("?" ++ string_of_list_ascii (ip ≫= λ b, [hex_char (byte_val b / 16); hex_char (byte_val b mod 16)]))%string
       end.

(** * Lemmas *)

Lemma split_on_app sep a b : has_char sep a = false →
  Split (a ++ String sep b) sep = a :: Split b sep.
Proof.
  unfold Split. intros Ha. enough (split_on sep (a ++ String sep b) =
    (a, let '(h, t) := split_on sep b in h :: t)) as -> by done.
  induction a as [|c a IH]; cbn [split_on String.append has_char] in *.
  - change ("" ++ String sep b)%string with (String sep b). cbn [split_on]. destruct (split_on sep b). by rewrite decide_True.
  - apply orb_false_iff in Ha as [Hc%bool_decide_eq_false Ha]. 
    change (String c a ++ String sep b)%string with (String c (a ++ String sep b)). cbn [split_on]. rewrite (IH Ha).
    rewrite decide_False by congruence. done.
Qed.

Lemma split_single sep a : has_char sep a = false → Split a sep = [a].
Proof.
  unfold Split. intros Ha. enough (split_on sep a = (a, [])) as -> by done.
  induction a as [|c a IH]; cbn [split_on has_char] in *; [done|].
  apply orb_false_iff in Ha as [Hc%bool_decide_eq_false Ha]. rewrite (IH Ha). by rewrite decide_False by congruence.
Qed.

(** Splitting undoes joining. *)
Lemma Split_Join sep l : l ≠ [] → Forall (λ s, has_char sep s = false) l → Split (Join l sep) sep = l.
Proof.
  intros Hne Hl. induction Hl as [|s l Hs Hl IH]; [done|]. destruct l as [|t l]; [by apply split_single|].
  change (Join (s :: t :: l) sep) with (s ++ String sep (Join (t :: l) sep))%string.
  rewrite split_on_app by done. f_equal. by apply IH.
Qed.

Definition all_bytes : list byte := map (λ n, byte_of (Z.of_nat n)) (seq 0 256).

Lemma elem_of_all_bytes b : b ∈ all_bytes.
Proof.
  unfold all_bytes. apply list_elem_of_In, in_map_iff. exists (Z.to_nat (byte_val b)).
  pose proof (byte_val_range b). rewrite Z2Nat.id by lia. split; [apply byte_of_val|]. apply in_seq. lia.
Qed.

(** A property of bytes by cases. *)
Lemma byte_cases (P : byte → bool) : forallb P all_bytes = true → ∀ b, P b = true.
Proof. intros Hf b. rewrite forallb_forall in Hf. apply Hf, list_elem_of_In, elem_of_all_bytes. Qed.

Lemma parse_octet_text b : parse_octet (octet_text b) = Some b ∧ has_char "." (octet_text b) = false.
Proof.
  pose proof (byte_cases (λ b, bool_decide (parse_octet (octet_text b) = Some b ∧
    has_char "." (octet_text b) = false))) as Hb.
  specialize (Hb ltac:(vm_compute; reflexivity) b). by apply bool_decide_eq_true in Hb.
Qed.

Lemma parse_v4_text ip : Datatypes.length ip = 4%nat → parse_v4 (v4_text ip) = Some ip.
Proof.
  intros Hn. unfold parse_v4, v4_text. rewrite Split_Join.
  - enough (mapM parse_octet (map octet_text ip) = Some ip) as ->.
    { cbn. by rewrite decide_True. }
    clear Hn. induction ip as [|b ip IH]; [done|]. cbn [map mapM].
    destruct (parse_octet_text b) as [-> _]. cbn [mbind option_bind]. by rewrite IH.
  - by destruct ip.
  - apply Forall_forall. intros s Hs. apply list_elem_of_In, in_map_iff in Hs as (b & <- & _).
    apply parse_octet_text.
Qed.

(** The text of an IPv4 address is an address and nothing else. *)
Lemma octet_marks b : has_char "/" (octet_text b) = false ∧ has_char "%" (octet_text b) = false ∧
  first_mark (octet_text b) = None.
Proof.
  pose proof (byte_cases (λ b, bool_decide (has_char "/" (octet_text b) = false ∧ has_char "%" (octet_text b) = false ∧
    first_mark (octet_text b) = None))) as Hb.
  specialize (Hb ltac:(vm_compute; reflexivity) b). by apply bool_decide_eq_true in Hb.
Qed.

Lemma append_cons (x : ascii) (a b : string) : (String x a ++ b)%string = String x (a ++ b)%string.
Proof. done. Qed.

Lemma has_char_app c a b : has_char c (a ++ b) = has_char c a || has_char c b.
Proof. induction a as [|x a IH]; [done|]. rewrite append_cons. cbn [has_char]. by rewrite IH, orb_assoc. Qed.

Lemma first_mark_app a b : first_mark a = None → first_mark (a ++ b) = first_mark b.
Proof. induction a as [|x a IH]; [done|]. rewrite append_cons. cbn [first_mark]. case_decide; [done|]. exact IH. Qed.

Lemma cut_app sep a b : has_char sep a = false → cut sep (a ++ String sep b) = Some (a, b).
Proof.
  induction a as [|x a IH]; intros Ha.
  - change ("" ++ String sep b)%string with (String sep b). cbn [cut]. by rewrite decide_True.
  - cbn [has_char] in Ha. apply orb_false_iff in Ha as [Hx%bool_decide_eq_false Ha].
    rewrite append_cons. cbn [cut]. rewrite decide_False by congruence. by rewrite (IH Ha).
Qed.

Lemma has_char_Join c sep l : c ≠ sep → Forall (λ s, has_char c s = false) l → has_char c (Join l sep) = false.
Proof.
  intros Hne Hl. induction Hl as [|s l Hs Hl IH]; [done|]. destruct l as [|t l]; [done|].
  change (Join (s :: t :: l) sep) with (s ++ String sep (Join (t :: l) sep))%string.
  rewrite has_char_app, Hs. cbn [has_char]. rewrite bool_decide_eq_false_2 by done. exact IH.
Qed.

Lemma v4_text_no_char c ip : c ≠ "."%char → (∀ b, has_char c (octet_text b) = false) → has_char c (v4_text ip) = false.
Proof.
  intros Hc Hb. apply has_char_Join; [done|]. apply Forall_forall. intros s Hs.
  apply list_elem_of_In, in_map_iff in Hs as (b & <- & _). apply Hb.
Qed.

Lemma ParseAddr_v4_text ip : Datatypes.length ip = 4%nat → ParseAddr (v4_text ip) = Some ip.
Proof.
  intros Hn. unfold ParseAddr. rewrite v4_text_no_char; [|done|intros b; apply octet_marks].
  assert (first_mark (v4_text ip) = Some "."%char) as ->; [|by apply parse_v4_text].
  destruct ip as [|a [|b ip]]; [done..|].
  change (v4_text (a :: b :: ip)) with (octet_text a ++ String "." (v4_text (b :: ip)))%string.
  rewrite first_mark_app by apply octet_marks. done.
Qed.

Lemma To4_v4InV6 ip : Datatypes.length ip = 4%nat → To4 (v4InV6Prefix ++ ip) = Some ip.
Proof.
  intros Hn. unfold To4. rewrite decide_False by (rewrite length_app; cbn; lia).
  rewrite decide_True; [done|]. split; [rewrite length_app; cbn; lia|done].
Qed.

Lemma ParseIP_String_v4 ip : Datatypes.length ip = 4%nat → ParseIP (IP_String ip) = Some (v4InV6Prefix ++ ip).
Proof.
  intros Hn. unfold IP_String. rewrite decide_False by (by intros ->).
  unfold To4. rewrite decide_True by done. unfold ParseIP. rewrite ParseAddr_v4_text by done. cbn [fmap option_fmap option_map].
  unfold To16. by rewrite decide_True.
Qed.

Lemma byte_and_zero b : byte_and b (byte_of 0) = byte_of 0.
Proof.
  apply byte_val_inj. unfold byte_and. rewrite !byte_val_of. change (byte_val (byte_of 0)) with 0. by rewrite Z.land_0_r.
Qed.

Lemma byte_and_ones b : byte_and b (byte_of 255) = b.
Proof.
  pose proof (byte_cases (λ b, bool_decide (byte_and b (byte_of 255) = b))) as Hb.
  specialize (Hb ltac:(vm_compute; reflexivity) b). by apply bool_decide_eq_true in Hb.
Qed.
