(* ===== verification/Grpc.v ===== *)
(** What the interceptors of [internal/grpc] see of a call: the context with
    its peer and incoming metadata, the certificates of [crypto/x509], HMAC and
    JWT.

    The cryptographic packages are classes of parameters; their laws state
    what the packages document.  [subtle.ConstantTimeCompare], which is part of
    Go's library, is written out. *)

From S2P Require Import Prelude GoBytes GoFmt Json.
From Stdlib Require Import Ascii String.
#[local] Open Scope Z_scope.

(** * Contexts *)

(** [crypto/x509] and [encoding/pem]. *)
Class X509 : Type := {
  Certificate : Type;
  pem_Decode : list byte → option (string * list byte);
  ParseCertificate : list byte → option Certificate;
  cert_Verify : Certificate → Certificate → bool      (* certificate, root *)
}.

(** An IP address is its 4 or 16 bytes. *)
Inductive net_Addr : Type :=
  | TCPAddr (IP : list byte) (text : string)
  | OtherAddr (text : string).

Definition addr_String (a : net_Addr) : string :=
  match a with TCPAddr _ t => t | OtherAddr t => t end.

Section Context.
Context `{X509}.

(** [AuthInfo] is the list of client certificates of a TLS connection. *)
Record Peer : Type := mkPeer {
  p_Addr : net_Addr;
  p_AuthInfo : option (list Certificate)
}.

Record context : Type := mkContext {
  ctx_peer : option Peer;
  ctx_md : option (gmap string (list string))     (* incoming metadata, keys in lower case *)
}.

Definition md_Get (md : gmap string (list string)) (k : string) : list string :=
  default [] (md !! k).
End Context.

(** * HMAC-SHA256 *)

Class Hmac256 : Type := hmac_sha256 : list byte → list byte → list byte.

(** [subtle.ConstantTimeCompare] *)
Definition ct_fold (x y : list byte) : Z :=
  foldl (λ v '(a, b), Z.lor v (Z.lxor (byte_val a) (byte_val b))) 0 (zip x y).

Definition ConstantTimeCompare (x y : list byte) : Z :=
  if decide (len x = len y) then (if decide (ct_fold x y = 0) then 1 else 0) else 0.

Lemma ct_fold_zero l v :
  foldl (λ v '(a, b), Z.lor v (Z.lxor (byte_val a) (byte_val b))) v l = 0 ↔
  v = 0 ∧ Forall (λ '(a, b), a = b) l.
Proof.
  revert v. induction l as [|[a b] l IH]; intros v; cbn [foldl].
  - split; [by intros ->|by intros [-> _]].
  - rewrite IH, Z.lor_eq_0_iff, Z.lxor_eq_0_iff, Forall_cons. split.
    + intros [[-> Hv] Hl]. split_and!; [done| |done]. by apply byte_val_inj.
    + intros [-> [-> Hl]]. done.
Qed.

Lemma zip_eq {A} (x y : list A) : Datatypes.length x = Datatypes.length y →
  Forall (λ '(a, b), a = b) (zip x y) → x = y.
Proof.
  revert y. induction x as [|a x IH]; intros [|b y]; try done.
  cbn. intros [= Hlen] [Hab Hl]%Forall_cons. f_equal; [done|]. by apply IH.
Qed.

(** The comparison decides equality. *)
Lemma ConstantTimeCompare_spec x y : ConstantTimeCompare x y = 1 ↔ x = y.
Proof.
  unfold ConstantTimeCompare, ct_fold. split.
  - case_decide as Hlen; [|done]. case_decide as Hf; [|done]. intros _.
    apply ct_fold_zero in Hf as [_ Hf]. apply zip_eq; [|done]. unfold len in Hlen. lia.
  - intros ->. rewrite decide_True by done. rewrite decide_True; [done|].
    apply ct_fold_zero. split; [done|]. induction y; [constructor|]. by constructor.
Qed.

(** * JWT *)

Inductive SigningMethod : Type :=
  | SigningMethodHMAC
  | SigningMethodOther (alg : string).

Record TokenClaims : Type := mkClaims {
  NodeID : string;
  Permissions : list string;
  ExpiresAt : option Z;          (* nanoseconds, whole seconds *)
  IssuedAt : option Z;
  Issuer : string
}.

Record jwt_Token : Type := mkToken {
  tk_Method : SigningMethod;
  tk_Claims : TokenClaims;
  tk_Valid : bool
}.

(** [ParseWithClaims] asks the key function for the key of the token's
    method; [None] is an error. *)
Class JWT : Type := {
  ParseWithClaims : (SigningMethod → option (list byte)) → Z → string → option jwt_Token;
  SignedString : TokenClaims → list byte → option string;
  jwt_signature_ok : SigningMethod → list byte → string → bool
}.

(** The strings of a token are JSON inside: ASCII survives. *)
Definition claims_ascii (c : TokenClaims) : bool :=
  is_ascii (NodeID c) && forallb is_ascii (Permissions c) && is_ascii (Issuer c).

(** A token signed with HS256 parses back while it has not expired; a parsed token carries a
    signature under the key the key function gave. *)
Class JWTLaws `{JWT} : Prop := {
  jwt_parse_signed kf now c k s :
    claims_ascii c = true → SignedString c k = Some s → kf SigningMethodHMAC = Some k →
    match ExpiresAt c with Some t => now < t | None => True end →
    ParseWithClaims kf now s = Some (mkToken SigningMethodHMAC c true);
  jwt_parse_authentic kf now s tk :
    ParseWithClaims kf now s = Some tk →
    ∃ k, kf (tk_Method tk) = Some k ∧ jwt_signature_ok (tk_Method tk) k s = true
}.

(** [jwt.NewNumericDate] truncates to whole seconds. *)
Definition NewNumericDate (t : Z) : Z := t / 10 ^ 9 * 10 ^ 9.

(** [strings.TrimPrefix] *)
Definition TrimPrefix (s pre : string) : string :=
  if HasPrefix s pre then String.substring (String.length pre) (String.length s - String.length pre) s
  else s.

Lemma substring_all s : String.substring 0 (String.length s) s = s.
Proof. induction s as [|c s IH]; [done|]. cbn. by rewrite IH. Qed.

Lemma TrimPrefix_app p s : TrimPrefix (p ++ s) p = s.
Proof.
  unfold TrimPrefix. rewrite HasPrefix_app, string_app_length.
  replace (String.length p + String.length s - String.length p)%nat with (String.length s) by lia.
  induction p as [|c p IH]; [apply substring_all|]. exact IH.
Qed.
