(* ===== verification/Auth.v ===== *)
(** [internal/grpc/auth.go]: the authentication interceptor: API keys with a
    replay cache, mutual TLS and JWT.

    A request is two steps on the interceptor's state: [check_age], which reads
    the clock, and [store_and_verify], whose [LoadOrStore] on the [sync.Map] is
    atomic; nothing after it reads the map.  [validateAPIKeyAuth] is one after
    the other; [auth_step] lets other requests and the cleanup come between
    them.  The clock is an argument, in nanoseconds since 1970.  The order in
    which [Range] visits the map and in which [sort.Slice] leaves entries of
    equal timestamp is the class [GoOrder]. *)

From S2P Require Import Prelude GoBytes GoFmt Json Grpc.
From stdpp Require Import sorting.
From Stdlib Require Import Ascii String.
#[local] Open Scope Z_scope.

(** * Definitions *)

Record APIMetadata : Type := mkAuth { ApiKey : string; Timestamp : Z; Signature : string }.

Definition maxRequestAge : Z := 5 * 60 * 10 ^ 9.
Definition maxTimestampMapSize : Z := 100000.

Record AuthConfig : Type := mkAuthConfig {
  EnableMTLS : bool;
  CACertPath : string;
  EnableTokenAuth : bool;
  JWTSecretKey : string;
  TokenExpiry : Z;
  EnableAPIKeyAuth : bool;
  APIKeys : gmap string string
}.

Abbreviation MemoryAPIKeyStore := (gmap string string).
Definition AddKey (s : MemoryAPIKeyStore) (apiKey secret : string) : MemoryAPIKeyStore :=
  <[apiKey := secret]> s.
Definition GetSecret (s : MemoryAPIKeyStore) (apiKey : string) : string := default "" (s !! apiKey).

(** The reasons of a refusal. *)
Inductive auth_error : Type :=
  | EReadCA | EPEM | EParseCA
  | EMissingKey | EInvalidKey | ETooOld | EReplay | EBadSignature
  | ETLSRequired | ECertRequired | EBadCert | EMTLSRequired
  | EMissingMetadata | EMissingHeader | EBadFormat | EBadToken | ETokenExpired | EMissingNode
  | ESigning.

Record timestampEntry : Type := mkEntry { e_key : string; e_timestamp : Z }.

(** The library promises an enumeration of the map and a sorted permutation, no more. *)
Class GoOrder : Type := {
  map_Range : gset string → list string;
  sort_Slice : list timestampEntry → list timestampEntry
}.

Class GoOrderLaws `{GoOrder} : Prop := {
  map_Range_elements s : map_Range s ≡ₚ elements s;
  sort_Slice_perm l : sort_Slice l ≡ₚ l;
  sort_Slice_sorted l : Sorted (λ a b, e_timestamp a ≤ e_timestamp b) (sort_Slice l)
}.

Section Auth.
Context `{X509, Hmac256, JWT, GoOrder}.

Record AuthInterceptor : Type := mkInterceptor {
  ai_config : AuthConfig;
  caCert : option Certificate;
  keyStore : option MemoryAPIKeyStore;
  seenRequests : gset string;
  timestampCount : Z;
  apiKeyEnabled : bool;
  stopped : bool
}.

Definition set_seen (a : AuthInterceptor) (s : gset string) (n : Z) : AuthInterceptor :=
  mkInterceptor (ai_config a) (caCert a) (keyStore a) s n (apiKeyEnabled a) (stopped a).

Definition loadCA (fs : gmap string (list byte)) (config : AuthConfig) : result auth_error (option Certificate) :=
  if EnableMTLS config && bool_decide (CACertPath config ≠ "") then
    match fs !! CACertPath config with
    | None => Err EReadCA
    | Some pem =>
        match pem_Decode pem with
        | Some (ty, der) =>
            if decide (ty = "CERTIFICATE") then
              match ParseCertificate der with Some c => Ok (Some c) | None => Err EParseCA end
            else Err EPEM
        | None => Err EPEM
        end
    end
  else Ok None.

Definition NewAuthInterceptor (fs : gmap string (list byte)) (config : AuthConfig)
  : result auth_error AuthInterceptor :=
  let enabled := EnableAPIKeyAuth config && bool_decide (0 < Z.of_nat (size (APIKeys config))) in
  ca ← loadCA fs config;
  Ok (mkInterceptor config ca
        (if enabled then Some (map_fold (λ k v s, AddKey s k v) ∅ (APIKeys config)) else None)
        ∅ 0 enabled false).

Definition auth_Stop (a : AuthInterceptor) : AuthInterceptor :=
  mkInterceptor (ai_config a) (caCert a) (keyStore a) (seenRequests a) (timestampCount a)
    (apiKeyEnabled a) true.

Definition GetTimestampCount (a : AuthInterceptor) : Z := timestampCount a.

(** ** API keys *)

Definition int64 (z : Z) : Prop := - 2 ^ 63 ≤ z < 2 ^ 63.

(** [time.Unix(ts, 0)] as nanoseconds: the package keeps seconds since the year 1 in an [int64]. *)
Definition unix_time (ts : Z) : Z := (i64 (ts + 62135596800) - 62135596800) * 10 ^ 9.

(** [time.Since] saturates, which does not change a comparison with five minutes. *)
Definition too_old (now ts : Z) : bool := bool_decide (maxRequestAge < now - unix_time ts).

Definition replayKey (apiKey : string) (ts : Z) : string := (apiKey ++ String ":" (Sprintf_int ts))%string.

Definition computeSignature (apiKey : string) (ts : Z) (method secret : string) : string :=
  let message := (apiKey ++ Sprintf_int ts ++ method)%string in
  base64_encode (hmac_sha256 (bytes_of_string secret) (bytes_of_string message)).

(** Up to the age check: the request is refused, or its secret is known. *)
Definition check_age (a : AuthInterceptor) (now : Z) (auth : APIMetadata) : go (result auth_error string) :=
  if decide (ApiKey auth = "") then Ret (Err EMissingKey)
  else
    match keyStore a with
    | None => Panic NilDereference
    | Some store =>
        let secret := GetSecret store (ApiKey auth) in
        if decide (secret = "") then Ret (Err EInvalidKey)
        else if too_old now (Timestamp auth) then Ret (Err ETooOld)
        else Ret (Ok secret)
    end.

(** From [LoadOrStore] on. *)
Definition store_and_verify (a : AuthInterceptor) (auth : APIMetadata) (method secret : string)
  : AuthInterceptor * result auth_error unit :=
  let key := replayKey (ApiKey auth) (Timestamp auth) in
  if decide (key ∈ seenRequests a) then (a, Err EReplay)
  else
    let a' := set_seen a ({[key]} ∪ seenRequests a) (i64 (timestampCount a + 1)) in
    let expected := computeSignature (ApiKey auth) (Timestamp auth) method secret in
    if decide (ConstantTimeCompare (bytes_of_string (Signature auth)) (bytes_of_string expected) ≠ 1)
    then (a', Err EBadSignature)
    else (a', Ok tt).

Definition validateAPIKeyAuth (a : AuthInterceptor) (now : Z) (auth : APIMetadata) (method : string)
  : go (AuthInterceptor * result auth_error unit) :=
  r ← check_age a now auth;
  match r with
  | Err e => Ret (a, Err e)
  | Ok secret => Ret (store_and_verify a auth method secret)
  end.

Definition GenerateAPIKeyToken (now : Z) (apiKey secret method : string) : APIMetadata :=
  let ts := now / 10 ^ 9 in
  let message := (apiKey ++ Sprintf_int ts ++ method)%string in
  mkAuth apiKey ts (base64_encode (hmac_sha256 (bytes_of_string secret) (bytes_of_string message))).

(** ** Mutual TLS and tokens *)

Definition validateMTLS (a : AuthInterceptor) (ctx : context) : result auth_error unit :=
  match ctx_peer ctx with
  | None => Err ETLSRequired
  | Some p =>
      match p_AuthInfo p with
      | None => Err ETLSRequired
      | Some [] => Err ECertRequired
      | Some (clientCert :: _) =>
          match caCert a with
          | Some ca => if cert_Verify clientCert ca then Ok tt else Err EBadCert
          | None => Ok tt
          end
      end
  end.

Definition token_key (a : AuthInterceptor) (m : SigningMethod) : option (list byte) :=
  match m with
  | SigningMethodHMAC => Some (bytes_of_string (JWTSecretKey (ai_config a)))
  | SigningMethodOther _ => None
  end.

Definition validateToken (a : AuthInterceptor) (now : Z) (ctx : context) : result auth_error unit :=
  match ctx_md ctx with
  | None => Err EMissingMetadata
  | Some md =>
      match md_Get md "authorization" with
      | [] => Err EMissingHeader
      | authHeader :: _ =>
          if negb (HasPrefix authHeader "Bearer ") then Err EBadFormat
          else
            let tokenString := TrimPrefix authHeader "Bearer " in
            match ParseWithClaims (token_key a) now tokenString with
            | None => Err EBadToken
            | Some token =>
                if negb (tk_Valid token) then Err EBadToken
                else
                  let claims := tk_Claims token in
                  if (match ExpiresAt claims with Some t => bool_decide (t < now) | None => false end)
                  then Err ETokenExpired
                  else if decide (NodeID claims = "") then Err EMissingNode
                  else Ok tt
            end
      end
  end.

Definition authenticate (a : AuthInterceptor) (now : Z) (ctx : context) : result auth_error unit :=
  let c := ai_config a in
  if negb (EnableMTLS c) && negb (EnableTokenAuth c) && negb (apiKeyEnabled a) then Ok tt
  else if EnableMTLS c && is_ok (validateMTLS a ctx) then Ok tt
  else if EnableTokenAuth c then validateToken a now ctx
  else if EnableMTLS c then Err EMTLSRequired
  else Ok tt.

Definition GenerateToken (config : AuthConfig) (now : Z) (nodeID : string) (permissions : list string)
  : result auth_error string :=
  let claims := mkClaims nodeID permissions (Some (NewNumericDate (now + TokenExpiry config)))
                  (Some (NewNumericDate now)) "dbf-auth" in
  match SignedString claims (bytes_of_string (JWTSecretKey config)) with
  | Some s => Ok s
  | None => Err ESigning
  end.

(** ** The interceptors *)

(** [GetAuth] is the request's method, [None] when its type has none or it returns nil. *)
Definition UnaryInterceptor {Req Resp} (GetAuth : Req → option APIMetadata) (a : AuthInterceptor) (now : Z)
    (ctx : context) (req : Req) (method : string) (handler : context → Req → Resp)
  : go (AuthInterceptor * result auth_error Resp) :=
  let fallback :=
    match authenticate a now ctx with
    | Err e => Ret (a, Err e)
    | Ok _ => Ret (a, Ok (handler ctx req))
    end in
  if apiKeyEnabled a then
    match GetAuth req with
    | Some auth =>
        if decide (ApiKey auth ≠ "") then
          '(a', r) ← validateAPIKeyAuth a now auth method;
          match r with
          | Err e => Ret (a', Err e)
          | Ok _ => Ret (a', Ok (handler ctx req))
          end
        else fallback
    | None => fallback
    end
  else fallback.

Definition StreamInterceptor {Resp} (a : AuthInterceptor) (now : Z) (ctx : context) (handler : context → Resp)
  : result auth_error Resp :=
  match authenticate a now ctx with Err e => Err e | Ok _ => Ok (handler ctx) end.

(** ** Cleaning up *)

(** The timestamp behind the last colon of a key. *)
Definition key_timestamp (k : string) : option Z :=
  match after_last_colon k with None => None | Some s => Sscanf_int64 s end.

Definition entries_of (s : gset string) : list timestampEntry :=
  omap (λ k, match key_timestamp k with Some t => Some (mkEntry k t) | None => None end) (map_Range s).

Definition delete_keys (s : gset string) (l : list timestampEntry) : gset string :=
  foldl (λ s e, s ∖ {[e_key e]}) s l.

(** [now.Add(-maxRequestAge).Unix()] *)
Definition cutoff (now : Z) : Z := (now - maxRequestAge) / 10 ^ 9.

(** The first pass: what it finds older than five minutes. *)
Definition old_entries (a : AuthInterceptor) (now : Z) : list timestampEntry :=
  filter (λ e, e_timestamp e < cutoff now) (entries_of (seenRequests a)).

(** [int(float64(n) * 0.5)] is [n/2] for the sizes a map can have. *)
Definition cleanupOldTimestamps (a : AuthInterceptor) (now : Z) : AuthInterceptor :=
  let totalCount := Z.of_nat (Datatypes.length (map_Range (seenRequests a))) in
  let oldEntries := old_entries a now in
  let s1 := delete_keys (seenRequests a) oldEntries in
  let a1 := set_seen a s1 totalCount in
  if decide (maxTimestampMapSize < totalCount) then
    let allEntries := sort_Slice (entries_of s1) in
    let removeCount := Z.of_nat (Datatypes.length allEntries) / 2 in
    if decide (0 < removeCount) then
      set_seen a1 (delete_keys s1 (take (Z.to_nat removeCount) allEntries)) (totalCount - removeCount)
    else a1
  else a1.

(** The goroutine that [NewAuthInterceptor] starts. *)
Definition periodicCleanup : list loop_event → AuthInterceptor → AuthInterceptor * bool :=
  run_loop (λ now a, cleanupOldTimestamps a now) (λ _ a, a).

(** ** Requests and the cleanup at the same time *)

(** A request between the age check and [LoadOrStore]. *)
Record pending_call : Type := mkPending {
  pc_auth : APIMetadata;
  pc_method : string;
  pc_secret : string;
  pc_checked : Z
}.

(** An accepted request: when its age was checked and when it was stored. *)
Record acceptance : Type := mkAcceptance {
  ac_key : string;
  ac_second : Z;
  ac_checked : Z;
  ac_stored : Z
}.

Record auth_sys : Type := mkAuthSys {
  as_interceptor : AuthInterceptor;
  as_pending : list pending_call;
  as_cleanup : list timestampEntry;
  as_accepted : list acceptance;
  as_clock : Z
}.

Definition accept_if (r : result auth_error unit) (p : pending_call) (now : Z) (l : list acceptance) : list acceptance :=
  if is_ok r then mkAcceptance (ApiKey (pc_auth p)) (Timestamp (pc_auth p)) (pc_checked p) now :: l else l.

(** The steps of all requests and of the one cleanup goroutine, under a clock that does not run backwards:
    a request passes its age check (one that fails it has no effect), a request stores its key and
    compares its signature, the cleanup makes its first pass over a set within the size limit, it deletes
    the next entry it found. *)
Inductive auth_step : auth_sys → auth_sys → Prop :=
  | step_check a ps cl acc clock now auth method secret :
      clock ≤ now → int64 (Timestamp auth) → check_age a now auth = Ret (Ok secret) →
      auth_step (mkAuthSys a ps cl acc clock) (mkAuthSys a (mkPending auth method secret now :: ps) cl acc now)
  | step_store a ps p ps' cl acc clock now a' r :
      clock ≤ now → store_and_verify a (pc_auth p) (pc_method p) (pc_secret p) = (a', r) →
      auth_step (mkAuthSys a (ps ++ p :: ps') cl acc clock)
                (mkAuthSys a' (ps ++ ps') cl (accept_if r p now acc) now)
  | step_cleanup a ps acc clock now :
      clock ≤ now → Z.of_nat (size (seenRequests a)) ≤ maxTimestampMapSize →
      auth_step (mkAuthSys a ps [] acc clock)
                (mkAuthSys (set_seen a (seenRequests a) (Z.of_nat (size (seenRequests a)))) ps (old_entries a now) acc now)
  | step_delete a ps e cl acc clock :
      auth_step (mkAuthSys a ps (e :: cl) acc clock)
                (mkAuthSys (set_seen a (seenRequests a ∖ {[e_key e]}) (timestampCount a)) ps cl acc clock).
End Auth.

(** * Facts *)

Lemma list_ascii_app x y :
  list_ascii_of_string (x ++ y)%string = list_ascii_of_string x ++ list_ascii_of_string y.
Proof.
  induction x as [|c x IH]; [done|]. change (c :: list_ascii_of_string (x ++ y)%string = (c :: list_ascii_of_string x) ++ list_ascii_of_string y).
  by rewrite IH.
Qed.

Lemma string_app_inj_r (s t p : string) : (s ++ p = t ++ p)%string → s = t.
Proof.
  intros Heq. apply (f_equal list_ascii_of_string) in Heq. rewrite !list_ascii_app in Heq.
  apply app_inv_tail in Heq. by rewrite <-(string_of_list_ascii_of_string s), Heq, string_of_list_ascii_of_string.
Qed.

Lemma key_timestamp_replayKey k ts : int64 ts → key_timestamp (replayKey k ts) = Some ts.
Proof.
  intros Hts. unfold key_timestamp, replayKey.
  rewrite after_last_colon_app by apply Sprintf_int_no_colon. by apply Sscanf_Sprintf_int.
Qed.

(** Two requests share a key only if they share the API key and the second. *)
Lemma replayKey_inj k ts k' ts' : int64 ts → int64 ts' → replayKey k ts = replayKey k' ts' → k = k' ∧ ts = ts'.
Proof.
  intros Hts Hts' Heq. assert (ts = ts') as ->.
  { pose proof (key_timestamp_replayKey k ts Hts) as H1. rewrite Heq, key_timestamp_replayKey in H1 by done. congruence. }
  split; [|done]. unfold replayKey in Heq. by apply string_app_inj_r in Heq.
Qed.

Lemma unix_time_le ts : int64 ts → unix_time ts ≤ ts * 10 ^ 9.
Proof.
  intros Hts. unfold unix_time, int64 in *. apply Z.mul_le_mono_nonneg_r; [lia|].
  enough (i64 (ts + 62135596800) ≤ ts + 62135596800) by lia. unfold i64.
  pose proof (Z.mod_le (ts + 62135596800 + 2 ^ 63) (2 ^ 64) ltac:(lia) ltac:(lia)). lia.
Qed.

Lemma unix_time_small ts : - 2 ^ 63 ≤ ts < 2 ^ 63 - 62135596800 → unix_time ts = ts * 10 ^ 9.
Proof. intros Hts. unfold unix_time. rewrite i64_small; lia. Qed.

(** What the cleanup may forget is too old to be accepted. *)
Lemma old_entry_too_old now ts : int64 ts → ts < cutoff now → too_old now ts = true.
Proof.
  intros Hts Hlt. unfold too_old, cutoff in *. apply bool_decide_eq_true. pose proof (unix_time_le ts Hts).
  pose proof (Z.mul_div_le (now - maxRequestAge) (10 ^ 9) ltac:(lia)). nia.
Qed.

Lemma too_old_mono now now' ts : now ≤ now' → too_old now ts = true → too_old now' ts = true.
Proof. unfold too_old. rewrite !bool_decide_eq_true. lia. Qed.

Lemma elem_of_delete_keys l s k : k ∈ delete_keys s l ↔ k ∈ s ∧ k ∉ map e_key l.
Proof.
  unfold delete_keys. revert s. induction l as [|e l IH]; intros s; cbn [foldl map].
  - split; [intros ?; split; [done|apply not_elem_of_nil]|by intros [? _]].
  - rewrite IH, elem_of_difference, elem_of_singleton, not_elem_of_cons. naive_solver.
Qed.

Section Entries.
Context `{GoOrder}.

Lemma elem_of_entries_of `{!GoOrderLaws} s e :
  e ∈ entries_of s ↔ e_key e ∈ s ∧ key_timestamp (e_key e) = Some (e_timestamp e).
Proof.
  unfold entries_of. rewrite list_elem_of_omap. split.
  - intros (k & Hk & Hm). rewrite map_Range_elements, elem_of_elements in Hk.
    destruct (key_timestamp k) eqn:E; [|done]. injection Hm as <-. done.
  - intros [Hk Ht]. exists (e_key e). rewrite map_Range_elements, elem_of_elements, Ht. by destruct e.
Qed.

Lemma elem_of_old_entries `{!GoOrderLaws} s k now :
  k ∈ map e_key (filter (λ e, e_timestamp e < cutoff now) (entries_of s)) ↔
  k ∈ s ∧ ∃ ts, key_timestamp k = Some ts ∧ ts < cutoff now.
Proof.
  rewrite list_elem_of_fmap. split.
  - intros (e & -> & [Hlt He%elem_of_entries_of]%list_elem_of_filter). naive_solver.
  - intros (Hk & ts & Hts & Hlt). exists (mkEntry k ts). split; [done|].
    apply list_elem_of_filter. split; [done|]. by apply elem_of_entries_of.
Qed.

(** When every key has a timestamp, no key is skipped. *)
Lemma entries_of_keys s : Forall (λ k, is_Some (key_timestamp k)) (map_Range s) →
  map e_key (entries_of s) = map_Range s.
Proof.
  unfold entries_of. induction 1 as [|k l [t Ht] _ IH]; [done|]. cbn [omap list_omap]. rewrite Ht. cbn [map].
  by rewrite IH.
Qed.
End Entries.

Section Cleanup.
Context `{X509, GoOrder, !GoOrderLaws}.

Lemma length_map_Range (s : gset string) : Datatypes.length (map_Range s) = size s.
Proof. by rewrite map_Range_elements. Qed.

(** Under the size limit the cleanup forgets exactly the entries that are too old. *)
Lemma cleanup_small (a : AuthInterceptor) now k : Z.of_nat (size (seenRequests a)) ≤ maxTimestampMapSize →
  k ∈ seenRequests (cleanupOldTimestamps a now) ↔
  k ∈ seenRequests a ∧ ∀ ts, key_timestamp k = Some ts → cutoff now ≤ ts.
Proof.
  intros Hsize. unfold cleanupOldTimestamps, old_entries. rewrite length_map_Range, decide_False by lia. cbn.
  rewrite elem_of_delete_keys, elem_of_old_entries. split.
  - intros [Hk Hn]. split; [done|]. intros ts Hts. destruct (decide (cutoff now ≤ ts)); [done|].
    destruct Hn. split; [done|]. exists ts. split; [done|lia].
  - intros [Hk Hts]. split; [done|]. intros (_ & ts & Hkt & Hlt). specialize (Hts ts Hkt). lia.
Qed.

Lemma cleanup_config (a : AuthInterceptor) now : keyStore (cleanupOldTimestamps a now) = keyStore a.
Proof. unfold cleanupOldTimestamps. by repeat case_decide. Qed.

(** Over the limit the entry with the smallest timestamp goes, however fresh. *)
Lemma cleanup_large (a : AuthInterceptor) now k0 ts0 :
  maxTimestampMapSize < Z.of_nat (size (seenRequests a)) →
  k0 ∈ seenRequests a → key_timestamp k0 = Some ts0 → cutoff now ≤ ts0 →
  (∀ k, k ∈ seenRequests a → k = k0 ∨ ∃ ts, key_timestamp k = Some ts ∧ ts0 < ts) →
  k0 ∉ seenRequests (cleanupOldTimestamps a now).
Proof.
  intros Hsize Hk0 Hts0 Hcut Hall. unfold cleanupOldTimestamps, old_entries. rewrite length_map_Range, decide_True by lia.
  assert (delete_keys (seenRequests a)
    (filter (λ e, e_timestamp e < cutoff now) (entries_of (seenRequests a))) = seenRequests a) as ->.
  { apply set_eq. intros k. rewrite elem_of_delete_keys, elem_of_old_entries. split; [naive_solver|].
    intros Hk. split; [done|]. intros (_ & ts & Hts & Hlt).
    destruct (Hall k Hk) as [->|(ts' & Hts' & ?)]; simplify_eq; lia. }
  assert (Datatypes.length (entries_of (seenRequests a)) = size (seenRequests a)) as Hlen.
  { rewrite <-(length_map e_key), entries_of_keys, length_map_Range; [done|].
    apply Forall_forall. intros k Hk. rewrite map_Range_elements, elem_of_elements in Hk.
    destruct (Hall k Hk) as [->|(ts' & Hts' & ?)]; eauto. }
  assert (Datatypes.length (sort_Slice (entries_of (seenRequests a))) = size (seenRequests a)) as Hlen'.
  { by rewrite sort_Slice_perm. }
  unfold maxTimestampMapSize in *.
  rewrite decide_True by (rewrite Hlen'; apply Z.div_str_pos; lia). cbn [set_seen seenRequests].
  rewrite elem_of_delete_keys. intros [_ Hnot]. apply Hnot. clear Hnot.
  (* the sorted list starts with the victim *)
  pose proof (sort_Slice_sorted (entries_of (seenRequests a))) as Hsorted.
  assert (mkEntry k0 ts0 ∈ sort_Slice (entries_of (seenRequests a))) as Hin.
  { rewrite sort_Slice_perm. by apply elem_of_entries_of. }
  assert (∀ e, e ∈ sort_Slice (entries_of (seenRequests a)) → e = mkEntry k0 ts0 ∨ ts0 < e_timestamp e) as Hmin.
  { intros e. rewrite sort_Slice_perm, elem_of_entries_of. intros [He Ht].
    destruct (Hall _ He) as [Heq|(ts & Hts & ?)]; [left|right; simplify_eq; lia]. destruct e. cbn in *. by simplify_eq. }
  destruct (sort_Slice (entries_of (seenRequests a))) as [|e l] eqn:E; [by apply not_elem_of_nil in Hin|].
  assert (e = mkEntry k0 ts0) as ->.
  { destruct (Hmin e) as [->|Hlt]; [left|done|]. exfalso. apply list_elem_of_In in Hin. destruct Hin as [->|Hin]; [cbn in Hlt; lia|].
    apply Sorted_StronglySorted in Hsorted; [|intros x y z; lia].
    apply StronglySorted_inv in Hsorted as [_ Hf]. rewrite List.Forall_forall in Hf. specialize (Hf _ Hin). cbn in Hf. lia. }
  assert (1 ≤ Z.to_nat (Z.of_nat (Datatypes.length (mkEntry k0 ts0 :: l)) / 2))%nat as Hpos.
  { assert (0 < Z.of_nat (Datatypes.length (mkEntry k0 ts0 :: l)) / 2); [|lia]. rewrite Hlen'. apply Z.div_str_pos. lia. }
  destruct (Z.to_nat _); [lia|]. cbn [take map]. left.
Qed.
End Cleanup.

Section Requests.
Context `{X509, Hmac256, JWT, GoOrder}.

(** ** Acceptance *)

Definition recorded (a : AuthInterceptor) (auth : APIMetadata) : AuthInterceptor :=
  set_seen a ({[replayKey (ApiKey auth) (Timestamp auth)]} ∪ seenRequests a) (i64 (timestampCount a + 1)).

Lemma check_age_ok (a : AuthInterceptor) now auth secret :
  check_age a now auth = Ret (Ok secret) ↔
  ∃ store, keyStore a = Some store ∧ ApiKey auth ≠ "" ∧ secret = GetSecret store (ApiKey auth) ∧ secret ≠ "" ∧
    too_old now (Timestamp auth) = false.
Proof.
  unfold check_age. split.
  - case_decide; [done|]. destruct (keyStore a) as [store|]; [|done]. case_decide; [done|].
    destruct (too_old now (Timestamp auth)) eqn:?; [done|]. intros [= <-]. by exists store.
  - intros (store & -> & ? & -> & ? & ->). by rewrite !decide_False.
Qed.

(** Refused before [LoadOrStore], or not. *)
Lemma check_age_total (a : AuthInterceptor) store now auth :
  keyStore a = Some store → ∃ r, check_age a now auth = Ret r.
Proof. unfold check_age. intros ->. repeat case_decide; eauto. destruct (too_old _ _); eauto. Qed.

Lemma store_and_verify_ok (a a' : AuthInterceptor) auth method secret :
  store_and_verify a auth method secret = (a', Ok tt) ↔
  replayKey (ApiKey auth) (Timestamp auth) ∉ seenRequests a ∧
  Signature auth = computeSignature (ApiKey auth) (Timestamp auth) method secret ∧ a' = recorded a auth.
Proof.
  unfold store_and_verify. split.
  - case_decide; [done|]. case_decide as Hct; [done|]. intros [= <-]. split_and!; [done| |done].
    apply ConstantTimeCompare_spec in Hct.
    by rewrite <-(string_of_bytes_of_string (Signature auth)), Hct, string_of_bytes_of_string.
  - intros (? & Hsig & ->). rewrite decide_False by done. rewrite decide_False; [done|].
    intros Hct. apply Hct. apply ConstantTimeCompare_spec. by rewrite Hsig.
Qed.

(** Storing adds the key, whatever the signature, unless it is there; then the request is refused. *)
Lemma store_and_verify_state (a a' : AuthInterceptor) auth method secret r :
  store_and_verify a auth method secret = (a', r) →
  (replayKey (ApiKey auth) (Timestamp auth) ∈ seenRequests a ∧ a' = a ∧ r = Err EReplay) ∨
  (replayKey (ApiKey auth) (Timestamp auth) ∉ seenRequests a ∧ a' = recorded a auth).
Proof. unfold store_and_verify. case_decide; [intros [= <- <-]; auto|]. case_decide; intros [= <- <-]; auto. Qed.

Lemma store_and_verify_seen (a : AuthInterceptor) auth method secret :
  replayKey (ApiKey auth) (Timestamp auth) ∈ seenRequests a →
  store_and_verify a auth method secret = (a, Err EReplay).
Proof. intros. unfold store_and_verify. by rewrite decide_True. Qed.

Lemma validateAPIKeyAuth_accepts (a : AuthInterceptor) store now auth method :
  keyStore a = Some store → ApiKey auth ≠ "" → GetSecret store (ApiKey auth) ≠ "" →
  too_old now (Timestamp auth) = false →
  replayKey (ApiKey auth) (Timestamp auth) ∉ seenRequests a →
  Signature auth = computeSignature (ApiKey auth) (Timestamp auth) method (GetSecret store (ApiKey auth)) →
  validateAPIKeyAuth a now auth method = Ret (recorded a auth, Ok tt).
Proof.
  intros Hks ? ? Hold ? Hsig. unfold validateAPIKeyAuth.
  rewrite (proj2 (check_age_ok a now auth (GetSecret store (ApiKey auth)))) by eauto 10. cbn. f_equal.
  by apply store_and_verify_ok.
Qed.

Lemma validateAPIKeyAuth_cases (a a' : AuthInterceptor) now auth method r :
  validateAPIKeyAuth a now auth method = Ret (a', r) →
  (a' = a ∧ is_ok r = false ∧ ∃ e, check_age a now auth = Ret (Err e)) ∨
  (∃ secret, check_age a now auth = Ret (Ok secret) ∧ store_and_verify a auth method secret = (a', r)).
Proof.
  unfold validateAPIKeyAuth. destruct (check_age a now auth) as [[secret|e]|]; cbn; [| |done].
  - intros [= ?]. eauto.
  - intros [= <- <-]. eauto 6.
Qed.

Lemma validateAPIKeyAuth_accepted (a a' : AuthInterceptor) now auth method :
  validateAPIKeyAuth a now auth method = Ret (a', Ok tt) →
  ∃ store, keyStore a = Some store ∧ ApiKey auth ≠ "" ∧ GetSecret store (ApiKey auth) ≠ "" ∧
    too_old now (Timestamp auth) = false ∧
    replayKey (ApiKey auth) (Timestamp auth) ∉ seenRequests a ∧
    Signature auth = computeSignature (ApiKey auth) (Timestamp auth) method (GetSecret store (ApiKey auth)) ∧
    a' = recorded a auth.
Proof.
  intros [(_ & ? & _)|(secret & (store & ? & ? & -> & ? & ?)%check_age_ok & (? & ? & ?)%store_and_verify_ok)]%validateAPIKeyAuth_cases;
    [done|]. by exists store.
Qed.

(** A key in the set, or a second grown too old, refuses every request of that key and second. *)
Lemma validateAPIKeyAuth_refuses (a : AuthInterceptor) store now auth method :
  keyStore a = Some store →
  (replayKey (ApiKey auth) (Timestamp auth) ∈ seenRequests a ∨ too_old now (Timestamp auth) = true) →
  ∃ e, validateAPIKeyAuth a now auth method = Ret (a, Err e).
Proof.
  intros Hks Hor. destruct (check_age_total a store now auth Hks) as [r Hr]. unfold validateAPIKeyAuth. rewrite Hr. cbn.
  destruct r as [secret|e]; [|eauto]. apply check_age_ok in Hr as (? & _ & _ & _ & _ & Hold).
  destruct Hor as [?|?]; [|congruence]. rewrite store_and_verify_seen by done. eauto.
Qed.

(** C31: an API-key request against an interceptor with a key store is fresh when its key is known, its
    second is at most five minutes old (or in the future) and the key with that second,
    ["key:second"], is not in the set.  It is accepted exactly when it is fresh and its signature is the
    base64 of the HMAC-SHA256, under the key's secret, of the key, the decimal second and the method; a
    fresh request enters the set whatever its signature, any other leaves the interceptor as it was.
    Seconds are those [time.Unix] does not overflow on, and age check and store run back to back. *)
Theorem validateAPIKeyAuth_accepts_iff (a : AuthInterceptor) store now auth method :
  keyStore a = Some store → - 2 ^ 63 ≤ Timestamp auth < 2 ^ 63 - 62135596800 →
  let secret := default "" (store !! ApiKey auth) in
  let key := (ApiKey auth ++ ":" ++ Sprintf_int (Timestamp auth))%string in
  let message := (ApiKey auth ++ Sprintf_int (Timestamp auth) ++ method)%string in
  let fresh := ApiKey auth ≠ "" ∧ secret ≠ "" ∧ now - Timestamp auth * 10 ^ 9 ≤ 300 * 10 ^ 9 ∧ key ∉ seenRequests a in
  ∃ a' r, validateAPIKeyAuth a now auth method = Ret (a', r) ∧
    (r = Ok tt ↔
       fresh ∧ Signature auth = base64_encode (hmac_sha256 (bytes_of_string secret) (bytes_of_string message))) ∧
    (fresh → seenRequests a' = {[key]} ∪ seenRequests a) ∧
    (¬ fresh → a' = a).
Proof.
  intros Hks Hts secret key message fresh.
  assert (too_old now (Timestamp auth) = false ↔ now - Timestamp auth * 10 ^ 9 ≤ 300 * 10 ^ 9) as Hage.
  { unfold too_old, maxRequestAge. rewrite unix_time_small, bool_decide_eq_false by done. lia. }
  destruct (check_age_total a store now auth Hks) as [r Hr]. unfold validateAPIKeyAuth. rewrite Hr. cbn [mbind go_bind].
  destruct r as [s|e].
  - apply check_age_ok in Hr as (st & ? & Hk & Hs & Hs' & Hold). assert (st = store) as -> by congruence.
    assert (s = secret) as -> by done. destruct (store_and_verify a auth method secret) as [a' r] eqn:Hv.
    exists a', r. split; [done|]. pose proof (store_and_verify_state _ _ _ _ _ _ Hv) as Hst. split_and!.
    + split; [|intros [[_ [_ [_ ?]]] ?]; destruct Hst as [[? _]|[_ ->]]; [done|]].
      * intros ->. apply store_and_verify_ok in Hv as (? & ? & _). unfold fresh. split; [|done]. split_and!; try done. by apply Hage.
      * assert (store_and_verify a auth method secret = (recorded a auth, Ok tt)) by (by apply store_and_verify_ok). congruence.
    + intros (_ & _ & _ & ?). by destruct Hst as [[? _]|[_ ->]].
    + intros Hn. destruct Hst as [(_ & -> & _)|[? _]]; [done|]. destruct Hn. split_and!; try done. by apply Hage.
  - exists a, (Err e). assert (¬ fresh) as Hn.
    { intros (? & ? & ?%Hage & _). assert (check_age a now auth = Ret (Ok secret)) by (apply check_age_ok; eauto 10). congruence. }
    naive_solver.
Qed.

(** A token made by [GenerateAPIKeyToken] is accepted by an interceptor that holds the secret for as
    long as its second is at most five minutes back, unless that key already sent in that second. *)
Theorem honest_request_accepted (a : AuthInterceptor) store t now apiKey secret method :
  keyStore a = Some store → store !! apiKey = Some secret → apiKey ≠ "" → secret ≠ "" →
  0 ≤ t < 2 ^ 63 → now - t / 10 ^ 9 * 10 ^ 9 ≤ maxRequestAge →
  replayKey apiKey (t / 10 ^ 9) ∉ seenRequests a →
  ∃ a', validateAPIKeyAuth a now (GenerateAPIKeyToken t apiKey secret method) method = Ret (a', Ok tt) ∧
        replayKey apiKey (t / 10 ^ 9) ∈ seenRequests a'.
Proof.
  intros Hks Hsec Hk Hs Ht Hage Hseen. eexists. split.
  - apply (validateAPIKeyAuth_accepts _ store); cbn [GenerateAPIKeyToken ApiKey Timestamp Signature];
      unfold GetSecret; rewrite ?Hsec; try done.
    unfold too_old. apply bool_decide_eq_false. pose proof (Z.div_le_upper_bound t (10 ^ 9) (2 ^ 63) ltac:(lia) ltac:(lia)).
    pose proof (Z.div_pos t (10 ^ 9) ltac:(lia) ltac:(lia)).
    rewrite unix_time_small; [lia|]. assert (t / 10 ^ 9 < 2 ^ 62); [|lia]. apply Z.div_lt_upper_bound; lia.
  - cbn. set_solver.
Qed.

(** The second honest request of one key within one second is refused as a replay, whatever its
    method and signature. *)
Theorem same_second_refused (a a' : AuthInterceptor) now now' t t' apiKey secret method method' :
  validateAPIKeyAuth a now (GenerateAPIKeyToken t apiKey secret method) method = Ret (a', Ok tt) →
  t / 10 ^ 9 = t' / 10 ^ 9 →
  ∃ e, validateAPIKeyAuth a' now' (GenerateAPIKeyToken t' apiKey secret method') method' = Ret (a', Err e).
Proof.
  intros (store & Hks & _ & _ & _ & _ & _ & ->)%validateAPIKeyAuth_accepted Ht.
  apply (validateAPIKeyAuth_refuses _ store); [done|]. left. cbn in *. rewrite <-Ht. set_solver.
Qed.

(** A request with a known API key but a wrong signature is refused, yet recorded: the honest request
    of that second is then refused as a replay. *)
Theorem forged_request_blocks_honest (a a' : AuthInterceptor) now now' auth method t secret method' :
  validateAPIKeyAuth a now auth method = Ret (a', Err EBadSignature) →
  t / 10 ^ 9 = Timestamp auth →
  ∃ e, validateAPIKeyAuth a' now' (GenerateAPIKeyToken t (ApiKey auth) secret method') method' = Ret (a', Err e).
Proof.
  unfold validateAPIKeyAuth at 1. destruct (check_age a now auth) as [[s|e]|] eqn:Hr; cbn; [| |done].
  - apply check_age_ok in Hr as (store & Hks & _). intros [= Hv] Ht.
    destruct (store_and_verify_state _ _ _ _ _ _ Hv) as [(_ & _ & ?)|[_ ->]]; [done|].
    apply (validateAPIKeyAuth_refuses _ store); [done|]. left. cbn. rewrite Ht. set_solver.
  - intros [= _ ->]. unfold check_age in Hr. case_decide; [done|]. destruct (keyStore a); [|done]. case_decide; [done|].
    by destruct (too_old _ _).
Qed.

(** ** Replay *)

(** An accepted request is in the set, or its second is too old; what the cleanup has still to delete is
    too old; and of two acceptances of one key and second, the later stored its key when it was too old. *)
Definition too_late (y x : acceptance) : Prop :=
  ac_key x = ac_key y → ac_second x = ac_second y → too_old (ac_stored y) (ac_second y) = true.

Record replay_inv (s : auth_sys) : Prop := {
  ri_pending : ∀ p, p ∈ as_pending s → int64 (Timestamp (pc_auth p)) ∧ too_old (pc_checked p) (Timestamp (pc_auth p)) = false;
  ri_cleanup : ∀ e k ts, e ∈ as_cleanup s → int64 ts → e_key e = replayKey k ts → too_old (as_clock s) ts = true;
  ri_accepted : ∀ x, x ∈ as_accepted s → int64 (ac_second x) ∧ too_old (ac_checked x) (ac_second x) = false ∧
    (replayKey (ac_key x) (ac_second x) ∈ seenRequests (as_interceptor s) ∨ too_old (as_clock s) (ac_second x) = true);
  ri_order : ForallOrdPairs too_late (as_accepted s)
}.

Lemma replay_inv_tick a ps cl acc clock now a' :
  clock ≤ now → (∀ k, k ∈ seenRequests a → k ∈ seenRequests a') →
  replay_inv (mkAuthSys a ps cl acc clock) → replay_inv (mkAuthSys a' ps cl acc now).
Proof.
  intros Hclk Hsub [Hp Hcl Hacc Hord]. split; cbn in *; [done| | |done].
  - eauto using too_old_mono.
  - intros x Hx. destruct (Hacc x Hx) as (? & ? & [?|?]); split_and!; eauto using too_old_mono.
Qed.

Lemma replay_inv_store a ps p ps' cl acc clock now a' r :
  clock ≤ now → store_and_verify a (pc_auth p) (pc_method p) (pc_secret p) = (a', r) →
  replay_inv (mkAuthSys a (ps ++ p :: ps') cl acc clock) →
  replay_inv (mkAuthSys a' (ps ++ ps') cl (accept_if r p now acc) now).
Proof.
  intros Hclk Hv Hi. pose proof (store_and_verify_state _ _ _ _ _ _ Hv) as Hst.
  destruct (ri_pending _ Hi p) as [Hts Hchk]; [cbn; set_solver|].
  assert (replay_inv (mkAuthSys a' (ps ++ ps') cl acc now)) as [Hp Hcl Hacc Hord].
  { apply (replay_inv_tick a _ _ _ clock); [done|by destruct Hst as [(_ & -> & _)|[_ ->]]; [|cbn; set_solver]|].
    destruct Hi as [Hp Hcl Hacc Hord]. split; cbn in *; [|done..]. intros q Hq. apply Hp. set_solver. }
  unfold accept_if. destruct (is_ok r) eqn:Hr; [|done].
  destruct Hst as [(_ & _ & ->)|[Hnew ->]]; [done|]. split; cbn in *; [done|done| |].
  - intros x [->|Hx]%elem_of_cons; [|by apply Hacc]. split_and!; [done|done|]. left. cbn. set_solver.
  - constructor; [|done]. apply List.Forall_forall. intros x Hx%list_elem_of_In Hk Hs. cbn in *.
    destruct (ri_accepted _ Hi x) as (_ & _ & [Hin|Ho]); [done| |].
    + cbn in Hin. by rewrite Hk, Hs in Hin.
    + rewrite <-Hs. by eapply too_old_mono.
Qed.

Lemma replay_inv_step `{!GoOrderLaws} s s' : auth_step s s' → replay_inv s → replay_inv s'.
Proof.
  intros [a ps cl acc clock now auth method secret Hclk Hts Hchk|a ps p ps' cl acc clock now a' r Hclk Hv
    |a ps acc clock now Hclk Hsize|a ps e cl acc clock] Hi.
  - apply (replay_inv_tick _ _ _ _ _ now a) in Hi as [Hp Hcl Hacc Hord]; [|done|done]. split; cbn in *; [|done..].
    intros p [->|Hin]%elem_of_cons; [|by apply Hp]. split; [done|]. by apply check_age_ok in Hchk as (? & _ & _ & _ & _ & ?).
  - by eapply replay_inv_store.
  - apply (replay_inv_tick _ _ _ _ _ now (set_seen a (seenRequests a) (Z.of_nat (size (seenRequests a))))) in Hi
      as [Hp Hcl Hacc Hord]; [|done|done].
    split; cbn in *; [done| |done|done]. intros e k ts He Hts Hkey. unfold old_entries in He.
    apply list_elem_of_filter in He as [Hlt [_ Ht]%elem_of_entries_of]. rewrite Hkey, key_timestamp_replayKey in Ht by done.
    apply old_entry_too_old; [done|]. by simplify_eq.
  - destruct Hi as [Hp Hcl Hacc Hord]. split; cbn in *; [done| | |done].
    + intros e' k ts He'. apply (Hcl e'). set_solver.
    + intros x Hx. destruct (Hacc x Hx) as (Hts & Hchk & [Hin|Ho]); [|by auto].
      split_and!; [done|done|]. destruct (decide (replayKey (ac_key x) (ac_second x) = e_key e)) as [Heq|Hne]; [right|left; set_solver].
      eapply (Hcl e); [left|done|by rewrite Heq].
Qed.

Lemma replay_inv_run `{!GoOrderLaws} a clock s :
  rtc auth_step (mkAuthSys a [] [] [] clock) s → replay_inv s.
Proof.
  intros Hrun. assert (replay_inv (mkAuthSys a [] [] [] clock)) as Hinit.
  { split; cbn; [intros ? []%not_elem_of_nil|intros ? ? ? []%not_elem_of_nil|intros ? []%not_elem_of_nil|constructor]. }
  revert Hinit. induction Hrun; eauto using replay_inv_step.
Qed.

(** C14: no replay: in every interleaving of requests, each of which checks its age and later stores its
    key, with the deletions of the cleanup (whose first pass sees at most 100000 entries), if a key and
    second is accepted twice then the second acceptance, though checked within five minutes of its
    second, stored its key when the second was already more than five minutes old: a request that goes
    from the check to the store while its second is fresh is never the replay of an accepted one.  The
    accepted requests are listed latest first. *)
Theorem no_replay `{!GoOrderLaws} a clock s later y between x earlier :
  rtc auth_step (mkAuthSys a [] [] [] clock) s →
  as_accepted s = later ++ y :: between ++ x :: earlier →
  ac_key x = ac_key y → ac_second x = ac_second y →
  ac_checked y - unix_time (ac_second y) ≤ maxRequestAge < ac_stored y - unix_time (ac_second y).
Proof.
  intros [_ _ Hacc Hord]%replay_inv_run Hl Hk Hs. destruct (Hacc y) as (_ & Hchk & _); [rewrite Hl; set_solver|].
  assert (too_old (ac_stored y) (ac_second y) = true) as Hold.
  { rewrite Hl in Hord. clear Hl Hacc. induction later as [|z later IH]; cbn in Hord; inversion Hord as [|? ? Hall Hrest]; subst; [|auto].
    rewrite List.Forall_forall in Hall. apply (Hall x); [|done|done]. apply list_elem_of_In. set_solver. }
  unfold too_old in *. rewrite bool_decide_eq_false in Hchk. rewrite bool_decide_eq_true in Hold. lia.
Qed.

(** Which does happen: of two copies of one honest request that both pass the age check, one is accepted;
    when the other stalls until the cleanup has deleted the entry, it is accepted as well. *)
Theorem stalled_replay_accepted `{!GoOrderLaws} (a : AuthInterceptor) store now apiKey ts (method : string) :
  keyStore a = Some store → apiKey ≠ "" → GetSecret store apiKey ≠ "" → int64 ts → too_old now ts = false →
  seenRequests a = ∅ →
  ∃ s x y, rtc auth_step (mkAuthSys a [] [] [] now) s ∧ as_accepted s = [y; x] ∧
    (ac_key x, ac_second x) = (apiKey, ts) ∧ (ac_key y, ac_second y) = (apiKey, ts).
Proof.
  intros Hks Hk Hs Hts Hold Hseen. set (secret := GetSecret store apiKey).
  set (auth := mkAuth apiKey ts (computeSignature apiKey ts method secret)).
  set (now' := Z.max now (maxRequestAge + (ts + 1) * 10 ^ 9)).
  assert (check_age a now auth = Ret (Ok secret)) as Hchk by (apply check_age_ok; exists store; by split_and!).
  set (a1 := recorded a auth). assert (store_and_verify a auth method secret = (a1, Ok tt)) as Hst1.
  { apply store_and_verify_ok. rewrite Hseen. split_and!; [set_solver|done|done]. }
  assert (seenRequests a1 = {[replayKey apiKey ts]}) as Hs1 by (cbn; rewrite Hseen; set_solver).
  assert (old_entries a1 now' = [mkEntry (replayKey apiKey ts) ts]) as Hold1.
  { unfold old_entries, entries_of. rewrite Hs1.
    assert (map_Range {[replayKey apiKey ts]} = [replayKey apiKey ts]) as ->.
    { apply Permutation_singleton_r. by rewrite map_Range_elements, elements_singleton. }
    cbn. rewrite key_timestamp_replayKey by done. cbn. rewrite decide_True; [done|]. cbn.
    unfold cutoff. enough (ts + 1 ≤ (now' - maxRequestAge) / 10 ^ 9) by lia. apply Z.div_le_lower_bound; lia. }
  set (a2 := set_seen a1 (seenRequests a1) (Z.of_nat (size (seenRequests a1)))).
  set (a3 := set_seen a2 (seenRequests a2 ∖ {[replayKey apiKey ts]}) (timestampCount a2)).
  assert (store_and_verify a3 auth method secret = (recorded a3 auth, Ok tt)) as Hst3.
  { apply store_and_verify_ok. split_and!; [|done|done]. cbn. set_solver. }
  set (p := mkPending auth method secret now). set (x := mkAcceptance apiKey ts now now). set (y := mkAcceptance apiKey ts now now').
  exists (mkAuthSys (recorded a3 auth) [] [] [y; x] now'), x, y. split; [|done].
  eapply rtc_l; [eapply (step_check _ [] _ _ _ now auth method secret); [lia|done|done]|].
  eapply rtc_l; [eapply (step_check _ [p] _ _ _ now auth method secret); [lia|done|done]|].
  eapply rtc_l; [eapply (step_store _ [] p [p] _ _ _ now); [lia|exact Hst1]|].
  eapply rtc_l; [apply (step_cleanup _ _ _ _ now'); [lia|rewrite Hs1, size_singleton; unfold maxTimestampMapSize; lia]|].
  rewrite Hold1. eapply rtc_l; [apply step_delete|].
  eapply rtc_l; [|apply rtc_refl]. exact (step_store a3 [] p [] [] [x] now' now' _ (Ok tt) ltac:(lia) Hst3).
Qed.


(** Past the size limit the guarantee is lost: the cleanup forgets the accepted request with the
    smallest second even when it is fresh, and the same request is then accepted again. *)
Theorem flood_enables_replay `{!GoOrderLaws} (a : AuthInterceptor) store now apiKey ts method :
  keyStore a = Some store → apiKey ≠ "" → GetSecret store apiKey ≠ "" → int64 ts →
  maxTimestampMapSize < Z.of_nat (size (seenRequests a)) →
  replayKey apiKey ts ∈ seenRequests a → too_old now ts = false →
  (∀ k, k ∈ seenRequests a → k = replayKey apiKey ts ∨ ∃ ts', key_timestamp k = Some ts' ∧ ts < ts') →
  ∃ a', validateAPIKeyAuth (cleanupOldTimestamps a now) now
          (mkAuth apiKey ts (computeSignature apiKey ts method (GetSecret store apiKey))) method = Ret (a', Ok tt).
Proof.
  intros Hks Hk Hs Hts Hsize Hin Hold Hall. eexists.
  apply (validateAPIKeyAuth_accepts _ store); cbn [ApiKey Timestamp Signature]; try done; [by rewrite cleanup_config|].
  apply (cleanup_large a now _ ts); [done|done| | |done].
  - by apply key_timestamp_replayKey.
  - destruct (decide (cutoff now ≤ ts)); [done|]. rewrite old_entry_too_old in Hold; [done|done|lia].
Qed.
End Requests.

(** ** Tokens *)

Section Tokens.
Context `{X509, Hmac256, JWT, GoOrder}.

(** Generated tokens are accepted until they expire. *)
Lemma validateToken_generated `{!JWTLaws} (a : AuthInterceptor) config now now' nodeID perms s ctx md rest :
  GenerateToken config now nodeID perms = Ok s →
  JWTSecretKey (ai_config a) = JWTSecretKey config →
  is_ascii nodeID = true → forallb is_ascii perms = true → nodeID ≠ "" →
  ctx_md ctx = Some md → md_Get md "authorization" = ("Bearer " ++ s)%string :: rest →
  now' < NewNumericDate (now + TokenExpiry config) →
  validateToken a now' ctx = Ok tt.
Proof.
  unfold GenerateToken. destruct (SignedString _ _) as [s'|] eqn:Hsig; [|done]. intros [= ->] Hkey Ha Hp Hn Hmd Hhdr Hexp.
  unfold validateToken. rewrite Hmd, Hhdr, HasPrefix_app, TrimPrefix_app. cbn [negb].
  erewrite jwt_parse_signed; [| |exact Hsig| |].
  - cbn [tk_Valid tk_Claims negb ExpiresAt NodeID]. rewrite bool_decide_eq_false_2 by lia. by rewrite decide_False.
  - unfold claims_ascii. cbn [NodeID Permissions Issuer]. by rewrite Ha, Hp.
  - cbn. by rewrite Hkey.
  - done.
Qed.

(** A token from [GenerateToken] opens the service on an interceptor with the same secret, through
    either interceptor, until it expires. *)
Theorem generated_token_accepted `{!JWTLaws} (a : AuthInterceptor) config now now' nodeID perms s ctx md rest
    {Resp} (handler : context → Resp) :
  GenerateToken config now nodeID perms = Ok s →
  EnableTokenAuth (ai_config a) = true → JWTSecretKey (ai_config a) = JWTSecretKey config →
  is_ascii nodeID = true → forallb is_ascii perms = true → nodeID ≠ "" →
  ctx_md ctx = Some md → md_Get md "authorization" = ("Bearer " ++ s)%string :: rest →
  now' < NewNumericDate (now + TokenExpiry config) →
  StreamInterceptor a now' ctx handler = Ok (handler ctx).
Proof.
  intros Hs Hen Hkey Ha Hp Hn Hmd Hhdr Hexp. unfold StreamInterceptor, authenticate. rewrite Hen, andb_false_r. cbn.
  erewrite validateToken_generated by done. by destruct (EnableMTLS _ && _).
Qed.

(** What lets a call through: a client certificate that verifies against the CA (when there is one), or a
    bearer token with a valid HMAC signature under the configured secret, not expired, with a node id. *)
Definition verified_certificate (a : AuthInterceptor) (ctx : context) : Prop :=
  ∃ p c cs, ctx_peer ctx = Some p ∧ p_AuthInfo p = Some (c :: cs) ∧
    ∀ ca, caCert a = Some ca → cert_Verify c ca = true.

Definition authentic_token (a : AuthInterceptor) (now : Z) (ctx : context) : Prop :=
  ∃ md header rest tk, ctx_md ctx = Some md ∧ md_Get md "authorization" = header :: rest ∧
    HasPrefix header "Bearer " = true ∧
    jwt_signature_ok SigningMethodHMAC (bytes_of_string (JWTSecretKey (ai_config a))) (TrimPrefix header "Bearer ") = true ∧
    ParseWithClaims (token_key a) now (TrimPrefix header "Bearer ") = Some tk ∧
    NodeID (tk_Claims tk) ≠ "" ∧ (∀ t, ExpiresAt (tk_Claims tk) = Some t → now ≤ t).

Lemma validateMTLS_sound (a : AuthInterceptor) ctx : validateMTLS a ctx = Ok tt → verified_certificate a ctx.
Proof.
  unfold validateMTLS. destruct (ctx_peer ctx) as [p|] eqn:Hp; [|done].
  destruct (p_AuthInfo p) as [[|c cs]|] eqn:Hi; [done| |done]. intros Hv. exists p, c, cs. split_and!; [done|done|].
  intros ca Hca. rewrite Hca in Hv. by destruct (cert_Verify c ca).
Qed.

Lemma validateToken_sound `{!JWTLaws} (a : AuthInterceptor) now ctx :
  validateToken a now ctx = Ok tt → authentic_token a now ctx.
Proof.
  unfold validateToken.
  destruct (ctx_md ctx) as [md|] eqn:Hmd; [|done]. destruct (md_Get md _) as [|header rest] eqn:Hh; [done|].
  destruct (HasPrefix header "Bearer ") eqn:Hp; [|done]. cbn [negb].
  destruct (ParseWithClaims _ _ _) as [tk|] eqn:Hparse; [|done]. destruct (tk_Valid tk); [|done]. cbn [negb].
  destruct (match ExpiresAt (tk_Claims tk) with Some t => _ | None => _ end) eqn:He; [done|].
  case_decide; [done|]. intros _. exists md, header, rest, tk. split_and!; try done.
  - apply jwt_parse_authentic in Hparse as (k & Hk & Hs). destruct (tk_Method tk); cbn in Hk; [|done]. by simplify_eq.
  - intros t Ht. rewrite Ht in He. apply bool_decide_eq_false in He. lia.
Qed.

(** A call that [authenticate] lets through although mutual TLS or tokens are on has a credential. *)
Lemma authenticate_sound `{!JWTLaws} (a : AuthInterceptor) now ctx :
  EnableMTLS (ai_config a) || EnableTokenAuth (ai_config a) = true → authenticate a now ctx = Ok tt →
  (EnableMTLS (ai_config a) = true ∧ verified_certificate a ctx) ∨
  (EnableTokenAuth (ai_config a) = true ∧ authentic_token a now ctx).
Proof.
  intros Hon. unfold authenticate.
  destruct (EnableMTLS (ai_config a)), (EnableTokenAuth (ai_config a)); cbn in *; try done.
  - destruct (validateMTLS a ctx) as [[]|e] eqn:Hm; cbn; [intros _; left; eauto using validateMTLS_sound|].
    intros ?%validateToken_sound. auto.
  - destruct (validateMTLS a ctx) as [[]|e] eqn:Hm; cbn; [intros _; left; eauto using validateMTLS_sound|done].
  - intros ?%validateToken_sound. auto.
Qed.

(** A call that reaches the handler has passed one of the two checks. *)
Lemma UnaryInterceptor_cases {Req Resp} (GetAuth : Req → option APIMetadata) (a a' : AuthInterceptor) now ctx
    req method (handler : context → Req → Resp) resp :
  UnaryInterceptor GetAuth a now ctx req method handler = Ret (a', Ok resp) →
  resp = handler ctx req ∧
  (authenticate a now ctx = Ok tt ∨
   ∃ auth, apiKeyEnabled a = true ∧ GetAuth req = Some auth ∧ ApiKey auth ≠ "" ∧
     validateAPIKeyAuth a now auth method = Ret (a', Ok tt)).
Proof.
  unfold UnaryInterceptor. set (fallback := match authenticate a now ctx with Ok _ => _ | Err _ => _ end).
  assert (fallback = Ret (a', Ok resp) → resp = handler ctx req ∧ authenticate a now ctx = Ok tt) as Hf.
  { unfold fallback. by destruct (authenticate a now ctx) as [[]|e]; [intros [= _ <-]|]. }
  destruct (apiKeyEnabled a) eqn:?; [|naive_solver]. destruct (GetAuth req) as [auth|] eqn:?; [|naive_solver].
  case_decide; [|naive_solver]. destruct (validateAPIKeyAuth a now auth method) as [[a1 [[]|e]]|] eqn:?; cbn; [|done..].
  intros [= <- <-]. split; [done|]. right. eauto 10.
Qed.

Lemma StreamInterceptor_cases {Resp} (a : AuthInterceptor) now ctx (handler : context → Resp) resp :
  StreamInterceptor a now ctx handler = Ok resp → resp = handler ctx ∧ authenticate a now ctx = Ok tt.
Proof. unfold StreamInterceptor. by destruct (authenticate a now ctx) as [[]|e]; [intros [= <-]|]. Qed.

(** C32: with token authentication on, a call that reaches the handler of a stream carries a certificate
    that was verified, if mutual TLS is on as well, or else a bearer token with a valid HMAC signature
    under the configured secret, not expired, with a node id.  A unary call has one of these or, when API
    keys are enabled and its message carries API-key data, data that [validateAPIKeyAuth] accepts. *)
Theorem token_access_authentic `{!JWTLaws} {Req Resp} (GetAuth : Req → option APIMetadata) (a : AuthInterceptor) now
    ctx req method (handler : context → Req → Resp) (shandler : context → Resp) :
  EnableTokenAuth (ai_config a) = true →
  let credential := (EnableMTLS (ai_config a) = true ∧ verified_certificate a ctx) ∨ authentic_token a now ctx in
  (∀ a' resp, UnaryInterceptor GetAuth a now ctx req method handler = Ret (a', Ok resp) →
     resp = handler ctx req ∧
     (credential ∨ ∃ auth, apiKeyEnabled a = true ∧ GetAuth req = Some auth ∧
        validateAPIKeyAuth a now auth method = Ret (a', Ok tt))) ∧
  (∀ resp, StreamInterceptor a now ctx shandler = Ok resp → resp = shandler ctx ∧ credential).
Proof.
  intros Hen credential. assert (authenticate a now ctx = Ok tt → credential) as Hcred.
  { intros [?|[_ ?]]%authenticate_sound; [by left|by right|by rewrite Hen, orb_true_r]. }
  split.
  - intros a' resp [-> [?|(auth & ? & ? & _ & ?)]]%UnaryInterceptor_cases; (split; [done|]); [by left; apply Hcred|right; eauto].
  - intros resp [-> ?]%StreamInterceptor_cases. auto.
Qed.

(** When API keys are the only method enabled, a call without API-key data reaches the handler: no
    credential at all is asked for.  Streams never carry API-key data. *)
Theorem API_key_is_optional {Req Resp} (GetAuth : Req → option APIMetadata) fs config (a : AuthInterceptor) now ctx
    req method (handler : context → Req → Resp) (shandler : context → Resp) :
  NewAuthInterceptor fs config = Ok a → EnableMTLS config = false → EnableTokenAuth config = false →
  GetAuth req = None →
  UnaryInterceptor GetAuth a now ctx req method handler = Ret (a, Ok (handler ctx req)) ∧
  StreamInterceptor a now ctx shandler = Ok (shandler ctx).
Proof.
  unfold NewAuthInterceptor, loadCA. intros Hnew Hm Ht Hreq. rewrite Hm in Hnew. cbn in Hnew. injection Hnew as <-.
  unfold UnaryInterceptor, StreamInterceptor, authenticate. cbn [ai_config apiKeyEnabled]. rewrite Hm, Ht, Hreq. cbn.
  by destruct (EnableAPIKeyAuth config && _).
Qed.

(** An interceptor from the constructor never dereferences a missing key store. *)
Lemma NewAuthInterceptor_keyStore fs config (a : AuthInterceptor) :
  NewAuthInterceptor fs config = Ok a → is_Some (keyStore a) ↔ apiKeyEnabled a = true.
Proof.
  unfold NewAuthInterceptor. intros (ca & _ & [= <-])%result_bind_Ok. cbn.
  destruct (EnableAPIKeyAuth config && _); cbn; [naive_solver|]. split; [intros [? ?]; done|done].
Qed.

Lemma NewAuthInterceptor_secrets fs config (a : AuthInterceptor) store :
  NewAuthInterceptor fs config = Ok a → keyStore a = Some store → store = APIKeys config.
Proof.
  unfold NewAuthInterceptor. intros (ca & _ & [= <-])%result_bind_Ok. cbn.
  destruct (EnableAPIKeyAuth config && _); [|done]. intros [= <-].
  unfold AddKey. apply (map_fold_weak_ind (λ r m, r = m)); [done|]. by intros i x m r Hi ->.
Qed.
End Tokens.

(** * Concrete instances and witnesses *)

#[local] Instance toy_x509 : X509 :=
  { Certificate := list byte; pem_Decode := λ l, Some ("CERTIFICATE"%string, l); ParseCertificate := Some;
    cert_Verify := λ c r, bool_decide (c = r) }.
#[local] Instance toy_hmac : Hmac256 := λ k m, k ++ m.

#[local] Instance entry_le_dec : RelDecision (λ a b, e_timestamp a ≤ e_timestamp b).
Proof. intros a b. apply _. Defined.
#[local] Instance toy_order : GoOrder :=
  { map_Range := elements; sort_Slice := merge_sort (λ a b, e_timestamp a ≤ e_timestamp b) }.
#[local] Instance toy_order_laws : GoOrderLaws.
Proof.
  split; cbn.
  - done.
  - intros l. apply merge_sort_Permutation.
  - intros l. apply Sorted_merge_sort. intros a b. lia.
Qed.

Definition toy_content : Type := string * list string * option Z * option Z * string * list byte.
Definition toy_print (c : toy_content) : string := Sprintf_d (Zpos (encode c)).
Definition toy_read (s : string) : option toy_content := decode (Z.to_pos (digits_value 0 s)).

Lemma toy_read_print c : toy_read (toy_print c) = Some c.
Proof.
  unfold toy_read, toy_print. destruct (Sprintf_d_spec (Zpos (encode c))) as (_ & -> & _); [done|].
  cbn [Z.to_pos]. apply decode_encode.
Qed.

#[local] Instance toy_jwt : JWT :=
  { ParseWithClaims := λ kf now s,
      '(n, p, e, i, iss, k) ← toy_read s;
      if bool_decide (kf SigningMethodHMAC = Some k) &&
         match e with Some t => bool_decide (now < t) | None => true end
      then Some (mkToken SigningMethodHMAC (mkClaims n p e i iss) true) else None;
    SignedString := λ c k, Some (toy_print (NodeID c, Permissions c, ExpiresAt c, IssuedAt c, Issuer c, k));
    jwt_signature_ok := λ m k s,
      match toy_read s with Some c => bool_decide (c.2 = k) | None => false end }.

#[local] Instance toy_jwt_laws : JWTLaws.
Proof.
  split; cbn -[toy_read toy_print].
  - intros kf now c k s _ [= <-] Hk Hexp. rewrite toy_read_print. cbn.
    rewrite bool_decide_eq_true_2 by done. destruct c as [? ? [?|] ? ?]; cbn in *; [|done].
    by rewrite bool_decide_eq_true_2.
  - intros kf now s tk. destruct (toy_read s) as [[[[[[n p] e] i] iss] k]|]; cbn; [|done].
    destruct (bool_decide (kf _ = _)) eqn:Hk; cbn; [|done]. destruct (match e with Some t => _ | None => _ end); [|done].
    intros [= <-]. apply bool_decide_eq_true in Hk. exists k. split; [done|]. by apply bool_decide_eq_true.
Qed.

Definition ex_auth_config : AuthConfig := mkAuthConfig false "" false "" 0 true {["k" := "secret"]}.
Definition ex_interceptor (s : gset string) : AuthInterceptor :=
  mkInterceptor ex_auth_config None (Some {["k" := "secret"]}) s 0 true false.
Definition ex_now : Z := 100 * 10 ^ 9.

Lemma ex_auth_new : NewAuthInterceptor ∅ ex_auth_config = Ok (ex_interceptor ∅).
Proof. vm_compute. reflexivity. Qed.

Lemma ex_age s : ex_now ≤ s → s ≤ ex_now + maxRequestAge → s - ex_now / 10 ^ 9 * 10 ^ 9 ≤ maxRequestAge.
Proof. unfold ex_now, maxRequestAge. change (100 * 10 ^ 9 / 10 ^ 9 * 10 ^ 9) with (100 * 10 ^ 9). lia. Qed.

Lemma honest_request_accepted_witness :
  ∃ a', validateAPIKeyAuth (ex_interceptor ∅) ex_now (GenerateAPIKeyToken ex_now "k" "secret" "/Add") "/Add" = Ret (a', Ok tt) ∧
        replayKey "k" (ex_now / 10 ^ 9) ∈ seenRequests a'.
Proof.
  apply (honest_request_accepted (ex_interceptor ∅) {["k" := "secret"]}); [done|vm_compute; reflexivity|done|done| | |].
  - unfold ex_now. lia.
  - apply ex_age; unfold maxRequestAge; lia.
  - cbn. apply not_elem_of_empty.
Defined.

Lemma same_second_refused_witness :
  ∃ a', ∃ e, validateAPIKeyAuth a' (ex_now + 1) (GenerateAPIKeyToken (ex_now + 1) "k" "secret" "/Remove") "/Remove" = Ret (a', Err e).
Proof.
  eexists. eapply (same_second_refused (ex_interceptor ∅) _ ex_now _ ex_now _ "k" "secret" "/Add").
  - vm_compute. reflexivity.
  - reflexivity.
Defined.

Definition ex_forged : APIMetadata := mkAuth "k" 100 "forged".

Lemma forged_request_blocks_honest_witness :
  ∃ a', ∃ e, validateAPIKeyAuth a' ex_now (GenerateAPIKeyToken ex_now "k" "secret" "/Add") "/Add" = Ret (a', Err e).
Proof.
  eexists. eapply (forged_request_blocks_honest (ex_interceptor ∅) _ ex_now ex_now ex_forged "/Add").
  - vm_compute. reflexivity.
  - reflexivity.
Defined.

Lemma stalled_replay_accepted_witness :
  ∃ s x y, rtc auth_step (mkAuthSys (ex_interceptor ∅) [] [] [] ex_now) s ∧ as_accepted s = [y; x] ∧
    (ac_key x, ac_second x) = ("k"%string, 100) ∧ (ac_key y, ac_second y) = ("k"%string, 100).
Proof.
  apply (stalled_replay_accepted (ex_interceptor ∅) {["k" := "secret"]} ex_now "k" 100 "/Add"); try done.
Defined.

Lemma no_replay_witness :
  ∃ y, ac_second y = 100 ∧ ac_checked y - unix_time (ac_second y) ≤ maxRequestAge < ac_stored y - unix_time (ac_second y).
Proof.
  destruct stalled_replay_accepted_witness as (s & x & y & Hrun & Hacc & [= Hxk Hxs] & [= Hyk Hys]).
  exists y. split; [done|]. apply (no_replay (ex_interceptor ∅) ex_now s [] y [] x []); [exact Hrun|exact Hacc|by rewrite Hxk, Hyk|by rewrite Hxs, Hys].
Defined.

Lemma validateAPIKeyAuth_accepts_iff_witness :
  ∃ a' r, validateAPIKeyAuth (ex_interceptor ∅) ex_now (mkAuth "k" 100 "forged") "/Add" = Ret (a', r) ∧
    r ≠ Ok tt ∧ seenRequests a' = {["k:100"%string]} ∪ ∅.
Proof.
  destruct (validateAPIKeyAuth_accepts_iff (ex_interceptor ∅) {["k" := "secret"]} ex_now (mkAuth "k" 100 "forged") "/Add")
    as (a' & r & Hv & Hok & Hrec & _); [reflexivity|cbn; lia|].
  exists a', r. split; [done|]. split; [|apply Hrec; split_and!; [done|done|vm_compute; congruence|cbn; apply not_elem_of_empty]].
  intros [_ Hsig]%Hok. vm_compute in Hsig. congruence.
Defined.

(** The victim of second 100 and a flood of [n] later seconds. *)
Definition flood_keys (n : nat) : list string := (λ i : nat, replayKey "k" (101 + Z.of_nat i)) <$> seq 0 n.
Definition flood (n : nat) : gset string := {[replayKey "k" 100]} ∪ list_to_set (flood_keys n).

Lemma flood_keys_NoDup n : (Z.of_nat n < 2 ^ 62) → NoDup (flood_keys n).
Proof.
  intros Hn. unfold flood_keys. apply NoDup_fmap_2_strong; [|apply NoDup_seq].
  intros i j Hi%elem_of_seq Hj%elem_of_seq Heq. apply replayKey_inj in Heq as [_ Heq]; unfold int64; lia.
Qed.

Lemma flood_size n : (Z.of_nat n < 2 ^ 62) → (n ≤ size (flood n))%nat.
Proof.
  intros Hn. transitivity (size (list_to_set (C := gset string) (flood_keys n))).
  - rewrite size_list_to_set by (by apply flood_keys_NoDup). unfold flood_keys. by rewrite length_fmap, length_seq.
  - apply subseteq_size. unfold flood. set_solver.
Qed.

Lemma flood_later n k : (Z.of_nat n < 2 ^ 62) → k ∈ flood n →
  k = replayKey "k" 100 ∨ ∃ ts, key_timestamp k = Some ts ∧ 100 < ts.
Proof.
  intros Hn [->%elem_of_singleton|Hk]%elem_of_union; [by left|right].
  rewrite elem_of_list_to_set in Hk. apply list_elem_of_fmap in Hk as (i & -> & Hi%elem_of_seq).
  exists (101 + Z.of_nat i). rewrite key_timestamp_replayKey by (unfold int64; lia). split; [done|lia].
Qed.

Lemma flood_enables_replay_witness :
  ∃ a', validateAPIKeyAuth (cleanupOldTimestamps (ex_interceptor (flood (Z.to_nat 100001))) ex_now) ex_now
          (mkAuth "k" 100 (computeSignature "k" 100 "/Add" (GetSecret {["k" := "secret"]} "k"))) "/Add" = Ret (a', Ok tt).
Proof.
  apply (flood_enables_replay (ex_interceptor (flood (Z.to_nat 100001))) {["k" := "secret"]}).
  - reflexivity.
  - done.
  - done.
  - unfold int64; lia.
  - cbn [ex_interceptor seenRequests]. pose proof (flood_size (Z.to_nat 100001) ltac:(lia)). unfold maxTimestampMapSize. lia.
  - cbn [ex_interceptor seenRequests]. unfold flood. apply elem_of_union_l, elem_of_singleton. reflexivity.
  - vm_compute. reflexivity.
  - intros k. cbn [ex_interceptor seenRequests]. apply flood_later. lia.
Defined.

Definition ex_token_config : AuthConfig := mkAuthConfig false "" true "jwt" (10 ^ 12) false ∅.
Definition ex_token_interceptor : AuthInterceptor := mkInterceptor ex_token_config None None ∅ 0 false false.
Definition ex_token : string :=
  toy_print ("n1"%string, ["read"%string], Some (NewNumericDate (ex_now + 10 ^ 12)), Some (NewNumericDate ex_now),
             "dbf-auth"%string, bytes_of_string "jwt").
Definition ex_ctx : context := mkContext None (Some {["authorization" := [("Bearer " ++ ex_token)%string]]}).

#[local] Opaque toy_print.

Lemma ex_token_generated : GenerateToken ex_token_config ex_now "n1" ["read"%string] = Ok ex_token.
Proof. reflexivity. Qed.

Lemma ex_header : md_Get {["authorization" := [("Bearer " ++ ex_token)%string]]} "authorization" = [("Bearer " ++ ex_token)%string].
Proof. unfold md_Get. by rewrite lookup_singleton_eq. Qed.

Lemma generated_token_accepted_witness :
  StreamInterceptor ex_token_interceptor (ex_now + 1) ex_ctx (λ _, true) = Ok true.
Proof.
  eapply (generated_token_accepted ex_token_interceptor ex_token_config ex_now _ "n1" ["read"%string] ex_token ex_ctx);
    [apply ex_token_generated|done|done|done|done|done|reflexivity|apply ex_header|].
  vm_compute. reflexivity.
Defined.

Lemma ex_token_ok : validateToken ex_token_interceptor (ex_now + 1) ex_ctx = Ok tt.
Proof.
  eapply (validateToken_generated ex_token_interceptor ex_token_config ex_now _ "n1" ["read"%string] ex_token ex_ctx);
    [apply ex_token_generated|done|done|done|done|reflexivity|apply ex_header|].
  vm_compute. reflexivity.
Qed.

Lemma token_access_authentic_witness : authentic_token ex_token_interceptor (ex_now + 1) ex_ctx.
Proof.
  destruct (token_access_authentic (λ _ : unit, None) ex_token_interceptor (ex_now + 1) ex_ctx tt "/Add" (λ _ _, true) (λ _, true))
    as [_ Hs]; [reflexivity|].
  destruct (Hs true) as [_ [[? _]|?]]; [|discriminate|done].
  unfold StreamInterceptor, authenticate. cbn [ex_token_interceptor ai_config EnableMTLS EnableTokenAuth ex_token_config negb andb apiKeyEnabled].
  by rewrite ex_token_ok.
Defined.

Lemma API_key_is_optional_witness :
  UnaryInterceptor (λ _ : unit, None) (ex_interceptor ∅) 0 (mkContext None None) tt "/Add" (λ _ _, true) = Ret (ex_interceptor ∅, Ok true) ∧
  StreamInterceptor (ex_interceptor ∅) 0 (mkContext None None) (λ _, true) = Ok true.
Proof. apply (API_key_is_optional (λ _, None) ∅ ex_auth_config); [apply ex_auth_new|done|done|done]. Defined.
