(* ===== verification/Node.v ===== *)
(** [internal/raft/node.go], the calls a server makes on a [Node]: proposals
    through Raft, local reads, and the state map.

    The Raft library is the class [HRaft]: a proposal returns the entries the
    library delivered to the state machine before the future completed, and
    the future's error.  [HRaftLaws] is what the library documents of a future
    without error: the proposed entry is the last one delivered. *)

From S2P Require Import Prelude GoBytes GoFmt Hash Counting CountingSpec CountingCodec.
From S2P Require Import WalCrypto WalFiles Json RaftFsm.
#[local] Open Scope Z_scope.

(** * Definitions *)

(** A value of [map[string]interface{}], by its dynamic type. *)
Inductive any : Type :=
  | AString (s : string)
  | AInt (z : Z)
  | AInt64 (z : Z)
  | ABool (b : bool).

Inductive RaftState : Type := Follower | Candidate | Leader | Shutdown.
#[export] Instance RaftState_eq_dec : EqDecision RaftState.
Proof. solve_decision. Defined.

Definition RaftState_String (s : RaftState) : string :=
  match s with Follower => "Follower" | Candidate => "Candidate" | Leader => "Leader" | Shutdown => "Shutdown" end.

Class HRaft : Type := {
  Raft : Type;
  raft_Apply : Raft → list byte → Raft * list Log * option string;
  raft_State : Raft → RaftState;
  raft_Leader : Raft → string
}.

Class HRaftLaws `{HRaft} : Prop := {
  raft_Apply_delivers r data r' logs :
    raft_Apply r data = (r', logs, None) → ∃ before ix tm, logs = before ++ [mkLog ix tm data]
}.

Section Node.
Context `{JsonText, TimeText, Murmur3, HRaft}.

Record Node : Type := mkNode {
  n_nodeID : string;
  n_raftPort : Z;
  n_bloomFilter : CountingBloomFilter;
  n_tls : bool;
  n_raftNode : option Raft          (* nil until Start *)
}.

Definition NewNode (nodeID : string) (raftPort : Z) (f : CountingBloomFilter) : Node :=
  mkNode nodeID raftPort f false None.

(** The library calls [Node.Apply] for each delivered entry; the responses stay in the futures. *)
Fixpoint deliver (logs : list Log) (f : CountingBloomFilter) : go CountingBloomFilter :=
  match logs with
  | [] => Ret f
  | l :: logs' => '(f', _) ← Node_Apply l f; deliver logs' f'
  end.

(** [Node.Add] and [Node.Remove] differ in the command type only. *)
Definition propose (cmdType : string) (n : Node) (item : list byte) : go (Node * option string) :=
  match n_raftNode n with
  | None => Ret (n, Some "raft node not started"%string)
  | Some r =>
      let '(r', logs, err) := raft_Apply r (Marshal (mkCommand cmdType item zero_time)) in
      f' ← deliver logs (n_bloomFilter n);
      Ret (mkNode (n_nodeID n) (n_raftPort n) f' (n_tls n) (Some r'),
           match err with
           | Some e => Some ("failed to apply command: " +:+ e)
           | None => None
           end)
  end.

Definition Node_Add (n : Node) (item : list byte) : go (Node * option string) := propose "add" n item.
Definition Node_Remove (n : Node) (item : list byte) : go (Node * option string) := propose "remove" n item.

Definition Node_Contains (n : Node) (item : list byte) : go bool := Contains (n_bloomFilter n) item.

Definition IsLeader (n : Node) : bool :=
  match n_raftNode n with None => false | Some r => bool_decide (raft_State r = Leader) end.

Definition Node_Leader (n : Node) : string :=
  match n_raftNode n with None => "" | Some r => raft_Leader r end.

Definition GetState (n : Node) : gmap string any :=
  let state :=
    <["node_id" := AString (n_nodeID n)]> (<["raft_port" := AInt (n_raftPort n)]>
    (<["is_leader" := ABool (IsLeader n)]> (<["bloom_size" := AInt (Size (n_bloomFilter n))]>
    (<["bloom_k" := AInt (HashCount (n_bloomFilter n))]> {["tls_enabled" := ABool (n_tls n)]})))) in
  match n_raftNode n with
  | None => state
  | Some r =>
      <["leader" := AString (Node_Leader n)]> (<["raft_state" := AString (RaftState_String (raft_State r))]> state)
  end.
End Node.

(** * Facts *)

Section facts.
Context `{JsonText, TimeText, Murmur3, HRaft}.

Lemma deliver_app l1 l2 f : deliver (l1 ++ l2) f = (f' ← deliver l1 f; deliver l2 f').
Proof.
  revert f. induction l1 as [|l l1 IH]; intros f; cbn [deliver app mbind go_bind]; [done|].
  destruct (Node_Apply l f) as [[f' r]|]; cbn [mbind go_bind]; [apply IH|done].
Qed.

Lemma Node_Apply_usable l f : usable f → ∃ f' r, Node_Apply l f = Ret (f', r) ∧ usable f'.
Proof.
  intros Hu. unfold Node_Apply. destruct (UnmarshalCommand _) as [c|]; [|eauto]. repeat case_decide.
  - destruct (Add_spec f (cmd_Item c) Hu) as (f' & err & -> & ? & _). cbn. eauto.
  - destruct (Remove_spec f (cmd_Item c) Hu) as (f' & -> & ? & _). cbn. eauto.
  - eauto.
Qed.

(** Delivering entries never panics on a usable filter. *)
Lemma deliver_usable logs f : usable f → ∃ f', deliver logs f = Ret f' ∧ usable f'.
Proof.
  revert f. induction logs as [|l logs IH]; intros f Hu; cbn [deliver]; [eauto|].
  destruct (Node_Apply_usable l f Hu) as (f' & r & -> & Hu'). cbn [mbind go_bind]. eauto.
Qed.
End facts.

(** What a successful proposal did: other entries first, then the command itself. *)
Lemma propose_success `{JsonTextLaws, TimeTextLaws, Murmur3, HRaftLaws} ty n item r : is_ascii ty = true →
  n_raftNode n = Some r → usable (n_bloomFilter n) →
  ∃ n' err, propose ty n item = Ret (n', err) ∧ usable (n_bloomFilter n') ∧
    (err = None → ∃ f1 ix tm res, usable f1 ∧
       Node_Apply (mkLog ix tm (Marshal (mkCommand ty item zero_time))) f1 = Ret (n_bloomFilter n', res)).
Proof.
  intros Hty Hr Hu. unfold propose. rewrite Hr.
  destruct (raft_Apply r _) as [[r' logs] err] eqn:E. destruct (deliver_usable logs _ Hu) as (f' & Hd & Hu').
  rewrite Hd. cbn [mbind go_bind]. eexists _, _. split; [done|]. split; [done|]. cbn [n_bloomFilter].
  destruct err as [e|]; [done|]. intros _. apply raft_Apply_delivers in E as (before & ix & tm & ->).
  rewrite deliver_app in Hd. destruct (deliver_usable before _ Hu) as (f1 & Hd1 & Hu1). rewrite Hd1 in Hd.
  cbn [mbind go_bind deliver] in Hd.
  destruct (Node_Apply_usable (mkLog ix tm (Marshal (mkCommand ty item zero_time))) f1 Hu1) as (f2 & res & Hap & _).
  rewrite Hap in Hd. cbn in Hd. injection Hd as ->. by exists f1, ix, tm, res.
Qed.

Lemma zero_year : year_ok zero_time.
Proof. unfold year_ok, zero_time. lia. Qed.
#[export] Hint Resolve zero_year : dbf.

(** The entry an [Add] proposal commits adds the item. *)
Lemma Node_Apply_add `{JsonTextLaws, TimeTextLaws, Murmur3} ix tm item f :
  Node_Apply (mkLog ix tm (Marshal (mkCommand "add" item zero_time))) f = ('(f', _) ← Add f item; Ret (f', None)).
Proof.
  unfold Node_Apply. cbn [log_Data]. rewrite UnmarshalCommand_Marshal; [|done|apply zero_year]. done.
Qed.

Lemma Node_Apply_remove `{JsonTextLaws, TimeTextLaws, Murmur3} ix tm item f :
  Node_Apply (mkLog ix tm (Marshal (mkCommand "remove" item zero_time))) f = (f' ← Remove f item; Ret (f', None)).
Proof.
  unfold Node_Apply. cbn [log_Data]. rewrite UnmarshalCommand_Marshal; [|done|apply zero_year]. done.
Qed.

(** * A library for one server that commits at once *)

Definition solo_raft (leader : bool) : HRaft := {|
  Raft := Z;
  raft_Apply i data := if leader then (i + 1, [mkLog i 1 data], None) else (i, [], Some "node is not the leader"%string);
  raft_State _ := if leader then Leader else Follower;
  raft_Leader _ := "127.0.0.1:7000"%string
|}.

Lemma solo_raft_laws b : HRaftLaws (H:=solo_raft b).
Proof. split. cbn. intros r data r' logs. destruct b; [|done]. intros [= <- <-]. by exists [], r, 1. Qed.
