(* ===== verification/Service.v ===== *)
(** [internal/grpc/service.go] and the handlers of [internal/grpc/server.go].

    [DBFService] runs on any implementation of the [RaftNode] interface of
    [internal/raft/node.go], here a class; [DBFServer] runs on [raft.Node]
    itself.  A handler returns the new node and the response; no handler
    returns a gRPC error. *)

From S2P Require Import Prelude GoBytes GoFmt Hash Counting CountingSpec CountingCodec.
From S2P Require Import WalCrypto WalFiles Json RaftFsm Node.
#[local] Open Scope Z_scope.

(** * Messages *)

Record AddResponse : Type := mkAddResp { ar_Success : bool; ar_Error : string }.
Abbreviation RemoveResponse := AddResponse (only parsing).
Record ContainsResponse : Type := mkContResp { cr_Exists : bool; cr_Error : string }.
Record BatchAddResponse : Type := mkBatchResp { br_SuccessCount : Z; br_FailureCount : Z; br_Errors : list string }.
Record BatchContainsResponse : Type := mkBContResp { bc_Results : list bool; bc_Error : string }.
Record GetStatsResponse : Type := mkStats {
  st_NodeId : string; st_IsLeader : bool; st_RaftState : string; st_Leader : string;
  st_BloomSize : Z; st_BloomK : Z; st_BloomCount : Z; st_RaftPort : Z; st_Error : string
}.

(** The type assertions on the state map, with the default for a miss. *)
Definition get_string (state : gmap string any) (k : string) : option string :=
  match state !! k with Some (AString s) => Some s | _ => None end.
Definition get_int (state : gmap string any) (k : string) : option Z :=
  match state !! k with Some (AInt z) => Some z | _ => None end.
Definition get_int64 (state : gmap string any) (k : string) : option Z :=
  match state !! k with Some (AInt64 z) => Some z | _ => None end.
Definition get_bool (state : gmap string any) (k : string) : option bool :=
  match state !! k with Some (ABool b) => Some b | _ => None end.

(** * DBFService *)

(** The interface of [internal/raft/node.go]. *)
Class RaftNode (T : Type) : Type := {
  rn_Add : T → list byte → go (T * option string);
  rn_Remove : T → list byte → go (T * option string);
  rn_Contains : T → list byte → go bool;
  rn_BatchAdd : T → list (list byte) → go (T * Z * Z * list string);
  rn_BatchContains : T → list (list byte) → go (list bool);
  rn_IsLeader : T → bool;
  rn_GetState : T → gmap string any
}.

Definition redirect (leader : string * string) : string :=
  "not the leader, redirect to: " +:+ leader.1 +:+ " (" +:+ leader.2 +:+ ")".

Section DBFService.
Context `{RaftNode T}.

Definition getLeaderInfo (n : T) : string * string :=
  let state := rn_GetState n in
  (default "unknown"%string (get_string state "leader"), default ""%string (get_string state "leader_address")).

Definition service_Add (n : T) (item : list byte) : go (T * AddResponse) :=
  if decide (item = []) then Ret (n, mkAddResp false "item cannot be empty")
  else if negb (rn_IsLeader n) then Ret (n, mkAddResp false (redirect (getLeaderInfo n)))
  else
    '(n', err) ← rn_Add n item;
    match err with
    | Some e => Ret (n', mkAddResp false ("failed to add item: " +:+ e))
    | None => Ret (n', mkAddResp true "")
    end.

Definition service_Remove (n : T) (item : list byte) : go (T * RemoveResponse) :=
  if decide (item = []) then Ret (n, mkAddResp false "item cannot be empty")
  else if negb (rn_IsLeader n) then Ret (n, mkAddResp false (redirect (getLeaderInfo n)))
  else
    '(n', err) ← rn_Remove n item;
    match err with
    | Some e => Ret (n', mkAddResp false ("failed to remove item: " +:+ e))
    | None => Ret (n', mkAddResp true "")
    end.

Definition service_Contains (n : T) (item : list byte) : go ContainsResponse :=
  if decide (item = []) then Ret (mkContResp false "item cannot be empty")
  else exists_ ← rn_Contains n item; Ret (mkContResp exists_ "").

Definition service_BatchAdd (n : T) (items : list (list byte)) : go (T * BatchAddResponse) :=
  if decide (items = []) then Ret (n, mkBatchResp 0 0 ["no items provided"%string])
  else if negb (rn_IsLeader n) then
    Ret (n, mkBatchResp 0 (i32 (len items)) [redirect (getLeaderInfo n)])
  else
    '(n', s, f, errors) ← rn_BatchAdd n items;
    Ret (n', mkBatchResp (i32 s) (i32 f) errors).

Definition service_BatchContains (n : T) (items : list (list byte)) : go BatchContainsResponse :=
  if decide (items = []) then Ret (mkBContResp [] "no items provided")
  else results ← rn_BatchContains n items; Ret (mkBContResp results "").

Definition service_GetStats (n : T) : GetStatsResponse :=
  let state := rn_GetState n in
  mkStats (default "unknown"%string (get_string state "node_id"))
    (default false (get_bool state "is_leader"))
    (default "unknown"%string (get_string state "raft_state"))
    (match get_string state "leader_address" with
     | Some l => l
     | None => default ""%string (get_string state "leader")
     end)
    (default 0 (get_int state "bloom_size"))
    (i32 (default 0 (get_int state "bloom_k")))
    (default 0 (get_int64 state "bloom_count"))
    (i32 (default 0 (get_int state "raft_port"))) "".
End DBFService.

(** * DBFServer *)

Section DBFServer.
Context `{JsonText, TimeText, Murmur3, HRaft}.

Definition server_Add (n : Node) (item : list byte) : go (Node * AddResponse) :=
  if decide (item = []) then Ret (n, mkAddResp false "item cannot be empty")
  else
    '(n', err) ← Node_Add n item;
    match err with
    | Some e => Ret (n', mkAddResp false ("failed to add item: " +:+ e))
    | None => Ret (n', mkAddResp true "")
    end.

Definition server_Remove (n : Node) (item : list byte) : go (Node * RemoveResponse) :=
  if decide (item = []) then Ret (n, mkAddResp false "item cannot be empty")
  else
    '(n', err) ← Node_Remove n item;
    match err with
    | Some e => Ret (n', mkAddResp false ("failed to remove item: " +:+ e))
    | None => Ret (n', mkAddResp true "")
    end.

Definition server_Contains (n : Node) (item : list byte) : go ContainsResponse :=
  if decide (item = []) then Ret (mkContResp false "item cannot be empty")
  else exists_ ← Node_Contains n item; Ret (mkContResp exists_ "").

(** One iteration per item; [errors] keeps its position, empty on success. *)
Fixpoint server_batch_loop (n : Node) (items : list (list byte)) (success failure : Z)
  : go (Node * Z * Z * list string) :=
  match items with
  | [] => Ret (n, success, failure, [])
  | item :: items' =>
      if decide (item = []) then
        '(n', s, f, errs) ← server_batch_loop n items' success (failure + 1);
        Ret (n', s, f, "item cannot be empty"%string :: errs)
      else
        '(n1, err) ← Node_Add n item;
        match err with
        | Some e =>
            '(n', s, f, errs) ← server_batch_loop n1 items' success (failure + 1);
            Ret (n', s, f, ("failed to add item: " +:+ e) :: errs)
        | None =>
            '(n', s, f, errs) ← server_batch_loop n1 items' (success + 1) failure;
            Ret (n', s, f, ""%string :: errs)
        end
  end.

Definition server_BatchAdd (n : Node) (items : list (list byte)) : go (Node * BatchAddResponse) :=
  if decide (items = []) then Ret (n, mkBatchResp 0 0 ["no items provided"%string])
  else
    '(n', s, f, errors) ← server_batch_loop n items 0 0;
    Ret (n', mkBatchResp (i32 s) (i32 f) errors).

Fixpoint server_contains_loop (n : Node) (items : list (list byte)) : go (list bool) :=
  match items with
  | [] => Ret []
  | item :: items' =>
      b ← (if decide (item = []) then Ret false else Node_Contains n item);
      bs ← server_contains_loop n items';
      Ret (b :: bs)
  end.

Definition server_BatchContains (n : Node) (items : list (list byte)) : go BatchContainsResponse :=
  if decide (items = []) then Ret (mkBContResp [] "no items provided")
  else results ← server_contains_loop n items; Ret (mkBContResp results "").

Definition server_GetStats (n : Node) : GetStatsResponse :=
  let state := GetState n in
  mkStats (default "unknown"%string (get_string state "node_id"))
    (default false (get_bool state "is_leader"))
    (default "unknown"%string (get_string state "raft_state"))
    (default ""%string (get_string state "leader"))
    (default 0 (get_int state "bloom_size"))
    (i32 (default 0 (get_int state "bloom_k")))
    (match get_int state "bloom_size" with
     | Some v => if decide (0 < v) then Z.quot v 8 else 0
     | None => 0
     end)
    (i32 (default 0 (get_int state "raft_port"))) "".
End DBFServer.

(** * Facts *)

Section facts.
Context `{JsonText, TimeText, Murmur3, HRaft}.

(** The reference for a batch: one [Add] call per item. *)
Fixpoint server_add_all (n : Node) (items : list (list byte)) : go (Node * list AddResponse) :=
  match items with
  | [] => Ret (n, [])
  | item :: items' =>
      '(n1, r) ← server_Add n item;
      '(n2, rs) ← server_add_all n1 items';
      Ret (n2, r :: rs)
  end.

Definition successes (rs : list AddResponse) : Z := zsum (λ r, if ar_Success r then 1 else 0) rs.
Definition failures (rs : list AddResponse) : Z := zsum (λ r, if ar_Success r then 0 else 1) rs.

Lemma server_batch_loop_all n items s f :
  server_batch_loop n items s f =
  ('(n', rs) ← server_add_all n items; Ret (n', s + successes rs, f + failures rs, map ar_Error rs)).
Proof.
  unfold successes, failures. revert n s f. induction items as [|item items IH]; intros n s f; cbn [server_batch_loop server_add_all].
  - cbn. rewrite !zsum_nil, !Z.add_0_r. done.
  - unfold server_Add at 1. case_decide as Hemp.
    + cbn [mbind go_bind]. rewrite IH. destruct (server_add_all n items) as [[n' rs]|p]; cbn [mbind go_bind map]; [|done].
      rewrite !zsum_cons. cbn [ar_Success ar_Error]. repeat first [lia|f_equal].
    + destruct (Node_Add n item) as [[n1 [e|]]|p]; cbn [mbind go_bind]; [| |done].
      * rewrite IH. destruct (server_add_all n1 items) as [[n' rs]|p]; cbn [mbind go_bind map]; [|done].
        rewrite !zsum_cons. cbn [ar_Success ar_Error]. repeat first [lia|f_equal].
      * rewrite IH. destruct (server_add_all n1 items) as [[n' rs]|p]; cbn [mbind go_bind map]; [|done].
        rewrite !zsum_cons. cbn [ar_Success ar_Error]. repeat first [lia|f_equal].
Qed.

Lemma success_counts rs : successes rs + failures rs = len rs ∧ 0 ≤ successes rs ∧ 0 ≤ failures rs.
Proof.
  unfold successes, failures. induction rs as [|r rs IH]; [by rewrite !zsum_nil|].
  rewrite !zsum_cons, len_cons. destruct (ar_Success r); lia.
Qed.

Lemma server_add_all_length n items n' rs : server_add_all n items = Ret (n', rs) → len rs = len items.
Proof.
  revert n rs. induction items as [|i items IH]; intros n rs; cbn [server_add_all]; [by intros [= <- <-]|].
  intros ([n1 r] & _ & Hr)%go_bind_Ret. apply go_bind_Ret in Hr as ([n2 rs'] & Hrs & [= <- <-]).
  apply IH in Hrs. lens.
Qed.
End facts.

(** * Theorems *)

Section theorems.
Context `{!JsonText, !JsonTextLaws, !TimeText, !TimeTextLaws, !Murmur3, !HRaft, !HRaftLaws}.

Lemma Add_None_contains f f' item : usable f → Add f item = Ret (f', None) → Contains f' item = Ret true.
Proof.
  intros Hu Hadd. destruct (Add_spec f item Hu) as (g & err & Hadd' & Hu' & [Hm Hk] & _ & Herr).
  rewrite Hadd in Hadd'. injection Hadd' as <- <-.
  rewrite Contains_spec by done. f_equal. apply bool_decide_eq_true. rewrite Forall_forall. intros i Hi.
  assert (idx_of f' item = idx_of f item) as Hidx by (unfold idx_of; by rewrite Hm, Hk). rewrite Hidx in Hi.
  pose proof (idx_of_nonneg f item i Hu Hi). rewrite Herr by done.
  pose proof (ctr_range _ (cbf_counters f) i (proj1 Hu)). unfold fctr in *. pose proof (occ_pos i _ Hi). lia.
Qed.

(** An [Add] handled by a started node completes; success means that the entry was executed on this
    node's filter. *)
Lemma server_Add_run n r item :
  n_raftNode n = Some r → usable (n_bloomFilter n) → item ≠ [] →
  ∃ n' resp, server_Add n item = Ret (n', resp) ∧ usable (n_bloomFilter n') ∧
    (ar_Success resp = true → ∃ f1 err, usable f1 ∧ Add f1 item = Ret (n_bloomFilter n', err)).
Proof.
  intros Hr Hu Hi. unfold server_Add. rewrite decide_False by done.
  destruct (propose_success "add" n item r eq_refl Hr Hu) as (n' & err & Hp & Hu' & Hok).
  unfold Node_Add. rewrite Hp. cbn [mbind go_bind]. destruct err as [e|]; eexists _, _; (split; [done|]); (split; [done|]); [done|].
  intros _. destruct Hok as (f1 & ix & tm & res & Hu1 & Hap); [done|]. rewrite Node_Apply_add in Hap.
  destruct (Add_spec f1 item Hu1) as (f2 & err & Hadd & _). rewrite Hadd in Hap. cbn in Hap. injection Hap as -> _.
  by exists f1, err.
Qed.

Lemma server_Contains_added n f1 item : item ≠ [] → usable f1 → Add f1 item = Ret (n_bloomFilter n, None) →
  server_Contains n item = Ret (mkContResp true "").
Proof.
  intros Hi Hu Hadd. unfold server_Contains, Node_Contains. rewrite decide_False by done.
  by rewrite (Add_None_contains f1 (n_bloomFilter n) item Hu Hadd).
Qed.

(** An [Add] handled by a started node completes, and a success response means that the entry was
    committed and executed on this node's filter; unless that execution hit a full counter, the item is
    then reported present. *)
Theorem server_Add_then_Contains n r item :
  n_raftNode n = Some r → usable (n_bloomFilter n) → item ≠ [] →
  ∃ n' resp, server_Add n item = Ret (n', resp) ∧ usable (n_bloomFilter n') ∧
    (ar_Success resp = true → ∃ f1 err, usable f1 ∧ Add f1 item = Ret (n_bloomFilter n', err) ∧
       (err = None → server_Contains n' item = Ret (mkContResp true ""))).
Proof.
  intros Hr Hu Hi. destruct (server_Add_run n r item Hr Hu Hi) as (n' & resp & Ha & Hu' & Hs).
  exists n', resp. split_and!; [done..|]. intros Hok. destruct (Hs Hok) as (f1 & err & Hu1 & Hadd).
  exists f1, err. split_and!; [done..|]. intros ->. by eapply server_Contains_added.
Qed.

(** A batch is the same as adding the items one call at a time: same node, same error texts by
    position, and the two counters count the successes and the failures. *)
Theorem server_BatchAdd_sequential n items :
  items ≠ [] → len items < 2 ^ 31 →
  server_BatchAdd n items =
    ('(n', rs) ← server_add_all n items;
     Ret (n', mkBatchResp (successes rs) (failures rs) (map ar_Error rs))) ∧
  (∀ n' rs, server_add_all n items = Ret (n', rs) → successes rs + failures rs = len items).
Proof.
  intros Hne Hlen. unfold server_BatchAdd. rewrite decide_False, server_batch_loop_all by done.
  destruct (server_add_all n items) as [[n' rs]|p] eqn:E; cbn [mbind go_bind]; [|by split].
  pose proof (server_add_all_length _ _ _ _ E) as Hl. pose proof (success_counts rs) as (Hsum & Hs & Hf). split.
  - rewrite !i32_small by lia. done.
  - intros n1 rs1 [= <- <-]. lia.
Qed.
End theorems.

(** A node that is not the leader refuses every write without touching its state, and names the
    leader it knows. *)
Theorem follower_refuses_writes `{RaftNode T} (n : T) item items :
  rn_IsLeader n = false → item ≠ [] → items ≠ [] → len items < 2 ^ 31 →
  service_Add n item = Ret (n, mkAddResp false (redirect (getLeaderInfo n))) ∧
  service_Remove n item = Ret (n, mkAddResp false (redirect (getLeaderInfo n))) ∧
  service_BatchAdd n items = Ret (n, mkBatchResp 0 (len items) [redirect (getLeaderInfo n)]).
Proof.
  intros Hl Hi Hits Hlen. unfold service_Add, service_Remove, service_BatchAdd. rewrite Hl.
  rewrite !decide_False by done. pose proof (len_nonneg items). rewrite i32_small by lia. done.
Qed.

(** An [Add] can be answered with success although the item is absent: the error of the filter stays in
    the library's future, which only reports that the entry was committed. *)
Theorem server_Add_success_but_absent `{JsonTextLaws, TimeTextLaws} :
  let _ := byte_sum in let _ := solo_raft true in
  ∃ (n n' : Node) item, usable (n_bloomFilter n) ∧
    server_Add n item = Ret (n', mkAddResp true "") ∧ server_Contains n' item = Ret (mkContResp false "").
Proof.
  intros Hm Hr. set (f := mkCBF 7 3 [0; 0; 255; 0; 0; 0; 0]).
  exists (mkNode "n1" 7000 f false (Some (1 : @Raft (solo_raft true)))), (mkNode "n1" 7000 f false (Some (2 : @Raft (solo_raft true)))), [byte_of 2].
  split_and!.
  - split; [|unfold params_ok; cbn; lia]. split; [done|]. cbn. repeat constructor; lia.
  - unfold server_Add. rewrite decide_False by done. unfold Node_Add, propose. cbn [n_raftNode].
    change (raft_Apply (1 : @Raft (solo_raft true)) ?d) with (2 : @Raft (solo_raft true), [mkLog 1 1 d], @None string). cbn [n_bloomFilter deliver].
    rewrite Node_Apply_add. vm_compute. reflexivity.
  - vm_compute. reflexivity.
Qed.

(** The state map of a [Node] has no leader address. *)
Lemma GetState_no_leader_address `{Murmur3, HRaft} (n : Node) : get_string (GetState n) "leader_address" = None.
Proof.
  unfold get_string, GetState. destruct (n_raftNode n); cbn; rewrite ?lookup_insert_ne by done;
    by rewrite lookup_singleton_ne.
Qed.

(** * Closed instances *)

Section witnesses.
#[local] Existing Instance tree_text.
#[local] Existing Instance tree_text_laws.
#[local] Existing Instance tree_time.
#[local] Existing Instance tree_time_laws.
#[local] Existing Instance byte_sum.
#[local] Instance solo_leader : HRaft := solo_raft true.
#[local] Instance solo_leader_laws : HRaftLaws := solo_raft_laws true.

Definition ex_node : Node := mkNode "n1" 7000 ex_f0 false (Some (1 : @Raft (solo_raft true))).

Lemma server_Add_then_Contains_witness :
  ∃ n' resp, server_Add ex_node ex_item = Ret (n', resp) ∧ usable (n_bloomFilter n') ∧
    (ar_Success resp = true → ∃ f1 err, usable f1 ∧ Add f1 ex_item = Ret (n_bloomFilter n', err) ∧
       (err = None → server_Contains n' ex_item = Ret (mkContResp true ""))).
Proof. apply (server_Add_then_Contains ex_node (1 : @Raft (solo_raft true))); [reflexivity|exact ex_usable|done]. Defined.

Lemma server_BatchAdd_sequential_witness :
  server_BatchAdd ex_node [ex_item; []] =
    ('(n', rs) ← server_add_all ex_node [ex_item; []];
     Ret (n', mkBatchResp (successes rs) (failures rs) (map ar_Error rs))) ∧
  (∀ n' rs, server_add_all ex_node [ex_item; []] = Ret (n', rs) → successes rs + failures rs = 2).
Proof. apply (server_BatchAdd_sequential ex_node [ex_item; []]); [done|unfold len; cbn; lia]. Defined.

Lemma server_Add_success_but_absent_witness :
  ∃ (n n' : Node) item, usable (n_bloomFilter n) ∧
    server_Add n item = Ret (n', mkAddResp true "") ∧ server_Contains n' item = Ret (mkContResp false "").
Proof. exact server_Add_success_but_absent. Defined.

(** A follower behind the interface. *)
#[local] Instance mock_follower : RaftNode unit := {|
  rn_Add n _ := Ret (n, None);
  rn_Remove n _ := Ret (n, None);
  rn_Contains _ _ := Ret false;
  rn_BatchAdd n l := Ret (n, len l, 0, []);
  rn_BatchContains _ l := Ret (map (λ _, false) l);
  rn_IsLeader _ := false;
  rn_GetState _ := {["leader" := AString "10.0.0.1:7000"]}
|}.

Lemma follower_refuses_writes_witness :
  service_Add tt [byte_of 1] = Ret (tt, mkAddResp false "not the leader, redirect to: 10.0.0.1:7000 ()") ∧
  service_Remove tt [byte_of 1] = Ret (tt, mkAddResp false "not the leader, redirect to: 10.0.0.1:7000 ()") ∧
  service_BatchAdd tt [[]] = Ret (tt, mkBatchResp 0 1 ["not the leader, redirect to: 10.0.0.1:7000 ()"%string]).
Proof.
  exact (follower_refuses_writes tt [byte_of 1] [[]] eq_refl ltac:(done) ltac:(done) ltac:(unfold len; cbn; lia)).
Defined.
End witnesses.
