(* ===== verification/Cluster.v ===== *)
(** A cluster of nodes: the handlers of [internal/grpc/server.go] and [Node] of
    [internal/raft/node.go] on several replicas.

    What the Raft library guarantees is built into the steps: there is one log of
    committed entries, it only grows, each replica is handed its entries in order,
    and the future of a proposal completes without an error when its entry is
    committed and the replica it was proposed on has been handed it.  The library may
    take a snapshot of a replica at any time, and hand the snapshot of one replica to
    another that lags behind it.  Everything else is the code's: what is proposed, what
    an entry does to the filter, what a snapshot holds and what restoring one does, and
    what a read answers.  A replica may lag behind the log.  After a restart without a
    snapshot it has the fresh filter of [main] and is handed the log again; with one
    [Start] never returns ([Lifecycle]) and the node answers nothing any more.  That the
    library drops entries a snapshot covers is left out. *)

From S2P Require Import Prelude GoBytes GoFmt Hash Counting CountingSpec CountingCodec.
From S2P Require Import WalCrypto WalFiles Json RaftFsm Node Service.
#[local] Open Scope Z_scope.

(** * Definitions *)

Record replica : Type := mkReplica { rp_filter : CountingBloomFilter; rp_applied : nat }.

(** A call of [Add] or [Remove]: where, what, and the index of its entry once it is
    committed. *)
Record call : Type := mkCallK { k_node : string; k_type : string; k_item : list byte; k_index : option nat }.

Record cluster : Type := mkCluster {
  k_log : list Log;
  k_replicas : gmap string replica;
  k_snaps : gmap string (nat * list byte);   (* the latest snapshot a node has on disk *)
  k_calls : gmap nat call;
  k_acked : list call        (* answered with success *)
}.

Section cluster.
Context `{JsonText, TimeText, Murmur3}.

(** The filter [main] gives a new node. *)
Context (f0 : CountingBloomFilter).

Definition proposal (c : call) (ix tm : Z) : Log := mkLog ix tm (Marshal (mkCommand (k_type c) (k_item c) zero_time)).

(** The library hands a replica its next entry. *)
Inductive delivery : cluster → cluster → Prop :=
  | delivered i r l f res log rs sn cs ak : rs !! i = Some r → log !! rp_applied r = Some l →
      Node_Apply l (rp_filter r) = Ret (f, res) →
      delivery (mkCluster log rs sn cs ak) (mkCluster log (<[i := mkReplica f (S (rp_applied r))]> rs) sn cs ak).

Inductive kstep : cluster → cluster → Prop :=
  (* a request reaches a node, which proposes; empty items are refused before that *)
  | k_call tid i ty x log rs sn cs ak : cs !! tid = None → is_Some (rs !! i) → ty = "add"%string ∨ ty = "remove"%string →
      x ≠ [] →
      kstep (mkCluster log rs sn cs ak) (mkCluster log rs sn (<[tid := mkCallK i ty x None]> cs) ak)
  (* its entry is committed *)
  | k_commit tid i ty x ix tm log rs sn cs ak : cs !! tid = Some (mkCallK i ty x None) →
      kstep (mkCluster log rs sn cs ak)
        (mkCluster (log ++ [proposal (mkCallK i ty x None) ix tm]) rs sn
           (<[tid := mkCallK i ty x (Some (Datatypes.length log))]> cs) ak)
  (* an entry nobody waits for: of a call that was given up, or of another program *)
  | k_other l log rs sn cs ak :
      kstep (mkCluster log rs sn cs ak) (mkCluster (log ++ [l]) rs sn cs ak)
  | k_delivery a b : delivery a b → kstep a b
  (* the future completes, and the handler answers success *)
  | k_ack tid i ty x ix r log rs sn cs ak : cs !! tid = Some (mkCallK i ty x (Some ix)) → rs !! i = Some r →
      (ix < rp_applied r)%nat →
      kstep (mkCluster log rs sn cs ak) (mkCluster log rs sn (delete tid cs) (mkCallK i ty x (Some ix) :: ak))
  (* the future fails, or the client goes away *)
  | k_fail tid log rs sn cs ak :
      kstep (mkCluster log rs sn cs ak) (mkCluster log rs sn (delete tid cs) ak)
  (* the library takes a snapshot of a replica *)
  | k_snapshot i r now log rs sn cs ak : rs !! i = Some r →
      kstep (mkCluster log rs sn cs ak)
        (mkCluster log rs (<[i := (rp_applied r, Persist now (Node_Snapshot (rp_filter r)))]> sn) cs ak)
  (* it sends the snapshot of [j] to [i], which lags behind it; the position moves when [Restore] succeeds *)
  | k_install i j p data r f e log rs sn cs ak : rs !! i = Some r → sn !! j = Some (p, data) → (rp_applied r < p)%nat →
      Node_Restore data (rp_filter r) = (f, e) →
      kstep (mkCluster log rs sn cs ak)
        (mkCluster log (<[i := mkReplica f (if e is None then p else rp_applied r)]> rs) sn cs ak)
  (* the process is killed and started again *)
  | k_restart i log rs sn cs ak : is_Some (rs !! i) → sn !! i = None →
      kstep (mkCluster log rs sn cs ak)
        (mkCluster log (<[i := mkReplica f0 0]> rs) sn (filter (λ tc, k_node tc.2 ≠ i) cs) ak)
  (* with a snapshot on disk it does not come up *)
  | k_hang i log rs sn cs ak : is_Some (rs !! i) → is_Some (sn !! i) →
      kstep (mkCluster log rs sn cs ak)
        (mkCluster log (delete i rs) sn (filter (λ tc, k_node tc.2 ≠ i) cs) ak).

Lemma k_deliver i r l f res log rs sn cs ak : rs !! i = Some r → log !! rp_applied r = Some l →
  Node_Apply l (rp_filter r) = Ret (f, res) →
  kstep (mkCluster log rs sn cs ak) (mkCluster log (<[i := mkReplica f (S (rp_applied r))]> rs) sn cs ak).
Proof. intros. eapply k_delivery, delivered; eauto. Qed.

(** The nodes of the cluster, started and with nothing committed. *)
Definition k_start (nodes : gset string) : cluster :=
  mkCluster [] (gset_to_gmap (mkReplica f0 0) nodes) ∅ ∅ [].

(** The operation of an entry. *)
Definition log_op (l : Log) : option op :=
  match UnmarshalCommand (log_Data l) with
  | Some c => if decide (cmd_Type c = "add") then Some (OpAdd (cmd_Item c))
              else if decide (cmd_Type c = "remove") then Some (OpRemove (cmd_Item c)) else None
  | None => None
  end.

#[export] Instance allowed_dec M o : Decision (allowed M o).
Proof. destruct o; cbn; apply _. Defined.

(** What an entry does to the counters of a filter with [m] counters and [k] hash functions,
    and what a log does.  A full counter stops an addition. *)
Definition entry_counts (m k : Z) (l : Log) (c c' : Z → Z) : Prop :=
  match log_op l with
  | Some (OpAdd x) => ∃ err, added c (indices_of x m k) c' err
  | Some (OpRemove x) => removed c (indices_of x m k) c'
  | _ => ∀ i, 0 ≤ i → c' i = c i
  end.

Fixpoint log_counts (m k : Z) (logs : list Log) (c c' : Z → Z) : Prop :=
  match logs with
  | [] => ∀ i, 0 ≤ i → c' i = c i
  | l :: logs => ∃ c1, entry_counts m k l c c1 ∧ log_counts m k logs c1 c'
  end.

(** The items present after some entries, [None] if one removes an absent item. *)
Fixpoint tally (logs : list Log) (f : CountingBloomFilter) (M : items) : option items :=
  match logs with
  | [] => Some M
  | l :: logs =>
      match log_op l with
      | None => tally logs f M
      | Some o =>
          if decide (allowed M o) then
            match exec f o with Ret (f', r) => tally logs f' (effect M o r) | Panic _ => None end
          else None
      end
  end.

(** A request served by replica [r] of a node with any identity and library. *)
Definition read_at `{HRaft} (n : Node) (r : replica) (x : list byte) : go ContainsResponse :=
  server_Contains (mkNode (n_nodeID n) (n_raftPort n) (rp_filter r) (n_tls n) (n_raftNode n)) x.
End cluster.

(** * The log and the replicas *)

Section theorems.
Context `{JsonTextLaws, TimeTextLaws, Murmur3}.
Context (f0 : CountingBloomFilter).

(** What executing an entry does to the counters. *)
Lemma Node_Apply_counts l f : usable f → ∃ f' res, Node_Apply l f = Ret (f', res) ∧ usable f' ∧ same_params f f' ∧
  entry_counts (cbf_m f) (cbf_k f) l (fctr f) (fctr f').
Proof.
  intros Hu. unfold Node_Apply, entry_counts, log_op. destruct (UnmarshalCommand _) as [c|]; [|by eexists f, _].
  case_decide; [|case_decide; [|by eexists f, _]].
  - destruct (Add_counters f (cmd_Item c) Hu) as (f' & err & -> & ? & ? & ?). cbn. eauto 10.
  - destruct (Remove_spec f (cmd_Item c) Hu) as (f' & -> & ? & ? & ?). cbn. eauto 10.
Qed.

Lemma deliver_counts logs f : usable f → ∃ f', deliver logs f = Ret f' ∧ usable f' ∧ same_params f f' ∧
  log_counts (cbf_m f) (cbf_k f) logs (fctr f) (fctr f').
Proof.
  revert f. induction logs as [|l logs IH]; intros f Hu; [by exists f|]. cbn [deliver log_counts].
  destruct (Node_Apply_counts l f Hu) as (f1 & res & -> & Hu1 & [Hm Hk] & Hc). cbn [mbind go_bind].
  destruct (IH f1 Hu1) as (f2 & -> & Hu2 & [Hm2 Hk2] & Hc2). exists f2. rewrite Hm, Hk in *.
  split_and!; [done..|by split; congruence|by exists (fctr f1)].
Qed.

Record kinv (st : cluster) : Prop := {
  ki_replica i r : k_replicas st !! i = Some r →
    (rp_applied r ≤ Datatypes.length (k_log st))%nat ∧
    deliver (take (rp_applied r) (k_log st)) f0 = Ret (rp_filter r);
  ki_snap i p data : k_snaps st !! i = Some (p, data) → ∃ now f, data = Persist now (Node_Snapshot f);
  ki_call tid c ix : k_calls st !! tid = Some c → k_index c = Some ix →
    ∃ i t, k_log st !! ix = Some (proposal c i t);
  ki_acked c : c ∈ k_acked st → ∃ ix i t, k_index c = Some ix ∧ k_log st !! ix = Some (proposal c i t)
}.

(** A step that leaves the replicas alone and only adds to the log. *)
Lemma kinv_frame st st' logs : kinv st → k_log st' = k_log st ++ logs → k_replicas st' = k_replicas st →
  k_snaps st' = k_snaps st →
  (∀ tid c ix, k_calls st' !! tid = Some c → k_index c = Some ix → k_calls st !! tid = Some c ∨
     ∃ i t, k_log st' !! ix = Some (proposal c i t)) →
  (∀ c, c ∈ k_acked st' → c ∈ k_acked st ∨ ∃ tid ix, k_calls st !! tid = Some c ∧ k_index c = Some ix) → kinv st'.
Proof.
  intros [Hr Hs Hc Ha] Hl Hrs Hsn Hcs Hak. split.
  - intros i r Hi. rewrite Hrs in Hi. destruct (Hr i r Hi) as [Hle Hd]. rewrite Hl, length_app. split; [lia|].
    by rewrite take_app_le.
  - intros i p data. rewrite Hsn. apply Hs.
  - intros tid c ix Ht Hix. destruct (Hcs tid c ix Ht Hix) as [Hold|?]; [|done].
    destruct (Hc tid c ix Hold Hix) as (i & t & Hlk). exists i, t. rewrite Hl. by apply lookup_app_l_Some.
  - intros c Hin. destruct (Hak c Hin) as [Hold|(tid & ix & Ht & Hix)].
    + destruct (Ha c Hold) as (ix & i & t & Hix & Hlk). exists ix, i, t. rewrite Hl. split; [done|].
      by apply lookup_app_l_Some.
    + destruct (Hc tid c ix Ht Hix) as (i & t & Hlk). exists ix, i, t. rewrite Hl. split; [done|].
      by apply lookup_app_l_Some.
Qed.

(** A step that changes replicas and forgets calls, but leaves log and snapshots alone. *)
Lemma kinv_replicas log rs rs' sn cs cs' ak : kinv (mkCluster log rs sn cs ak) → cs' ⊆ cs →
  (∀ i r, rs' !! i = Some r → rs !! i = Some r ∨ (rp_applied r ≤ Datatypes.length log)%nat ∧
     deliver (take (rp_applied r) log) f0 = Ret (rp_filter r)) →
  kinv (mkCluster log rs' sn cs' ak).
Proof.
  intros [Hr Hs Hc Ha] Hcs Hrs. split; cbn in *; [|done| |done].
  - intros i r Hi. destruct (Hrs i r Hi) as [?|?]; [by apply (Hr i)|done].
  - intros tid c ix Ht. apply (Hc tid). by eapply lookup_weaken.
Qed.

Lemma deliver_snoc logs l f f' f'' res : deliver logs f = Ret f' → Node_Apply l f' = Ret (f'', res) →
  deliver (logs ++ [l]) f = Ret f''.
Proof. intros Hd Ha. rewrite deliver_app, Hd. cbn [mbind go_bind deliver]. by rewrite Ha. Qed.

Lemma kinv_delivery a b : kinv a → delivery a b → kinv b.
Proof.
  intros Hi Hs. destruct Hs as [i r l f res log rs sn cs ak Hr Hl Ha]. eapply kinv_replicas; [exact Hi|done|].
  intros j r' [[<- <-]|[_ Hj]]%lookup_insert_Some; [right|by left]. cbn.
  destruct (ki_replica _ Hi i r Hr) as [_ Hd]. cbn in Hd. apply lookup_lt_Some in Hl as Hlt. split; [lia|].
  rewrite (take_S_r _ _ l) by done. by eapply deliver_snoc.
Qed.

(** A snapshot that is handed over is never restored: [Node.Restore] does not read it. *)
Lemma install_changes_nothing st i j p data r f e : kinv st → k_replicas st !! i = Some r →
  k_snaps st !! j = Some (p, data) → Node_Restore data (rp_filter r) = (f, e) →
  f = rp_filter r ∧ e = Some ErrInvalidData.
Proof.
  intros Hi Hr Hs. destruct (ki_snap _ Hi _ _ _ Hs) as (now & g & ->). rewrite Node_snapshot_unreadable.
  by intros [= <- <-].
Qed.

Lemma kinv_step a b : kinv a → kstep f0 a b → kinv b.
Proof.
  intros Hi Hs. destruct Hs as [tid i ty x log rs sn cs ak Hn Hex Hty Hx|tid i ty x ix tm log rs sn cs ak Ht|l log rs sn cs ak
    |a b Hd|tid i ty x ix r log rs sn cs ak Ht Hr Hlt|tid log rs sn cs ak|i r now log rs sn cs ak Hr
    |i j p data r f e log rs sn cs ak Hr Hsn Hlt Hre|i log rs sn cs ak Hex Hsn|i log rs sn cs ak Hex Hsn].
  - apply (kinv_frame _ _ [] Hi); cbn; [by rewrite app_nil_r|done|done| |by auto].
    intros t c ix [[_ <-]|[_ ?]]%lookup_insert_Some; [done|by left].
  - eapply (kinv_frame _ _ _ Hi); cbn; [reflexivity|done|done| |by auto].
    intros t c ix' [[_ <-]|[_ ?]]%lookup_insert_Some; [|by left]. intros [= <-]. right. exists ix, tm.
    by apply list_lookup_middle.
  - eapply (kinv_frame _ _ _ Hi); cbn; [reflexivity|..]; auto.
  - by eapply kinv_delivery.
  - apply (kinv_frame _ _ [] Hi); cbn; [by rewrite app_nil_r|done|done| |].
    + intros t c ix' [_ ?]%lookup_delete_Some _. by left.
    + intros c [->|?]%elem_of_cons; [right; by exists tid, ix|by left].
  - apply (kinv_frame _ _ [] Hi); cbn; [by rewrite app_nil_r|done|done| |by auto].
    intros t c ix' [_ ?]%lookup_delete_Some _. by left.
  - destruct Hi as [Hri Hsi Hc Hak]. split; cbn in *; [done| |done..].
    intros j p data [[_ [= <- <-]]|[_ ?]]%lookup_insert_Some; [by eexists _, _|by eapply Hsi].
  - destruct (install_changes_nothing _ i j p data r f e Hi Hr Hsn Hre) as [-> ->].
    eapply kinv_replicas; [exact Hi|done|]. intros i' r'.
    rewrite insert_id by (by destruct r). by left.
  - eapply kinv_replicas; [exact Hi|apply map_filter_subseteq|].
    intros j r' [[<- <-]|[_ Hj]]%lookup_insert_Some; [right|by left]. cbn. split; [lia|done].
  - eapply kinv_replicas; [exact Hi|apply map_filter_subseteq|]. intros j r' [_ ?]%lookup_delete_Some. by left.
Qed.

Lemma kinv_reachable nodes st : rtc (kstep f0) (k_start f0 nodes) st → kinv st.
Proof.
  intros Hr. assert (kinv (k_start f0 nodes)) as Hi.
  { split; cbn; [|done|done|by intros c ?%elem_of_nil]. intros i r [_ <-]%lookup_gset_to_gmap_Some. cbn. split; [lia|done]. }
  induction Hr as [|a b c Hab _ IH]; [done|]. apply IH. by eapply kinv_step.
Qed.

Lemma kinv_counts st i r : usable f0 → kinv st → k_replicas st !! i = Some r →
  usable (rp_filter r) ∧ same_params f0 (rp_filter r) ∧
  log_counts (cbf_m f0) (cbf_k f0) (take (rp_applied r) (k_log st)) (fctr f0) (fctr (rp_filter r)).
Proof.
  intros Hu Hi Hr. destruct (ki_replica _ Hi _ _ Hr) as [_ Hd].
  destruct (deliver_counts (take (rp_applied r) (k_log st)) f0 Hu) as (f & Hd' & ? & ? & ?). rewrite Hd in Hd'. by injection Hd' as <-.
Qed.

(** C7: Replicas agree, and hold what the log says.  With usable parameters, in every reachable state of the
    cluster, whatever was proposed, given up, delivered, snapshotted, handed over, killed
    and restarted: a replica has been handed a prefix of the log, and its counters are
    those of a fresh filter after the additions and removals of that prefix; a replica
    that was handed more entries is one that was handed fewer, after exactly the entries
    between; and with as many entries they have the same filter. *)
Theorem replicas_prefix nodes st i j ri rj : usable f0 → rtc (kstep f0) (k_start f0 nodes) st →
  k_replicas st !! i = Some ri → k_replicas st !! j = Some rj → (rp_applied ri ≤ rp_applied rj)%nat →
  (rp_applied rj ≤ Datatypes.length (k_log st))%nat ∧ same_params f0 (rp_filter ri) ∧
  log_counts (cbf_m f0) (cbf_k f0) (take (rp_applied ri) (k_log st)) (fctr f0) (fctr (rp_filter ri)) ∧
  log_counts (cbf_m f0) (cbf_k f0) (drop (rp_applied ri) (take (rp_applied rj) (k_log st)))
    (fctr (rp_filter ri)) (fctr (rp_filter rj)) ∧
  (rp_applied ri = rp_applied rj → rp_filter ri = rp_filter rj).
Proof.
  intros Hu Hi%kinv_reachable Hri Hrj Hle. destruct (ki_replica _ Hi _ _ Hri) as [_ Hdi].
  destruct (ki_replica _ Hi _ _ Hrj) as [Hlen Hdj]. destruct (kinv_counts st i ri Hu Hi Hri) as (Hui & Hpi & Hci).
  assert (deliver (drop (rp_applied ri) (take (rp_applied rj) (k_log st))) (rp_filter ri) = Ret (rp_filter rj)) as Hd.
  { rewrite <- (take_drop (rp_applied ri) (take (rp_applied rj) (k_log st))) in Hdj.
    rewrite deliver_app, take_take, Nat.min_l, Hdi in Hdj by done. exact Hdj. }
  split_and!; [done..| |].
  - destruct (deliver_counts (drop (rp_applied ri) (take (rp_applied rj) (k_log st))) (rp_filter ri) Hui) as (f & Hd' & _ & _ & Hc).
    rewrite Hd in Hd'. injection Hd' as <-. by destruct Hpi as [-> ->] in Hc.
  - intros Heq. rewrite Heq, drop_ge in Hd; [by injection Hd|]. apply firstn_le_length.
Qed.

(** ** Deliveries *)

(** How many entries the replicas still have to be handed. *)
Definition lag (st : cluster) : nat :=
  sum_list_with (λ ir : string * replica, Datatypes.length (k_log st) - rp_applied ir.2)%nat (map_to_list (k_replicas st)).

Lemma lag_lookup st i r : k_replicas st !! i = Some r →
  (Datatypes.length (k_log st) - rp_applied r ≤ lag st)%nat.
Proof.
  intros Hi. unfold lag. apply elem_of_map_to_list in Hi. induction (map_to_list (k_replicas st)) as [|x l IH]; [by apply elem_of_nil in Hi|].
  cbn [sum_list_with]. apply elem_of_cons in Hi as [<-|Hi]; [cbn; lia|specialize (IH Hi); lia].
Qed.

(** A delivery reduces the lag by one. *)
Lemma delivery_lag a b : delivery a b → k_log b = k_log a ∧ dom (k_replicas b) = dom (k_replicas a) ∧ lag a = S (lag b).
Proof.
  intros [i r l f res log rs sn cs ak Hr Hl _]. unfold lag. cbn. apply lookup_lt_Some in Hl. split; [done|]. split.
  { rewrite dom_insert_L. apply elem_of_dom_2 in Hr. set_solver. }
  rewrite <- (insert_id rs i r) at 1 by done. rewrite <- !(insert_delete_eq rs i).
  rewrite !map_to_list_insert by apply lookup_delete_eq. cbn. lia.
Qed.

Lemma delivery_possible st : usable f0 → kinv st → (0 < lag st)%nat → ∃ st', delivery st st'.
Proof.
  intros Hu Hi Hlag. assert (∃ i r, k_replicas st !! i = Some r ∧ (rp_applied r < Datatypes.length (k_log st))%nat) as (i & r & Hr & Hlt).
  { unfold lag in Hlag. assert (∀ i r, (i, r) ∈ map_to_list (k_replicas st) → k_replicas st !! i = Some r) as Hin
      by (intros ??; apply elem_of_map_to_list). induction (map_to_list (k_replicas st)) as [|[i r] l IH]; cbn in Hlag; [lia|].
    destruct (decide (rp_applied r < Datatypes.length (k_log st))%nat); [exists i, r; split; [by apply Hin; left|done]|].
    apply IH; [lia|]. intros ???. apply Hin. by right. }
  destruct (lookup_lt_is_Some_2 (k_log st) (rp_applied r) Hlt) as [l Hl]. destruct (kinv_counts st i r Hu Hi Hr) as (Hur & _).
  destruct (Node_Apply_counts l _ Hur) as (f & res & Ha & _). destruct st. eexists. by econstructor.
Qed.


(** Deliveries alone lead there. *)
Lemma deliver_all nodes st : usable f0 → rtc (kstep f0) (k_start f0 nodes) st →
  ∃ st', nsteps delivery (lag st) st st' ∧ lag st' = 0%nat.
Proof.
  intros Hu Hr. remember (lag st) as n eqn:Hn. revert st Hn Hr. induction n as [|n IH]; intros st Hn Hr; [by exists st; split; [constructor|]|].
  destruct (delivery_possible st Hu) as [st1 Hd]; [by eapply kinv_reachable|lia|]. destruct (delivery_lag _ _ Hd) as (_ & _ & Hlag).
  destruct (IH st1) as (st' & Hs & Hz); [lia|eapply rtc_r; [exact Hr|by apply k_delivery]|]. exists st'. split; [by eapply nsteps_l|done].
Qed.
End theorems.

(** * Visibility of answered writes *)

Section visibility.
Context `{JsonTextLaws, TimeTextLaws, Murmur3}.
Implicit Types (f : CountingBloomFilter) (logs : list Log) (M : items).

(** An entry does what its operation does. *)
Lemma Node_Apply_op l f : usable f → ∃ f' res, Node_Apply l f = Ret (f', res) ∧ usable f' ∧
  match log_op l with
  | Some o => ∃ r, exec f o = Ret (f', r)
  | None => f' = f
  end.
Proof.
  intros Hu. unfold Node_Apply, log_op. destruct (UnmarshalCommand _) as [c|]; [|by eauto].
  case_decide; [|case_decide; [|by eauto]].
  - destruct (Add_spec f (cmd_Item c) Hu) as (f' & err & Ha & ? & _). eexists _, _. rewrite Ha. cbn.
    split; [done|]. split; [done|]. rewrite Ha. cbn. by eexists.
  - destruct (Remove_spec f (cmd_Item c) Hu) as (f' & Ha & ? & _). eexists _, _. rewrite Ha. cbn.
    split; [done|]. split; [done|]. rewrite Ha. cbn. by eexists.
Qed.

Lemma proposal_op i ty x k t t' : ty = "add"%string ∨ ty = "remove"%string →
  log_op (proposal (mkCallK i ty x k) t t') = Some (if decide (ty = "add"%string) then OpAdd x else OpRemove x).
Proof.
  intros Hty. unfold log_op, proposal. cbn [log_Data k_type k_item].
  rewrite UnmarshalCommand_Marshal; [|by destruct Hty; subst|apply zero_year]. by destruct Hty; subst.
Qed.

(** The tally of a log is what its client has added and not removed. *)
Lemma tally_reach f1 logs f M M' : usable f → reach f1 f M → tally logs f M = Some M' →
  ∃ f', deliver logs f = Ret f' ∧ usable f' ∧ reach f1 f' M'.
Proof.
  revert f M. induction logs as [|l logs IH]; intros f M Hu Hr.
  { intros [= <-]. by exists f. }
  cbn [tally deliver]. destruct (Node_Apply_op l f Hu) as (f' & res & -> & Hu' & Hop). cbn [mbind go_bind].
  destruct (log_op l) as [o|]; [|subst f'; by apply IH]. destruct Hop as [r Hex]. case_decide as Ha; [|done].
  rewrite Hex. apply IH; [done|]. by eapply reach_step.
Qed.

Lemma tally_app l1 l2 f M M'' : usable f → tally (l1 ++ l2) f M = Some M'' →
  ∃ f' M', usable f' ∧ deliver l1 f = Ret f' ∧ tally l1 f M = Some M' ∧ tally l2 f' M' = Some M''.
Proof.
  revert f M. induction l1 as [|l l1 IH]; intros f M Hu; [intros; by exists f, M|].
  cbn [tally deliver app]. destruct (Node_Apply_op l f Hu) as (f' & res & -> & Hu' & Hop). cbn [mbind go_bind].
  destruct (log_op l) as [o|]; [|subst f'; by apply IH]. destruct Hop as [r Hex]. case_decide as Ha; [|done].
  rewrite Hex. by apply IH.
Qed.

(** An item stays as long as no entry removes it. *)
Lemma tally_keeps x logs f M M' : usable f → x ∈ M → (∀ l, l ∈ logs → log_op l ≠ Some (OpRemove x)) →
  tally logs f M = Some M' → x ∈ M'.
Proof.
  revert f M. induction logs as [|l logs IH]; intros f M Hu Hx Hno; [by intros [= <-]|].
  cbn [tally]. destruct (Node_Apply_op l f Hu) as (f' & res & _ & Hu' & Hop).
  assert (∀ l', l' ∈ logs → log_op l' ≠ Some (OpRemove x)) as Hno' by (intros ??; apply Hno; by right).
  destruct (log_op l) as [o|] eqn:Ho; [|subst f'; by apply IH]. destruct Hop as [r Hex]. case_decide as Ha; [|done].
  rewrite Hex. apply IH; [done| |done]. destruct o as [y|y|y]; cbn; [|destruct (decide (y = x)) as [->|Hne]|done].
  - destruct r as [[]| |]; multiset_solver.
  - by destruct (Hno l); [left|].
  - multiset_solver.
Qed.

(** An item whose entry was executed without a full counter, and that no later entry
    removes, is found. *)
Lemma read_visible `{HRaft} m k f0 log f i x ix kx a b n :
  params_ok m k → NewCountingBloomFilter m k = Ret f0 → deliver log f0 = Ret f → x ≠ [] →
  log !! ix = Some (proposal (mkCallK i "add" x kx) a b) → (∃ M, tally log f0 ∅ = Some M) →
  (∀ f1, deliver (take ix log) f0 = Ret f1 → ∃ f2, Add f1 x = Ret (f2, None)) →
  (∀ n l, (ix < n)%nat → log !! n = Some l → log_op l ≠ Some (OpRemove x)) →
  read_at n (mkReplica f (Datatypes.length log)) x = Ret (mkContResp true "").
Proof.
  intros Hp Hnew Hd Hx Hlog [M Ht] Hadd Hno.
  destruct (New_usable m k Hp) as (f0' & Hf0 & Hu & _). rewrite Hnew in Hf0. injection Hf0 as <-.
  assert (x ∈ M) as HxM.
  { pose proof Ht as Ht'. rewrite <- (take_drop_middle log ix _ Hlog) in Ht'.
    apply tally_app in Ht' as (f1 & M1 & Hu1 & Hd1 & _ & Ht'); [|done].
    cbn [tally] in Ht'. rewrite (proposal_op i "add" x kx a b) in Ht' by auto.
    change (if decide _ then OpAdd x else _) with (OpAdd x) in Ht'. rewrite decide_True in Ht' by done.
    destruct (Hadd f1 Hd1) as [f2 Hadd']. cbn [exec] in Ht'. change (cf_add f1 x) with (Add f1 x) in Ht'.
    rewrite Hadd' in Ht'. cbn [mbind go_bind effect] in Ht'.
    destruct (Add_spec f1 x Hu1) as (f2' & err & Ha & Hu2 & _). rewrite Hadd' in Ha. injection Ha as <- <-.
    eapply (tally_keeps x _ f2); [done| |intros l Hl|done]; [multiset_solver|].
    apply list_elem_of_lookup in Hl as [n' Hn']. rewrite lookup_drop in Hn'. apply (Hno (S ix + n')%nat); [lia|done]. }
  destruct (tally_reach f0 log f0 ∅ M Hu (reach_init _) Ht) as (f' & Hd' & _ & Hr'). rewrite Hd in Hd'.
  injection Hd' as <-. unfold read_at, server_Contains, Node_Contains. rewrite decide_False by done. cbn [n_bloomFilter rp_filter].
  assert (Contains f x = Ret true) as -> by (eapply counting_repr_contains; [by eapply counting_reach_repr|done]). done.
Qed.

(** C2: a write answered with success is visible on every replica that has caught up to it.
    Let the filter have usable parameters, and suppose that no entry a replica was handed removes an item
    that is absent at that point (removing an absent item lowers counters it shares with others, and can
    hide any of them), that the answered [Add] did not meet a full counter, and that nothing removed the
    item since.  Then a read on that replica, whoever led the cluster meanwhile and whatever was restarted,
    reports the item. *)
Theorem acked_add_visible `{HRaft} nodes m k f0 st i x ix j r M n :
  params_ok m k → NewCountingBloomFilter m k = Ret f0 → rtc (kstep f0) (k_start f0 nodes) st →
  mkCallK i "add" x (Some ix) ∈ k_acked st → k_replicas st !! j = Some r → (ix < rp_applied r)%nat → x ≠ [] →
  tally (take (rp_applied r) (k_log st)) f0 ∅ = Some M →
  (∀ f1, deliver (take ix (k_log st)) f0 = Ret f1 → ∃ f2, Add f1 x = Ret (f2, None)) →
  (∀ n l, (ix < n < rp_applied r)%nat → k_log st !! n = Some l → log_op l ≠ Some (OpRemove x)) →
  read_at n r x = Ret (mkContResp true "").
Proof.
  intros Hp Hnew Hreach%kinv_reachable Hack Hj Hlt Hx Ht Hadd Hno.
  destruct (ki_acked _ _ Hreach _ Hack) as (ix' & a & b & [= <-] & Hlog).
  destruct (ki_replica _ _ Hreach _ _ Hj) as [Hle Hd].
  replace r with (mkReplica (rp_filter r) (Datatypes.length (take (rp_applied r) (k_log st))))
    by (rewrite length_take, Nat.min_l by lia; by destruct r).
  eapply (read_visible m k f0 _ _ i x ix (Some ix) a b); [done..| |by exists M| |].
  - rewrite lookup_take_lt by lia. exact Hlog.
  - rewrite take_take, Nat.min_l by lia. exact Hadd.
  - intros n' l Hn'. rewrite lookup_take_Some. intros [Hl Hlt']. by apply (Hno n').
Qed.
End visibility.

(** * A handled call is a run *)

Section runs.
Context `{JsonTextLaws, TimeTextLaws, Murmur3, HRaft}.
Context (f0 : CountingBloomFilter).

Lemma other_entries logs st :
  rtc (kstep f0) st (mkCluster (k_log st ++ logs) (k_replicas st) (k_snaps st) (k_calls st) (k_acked st)).
Proof.
  revert st. induction logs as [|l logs IH]; intros [log rs sn cs ak]; cbn; [by rewrite app_nil_r|].
  eapply rtc_l; [apply (k_other f0 l)|]. specialize (IH (mkCluster (log ++ [l]) rs sn cs ak)). cbn in IH.
  by rewrite <- (assoc_L (++)) in IH.
Qed.

Lemma deliver_run logs pre i f f' rs sn cs ak : rs !! i = Some (mkReplica f (Datatypes.length pre)) →
  deliver logs f = Ret f' →
  rtc (kstep f0) (mkCluster (pre ++ logs) rs sn cs ak)
    (mkCluster (pre ++ logs) (<[i := mkReplica f' (Datatypes.length (pre ++ logs))]> rs) sn cs ak).
Proof.
  revert pre f rs. induction logs as [|l logs IH]; intros pre f rs Hi Hd.
  - cbn in Hd. injection Hd as <-. rewrite app_nil_r, insert_id by done. done.
  - cbn [deliver] in Hd. destruct (Node_Apply l f) as [[f1 res]|] eqn:Ha; [|done]. cbn [mbind go_bind] in Hd.
    eapply rtc_l; [eapply (k_deliver f0 i _ l f1 res); [exact Hi|by apply list_lookup_middle|exact Ha]|]. cbn.
    specialize (IH (pre ++ [l]) f1 (<[i := mkReplica f1 (S (Datatypes.length pre))]> rs)).
    rewrite <- !(assoc_L (++)), insert_insert_eq in IH. cbn [app] in IH. apply IH; [|done].
    rewrite lookup_insert_eq, length_app. cbn. do 2 f_equal. lia.
Qed.

(** [server_Add] is a run of the cluster.  When the library completes the proposal
    after handing the node some entries and its own, the handler answers success, and
    the steps of the cluster lead from the node's filter to the filter it leaves, with
    the same entries in the log and the call among the answered ones. *)
Theorem server_Add_is_run n r x r' before ix tm i tid st :
  n_raftNode n = Some r → x ≠ [] → usable (n_bloomFilter n) →
  raft_Apply r (Marshal (mkCommand "add" x zero_time)) =
    (r', before ++ [mkLog ix tm (Marshal (mkCommand "add" x zero_time))], None) →
  k_replicas st !! i = Some (mkReplica (n_bloomFilter n) (Datatypes.length (k_log st))) → k_calls st !! tid = None →
  ∃ n' st', server_Add n x = Ret (n', mkAddResp true "") ∧ rtc (kstep f0) st st' ∧
    k_log st' = k_log st ++ before ++ [mkLog ix tm (Marshal (mkCommand "add" x zero_time))] ∧
    k_replicas st' = <[i := mkReplica (n_bloomFilter n') (Datatypes.length (k_log st'))]> (k_replicas st) ∧
    k_calls st' = k_calls st ∧
    k_acked st' = mkCallK i "add" x (Some (Datatypes.length (k_log st ++ before))) :: k_acked st.
Proof.
  intros Hr Hx Hu Hap Hi Hn. set (entry := mkLog ix tm (Marshal (mkCommand "add" x zero_time))) in *.
  destruct (deliver_usable (before ++ [entry]) _ Hu) as (f' & Hd & _).
  destruct st as [log rs sn cs ak]. cbn in Hi, Hn.
  exists (mkNode (n_nodeID n) (n_raftPort n) f' (n_tls n) (Some r')), (mkCluster (log ++ before ++ [entry])
    (<[i := mkReplica f' (Datatypes.length (log ++ before ++ [entry]))]> rs) sn cs
    (mkCallK i "add" x (Some (Datatypes.length (log ++ before))) :: ak)).
  split.
  { unfold server_Add, Node_Add, propose. rewrite decide_False, Hr, Hap by done. cbn [mbind go_bind].
    by rewrite Hd. }
  split; [|done]. cbn [k_log k_replicas k_calls k_acked].
  etrans; [apply (other_entries before)|]. cbn.
  eapply rtc_l; [apply (k_call f0 tid i "add" x); [done|by eexists|by left|done]|].
  eapply rtc_l; [apply (k_commit f0 tid i "add" x ix tm); apply lookup_insert_eq|]. rewrite insert_insert_eq.
  rewrite <- (assoc_L (++)). etrans; [by eapply (deliver_run (before ++ [entry]) log)|]. apply rtc_once.
  rewrite <- (delete_insert_id cs tid (mkCallK i "add" x (Some (Datatypes.length (log ++ before))))) at 2 by done.
  eapply k_ack; [apply lookup_insert_eq|apply lookup_insert_eq|]. cbn. rewrite !length_app. cbn. lia.
Qed.
End runs.

(** * Instances, and a stale read *)

Section witnesses.
#[local] Existing Instance tree_text.
#[local] Existing Instance tree_text_laws.
#[local] Existing Instance tree_time.
#[local] Existing Instance tree_time_laws.
#[local] Existing Instance byte_sum.
#[local] Instance cl_leader : HRaft := solo_raft true.

(** Two nodes; an [Add] answered by the first, of which the second has not heard. *)
Definition cl_start : cluster := k_start ex_f0 {["a"; "b"]}.
Definition cl_call (k : option nat) : call := mkCallK "a" "add" ex_item k.
Definition cl_entry : Log := mkLog 1 1 (Marshal (mkCommand "add" ex_item zero_time)).
Definition cl_state (b : replica) : cluster :=
  mkCluster [cl_entry] {[ "a" := mkReplica ex_f1 1; "b" := b ]} ∅ ∅ [cl_call (Some 0%nat)].
Definition cl_node : Node := mkNode "b" 7000 ex_f0 false (Some (1 : @Raft (solo_raft true))).

Lemma cl_apply : Node_Apply cl_entry ex_f0 = Ret (ex_f1, None).
Proof. unfold cl_entry. by rewrite Node_Apply_add, ex_Add. Qed.

Lemma cl_replicas : k_replicas cl_start = {[ "a" := mkReplica ex_f0 0; "b" := mkReplica ex_f0 0 ]}.
Proof. vm_compute. reflexivity. Qed.

Lemma cl_answered : rtc (kstep ex_f0) cl_start (cl_state (mkReplica ex_f0 0)).
Proof.
  change cl_start with (mkCluster [] (k_replicas cl_start) ∅ ∅ []). rewrite cl_replicas.
  eapply rtc_l; [apply (k_call ex_f0 0 "a" "add" ex_item); [done|by eexists|by left|done]|].
  eapply rtc_l; [apply (k_commit ex_f0 0 "a" "add" ex_item 1 1); apply lookup_insert_eq|]. rewrite insert_insert_eq.
  eapply rtc_l; [eapply (k_deliver ex_f0 "a" (mkReplica ex_f0 0) cl_entry); [done|done|exact cl_apply]|].
  eapply rtc_l; [eapply (k_ack ex_f0 0 "a" "add" ex_item 0); [apply lookup_insert_eq|apply lookup_insert_eq|cbn; lia]|].
  rewrite insert_insert_eq, delete_insert_id by done. apply rtc_refl.
Qed.

Lemma cl_delivery : delivery (cl_state (mkReplica ex_f0 0)) (cl_state (mkReplica ex_f1 1)).
Proof.
  exact (delivered "b" (mkReplica ex_f0 0) cl_entry ex_f1 None [cl_entry]
    {[ "a" := mkReplica ex_f1 1; "b" := mkReplica ex_f0 0 ]} ∅ ∅ [cl_call (Some 0%nat)] eq_refl eq_refl cl_apply).
Qed.

Lemma cl_caught_up : rtc (kstep ex_f0) cl_start (cl_state (mkReplica ex_f1 1)).
Proof. etrans; [exact cl_answered|]. apply rtc_once, k_delivery, cl_delivery. Qed.

(** A read is answered from the local filter: after an answered [Add], another node
    that lags behind denies the item. *)
Theorem stale_read : ∃ st r, rtc (kstep ex_f0) cl_start st ∧ cl_call (Some 0%nat) ∈ k_acked st ∧
  k_replicas st !! "b"%string = Some r ∧ read_at cl_node r ex_item = Ret (mkContResp false "").
Proof.
  exists (cl_state (mkReplica ex_f0 0)), (mkReplica ex_f0 0). split; [exact cl_answered|].
  split; [by left|]. split; [done|]. vm_compute. reflexivity.
Qed.

Lemma replicas_prefix_witness :
  (1 ≤ 1)%nat ∧ same_params ex_f0 ex_f0 ∧ log_counts 7 3 [] (fctr ex_f0) (fctr ex_f0) ∧
  log_counts 7 3 [cl_entry] (fctr ex_f0) (fctr ex_f1) ∧ (0%nat = 1%nat → ex_f0 = ex_f1).
Proof.
  apply (replicas_prefix ex_f0 {["a"; "b"]} (cl_state (mkReplica ex_f0 0)) "b" "a" (mkReplica ex_f0 0) (mkReplica ex_f1 1)
    ex_usable cl_answered eq_refl eq_refl). cbn. lia.
Defined.


Lemma acked_add_visible_witness : read_at cl_node (mkReplica ex_f1 1) ex_item = Ret (mkContResp true "").
Proof.
  apply (acked_add_visible {["a"; "b"]} 7 3 ex_f0 (cl_state (mkReplica ex_f1 1)) "a" ex_item 0 "b" (mkReplica ex_f1 1)
    (∅ ⊎ {[+ ex_item +]})).
  - exact ex_params.
  - exact ex_New.
  - exact cl_caught_up.
  - by left.
  - done.
  - cbn. lia.
  - done.
  - cbn [rp_applied take k_log cl_state tally].
    pose proof (proposal_op "a" "add" ex_item None 1 1 ltac:(auto)) as Ho.
    change (log_op cl_entry = Some (OpAdd ex_item)) in Ho. rewrite Ho, decide_True by done. cbn [exec].
    change (cf_add ex_f0 ex_item) with (Add ex_f0 ex_item). by rewrite ex_Add.
  - intros f1 [= <-]. exists ex_f1. exact ex_Add.
  - cbn. intros n l Hn. lia.
Defined.

Lemma server_Add_is_run_witness : ∃ n' st', server_Add cl_node ex_item = Ret (n', mkAddResp true "") ∧
  rtc (kstep ex_f0) cl_start st' ∧ k_log st' = [cl_entry] ∧
  k_replicas st' = <["b" := mkReplica (n_bloomFilter n') (Datatypes.length (k_log st'))]> (k_replicas cl_start) ∧
  k_calls st' = ∅ ∧ k_acked st' = [mkCallK "b" "add" ex_item (Some 0%nat)].
Proof.
  apply (server_Add_is_run ex_f0 cl_node (1 : @Raft (solo_raft true)) ex_item 2 [] 1 1 "b" 0 cl_start);
    [done|done|exact ex_usable|done| |done].
  rewrite cl_replicas. done.
Defined.
End witnesses.
