(* ===== verification/Sdk.v ===== *)
(** [sdk/client.go]: the client library: connections, retries and leader
    redirection.

    A connection is the address it was dialled to.  The servers are a state
    [W] behind the generated client, the class [DBFServiceClient]; dialling is
    the argument [dial].  A call threads a state [S], which is [W] with the
    variables its closure captures.  Whether the context ends while the client
    waits before attempt [i + 1] is the argument [ctx_done i]. *)

From S2P Require Import Prelude GoBytes GoFmt Hash Counting CountingSpec CountingCodec.
From S2P Require Import WalCrypto WalFiles Json RaftFsm Grpc Node Service.
From Stdlib Require Import Ascii String.
#[local] Open Scope Z_scope.

(** * Errors and messages *)

Inductive sdk_error : Type :=
  | ENoAddresses
  | EConnect
  | EDial (addr : string)
  | ENoConnection
  | ERpc (text : string)                 (* an error of the gRPC call *)
  | ErrLeaderRedirect (Message : string)
  | EAnswer (text : string)              (* the server answered with an error *)
  | EPartial (successes failures : Z)
  | EExtract (Message : string)
  | ESwitch (e : sdk_error)
  | EContext.

(** [msg[:14]] compared with two spellings. *)
Definition isLeaderRedirect (msg : string) : bool :=
  if decide (Z.of_nat (String.length msg) < 14) then false
  else
    let prefix := String.substring 0 14 msg in
    bool_decide (prefix = "not the leader"%string) || bool_decide (prefix = "Not the leader"%string).

(** The scan for the parentheses: [start] is the last one opened, the first closed after it ends the loop. *)
Fixpoint scan_parens (i : nat) (start : option nat) (s : string) : option nat * option nat :=
  match s with
  | EmptyString => (start, None)
  | String c s' =>
      if decide (c = "("%char) then scan_parens (S i) (Some (S i)) s'
      else if decide (c = ")"%char ∧ start ≠ None) then (start, Some i)
      else scan_parens (S i) start s'
  end.

Definition extractLeaderAddress (errorMsg : string) : string :=
  match scan_parens 0 None errorMsg with
  | (Some start, Some stop) =>
      if decide (start < stop)%nat then String.substring start (stop - start) errorMsg else ""
  | _ => ""
  end.

(** * The client *)

Record ClientConfig : Type := mkClientConfig {
  Addresses : list string;
  APIKey : string;
  APISecret : string;
  MaxRetries : Z
}.

Definition DefaultClientConfig : ClientConfig := mkClientConfig [] "" "" 3.

Record Client : Type := mkClient {
  c_config : ClientConfig;
  c_client : option string;               (* the address of the current connection *)
  c_connections : gset string;
  c_leaderAddress : string
}.

Section Client.
Context (dial : string → bool).

Definition connect (c : Client) (address : string) : Client * option sdk_error :=
  if decide (address ∈ c_connections c) then
    (mkClient (c_config c) (Some address) (c_connections c) (c_leaderAddress c), None)
  else if dial address then
    (mkClient (c_config c) (Some address) ({[address]} ∪ c_connections c) (c_leaderAddress c), None)
  else (c, Some (EDial address)).

Fixpoint connect_first (c : Client) (addrs : list string) : Client * option sdk_error :=
  match addrs with
  | [] => (c, Some EConnect)
  | a :: addrs' =>
      match connect c a with
      | (c', None) => (c', None)
      | (c', Some _) => connect_first c' addrs'
      end
  end.

Definition connectToFirstAvailable (c : Client) : Client * option sdk_error :=
  connect_first c (Addresses (c_config c)).

Definition NewClient (config : ClientConfig) : result sdk_error Client :=
  if decide (Addresses config = []) then Err ENoAddresses
  else
    let config :=
      mkClientConfig (Addresses config) (APIKey config) (APISecret config)
        (if decide (MaxRetries config = 0) then 3 else MaxRetries config) in
    match connectToFirstAvailable (mkClient config None ∅ "") with
    | (c, None) => Ok c
    | (_, Some _) => Err EConnect
    end.

Definition switchToLeader (c : Client) (errorMsg : string) : Client * option sdk_error :=
  let leaderAddr := extractLeaderAddress errorMsg in
  if decide (leaderAddr = "") then (c, Some (EExtract errorMsg))
  else connect (mkClient (c_config c) (c_client c) (c_connections c) leaderAddr) leaderAddr.

Definition client_Close (c : Client) : Client :=
  mkClient (c_config c) None ∅ (c_leaderAddress c).

(** ** Retries *)

Section retry.
Context {S : Type} (ctx_done : Z → bool) (fn : string → S → S * option sdk_error).

(** [remaining] iterations of the loop are left, the next one is [attempt]. *)
Fixpoint retry_loop (remaining : nat) (attempt : Z) (lastErr : option sdk_error) (c : Client) (s : S)
  : Client * S * option sdk_error :=
  match remaining with
  | O => (c, s, lastErr)
  | Datatypes.S remaining' =>
      match c_client c with
      | None => (c, s, Some ENoConnection)
      | Some addr =>
          match fn addr s with
          | (s1, None) => (c, s1, None)
          | (s1, Some (ErrLeaderRedirect msg)) =>
              match switchToLeader c msg with
              | (c1, Some e) => (c1, s1, Some (ESwitch e))
              | (c1, None) => retry_loop remaining' (attempt + 1) (Some (ErrLeaderRedirect msg)) c1 s1
              end
          | (s1, Some err) =>
              if decide (attempt < MaxRetries (c_config c)) then
                if ctx_done attempt then (c, s1, Some EContext)
                else retry_loop remaining' (attempt + 1) (Some err) c s1
              else retry_loop remaining' (attempt + 1) (Some err) c s1
          end
      end
  end.

Definition executeWithRetry (c : Client) (s : S) : Client * S * option sdk_error :=
  retry_loop (Z.to_nat (MaxRetries (c_config c) + 1)) 0 None c s.
End retry.
End Client.

(** ** Operations *)

(** The generated client: a call may fail in transport, after which the state may or may not have changed. *)
Class DBFServiceClient (W : Type) : Type := {
  rpc_Add : string → list byte → W → W * result string AddResponse;
  rpc_Remove : string → list byte → W → W * result string RemoveResponse;
  rpc_Contains : string → list byte → W → W * result string ContainsResponse;
  rpc_BatchAdd : string → list (list byte) → W → W * result string BatchAddResponse;
  rpc_BatchContains : string → list (list byte) → W → W * result string BatchContainsResponse;
  rpc_GetStats : string → W → W * result string GetStatsResponse
}.

Section operations.
Context `{DBFServiceClient W} (dial : string → bool) (ctx_done : Z → bool).

Definition answer_error (resp : AddResponse) : option sdk_error :=
  if ar_Success resp then None
  else if isLeaderRedirect (ar_Error resp) then Some (ErrLeaderRedirect (ar_Error resp))
  else Some (EAnswer (ar_Error resp)).

Definition call_Add (key : string) (addr : string) (w : W) : W * option sdk_error :=
  match rpc_Add addr (bytes_of_string key) w with
  | (w', Err e) => (w', Some (ERpc e))
  | (w', Ok resp) => (w', answer_error resp)
  end.
Definition client_Add (key : string) (c : Client) (w : W) : Client * W * option sdk_error :=
  executeWithRetry dial ctx_done (call_Add key) c w.

Definition call_Remove (key : string) (addr : string) (w : W) : W * option sdk_error :=
  match rpc_Remove addr (bytes_of_string key) w with
  | (w', Err e) => (w', Some (ERpc e))
  | (w', Ok resp) => (w', answer_error resp)
  end.
Definition client_Remove (key : string) (c : Client) (w : W) : Client * W * option sdk_error :=
  executeWithRetry dial ctx_done (call_Remove key) c w.

(** The closure sets the captured [exists]. *)
Definition call_Contains (key : string) (addr : string) (s : W * bool) : (W * bool) * option sdk_error :=
  match rpc_Contains addr (bytes_of_string key) s.1 with
  | (w', Err e) => ((w', s.2), Some (ERpc e))
  | (w', Ok resp) =>
      if decide (cr_Error resp ≠ "") then ((w', s.2), Some (EAnswer (cr_Error resp)))
      else ((w', cr_Exists resp), None)
  end.
Definition client_Contains (key : string) (c : Client) (w : W) : Client * (W * bool) * option sdk_error :=
  executeWithRetry dial ctx_done (call_Contains key) c (w, false).

Definition call_BatchAdd (keys : list string) (addr : string) (w : W) : W * option sdk_error :=
  match rpc_BatchAdd addr (map bytes_of_string keys) w with
  | (w', Err e) => (w', Some (ERpc e))
  | (w', Ok resp) =>
      let redirected :=
        if decide (br_FailureCount resp = i32 (len keys)) then
          match br_Errors resp with
          | e :: _ => if isLeaderRedirect e then Some e else None
          | [] => None
          end
        else None in
      match redirected with
      | Some e => (w', Some (ErrLeaderRedirect e))
      | None =>
          if decide (0 < br_FailureCount resp)
          then (w', Some (EPartial (br_SuccessCount resp) (br_FailureCount resp)))
          else (w', None)
      end
  end.
Definition client_BatchAdd (keys : list string) (c : Client) (w : W) : Client * W * option sdk_error :=
  executeWithRetry dial ctx_done (call_BatchAdd keys) c w.

(** Results beyond the answer are left out; a repeated key keeps its last result. *)
Definition call_BatchContains (keys : list string) (addr : string) (s : W * gmap string bool)
  : (W * gmap string bool) * option sdk_error :=
  match rpc_BatchContains addr (map bytes_of_string keys) s.1 with
  | (w', Err e) => ((w', s.2), Some (ERpc e))
  | (w', Ok resp) =>
      if decide (bc_Error resp ≠ "") then ((w', s.2), Some (EAnswer (bc_Error resp)))
      else ((w', foldl (λ m '(k, b), <[k := b]> m) s.2 (zip keys (bc_Results resp))), None)
  end.
Definition client_BatchContains (keys : list string) (c : Client) (w : W)
  : Client * (W * gmap string bool) * option sdk_error :=
  executeWithRetry dial ctx_done (call_BatchContains keys) c (w, ∅).

Definition call_GetStats (addr : string) (s : W * option GetStatsResponse)
  : (W * option GetStatsResponse) * option sdk_error :=
  match rpc_GetStats addr s.1 with
  | (w', Err e) => ((w', s.2), Some (ERpc e))
  | (w', Ok resp) =>
      if decide (st_Error resp ≠ "") then ((w', s.2), Some (EAnswer (st_Error resp)))
      else ((w', Some resp), None)
  end.
Definition client_GetStatus (c : Client) (w : W) : Client * (W * option GetStatsResponse) * option sdk_error :=
  executeWithRetry dial ctx_done call_GetStats c (w, None).
End operations.

Definition createAuthMetadata `{Hmac256} (c : Client) (now : Z) (method : string) : string * Z * string :=
  let ts := now / 10 ^ 9 in
  (APIKey (c_config c), ts,
   base64_encode (hmac_sha256 (bytes_of_string (APISecret (c_config c)))
     (bytes_of_string (APIKey (c_config c) +:+ Sprintf_int ts +:+ method)))).

(** * Facts *)

(** ** Messages *)

Fixpoint no_parens (s : string) : bool :=
  match s with
  | EmptyString => true
  | String c s' => negb (bool_decide (c = "("%char)) && negb (bool_decide (c = ")"%char)) && no_parens s'
  end.

Lemma no_parens_inv c s : no_parens (String c s) = true → c ≠ "("%char ∧ c ≠ ")"%char ∧ no_parens s = true.
Proof.
  cbn. rewrite !andb_true_iff, !negb_true_iff, !bool_decide_eq_false. naive_solver.
Qed.

Lemma no_parens_app s t : no_parens (s ++ t) = no_parens s && no_parens t.
Proof. induction s as [|c s IH]; [done|]. change (no_parens (String c (s ++ t)) = no_parens (String c s) && no_parens t). cbn [no_parens]. by rewrite IH, !andb_assoc. Qed.

Lemma scan_parens_skip i st p s : no_parens p = true →
  scan_parens i st (p ++ s) = scan_parens (i + String.length p) st s.
Proof.
  revert i. induction p as [|c p IH]; intros i Hp; [by rewrite Nat.add_0_r|].
  apply no_parens_inv in Hp as (H1 & H2 & Hp).
  change (scan_parens i st (String c (p ++ s)) = scan_parens (i + String.length (String c p)) st s).
  cbn [scan_parens String.length]. rewrite decide_False by done. rewrite decide_False by (by intros [? _]).
  rewrite IH by done. f_equal. lia.
Qed.

(** The scan finds the one pair of parentheses. *)
Lemma scan_parens_pair p a s : no_parens p = true → no_parens a = true →
  scan_parens 0 None (p ++ String "(" (a ++ String ")" s)) =
    (Some (S (String.length p)), Some (S (String.length p) + String.length a)%nat).
Proof.
  intros Hp Ha. rewrite scan_parens_skip by done. cbn [scan_parens Nat.add]. rewrite decide_True by done.
  rewrite scan_parens_skip by done. cbn [scan_parens]. rewrite decide_False by done. by rewrite decide_True.
Qed.

Lemma substring_skip p s n : String.substring (String.length p) n (p ++ s) = String.substring 0 n s.
Proof. induction p as [|c p IH]; [done|]. exact IH. Qed.

Lemma substring_take a s : String.substring 0 (String.length a) (a ++ s) = a.
Proof.
  induction a as [|c a IH]; [by destruct s|].
  change (String c (String.substring 0 (String.length a) (a ++ s)) = String c a). by rewrite IH.
Qed.

Lemma extract_pair p a s : no_parens p = true → no_parens a = true →
  extractLeaderAddress (p ++ String "(" (a ++ String ")" s)) = a.
Proof.
  intros Hp Ha. unfold extractLeaderAddress. rewrite scan_parens_pair by done.
  case_decide as Hlt.
  - replace (S (String.length p) + String.length a - S (String.length p))%nat with (String.length a) by lia.
    assert (p ++ String "(" (a ++ String ")" s) = (p ++ "(") ++ (a ++ String ")" s))%string as ->
      by (by rewrite <-string_app_assoc).
    assert (S (String.length p) = String.length (p ++ "(")) as -> by (rewrite string_app_length; cbn; lia).
    by rewrite substring_skip, substring_take.
  - destruct a; [done|]. cbn in Hlt. lia.
Qed.

(** The address of a redirect is read back. *)
Lemma extract_redirect id addr : no_parens id = true → no_parens addr = true →
  extractLeaderAddress (redirect (id, addr)) = addr.
Proof.
  intros Hi Ha. unfold redirect. cbn [fst snd].
  assert ("not the leader, redirect to: " +:+ id +:+ " (" +:+ addr +:+ ")" =
    ("not the leader, redirect to: " ++ id ++ " ") ++ String "(" (addr ++ String ")" ""))%string as ->.
  { rewrite <-!string_app_assoc. done. }
  apply extract_pair; [|done]. by rewrite !no_parens_app, Hi.
Qed.

Lemma isLeaderRedirect_redirect l : isLeaderRedirect (redirect l) = true.
Proof.
  unfold isLeaderRedirect, redirect. rewrite decide_False.
  - reflexivity.
  - change 14 with (Z.of_nat 14). rewrite string_app_length. cbn [String.length]. lia.
Qed.

(** ** Runs of calls *)

Section runs.
Context {S : Type} (fn : string → S → S * option sdk_error).

Fixpoint run_calls (addrs : list string) (s : S) : S * list (option sdk_error) :=
  match addrs with
  | [] => (s, [])
  | a :: addrs' => let '(s1, e) := fn a s in let '(s2, es) := run_calls addrs' s1 in (s2, e :: es)
  end.

(** What a loop did: calls that all failed, and perhaps a last one that succeeded. *)
Definition loop_spec (n : Z) (s s' : S) (r lastErr : option sdk_error) : Prop :=
  ∃ addrs es, run_calls addrs s = (s', es) ∧ len addrs ≤ n ∧
    match r with
    | None => (∃ es', es = es' ++ [None] ∧ Forall (λ e, e ≠ None) es') ∨ (n = 0 ∧ lastErr = None)
    | Some _ => Forall (λ e, e ≠ None) es
    end.

Lemma loop_spec_done n s s' s1 a e : 0 ≤ n → fn a s = (s1, Some e) → s' = s1 →
  ∀ r l, r ≠ None → loop_spec (n + 1) s s' r l.
Proof.
  intros Hn Hfn -> r l Hr. exists [a], [Some e]. cbn [run_calls]. rewrite Hfn. split_and!; [done|lens|].
  destruct r; [|done]. by constructor.
Qed.

Lemma retry_loop_spec dial ctx_done rem att lastErr c s c' s' r :
  retry_loop dial ctx_done fn rem att lastErr c s = (c', s', r) →
  loop_spec (Z.of_nat rem) s s' r lastErr.
Proof.
  revert att lastErr c s. induction rem as [|rem IH]; intros att lastErr c s; cbn [retry_loop].
  { intros [= <- <- <-]. exists [], []. split_and!; [done|lens|]. destruct lastErr; [constructor|by right]. }
  rewrite Nat2Z.inj_succ, <-Z.add_1_r. destruct (c_client c) as [addr|].
  2: { intros [= <- <- <-]. exists [], []. split_and!; [done|lens|constructor]. }
  destruct (fn addr s) as [s1 [e|]] eqn:Hfn.
  2: { intros [= <- <- <-]. exists [addr], [None]. cbn [run_calls]. rewrite Hfn. split_and!; [done|lens|].
       left. exists []. by split; [|constructor]. }
  assert (∀ e' c1, retry_loop dial ctx_done fn rem (att + 1) (Some e') c1 s1 = (c', s', r) →
    loop_spec (Z.of_nat rem + 1) s s' r lastErr) as Hgo.
  { intros e' c1 Hl. destruct r as [r0|].
    - destruct (IH _ _ _ _ Hl) as (addrs & es & Hrun & Hlen & Hall). exists (addr :: addrs), (Some e :: es).
      cbn [run_calls]. rewrite Hfn, Hrun. split_and!; [done|lens|by constructor].
    - destruct (IH _ _ _ _ Hl) as (addrs & es & Hrun & Hlen & [(es' & -> & Hall)|[_ ?]]); [|done].
      exists (addr :: addrs), (Some e :: es' ++ [None]). cbn [run_calls]. rewrite Hfn, Hrun.
      split_and!; [done|lens|]. left. exists (Some e :: es'). split; [done|by constructor]. }
  assert (∀ c1 r1, r1 ≠ None → (c1, s1, r1) = (c', s', r) → loop_spec (Z.of_nat rem + 1) s s' r lastErr) as Hstop.
  { intros c1 r1 Hr1 [= <- <- <-]. eapply loop_spec_done; [lia|done|done|done]. }
  assert (∀ c1, (if decide (att < MaxRetries (c_config c))
      then if ctx_done att then (c1, s1, Some EContext) else retry_loop dial ctx_done fn rem (att + 1) (Some e) c1 s1
      else retry_loop dial ctx_done fn rem (att + 1) (Some e) c1 s1) = (c', s', r) →
    loop_spec (Z.of_nat rem + 1) s s' r lastErr) as Hwait.
  { intros c1. case_decide; [destruct (ctx_done att)|]; intros Heq; [by eapply (Hstop c1 (Some EContext))|eauto..]. }
  destruct e as [| | | | |msg| | | | |]; try by eapply Hwait.
  destruct (switchToLeader dial c msg) as [c1 [e|]]; [|eauto]. by apply (Hstop c1 (Some (ESwitch e))).
Qed.
End runs.

Lemma connect_config dial c a c' e : connect dial c a = (c', e) → c_config c' = c_config c.
Proof. unfold connect. repeat case_decide; [|destruct (dial a)]; by intros [= <- <-]. Qed.

Lemma connect_first_config dial addrs c c' e : connect_first dial c addrs = (c', e) → c_config c' = c_config c.
Proof.
  revert c. induction addrs as [|a addrs IH]; intros c; cbn [connect_first]; [by intros [= <- <-]|].
  destruct (connect dial c a) as [c1 [e1|]] eqn:E; apply connect_config in E as <-; [apply IH|by intros [= <- <-]].
Qed.

(** * Theorems *)

(** C23: retries are bounded and honest: a call makes at most [MaxRetries + 1] attempts; it reports success
    only if the last attempt succeeded, after failures only; it reports an error only if no attempt
    succeeded.  With a negative [MaxRetries] the loop is not entered: no attempt is made, and success is
    reported. *)
Theorem executeWithRetry_sound {S} dial ctx_done (fn : string → S → S * option sdk_error) c s c' s' r :
  executeWithRetry dial ctx_done fn c s = (c', s', r) →
  ∃ addrs es, run_calls fn addrs s = (s', es) ∧ len addrs ≤ Z.max 0 (MaxRetries (c_config c) + 1) ∧
    match r with
    | None => if decide (MaxRetries (c_config c) < 0) then es = []
              else ∃ es', es = es' ++ [None] ∧ Forall (λ e, e ≠ None) es'
    | Some _ => Forall (λ e, e ≠ None) es
    end.
Proof.
  unfold executeWithRetry. intros Hex. case_decide as Hn.
  { replace (Z.to_nat (MaxRetries (c_config c) + 1)) with 0%nat in Hex by lia. injection Hex as _ <- <-.
    exists [], []. split_and!; [done|lens|done]. }
  pose proof (retry_loop_spec _ _ _ _ _ _ _ _ _ _ _ Hex) as (addrs & es & Hrun & Hlen & Hr).
  exists addrs, es. split_and!; [done|lia|]. destruct r; [done|]. destruct Hr as [?|[? _]]; [done|lia].
Qed.

(** A negative [MaxRetries] passes the constructor, and then every operation reports success without
    having called a server: nothing is added, and every item is reported absent. *)
Theorem negative_retries_fake_success `{DBFServiceClient W} dial ctx_done config c key (w : W) :
  NewClient dial config = Ok c → MaxRetries config < 0 →
  client_Add dial ctx_done key c w = (c, w, None) ∧
  client_Remove dial ctx_done key c w = (c, w, None) ∧
  client_Contains dial ctx_done key c w = (c, (w, false), None).
Proof.
  intros Hnew Hneg. assert (MaxRetries (c_config c) = MaxRetries config) as Hmax.
  { unfold NewClient in Hnew. case_decide; [done|]. rewrite decide_False in Hnew by lia.
    destruct (connectToFirstAvailable dial _) as [c1 [e|]] eqn:E; [done|]. injection Hnew as ->.
    apply connect_first_config in E. by rewrite E. }
  unfold client_Add, client_Remove, client_Contains, executeWithRetry. rewrite Hmax.
  replace (Z.to_nat (MaxRetries config + 1)) with 0%nat by lia. done.
Qed.

(** A redirect is followed: after an answer that names the leader's address the client is connected to
    that address, if it can be dialled, and the next attempt goes there. *)
Theorem redirect_followed {S} dial ctx_done (fn : string → S → S * option sdk_error) c s s1 s2 addr id leader :
  0 < MaxRetries (c_config c) → c_client c = Some addr → dial leader = true →
  no_parens id = true → no_parens leader = true → leader ≠ "" →
  fn addr s = (s1, Some (ErrLeaderRedirect (redirect (id, leader)))) → fn leader s1 = (s2, None) →
  ∃ c', executeWithRetry dial ctx_done fn c s = (c', s2, None) ∧ c_client c' = Some leader ∧ c_leaderAddress c' = leader.
Proof.
  intros Hn Hc Hdial Hid Hl Hne Hf1 Hf2. unfold executeWithRetry.
  replace (Z.to_nat (MaxRetries (c_config c) + 1)) with (2 + Z.to_nat (MaxRetries (c_config c) - 1))%nat by lia.
  cbn [Nat.add retry_loop]. rewrite Hc, Hf1. unfold switchToLeader. rewrite extract_redirect, decide_False by done.
  unfold connect. cbn [c_connections c_config c_leaderAddress].
  destruct (decide (leader ∈ c_connections c)); rewrite ?Hdial; cbn [c_client]; rewrite Hf2; by eexists.
Qed.

(** No redirect from this repository's nodes can be followed: [Node.GetState] has no leader address, so
    the answer of a follower names none and the client gives up at the first attempt; the answer of
    [DBFServer] is not recognised as a redirect at all. *)
Theorem Node_redirect_fails `{RaftNode T, DBFServiceClient W, Murmur3, HRaft} dial ctx_done (n : T) (node : Node)
    c key addr (w w' : W) :
  rn_GetState n = GetState node → rn_IsLeader n = false → key ≠ "" → no_parens (Node_Leader node) = true →
  0 ≤ MaxRetries (c_config c) → c_client c = Some addr →
  (∀ n' resp, service_Add n (bytes_of_string key) = Ret (n', resp) → rpc_Add addr (bytes_of_string key) w = (w', Ok resp)) →
  (∃ e, client_Add dial ctx_done key c w = (c, w', Some (ESwitch e))) ∧
  ∀ e, isLeaderRedirect ("failed to add item: " +:+ e) = false.
Proof.
  intros Hst Hl Hk Hnp Hn Hc Hrpc. split.
  - assert (bytes_of_string key ≠ []) as Hkb.
    { intros Hb. apply Hk. by rewrite <-(string_of_bytes_of_string key), Hb. }
    specialize (Hrpc n (mkAddResp false (redirect (getLeaderInfo n)))).
    unfold service_Add in Hrpc. rewrite decide_False, Hl in Hrpc by done. specialize (Hrpc eq_refl).
    unfold client_Add, executeWithRetry.
    replace (Z.to_nat (MaxRetries (c_config c) + 1)) with (Datatypes.S (Z.to_nat (MaxRetries (c_config c)))) by lia.
    cbn [retry_loop]. rewrite Hc. unfold call_Add. rewrite Hrpc. unfold answer_error. cbn [ar_Success ar_Error].
    rewrite isLeaderRedirect_redirect. unfold switchToLeader.
    assert (extractLeaderAddress (redirect (getLeaderInfo n)) = "") as ->.
    { unfold getLeaderInfo. rewrite Hst, GetState_no_leader_address. apply extract_redirect; [|done].
      unfold get_string, GetState. destruct (n_raftNode node) eqn:E.
      - cbn. by rewrite lookup_insert_eq.
      - rewrite !lookup_insert_ne by done. by rewrite lookup_singleton_ne. }
    rewrite decide_True by done. by eexists.
  - intros e. unfold isLeaderRedirect. case_decide; [done|]. reflexivity.
Qed.

(** * A server whose answers can be lost *)

Section lossy.
Context `{Murmur3}.

(** The filter of the server, and how many answers the network still loses. *)
Definition lossy_server : Type := CountingBloomFilter * nat.

Definition lossy {A} (run : CountingBloomFilter → go (CountingBloomFilter * A)) (w : lossy_server)
  : lossy_server * result string A :=
  match run w.1 with
  | Panic _ => (w, Err "internal"%string)
  | Ret (f', a) =>
      match w.2 with
      | O => ((f', O), Ok a)
      | S n => ((f', n), Err "unavailable"%string)
      end
  end.

#[local] Instance lossy_client : DBFServiceClient lossy_server := {|
  rpc_Add _ item := lossy (λ f, '(f', err) ← Add f item; Ret (f', mkAddResp (bool_decide (err = None)) ""));
  rpc_Remove _ item := lossy (λ f, f' ← Remove f item; Ret (f', mkAddResp true ""));
  rpc_Contains _ item := lossy (λ f, b ← Contains f item; Ret (f, mkContResp b ""));
  rpc_BatchAdd _ items := lossy (λ f, Ret (f, mkBatchResp 0 (len items) []));
  rpc_BatchContains _ items := lossy (λ f, Ret (f, mkBContResp [] ""));
  rpc_GetStats _ := lossy (λ f, Ret (f, mkStats "" true "" "" 0 0 0 0 ""))
|}.

Definition ex_client (retries : Z) : Client :=
  mkClient (mkClientConfig ["s"%string] "" "" retries) (Some "s"%string) {["s"%string]} "".
End lossy.

(** Retrying is not safe for [Remove]: an item added twice and removed once by the client is gone when the
    answer to the first attempt was lost, because the server executes both attempts. *)
Theorem retried_Remove_removes_twice :
  let _ := byte_sum in
  ∃ f0 f1 f2 w', NewCountingBloomFilter 7 3 = Ret f0 ∧
    Add f0 (bytes_of_string "x") = Ret (f1, None) ∧ Add f1 (bytes_of_string "x") = Ret (f2, None) ∧
    client_Remove (H := lossy_client) (λ _, true) (λ _, false) "x" (ex_client 3) (f2, 1%nat) = (ex_client 3, w', None) ∧
    Contains w'.1 (bytes_of_string "x") = Ret false.
Proof.
  intros Hm. exists (mkCBF 7 3 [0; 0; 0; 0; 0; 0; 0]), (mkCBF 7 3 [0; 1; 1; 1; 0; 0; 0]),
    (mkCBF 7 3 [0; 2; 2; 2; 0; 0; 0]), (mkCBF 7 3 [0; 0; 0; 0; 0; 0; 0], 0%nat).
  split_and!; vm_compute; reflexivity.
Qed.

(** * Closed instances *)

Section witnesses.
#[local] Existing Instance byte_sum.
#[local] Existing Instance lossy_client.
#[local] Instance solo_follower : HRaft := solo_raft false.

Lemma executeWithRetry_sound_witness :
  ∃ addrs es, run_calls (call_Add "x") addrs (ex_f0, 2%nat) =
      ((client_Add (λ _, true) (λ _, false) "x" (ex_client 3) (ex_f0, 2%nat)).1.2, es) ∧
    len addrs ≤ 4 ∧ ∃ es', es = es' ++ [None] ∧ Forall (λ e, e ≠ None) es'.
Proof.
  apply (executeWithRetry_sound (λ _, true) (λ _, false) (call_Add "x") (ex_client 3) (ex_f0, 2%nat) (ex_client 3) _ None).
  vm_compute. reflexivity.
Defined.

Lemma negative_retries_fake_success_witness :
  client_Add (λ _, true) (λ _, false) "x" (ex_client (-1)) (ex_f0, 0%nat) = (ex_client (-1), (ex_f0, 0%nat), None) ∧
  client_Remove (λ _, true) (λ _, false) "x" (ex_client (-1)) (ex_f0, 0%nat) = (ex_client (-1), (ex_f0, 0%nat), None) ∧
  client_Contains (λ _, true) (λ _, false) "x" (ex_client (-1)) (ex_f0, 0%nat) = (ex_client (-1), ((ex_f0, 0%nat), false), None).
Proof.
  apply (negative_retries_fake_success (λ _, true) (λ _, false) (mkClientConfig ["s"%string] "" "" (-1)) (ex_client (-1)));
    [reflexivity|cbn; lia].
Defined.

(** A follower at "s" and the leader at "l". *)
Definition ex_fn (addr : string) (n : nat) : nat * option sdk_error :=
  if decide (addr = "l"%string) then (S n, None)
  else (n, Some (ErrLeaderRedirect (redirect ("n2"%string, "l"%string)))).

Lemma redirect_followed_witness :
  ∃ c', executeWithRetry (λ _, true) (λ _, false) ex_fn (ex_client 3) 0%nat = (c', 1%nat, None) ∧
    c_client c' = Some "l"%string ∧ c_leaderAddress c' = "l"%string.
Proof.
  apply (redirect_followed (λ _, true) (λ _, false) ex_fn (ex_client 3) 0%nat 0%nat 1%nat "s" "n2" "l");
    [cbn; lia|reflexivity|reflexivity|reflexivity|reflexivity|done|reflexivity|reflexivity].
Defined.

(** The state of a [Node] behind the interface, and a network that hands its answers on. *)
Definition ex_follower : Node := mkNode "n1" 7000 ex_f0 false (Some (1 : @Raft (solo_raft false))).
#[local] Instance node_state_only : RaftNode Node := {|
  rn_Add n _ := Ret (n, None);
  rn_Remove n _ := Ret (n, None);
  rn_Contains n x := Node_Contains n x;
  rn_BatchAdd n l := Ret (n, len l, 0, []);
  rn_BatchContains _ l := Ret (map (λ _, false) l);
  rn_IsLeader := IsLeader;
  rn_GetState := GetState
|}.
Definition ask {A} (r : go (Node * A)) (w : Node) : Node * result string A :=
  match r with Ret (n', a) => (n', Ok a) | Panic _ => (w, Err "internal"%string) end.
#[local] Instance node_client : DBFServiceClient Node := {|
  rpc_Add _ item w := ask (service_Add w item) w;
  rpc_Remove _ item w := ask (service_Remove w item) w;
  rpc_Contains _ item w := ask (r ← service_Contains w item; Ret (w, r)) w;
  rpc_BatchAdd _ items w := ask (service_BatchAdd w items) w;
  rpc_BatchContains _ items w := ask (r ← service_BatchContains w items; Ret (w, r)) w;
  rpc_GetStats _ w := (w, Ok (service_GetStats w))
|}.

Lemma Node_redirect_fails_witness :
  (∃ e, client_Add (W := Node) (λ _, true) (λ _, false) "x" (ex_client 3) ex_follower = (ex_client 3, ex_follower, Some (ESwitch e))) ∧
  ∀ e, isLeaderRedirect ("failed to add item: " +:+ e) = false.
Proof.
  apply (Node_redirect_fails (λ _, true) (λ _, false) ex_follower ex_follower (ex_client 3) "x" "s");
    [reflexivity|reflexivity|done|reflexivity|cbn; lia|reflexivity|].
  intros n' resp. cbn [rpc_Add node_client]. intros Heq. assert (n' = ex_follower) as ->.
  { vm_compute in Heq. by injection Heq as <- _. }
  by rewrite Heq.
Defined.
End witnesses.
