(* ===== verification/Managers.v ===== *)
(** [internal/raft/config.go], [state.go], [log.go] ([LogManager]),
    [election.go] and [replication.go]: the configuration check and the
    bookkeeping around the Raft library.

    The library is the class [RaftCluster]: the calls the managers make on it,
    with its state passed explicitly.  A manager whose [raftNode] is nil has no
    library state.  The loops that wait on a ticker are functions of what they
    observe at each tick, in order. *)

From S2P Require Import Prelude GoBytes GoFmt Hash Counting CountingSpec CountingCodec.
From S2P Require Import WalCrypto WalFiles Json RaftFsm Node.
#[local] Open Scope Z_scope.

(** * The library *)

Record Server : Type := mkServer { srv_ID : string; srv_Address : string; srv_Voter : bool }.
#[export] Instance Server_eq_dec : EqDecision Server.
Proof. solve_decision. Defined.

Class RaftCluster : Type := {
  Cluster : Type;
  rc_Apply : Cluster → list byte → Cluster * result string Z;         (* the index of the entry *)
  rc_AddVoter : Cluster → string → string → Cluster * option string;
  rc_RemoveServer : Cluster → string → Cluster * option string;
  rc_Configuration : Cluster → result string (list Server);
  rc_LastIndex : Cluster → Z;
  rc_CommitIndex : Cluster → Z;
  rc_State : Cluster → RaftState;
  rc_Leader : Cluster → string
}.

(** What the library documents: indices are [uint64], the log reaches at least as far as the commit index, an
    accepted [AddVoter] makes the server a voter, an accepted [RemoveServer] takes it out. *)
Class RaftClusterLaws `{RaftCluster} : Prop := {
  rc_index c : 0 ≤ rc_CommitIndex c ≤ rc_LastIndex c ∧ rc_LastIndex c < 2 ^ 64;
  rc_AddVoter_ok c id addr c' : rc_AddVoter c id addr = (c', None) →
    ∃ l, rc_Configuration c' = Ok l ∧ mkServer id addr true ∈ l ∧ (∀ s, s ∈ l → srv_ID s = id → srv_Voter s = true);
  rc_RemoveServer_ok c id c' : rc_RemoveServer c id = (c', None) →
    ∃ l, rc_Configuration c' = Ok l ∧ ∀ s, s ∈ l → srv_ID s ≠ id
}.

(** * config.go *)

Record RaftConfig : Type := mkConfig {
  cfg_NodeID : string;
  cfg_RaftPort : Z;
  cfg_DataDir : string;
  cfg_HeartbeatTimeout : Z;
  cfg_ElectionTimeout : Z;
  cfg_CommitTimeout : Z;
  cfg_SnapshotThreshold : Z;
  cfg_SnapshotInterval : Z;
  cfg_MaxPool : Z;
  cfg_Timeout : Z;
  cfg_Bootstrap : bool;
  cfg_UseInmemStore : bool;
  cfg_TLSEnabled : bool
}.

Inductive config_error : Type := ErrNodeIDRequired | ErrInvalidPort | ErrDataDirRequired.

Definition DefaultConfig : RaftConfig :=
  mkConfig "" 0 "" (1000 * 10 ^ 6) (1000 * 10 ^ 6) (50 * 10 ^ 6) 8192 (120 * 10 ^ 9) 3 (10 * 10 ^ 9) false false true.

Definition Validate (c : RaftConfig) : option config_error :=
  if decide (cfg_NodeID c = "") then Some ErrNodeIDRequired
  else if decide (cfg_RaftPort c ≤ 0 ∨ 65535 < cfg_RaftPort c) then Some ErrInvalidPort
  else if decide (cfg_DataDir c = "") then Some ErrDataDirRequired
  else None.

(** * state.go *)

Inductive NodeState : Type := StateFollower | StateCandidate | StateLeader | StateShutdown.

Definition NodeState_String (s : NodeState) : string :=
  match s with
  | StateFollower => "Follower" | StateCandidate => "Candidate" | StateLeader => "Leader" | StateShutdown => "Shutdown"
  end.

Definition ConvertRaftState (s : RaftState) : NodeState :=
  match s with
  | Follower => StateFollower | Candidate => StateCandidate | Leader => StateLeader | Shutdown => StateShutdown
  end.

Record StateManager : Type := mkState {
  sm_state : NodeState;
  sm_stateChangedAt : Z;
  sm_currentTerm : Z;
  sm_votedFor : string;
  sm_commitIndex : Z;
  sm_lastApplied : Z;
  sm_snapIndex : Z;
  sm_snapTerm : Z
}.

Definition NewStateManager (now : Z) : StateManager := mkState StateFollower now 0 "" 0 0 0 0.

Definition SetState (s : NodeState) (now : Z) (m : StateManager) : StateManager :=
  mkState s now (sm_currentTerm m) (sm_votedFor m) (sm_commitIndex m) (sm_lastApplied m) (sm_snapIndex m) (sm_snapTerm m).
Definition GetStateDuration (now : Z) (m : StateManager) : Z := now - sm_stateChangedAt m.
Definition SetCurrentTerm (t : Z) (m : StateManager) : StateManager :=
  mkState (sm_state m) (sm_stateChangedAt m) t (sm_votedFor m) (sm_commitIndex m) (sm_lastApplied m) (sm_snapIndex m) (sm_snapTerm m).
Definition SetVotedFor (c : string) (m : StateManager) : StateManager :=
  mkState (sm_state m) (sm_stateChangedAt m) (sm_currentTerm m) c (sm_commitIndex m) (sm_lastApplied m) (sm_snapIndex m) (sm_snapTerm m).
Definition SetCommitIndex (i : Z) (m : StateManager) : StateManager :=
  mkState (sm_state m) (sm_stateChangedAt m) (sm_currentTerm m) (sm_votedFor m) i (sm_lastApplied m) (sm_snapIndex m) (sm_snapTerm m).
Definition SetLastApplied (i : Z) (m : StateManager) : StateManager :=
  mkState (sm_state m) (sm_stateChangedAt m) (sm_currentTerm m) (sm_votedFor m) (sm_commitIndex m) i (sm_snapIndex m) (sm_snapTerm m).
Definition SetLastSnapshotIndex (i : Z) (m : StateManager) : StateManager :=
  mkState (sm_state m) (sm_stateChangedAt m) (sm_currentTerm m) (sm_votedFor m) (sm_commitIndex m) (sm_lastApplied m) i (sm_snapTerm m).
Definition SetLastSnapshotTerm (t : Z) (m : StateManager) : StateManager :=
  mkState (sm_state m) (sm_stateChangedAt m) (sm_currentTerm m) (sm_votedFor m) (sm_commitIndex m) (sm_lastApplied m) (sm_snapIndex m) t.

(** What a waiting [select] sees: a tick with the library's state, the deadline, or the end of the context. *)
Inductive wait_event (A : Type) : Type := Tick (a : A) | Deadline | CtxDone.
Arguments Tick {A} a.
Arguments Deadline {A}.
Arguments CtxDone {A}.

Section managers.
Context `{JsonText, TimeText, RaftCluster}.

(** * log.go, LogManager *)

Record LogStats : Type := mkLogStats {
  ls_TotalCommands : Z; ls_TotalAppends : Z; ls_TotalCommits : Z; ls_TotalFailures : Z;
  ls_LastCommandIndex : Z; ls_LastCommandTime : Z
}.

Record LogManager : Type := mkLogManager { lm_raftNode : option Cluster; lm_stats : LogStats }.

Definition NewLogManager : LogManager := mkLogManager None (mkLogStats 0 0 0 0 0 zero_time).
Definition lm_SetRaftNode (c : Cluster) (lm : LogManager) : LogManager := mkLogManager (Some c) (lm_stats lm).

Inductive manager_error : Type :=
  | ErrRaftNotStarted
  | ERaft (text : string)
  | ErrPeerNotFound
  | ErrReplicationTimeout
  | ErrLeaderElectionTimeout
  | ECtxDone.

Definition ApplyCommand (now : Z) (cmd : Command) (lm : LogManager) : LogManager * option manager_error :=
  match lm_raftNode lm with
  | None => (lm, Some ErrRaftNotStarted)
  | Some c =>
      let 'mkLogStats tc ta tm tf li lt := lm_stats lm in
      match rc_Apply c (Marshal cmd) with
      | (c', Err e) => (mkLogManager (Some c') (mkLogStats tc ta tm (i64 (tf + 1)) li lt), Some (ERaft e))
      | (c', Ok index) => (mkLogManager (Some c') (mkLogStats tc ta (i64 (tm + 1)) tf index now), None)
      end
  end.

Definition AddItem (now : Z) (item : list byte) (lm : LogManager) : LogManager * option manager_error :=
  ApplyCommand now (NewCommand now "add" item) lm.
Definition RemoveItem (now : Z) (item : list byte) (lm : LogManager) : LogManager * option manager_error :=
  ApplyCommand now (NewCommand now "remove" item) lm.

Definition GetLastIndex (lm : LogManager) : result manager_error Z :=
  match lm_raftNode lm with None => Err ErrRaftNotStarted | Some c => Ok (rc_LastIndex c) end.
Definition GetFirstIndex (lm : LogManager) : result manager_error Z :=
  match lm_raftNode lm with None => Err ErrRaftNotStarted | Some _ => Ok 0 end.

(** * election.go *)

Record ElectionStats : Type := mkElectionStats {
  es_TotalElections : Z; es_TotalVotesReceived : Z; es_TotalVotesCast : Z;
  es_LastElectionTime : Z; es_LastElectionTerm : Z; es_LeaderChanges : Z
}.

Record ElectionManager : Type := mkElection {
  em_raftNode : option Cluster;
  em_stats : ElectionStats;
  em_currentLeader : string;
  em_leaderChangedAt : Z;
  em_callback : bool                    (* is [onLeaderChange] set? *)
}.

Definition NewElectionManager : ElectionManager :=
  mkElection None (mkElectionStats 0 0 0 zero_time 0 0) "" zero_time false.

Definition em_SetRaftNode (c : Cluster) (em : ElectionManager) : ElectionManager :=
  mkElection (Some c) (em_stats em) (em_currentLeader em) (em_leaderChangedAt em) (em_callback em).
Definition SetOnLeaderChange (set : bool) (em : ElectionManager) : ElectionManager :=
  mkElection (em_raftNode em) (em_stats em) (em_currentLeader em) (em_leaderChangedAt em) set.

Definition em_with_stats (s : ElectionStats) (em : ElectionManager) : ElectionManager :=
  mkElection (em_raftNode em) s (em_currentLeader em) (em_leaderChangedAt em) (em_callback em).

Definition em_IsLeader (em : ElectionManager) : bool :=
  match em_raftNode em with None => false | Some c => bool_decide (rc_State c = Leader) end.

(** The ID returned is the address. *)
Definition GetLeader (em : ElectionManager) : string * string :=
  match em_raftNode em with None => (""%string, ""%string) | Some c => (rc_Leader c, rc_Leader c) end.

(** One tick, at time [now], with the leader [GetLeader] returned; [last] is the loop's variable.  The
    result has the call of the callback, if any. *)
Definition monitor_tick (now : Z) (leader last : string) (em : ElectionManager)
  : ElectionManager * string * option string :=
  if decide (leader ≠ last) then
    let 'mkElectionStats te vr vc lt tm lc := em_stats em in
    (mkElection (em_raftNode em) (mkElectionStats te vr vc lt tm (i64 (lc + 1))) leader now (em_callback em),
     leader, if em_callback em && bool_decide (leader ≠ "") then Some leader else None)
  else (em, last, None).

(** The loop, until the context ends: what each tick observes, and the callbacks made, in order. *)
Fixpoint MonitorLeaderChanges (ticks : list (Z * string)) (last : string) (em : ElectionManager)
  : ElectionManager * list string :=
  match ticks with
  | [] => (em, [])
  | (now, leader) :: ticks' =>
      let '(em1, last1, cb) := monitor_tick now leader last em in
      let '(em2, cbs) := MonitorLeaderChanges ticks' last1 em1 in
      (em2, match cb with Some l => l :: cbs | None => cbs end)
  end.

Fixpoint WaitForLeader (events : list (wait_event string)) : option (result manager_error string) :=
  match events with
  | [] => None                                   (* still waiting *)
  | CtxDone :: _ => Some (Err ECtxDone)
  | Deadline :: _ => Some (Err ErrLeaderElectionTimeout)
  | Tick leader :: events' => if decide (leader ≠ "") then Some (Ok leader) else WaitForLeader events'
  end.

Definition GetLeaderDuration (now : Z) (em : ElectionManager) : Z :=
  if decide (em_leaderChangedAt em = zero_time) then 0 else now - em_leaderChangedAt em.

Definition RecordVoteReceived (em : ElectionManager) : ElectionManager :=
  let 'mkElectionStats te vr vc lt tm lc := em_stats em in em_with_stats (mkElectionStats te (i64 (vr + 1)) vc lt tm lc) em.
Definition RecordVoteCast (em : ElectionManager) : ElectionManager :=
  let 'mkElectionStats te vr vc lt tm lc := em_stats em in em_with_stats (mkElectionStats te vr (i64 (vc + 1)) lt tm lc) em.
Definition RecordElection (now term : Z) (em : ElectionManager) : ElectionManager :=
  let 'mkElectionStats te vr vc lt tm lc := em_stats em in em_with_stats (mkElectionStats (i64 (te + 1)) vr vc now term lc) em.

(** * replication.go *)

Record PeerInfo : Type := mkPeerInfo {
  pi_ID : string; pi_Address : string; pi_LastContact : Z; pi_LastLogIndex : Z; pi_LastLogTerm : Z;
  pi_IsVoter : bool; pi_IsHealthy : bool; pi_ReplicationLag : Z
}.

Record ReplicationStats : Type := mkReplStats {
  rs_Total : Z; rs_Successful : Z; rs_Failed : Z
}.

Record ReplicationManager : Type := mkRepl {
  rm_raftNode : option Cluster;
  rm_stats : ReplicationStats;
  rm_peers : gmap string PeerInfo
}.

Definition NewReplicationManager : ReplicationManager := mkRepl None (mkReplStats 0 0 0) ∅.
Definition rm_SetRaftNode (c : Cluster) (rm : ReplicationManager) : ReplicationManager :=
  mkRepl (Some c) (rm_stats rm) (rm_peers rm).

Definition GetConfiguration (rm : ReplicationManager) : result manager_error (list Server) :=
  match rm_raftNode rm with
  | None => Err ErrRaftNotStarted
  | Some c => match rc_Configuration c with Ok l => Ok l | Err e => Err (ERaft e) end
  end.

Definition stats_ok (s : ReplicationStats) : ReplicationStats :=
  mkReplStats (i64 (rs_Total s + 1)) (i64 (rs_Successful s + 1)) (rs_Failed s).
Definition stats_failed (s : ReplicationStats) : ReplicationStats :=
  mkReplStats (rs_Total s) (rs_Successful s) (i64 (rs_Failed s + 1)).

Definition AddPeer (now : Z) (serverID address : string) (voter : bool) (rm : ReplicationManager)
  : ReplicationManager * option manager_error :=
  match rm_raftNode rm with
  | None => (rm, Some ErrRaftNotStarted)
  | Some c =>
      match rc_AddVoter c serverID address with
      | (c', Some e) => (mkRepl (Some c') (stats_failed (rm_stats rm)) (rm_peers rm), Some (ERaft e))
      | (c', None) =>
          (mkRepl (Some c') (stats_ok (rm_stats rm))
             (<[serverID := mkPeerInfo serverID address now 0 0 voter true 0]> (rm_peers rm)), None)
      end
  end.

Definition RemovePeer (serverID : string) (rm : ReplicationManager) : ReplicationManager * option manager_error :=
  match rm_raftNode rm with
  | None => (rm, Some ErrRaftNotStarted)
  | Some c =>
      match rc_RemoveServer c serverID with
      | (c', Some e) => (mkRepl (Some c') (stats_failed (rm_stats rm)) (rm_peers rm), Some (ERaft e))
      | (c', None) => (mkRepl (Some c') (stats_ok (rm_stats rm)) (delete serverID (rm_peers rm)), None)
      end
  end.

Definition GetPeerInfo (serverID : string) (rm : ReplicationManager) : result manager_error PeerInfo :=
  match rm_peers rm !! serverID with Some p => Ok p | None => Err ErrPeerNotFound end.
Definition GetAllPeers (rm : ReplicationManager) : gmap string PeerInfo := rm_peers rm.

(** [uint64] subtraction behind its guard. *)
Definition lag (lastIndex logIndex : Z) : Z :=
  if decide (logIndex < lastIndex) then u64 (lastIndex - logIndex) else 0.

Definition GetReplicationLag (serverID : string) (rm : ReplicationManager) : result manager_error Z :=
  match rm_peers rm !! serverID with
  | None => Err ErrPeerNotFound
  | Some p =>
      match rm_raftNode rm with
      | None => Err ErrRaftNotStarted
      | Some c => Ok (lag (rc_LastIndex c) (pi_LastLogIndex p))
      end
  end.

Fixpoint WaitForReplication (index : Z) (events : list (wait_event (option Cluster))) : option (option manager_error) :=
  match events with
  | [] => None
  | CtxDone :: _ => Some (Some ECtxDone)
  | Deadline :: _ => Some (Some ErrReplicationTimeout)
  | Tick None :: _ => Some (Some ErrRaftNotStarted)
  | Tick (Some c) :: events' => if decide (index ≤ rc_LastIndex c) then Some None else WaitForReplication index events'
  end.

Definition UpdatePeerContact (now : Z) (serverID : string) (logIndex logTerm : Z) (rm : ReplicationManager) : ReplicationManager :=
  match rm_peers rm !! serverID with
  | None => rm
  | Some p =>
      let l := match rm_raftNode rm with Some c => lag (rc_LastIndex c) logIndex | None => pi_ReplicationLag p end in
      mkRepl (rm_raftNode rm) (rm_stats rm)
        (<[serverID := mkPeerInfo (pi_ID p) (pi_Address p) now logIndex logTerm (pi_IsVoter p) true l]> (rm_peers rm))
  end.

Definition MarkPeerUnhealthy (serverID : string) (rm : ReplicationManager) : ReplicationManager :=
  match rm_peers rm !! serverID with
  | None => rm
  | Some p =>
      mkRepl (rm_raftNode rm) (rm_stats rm)
        (<[serverID := mkPeerInfo (pi_ID p) (pi_Address p) (pi_LastContact p) (pi_LastLogIndex p) (pi_LastLogTerm p)
                         (pi_IsVoter p) false (pi_ReplicationLag p)]> (rm_peers rm))
  end.
End managers.

(** * Theorems *)

(** [Validate] accepts exactly a named node with a data directory and a port from 1 to 65535; the default
    configuration is not accepted as it is. *)
Theorem Validate_spec c :
  (Validate c = None ↔ cfg_NodeID c ≠ "" ∧ 1 ≤ cfg_RaftPort c ≤ 65535 ∧ cfg_DataDir c ≠ "") ∧
  Validate DefaultConfig = Some ErrNodeIDRequired.
Proof.
  split; [|reflexivity]. unfold Validate. repeat case_decide; split; try done; try naive_solver lia.
Qed.

Section theorems.
Context `{!JsonText, !TimeText, !RaftCluster, !RaftClusterLaws}.

(** The leaders a monitor sees, without repetitions in a row. *)
Fixpoint changes (last : string) (l : list string) : list string :=
  match l with
  | [] => []
  | x :: l' => if decide (x ≠ last) then x :: changes x l' else changes last l'
  end.

(** The monitor reports every change it sees once and in order: the callbacks are the observed leaders
    without repetitions in a row and without losses of leadership, the counter counts all changes, and the
    current leader is the last one observed. *)
Theorem MonitorLeaderChanges_spec ticks last (em em' : ElectionManager) cbs :
  em_callback em = true → em_currentLeader em = last →
  0 ≤ es_LeaderChanges (em_stats em) → es_LeaderChanges (em_stats em) + len ticks < 2 ^ 63 →
  MonitorLeaderChanges ticks last em = (em', cbs) →
  cbs = filter (λ l, l ≠ ""%string) (changes last (map snd ticks)) ∧
  es_LeaderChanges (em_stats em') = es_LeaderChanges (em_stats em) + len (changes last (map snd ticks)) ∧
  em_currentLeader em' = default last (list.last (map snd ticks)).
Proof.
  revert last em em' cbs. induction ticks as [|[now leader] ticks IH]; intros last em em' cbs Hcb Hcur Hpos Hlt.
  { cbn. intros [= <- <-]. split_and!; [done|lens|done]. }
  cbn [MonitorLeaderChanges]. unfold monitor_tick.
  assert (default last (list.last (leader :: map snd ticks)) = default leader (list.last (map snd ticks))) as Hlast.
  { destruct (map snd ticks) as [|y l] eqn:E; [done|]. rewrite last_cons_cons.
    destruct (list.last (y :: l)) eqn:E2; [done|]. by apply last_None in E2. }
  cbn [map snd changes]. rewrite Hlast. case_decide as Hne.
  - destruct em as [rn [te vr vc lt tm lc] cl ca hc]. cbn [em_callback em_currentLeader em_stats es_LeaderChanges em_raftNode andb] in *. subst hc cl.
    cbn [andb].
    destruct (MonitorLeaderChanges ticks leader _) as [em2 cbs2] eqn:E. intros [= <- <-].
    apply IH in E as (-> & Hn & Hl); [|done|done|cbn; rewrite i64_small; lens..].
    cbn in Hn. rewrite i64_small in Hn by lens. split_and!; [|rewrite Hn; lens|done].
    rewrite filter_cons. case_bool_decide; by case_decide.
  - subst leader.
    destruct (MonitorLeaderChanges ticks last em) as [em2 cbs2] eqn:E. intros [= <- <-].
    apply IH in E as (-> & Hn & Hl); [|done..|lens]. done.
Qed.

(** A peer's lag is the distance from its last known entry to the end of the leader's log, and 0 when it
    is ahead: the subtraction never wraps, and recording a contact stores the same number. *)
Theorem replication_lag_bounds now id logIndex logTerm (rm : ReplicationManager) c p :
  rm_raftNode rm = Some c → rm_peers rm !! id = Some p → 0 ≤ logIndex < 2 ^ 64 →
  let rm' := UpdatePeerContact now id logIndex logTerm rm in
  GetReplicationLag id rm' = Ok (Z.max 0 (rc_LastIndex c - logIndex)) ∧
  ∃ p', rm_peers rm' !! id = Some p' ∧ pi_ReplicationLag p' = Z.max 0 (rc_LastIndex c - logIndex) ∧
    0 ≤ pi_ReplicationLag p' ≤ rc_LastIndex c.
Proof.
  intros Hr Hp Hi rm'. destruct (rc_index c) as [Hc Hmax].
  assert (lag (rc_LastIndex c) logIndex = Z.max 0 (rc_LastIndex c - logIndex)) as Hlag.
  { unfold lag. case_decide; [rewrite u64_small|]; lia. }
  unfold rm', UpdatePeerContact, GetReplicationLag. rewrite Hp, Hr. cbn [rm_peers rm_raftNode].
  rewrite lookup_insert_eq. cbn. rewrite Hlag. split; [done|]. eexists. split; [done|]. cbn. lia.
Qed.

(** The [voter] flag is not passed to the library: a peer added as a non-voter becomes a voting member of
    the cluster, while the manager records it as a non-voter. *)
Theorem AddPeer_ignores_voter now id addr (rm rm' : ReplicationManager) :
  AddPeer now id addr false rm = (rm', None) →
  ∃ l p, GetConfiguration rm' = Ok l ∧ mkServer id addr true ∈ l ∧
    GetPeerInfo id rm' = Ok p ∧ pi_IsVoter p = false.
Proof.
  unfold AddPeer. destruct (rm_raftNode rm) as [c|]; [|done].
  destruct (rc_AddVoter c id addr) as [c' [e|]] eqn:E; [done|]. intros [= <-].
  apply rc_AddVoter_ok in E as (l & Hl & Hin & _). unfold GetConfiguration, GetPeerInfo. cbn. rewrite Hl, lookup_insert_eq.
  by eexists _, _.
Qed.

(** [WaitForReplication] does not wait for the commit: it reports completion as soon as the local log
    reaches the index, whether or not any other server has the entry. *)
Theorem WaitForReplication_uncommitted c index :
  rc_CommitIndex c < index ≤ rc_LastIndex c →
  WaitForReplication index [Tick (Some c)] = Some None.
Proof. intros [_ Hi]. cbn. by rewrite decide_True. Qed.
End theorems.

(** * Closed instances *)

Section witnesses.
#[local] Existing Instance tree_text.
#[local] Existing Instance tree_time.

(** A library with a log length, a commit index and a configuration. *)
#[local] Instance toy_cluster : RaftCluster := {|
  Cluster := nat * nat * list Server;
  rc_Apply c _ := let '(len_, com, l) := c in ((S len_, com, l), Ok (Z.of_nat (S len_)));
  rc_AddVoter c id addr :=
    let '(n, com, l) := c in ((n, com, mkServer id addr true :: filter (λ s, srv_ID s ≠ id) l), None);
  rc_RemoveServer c id := let '(n, com, l) := c in ((n, com, filter (λ s, srv_ID s ≠ id) l), None);
  rc_Configuration c := Ok c.2;
  rc_LastIndex c := Z.min (Z.of_nat c.1.1) (2 ^ 64 - 1);
  rc_CommitIndex c := Z.min (Z.of_nat (min c.1.1 c.1.2)) (2 ^ 64 - 1);
  rc_State _ := Leader;
  rc_Leader _ := "127.0.0.1:7000"%string
|}.

#[local] Instance toy_cluster_laws : RaftClusterLaws.
Proof.
  split; cbn.
  - intros [[n com] l]. cbn. lia.
  - intros [[n com] l] id addr c' [= <-]. eexists. split; [done|]. split; [left|].
    intros s [->|[? _]%list_elem_of_filter]%elem_of_cons; [done|]. cbn in *. done.
  - intros [[n com] l] id c' [= <-]. eexists. split; [done|]. intros s [? _]%list_elem_of_filter. done.
Qed.

Definition ex_cluster : Cluster := (5%nat, 3%nat, []).
Definition ex_rm : ReplicationManager := rm_SetRaftNode ex_cluster NewReplicationManager.
Definition ex_em : ElectionManager := SetOnLeaderChange true NewElectionManager.

Lemma MonitorLeaderChanges_spec_witness :
  (MonitorLeaderChanges [(1, "a"%string); (2, "a"%string); (3, ""%string); (4, "b"%string)] "" ex_em).2 = ["a"%string; "b"%string] ∧
  es_LeaderChanges (em_stats (MonitorLeaderChanges [(1, "a"%string); (2, "a"%string); (3, ""%string); (4, "b"%string)] "" ex_em).1) = 0 + 3 ∧
  em_currentLeader (MonitorLeaderChanges [(1, "a"%string); (2, "a"%string); (3, ""%string); (4, "b"%string)] "" ex_em).1 = "b"%string.
Proof.
  exact (MonitorLeaderChanges_spec [(1, "a"%string); (2, "a"%string); (3, ""%string); (4, "b"%string)] "" ex_em
    (MonitorLeaderChanges [(1, "a"%string); (2, "a"%string); (3, ""%string); (4, "b"%string)] "" ex_em).1
    (MonitorLeaderChanges [(1, "a"%string); (2, "a"%string); (3, ""%string); (4, "b"%string)] "" ex_em).2
    eq_refl eq_refl ltac:(cbn; lia) ltac:(unfold len; cbn; lia) eq_refl).
Defined.

Lemma replication_lag_bounds_witness :
  let rm' := UpdatePeerContact 9 "p" 2 1 (AddPeer 8 "p" "h:1" true ex_rm).1 in
  GetReplicationLag "p" rm' = Ok 3 ∧
  ∃ p', rm_peers rm' !! "p"%string = Some p' ∧ pi_ReplicationLag p' = 3 ∧ 0 ≤ pi_ReplicationLag p' ≤ 5.
Proof.
  exact (replication_lag_bounds 9 "p" 2 1 (AddPeer 8 "p" "h:1" true ex_rm).1 _ _ eq_refl eq_refl ltac:(lia)).
Defined.

Lemma AddPeer_ignores_voter_witness :
  ∃ l p, GetConfiguration (AddPeer 8 "p" "h:1" false ex_rm).1 = Ok l ∧ mkServer "p" "h:1" true ∈ l ∧
    GetPeerInfo "p" (AddPeer 8 "p" "h:1" false ex_rm).1 = Ok p ∧ pi_IsVoter p = false.
Proof. exact (AddPeer_ignores_voter 8 "p" "h:1" ex_rm _ eq_refl). Defined.

Lemma WaitForReplication_uncommitted_witness : WaitForReplication 5 [Tick (Some ex_cluster)] = Some None.
Proof. apply (WaitForReplication_uncommitted ex_cluster 5). cbn. lia. Defined.
End witnesses.
