(* ===== verification/Status.v ===== *)
(** What the managers of [internal/raft] report: the status maps and the getters of
    [state.go], [election.go], [replication.go], [snapshot.go], [log.go] and [fsm.go], and
    the part of [SnapshotManager] that asks the snapshot store of the Raft library.

    A status is a map from keys to values of [GoAny].  Durations are printed as the
    package [time] does; the text of a [time.Time] depends on the zone of the machine
    and is the class [ClockText].  Go visits the peers in any order: the order is an
    argument. *)

From S2P Require Import Prelude GoBytes GoFmt Hash Counting CountingSpec CountingCodec.
From S2P Require Import WalCrypto WalFiles Json GoAny RaftFsm RaftSnapshot Node Managers.
From Stdlib Require Import Ascii String.
#[local] Open Scope Z_scope.

(** * Definitions *)

(** ** Texts *)

Class ClockText : Type := Time_String : Z → string.

(** [fmtFrac]: the last [prec] digits of [v] as a fraction, without trailing zeros, and
    what is left of [v]. *)
Fixpoint fmtFrac (prec : nat) (v : Z) (print : bool) (acc : string) : string * Z :=
  match prec with
  | O => (if print then String "." acc else acc, v)
  | S prec' =>
      let digit := v mod 10 in
      let print := print || bool_decide (digit ≠ 0) in
      fmtFrac prec' (v / 10) print (if print then String (digit_char digit) acc else acc)
  end.

Definition Duration_abs (u : Z) : string :=
  if decide (u < 10 ^ 9) then
    if decide (u = 0) then "0s"
    else
      let '(prec, unit_) :=
        if decide (u < 10 ^ 3) then (0%nat, "ns")
        else if decide (u < 10 ^ 6) then (3%nat, "µs") else (6%nat, "ms") in
      let '(frac, u) := fmtFrac prec u false unit_ in Sprintf_d u +:+ frac
  else
    let '(frac, u) := fmtFrac 9 u false "s" in
    let secs := Sprintf_d (u mod 60) +:+ frac in
    let u := u / 60 in
    if decide (u = 0) then secs
    else
      let mins := Sprintf_d (u mod 60) +:+ "m" +:+ secs in
      let u := u / 60 in
      if decide (u = 0) then mins else Sprintf_d u +:+ "h" +:+ mins.

(** [Duration.String]; the absolute value of the least duration is taken on [uint64]. *)
Definition Duration_String (d : Z) : string :=
  if decide (d < 0) then "-" +:+ Duration_abs (u64 (- d)) else Duration_abs d.

(** [Time.Sub] stops at the ends of [Duration]. *)
Definition Since (now t : Z) : Z := Z.max (- 2 ^ 63) (Z.min (now - t) (2 ^ 63 - 1)).

(** ** state.go *)

Definition sm_GetState (m : StateManager) : NodeState := sm_state m.
Definition GetCurrentTerm (m : StateManager) : Z := sm_currentTerm m.
Definition GetVotedFor (m : StateManager) : string := sm_votedFor m.
Definition GetCommitIndex (m : StateManager) : Z := sm_commitIndex m.
Definition GetLastApplied (m : StateManager) : Z := sm_lastApplied m.
Definition GetLastSnapshotIndex (m : StateManager) : Z := sm_snapIndex m.
Definition GetLastSnapshotTerm (m : StateManager) : Z := sm_snapTerm m.

Definition sm_GetStatus (now : Z) (m : StateManager) : gmap string value :=
  {[ "state_duration" := VString (Duration_String (Since now (sm_stateChangedAt m)));
     "state" := VString (NodeState_String (sm_state m));
     "current_term" := VInt (sm_currentTerm m);
     "voted_for" := VString (sm_votedFor m);
     "commit_index" := VInt (sm_commitIndex m);
     "last_applied" := VInt (sm_lastApplied m);
     "last_snapshot_index" := VInt (sm_snapIndex m);
     "last_snapshot_term" := VInt (sm_snapTerm m) ]}.

(** ** log.go *)

Inductive LogType : Type := LogCommand | LogNoop.

(** [raft.LogType] is a byte; the library numbers [LogCommand] 0 and [LogNoop] 1. *)
Definition ConvertLogType (logType : Z) : LogType :=
  if decide (logType = 0) then LogCommand else if decide (logType = 1) then LogNoop else LogCommand.

(** ** snapshot.go: the store of the library *)

Record SnapshotMeta : Type := mkSnapshotMeta { meta_ID : string; meta_Index : Z; meta_Term : Z; meta_Size : Z }.

(** What [SetSnapshotStore] was given: a [FileSnapshotStore], by what its [List] answers
    when it is asked, or a store of another type. *)
Inductive SnapshotStore : Type := FileStore (List : result string (list SnapshotMeta)) | OtherStore.

(** The manager with its [snapshotStore], nil until it is set. *)
Record StoredManager : Type := mkStored { sdm_manager : SnapshotManager; sdm_snapshotStore : option SnapshotStore }.

Definition SetSnapshotStore (store : SnapshotStore) (sm : StoredManager) : StoredManager :=
  mkStored (sdm_manager sm) (Some store).

Inductive store_error : Type := ErrSnapshotStoreNotInitialized | EList (text : string).

Definition snapshot_info (s : SnapshotMeta) : gmap string value :=
  {[ "id" := VString (meta_ID s); "index" := VInt (meta_Index s); "term" := VInt (meta_Term s); "size" := VInt (meta_Size s) ]}.

Definition GetSnapshotInfo (sm : StoredManager) : result store_error (list (gmap string value)) :=
  match sdm_snapshotStore sm with
  | None => Err ErrSnapshotStoreNotInitialized
  | Some OtherStore => Ok []
  | Some (FileStore (Err e)) => Err (EList e)
  | Some (FileStore (Ok snapshots)) => Ok (map snapshot_info snapshots)
  end.

(** The store after the call, the line logged and the error. *)
Definition DeleteOldSnapshots (retainCount : Z) (sm : StoredManager) : StoredManager * option string * option store_error :=
  match sdm_snapshotStore sm with
  | None => (sm, None, Some ErrSnapshotStoreNotInitialized)
  | Some OtherStore => (sm, None, None)
  | Some (FileStore (Err e)) => (sm, None, Some (EList e))
  | Some (FileStore (Ok snapshots)) =>
      (sm, Some ("Snapshot cleanup: " +:+ Sprintf_int (len snapshots) +:+ " snapshots found, retaining " +:+ Sprintf_int retainCount), None)
  end.

(** ** Statistics *)

(** A nil manager has no statistics; the pointer to them is never nil otherwise. *)
Definition snapshot_GetStats (sm : option SnapshotManager) : SnapshotStats :=
  match sm with Some sm => sm_stats sm | None => mkSnapStats 0 0 0 0 zero_time 0 0 end.
Definition replication_GetStats_of (s : option ReplicationStats) : ReplicationStats :=
  match s with Some s => s | None => mkReplStats 0 0 0 end.

Definition GetLastSnapshotTime (sm : SnapshotManager) : Z := sm_lastSnapshotTime sm.
Definition snapshot_GetLastSnapshotIndex (sm : SnapshotManager) : Z := sm_lastSnapshotIndex sm.
Definition snapshot_GetLastSnapshotTerm (sm : SnapshotManager) : Z := sm_lastSnapshotTerm sm.

Section status.
Context `{ClockText, RaftCluster}.

Definition log_GetStats (lm : option LogManager) : LogStats :=
  match lm with Some lm => lm_stats lm | None => mkLogStats 0 0 0 0 0 zero_time end.
Definition election_GetStats (em : option ElectionManager) : ElectionStats :=
  match em with Some em => em_stats em | None => mkElectionStats 0 0 0 zero_time 0 0 end.
Definition replication_GetStats (rm : option ReplicationManager) : ReplicationStats :=
  replication_GetStats_of (rm_stats <$> rm).

Definition em_GetStatus (em : ElectionManager) : gmap string value :=
  let status : gmap string value :=
    {[ "is_leader" := VBool (em_IsLeader em);
       "current_leader" := VString (em_currentLeader em);
       "leader_address" := VString (em_currentLeader em);
       "leader_duration" := VString (Time_String (em_leaderChangedAt em));
       "total_elections" := VInt (es_TotalElections (em_stats em));
       "leader_changes" := VInt (es_LeaderChanges (em_stats em)) ]} in
  match em_raftNode em with
  | Some c => <["raft_state" := VString (RaftState_String (rc_State c))]> (<["current_term" := VString "unavailable"]> status)
  | None => status
  end.

Definition peer_status (p : PeerInfo) : list (string * value) :=
  [("address", VString (pi_Address p)); ("id", VString (pi_ID p)); ("is_healthy", VBool (pi_IsHealthy p));
   ("is_voter", VBool (pi_IsVoter p)); ("last_contact", VString (Time_String (pi_LastContact p)));
   ("last_log_index", VInt (pi_LastLogIndex p)); ("last_log_term", VInt (pi_LastLogTerm p));
   ("replication_lag", VInt (pi_ReplicationLag p))].

(** [order] is the order in which Go visits the map; no code sets [AverageLatency]. *)
Definition rm_GetStatus (order : list (string * PeerInfo)) (rm : ReplicationManager) : gmap string value :=
  {[ "total_replications" := VInt (rs_Total (rm_stats rm));
     "successful_replications" := VInt (rs_Successful (rm_stats rm));
     "failed_replications" := VInt (rs_Failed (rm_stats rm));
     "average_latency" := VString (Duration_String 0);
     "peers" := VSlice (map (λ kp, VMap (peer_status kp.2)) order) ]}.

Definition snapshot_GetStatus (sm : SnapshotManager) : gmap string value :=
  let s := sm_stats sm in
  {[ "last_snapshot_index" := VInt (sm_lastSnapshotIndex sm);
     "last_snapshot_term" := VInt (sm_lastSnapshotTerm sm);
     "last_snapshot_time" := VString (Time_String (sm_lastSnapshotTime sm));
     "total_snapshots" := VInt (ss_TotalSnapshots s);
     "total_restores" := VInt (ss_TotalRestores s);
     "total_snapshot_size" := VInt (ss_TotalSnapshotSize s);
     "average_snapshot_size" := VInt (ss_AverageSnapshotSize s) ]}.

(** ** fsm.go *)

Definition GetBloomFilter (f : BloomFSM) : CountingBloomFilter := fsm_bloom f.
Definition GetLastAppliedIndex (f : BloomFSM) : Z := lastAppliedIndex f.
Definition GetLastAppliedTerm (f : BloomFSM) : Z := lastAppliedTerm f.

Definition fsm_GetStats (now : Z) (f : BloomFSM) : gmap string value :=
  {[ "bloom_size" := VInt (Counting.Size (fsm_bloom f));
     "bloom_k" := VInt (HashCount (fsm_bloom f));
     "last_applied_index" := VInt (lastAppliedIndex f);
     "last_applied_term" := VInt (lastAppliedTerm f);
     "start_time" := VString (Time_String (fsm_startTime f));
     "uptime" := VString (Duration_String (Since now (fsm_startTime f))) ]}.
End status.

Example duration_examples :
  map Duration_String [0; 1; 1500; 2000000; 1234567890; 60 * 10 ^ 9; 3600 * 10 ^ 9 + 5 * 10 ^ 8; 24 * 3600 * 10 ^ 9; - 1500 * 10 ^ 6; - 2 ^ 63]
  = ["0s"; "1ns"; "1.5µs"; "2ms"; "1.23456789s"; "1m0s"; "1h0m0.5s"; "24h0m0s"; "-1.5s"; "-2562047h47m16.854775808s"]%string.
Proof. vm_compute. reflexivity. Qed.

(** * Theorems *)

(** ** The state manager *)

Inductive setting : Type :=
  | PutState (s : NodeState) (now : Z)
  | PutTerm (t : Z)
  | PutVoted (c : string)
  | PutCommit (i : Z)
  | PutApplied (i : Z)
  | PutSnapIndex (i : Z)
  | PutSnapTerm (t : Z).

Definition put (m : StateManager) (o : setting) : StateManager :=
  match o with
  | PutState s now => SetState s now m
  | PutTerm t => SetCurrentTerm t m
  | PutVoted c => SetVotedFor c m
  | PutCommit i => SetCommitIndex i m
  | PutApplied i => SetLastApplied i m
  | PutSnapIndex i => SetLastSnapshotIndex i m
  | PutSnapTerm t => SetLastSnapshotTerm t m
  end.

(** The value of the last setting that [f] selects. *)
Definition latest {A} (f : setting → option A) (ops : list setting) (x : A) : A := default x (list.last (omap f ops)).

Lemma latest_snoc {A} (f : setting → option A) ops o x : latest f (ops ++ [o]) x = default (latest f ops x) (f o).
Proof.
  unfold latest. rewrite omap_app. cbn. destruct (f o) as [y|]; [by rewrite last_snoc|by rewrite app_nil_r].
Qed.

(** Whatever setters were called, in whatever order, each getter returns the value of the
    last call of its own setter, and the status reports these values. *)
Theorem status_reports_latest now ops m : let m' := foldl put m ops in
  let state := latest (λ o, if o is PutState s _ then Some s else None) ops (sm_GetState m) in
  let term := latest (λ o, if o is PutTerm t then Some t else None) ops (GetCurrentTerm m) in
  let voted := latest (λ o, if o is PutVoted c then Some c else None) ops (GetVotedFor m) in
  let commit := latest (λ o, if o is PutCommit i then Some i else None) ops (GetCommitIndex m) in
  let applied := latest (λ o, if o is PutApplied i then Some i else None) ops (GetLastApplied m) in
  let snapIndex := latest (λ o, if o is PutSnapIndex i then Some i else None) ops (GetLastSnapshotIndex m) in
  let snapTerm := latest (λ o, if o is PutSnapTerm t then Some t else None) ops (GetLastSnapshotTerm m) in
  sm_GetState m' = state ∧ GetCurrentTerm m' = term ∧ GetVotedFor m' = voted ∧ GetCommitIndex m' = commit ∧
  GetLastApplied m' = applied ∧ GetLastSnapshotIndex m' = snapIndex ∧ GetLastSnapshotTerm m' = snapTerm ∧
  sm_GetStatus now m' =
    {[ "state_duration" := VString (Duration_String (Since now (sm_stateChangedAt m'))); "state" := VString (NodeState_String state); "current_term" := VInt term; "voted_for" := VString voted;
       "commit_index" := VInt commit; "last_applied" := VInt applied; "last_snapshot_index" := VInt snapIndex;
       "last_snapshot_term" := VInt snapTerm ]}.
Proof.
  cbv zeta. match goal with |- ?A ∧ ?B ∧ ?C ∧ ?D ∧ ?E ∧ ?F ∧ ?G ∧ _ => assert (A ∧ B ∧ C ∧ D ∧ E ∧ F ∧ G) as H end.
  { induction ops as [|o ops IH] using rev_ind; [done|]. rewrite foldl_app, !latest_snoc. destruct IH as (? & ? & ? & ? & ? & ? & ?).
    by destruct o; cbn [foldl put]; split_and!. }
  destruct H as (<- & <- & <- & <- & <- & <- & <-). by split_and!.
Qed.

(** ** The peers *)

(** A member of a printed map. *)
Definition member (k : string) (v : value) : option value :=
  match v with VMap l => snd <$> find (λ kv, String.eqb kv.1 k) l | _ => None end.

Section peers.
Context `{!ClockText, !JsonText, !TimeText, !RaftCluster}.

(** A manager after any calls: every peer is kept under its own ID. *)
Definition named (rm : ReplicationManager) : Prop := map_Forall (λ id p, pi_ID p = id) (rm_peers rm).

Inductive rm_step : ReplicationManager → ReplicationManager → Prop :=
  | rm_node c rm : rm_step rm (rm_SetRaftNode c rm)
  | rm_add now id addr voter rm : rm_step rm (AddPeer now id addr voter rm).1
  | rm_remove id rm : rm_step rm (RemovePeer id rm).1
  | rm_contact now id i t rm : rm_step rm (UpdatePeerContact now id i t rm)
  | rm_unhealthy id rm : rm_step rm (MarkPeerUnhealthy id rm).

Lemma named_step rm rm' : named rm → rm_step rm rm' → named rm'.
Proof.
  unfold named. intros Hn Hs. destruct Hs; [done|..];
    unfold AddPeer, RemovePeer, UpdatePeerContact, MarkPeerUnhealthy; repeat case_match; cbn; try done.
  1: by apply map_Forall_insert_2.
  1: by apply map_Forall_delete.
  all: apply map_Forall_insert_2; [cbn; eapply (map_Forall_lookup_1 _ _ _ _ Hn); eassumption|done].
Qed.

Lemma named_reachable rm : rtc rm_step NewReplicationManager rm → named rm.
Proof.
  intros Hr. assert (named NewReplicationManager) as Hn by apply map_Forall_empty.
  induction Hr as [|a b c Hab _ IH]; [done|]. apply IH. by eapply named_step.
Qed.

(** In whatever order the map is visited, the status lists every peer exactly once, with
    its health and lag as [GetPeerInfo] returns them, and nothing else. *)
Theorem status_lists_peers rm order : rtc rm_step NewReplicationManager rm → order ≡ₚ map_to_list (rm_peers rm) →
  ∃ l, rm_GetStatus order rm !! "peers" = Some (VSlice l) ∧ NoDup (map (member "id") l) ∧
    ∀ id healthy lg, (∃ v, v ∈ l ∧ member "id" v = Some (VString id) ∧ member "is_healthy" v = Some (VBool healthy) ∧
        member "replication_lag" v = Some (VInt lg)) ↔
      ∃ p, GetPeerInfo id rm = Ok p ∧ pi_IsHealthy p = healthy ∧ pi_ReplicationLag p = lg.
Proof.
  intros Hr%named_reachable Ho. eexists. split; [reflexivity|].
  assert (∀ id p, (id, p) ∈ order ↔ rm_peers rm !! id = Some p) as Hin by (intros id p; rewrite Ho; apply elem_of_map_to_list).
  split.
  - rewrite map_map. replace (map _ order) with (map (λ id, Some (VString id)) order.*1).
    + assert (Inj (=) (=) (λ id, Some (VString id))) by by intros ? ? [= ->].
      apply (NoDup_fmap_2 (λ id, Some (VString id))). rewrite Ho. apply NoDup_fst_map_to_list.
    + rewrite map_map. apply map_ext_in. intros [id p] Hi%list_elem_of_In%Hin. cbn. by rewrite (map_Forall_lookup_1 _ _ _ _ Hr Hi).
  - intros id healthy lg. unfold GetPeerInfo. split.
    + intros (v & ([id' p] & -> & Hi%Hin)%list_elem_of_fmap & [= <-] & [= <-] & [= <-]). exists p.
      rewrite (map_Forall_lookup_1 _ _ _ _ Hr Hi). by rewrite Hi.
    + intros (p & Hp & <- & <-). destruct (rm_peers rm !! id) as [p'|] eqn:Hi; [|done]. injection Hp as ->.
      exists (VMap (peer_status p)). split; [|by rewrite <- (map_Forall_lookup_1 _ _ _ _ Hr Hi)].
      apply list_elem_of_fmap. exists (id, p). split; [done|by apply Hin].
Qed.
End peers.

(** ** The snapshot store *)

(** [GetSnapshotInfo] answers one entry per snapshot the library lists, and nothing for a
    store that cannot list.  [DeleteOldSnapshots] deletes nothing, however many snapshots
    there are and however few are to be kept: it reports success and the list is the
    same afterwards. *)
Theorem DeleteOldSnapshots_keeps_all l retain sm : let sm1 := SetSnapshotStore (FileStore (Ok l)) sm in
  GetSnapshotInfo sm1 = Ok (map snapshot_info l) ∧
  let '(sm2, said, err) := DeleteOldSnapshots retain sm1 in
  err = None ∧ is_Some said ∧ GetSnapshotInfo sm2 = Ok (map snapshot_info l).
Proof. cbn. split_and!; [done|done|by eexists|done]. Qed.

(** * Instances *)

Section witnesses.
#[local] Instance st_clock : ClockText := Sprintf_int.
#[local] Existing Instance tree_text.
#[local] Existing Instance tree_time.
#[local] Existing Instance toy_cluster.

Definition st_rm : ReplicationManager := (AddPeer 8 "q" "h:2" true (AddPeer 8 "p" "h:1" true ex_rm).1).1.
Definition st_order : list (string * PeerInfo) := reverse (map_to_list (rm_peers st_rm)).

Lemma status_lists_peers_witness :
  ∃ l, rm_GetStatus st_order st_rm !! "peers" = Some (VSlice l) ∧ NoDup (map (member "id") l) ∧
    ∀ id healthy lg, (∃ v, v ∈ l ∧ member "id" v = Some (VString id) ∧ member "is_healthy" v = Some (VBool healthy) ∧
        member "replication_lag" v = Some (VInt lg)) ↔
      ∃ p, GetPeerInfo id st_rm = Ok p ∧ pi_IsHealthy p = healthy ∧ pi_ReplicationLag p = lg.
Proof.
  apply (status_lists_peers st_rm st_order).
  - eapply rtc_l; [apply (rm_node ex_cluster)|]. eapply rtc_l; [apply (rm_add 8 "p" "h:1" true)|].
    apply rtc_once, (rm_add 8 "q" "h:2" true).
  - apply reverse_Permutation.
Defined.
End witnesses.
