(* ===== verification/Peers.v ===== *)
(** [internal/raft/replication.go]: the peers as the code keeps them, a map to pointers.

    [AddPeer] stores a pointer to a new [PeerInfo]; [UpdatePeerContact] and
    [MarkPeerUnhealthy] write through it; [GetPeerInfo] and [GetAllPeers] hand the
    pointers out.  A pointer is its index in the list of the records made so far.
    [Managers] keeps the records themselves; [stores] relates the two.  What the
    manager knows, and what a caller reads through a pointer it holds, is stated
    against the history of the calls that took effect ([known]). *)

From S2P Require Import Prelude GoBytes GoFmt Hash Counting CountingSpec CountingCodec.
From S2P Require Import WalCrypto WalFiles Json RaftFsm Node Managers.
#[local] Open Scope Z_scope.

(** * Definitions *)

Section peers.
Context `{RaftCluster}.

Record peer_store : Type := mkStore {
  ps_raftNode : option Cluster;
  ps_stats : ReplicationStats;
  ps_heap : list PeerInfo;
  ps_peers : gmap string nat
}.

Definition ps_New : peer_store := mkStore None (mkReplStats 0 0 0) [] ∅.
Definition ps_SetRaftNode (c : Cluster) (s : peer_store) : peer_store := mkStore (Some c) (ps_stats s) (ps_heap s) (ps_peers s).

Definition ps_AddPeer (now : Z) (serverID address : string) (voter : bool) (s : peer_store) : peer_store * option manager_error :=
  match ps_raftNode s with
  | None => (s, Some ErrRaftNotStarted)
  | Some c =>
      match rc_AddVoter c serverID address with
      | (c', Some e) => (mkStore (Some c') (stats_failed (ps_stats s)) (ps_heap s) (ps_peers s), Some (ERaft e))
      | (c', None) =>
          (mkStore (Some c') (stats_ok (ps_stats s)) (ps_heap s ++ [mkPeerInfo serverID address now 0 0 voter true 0])
             (<[serverID := length (ps_heap s)]> (ps_peers s)), None)
      end
  end.

Definition ps_RemovePeer (serverID : string) (s : peer_store) : peer_store * option manager_error :=
  match ps_raftNode s with
  | None => (s, Some ErrRaftNotStarted)
  | Some c =>
      match rc_RemoveServer c serverID with
      | (c', Some e) => (mkStore (Some c') (stats_failed (ps_stats s)) (ps_heap s) (ps_peers s), Some (ERaft e))
      | (c', None) => (mkStore (Some c') (stats_ok (ps_stats s)) (ps_heap s) (delete serverID (ps_peers s)), None)
      end
  end.

(** [peer.LastContact = now] and so on, through the pointer. *)
Definition contact (now logIndex logTerm : Z) (node : option Cluster) (p : PeerInfo) : PeerInfo :=
  mkPeerInfo (pi_ID p) (pi_Address p) now logIndex logTerm (pi_IsVoter p) true
    (match node with Some c => lag (rc_LastIndex c) logIndex | None => pi_ReplicationLag p end).
Definition unhealthy (p : PeerInfo) : PeerInfo :=
  mkPeerInfo (pi_ID p) (pi_Address p) (pi_LastContact p) (pi_LastLogIndex p) (pi_LastLogTerm p) (pi_IsVoter p) false (pi_ReplicationLag p).

Definition write_peer (serverID : string) (f : PeerInfo → PeerInfo) (s : peer_store) : peer_store :=
  match ps_peers s !! serverID with
  | Some l => mkStore (ps_raftNode s) (ps_stats s) (alter f l (ps_heap s)) (ps_peers s)
  | None => s
  end.

Definition ps_UpdatePeerContact (now : Z) (serverID : string) (logIndex logTerm : Z) (s : peer_store) : peer_store :=
  write_peer serverID (contact now logIndex logTerm (ps_raftNode s)) s.
Definition ps_MarkPeerUnhealthy (serverID : string) (s : peer_store) : peer_store := write_peer serverID unhealthy s.

Definition ps_GetPeerInfo (serverID : string) (s : peer_store) : result manager_error nat :=
  match ps_peers s !! serverID with Some l => Ok l | None => Err ErrPeerNotFound end.

(** A new map with the same pointers. *)
Definition ps_GetAllPeers (s : peer_store) : gmap string nat := ps_peers s.

(** A call of the manager, on pointers and on records. *)
Inductive peer_op : Type :=
  | OSetNode (c : Cluster)
  | OAdd (now : Z) (id address : string) (voter : bool)
  | ORemove (id : string)
  | OContact (now : Z) (id : string) (logIndex logTerm : Z)
  | OUnhealthy (id : string).

Definition ps_op (s : peer_store) (o : peer_op) : peer_store :=
  match o with
  | OSetNode c => ps_SetRaftNode c s
  | OAdd now id addr voter => (ps_AddPeer now id addr voter s).1
  | ORemove id => (ps_RemovePeer id s).1
  | OContact now id i t => ps_UpdatePeerContact now id i t s
  | OUnhealthy id => ps_MarkPeerUnhealthy id s
  end.

Definition rm_op (rm : ReplicationManager) (o : peer_op) : ReplicationManager :=
  match o with
  | OSetNode c => rm_SetRaftNode c rm
  | OAdd now id addr voter => (AddPeer now id addr voter rm).1
  | ORemove id => (RemovePeer id rm).1
  | OContact now id i t => UpdatePeerContact now id i t rm
  | OUnhealthy id => MarkPeerUnhealthy id rm
  end.

(** * What the history says *)

(** The calls that took effect: a peer added or removed without an error, a contact with the last index
    of the log at that time. *)
Inductive peer_event : Type :=
  | EAdded (now : Z) (id address : string) (voter : bool)
  | ERemoved (id : string)
  | EContact (now : Z) (id : string) (logIndex logTerm lastIndex : Z)
  | EUnhealthy (id : string).

Definition events (s : peer_store) (o : peer_op) : list peer_event :=
  match o with
  | OSetNode c => []
  | OAdd now id addr voter => if (ps_AddPeer now id addr voter s).2 is None then [EAdded now id addr voter] else []
  | ORemove id => if (ps_RemovePeer id s).2 is None then [ERemoved id] else []
  | OContact now id i t => match ps_raftNode s with Some c => [EContact now id i t (rc_LastIndex c)] | None => [] end
  | OUnhealthy id => [EUnhealthy id]
  end.

Fixpoint history (s : peer_store) (ops : list peer_op) : list peer_event :=
  match ops with [] => [] | o :: ops => events s o ++ history (ps_op s o) ops end.

Definition membership (id : string) (e : peer_event) : Prop :=
  match e with EAdded _ id' _ _ | ERemoved id' => id' = id | _ => False end.
Definition contacted (id : string) (e : peer_event) : Prop := match e with EContact _ id' _ _ _ => id' = id | _ => False end.
Definition about_health (id : string) (e : peer_event) : Prop :=
  match e with EContact _ id' _ _ _ | EUnhealthy id' => id' = id | _ => False end.
#[export] Instance membership_dec id e : Decision (membership id e).
Proof. destruct e; cbn; apply _. Defined.
#[export] Instance contacted_dec id e : Decision (contacted id e).
Proof. destruct e; cbn; apply _. Defined.
#[export] Instance about_health_dec id e : Decision (about_health id e).
Proof. destruct e; cbn; apply _. Defined.

(** The last event of a kind. *)
Definition latest (P : peer_event → Prop) `{∀ e, Decision (P e)} (h : list peer_event) : option peer_event :=
  snd <$> list_find P (reverse h).

(** What is known of a peer after a history: nothing unless the last event of its membership is that it was
    added; then its address and vote are those of that event, its contact and its indices those of the last
    contact since, and it is healthy unless it was last marked as not. *)
Definition known (id : string) (h : list peer_event) : option PeerInfo :=
  match list_find (membership id) (reverse h) with
  | Some (n, EAdded added _ addr voter) =>
      let since := reverse (take n (reverse h)) in
      let healthy := if latest (about_health id) since is Some (EUnhealthy _) then false else true in
      Some (match latest (contacted id) since with
            | Some (EContact now _ i t last) => mkPeerInfo id addr now i t voter healthy (Z.max 0 (last - i))
            | _ => mkPeerInfo id addr added 0 0 voter healthy 0
            end)
  | _ => None
  end.

(** The events until the peer is added again or removed. *)
Fixpoint until_replaced (id : string) (h : list peer_event) : list peer_event :=
  match h with [] => [] | e :: h => if decide (membership id e) then [] else e :: until_replaced id h end.

(** Indices are [uint64]. *)
Definition op_typed (o : peer_op) : Prop := match o with OContact _ _ i t => 0 ≤ i < 2 ^ 64 | _ => True end.

(** * Theorems *)

(** The pointers are distinct and point to records; the records are those of [rm]. *)
Record stores (s : peer_store) (rm : ReplicationManager) : Prop := {
  st_node : ps_raftNode s = rm_raftNode rm;
  st_stats : ps_stats s = rm_stats rm;
  st_peers id : (ps_peers s !! id ≫= λ l, ps_heap s !! l) = rm_peers rm !! id;
  st_valid id l : ps_peers s !! id = Some l → is_Some (ps_heap s !! l);
  st_inj id id' l : ps_peers s !! id = Some l → ps_peers s !! id' = Some l → id = id'
}.

Lemma stores_lookup s rm id : stores s rm →
  match ps_peers s !! id with
  | Some l => ∃ p, ps_heap s !! l = Some p ∧ rm_peers rm !! id = Some p
  | None => rm_peers rm !! id = None
  end.
Proof.
  intros Hs. rewrite <- (st_peers _ _ Hs). destruct (ps_peers s !! id) as [l|] eqn:Hl; [|done].
  destruct (st_valid _ _ Hs _ _ Hl) as [p Hp]. exists p. cbn. by rewrite Hp.
Qed.

(** Writing through a pointer is replacing the record of that peer alone. *)
Lemma stores_write s rm id f : stores s rm →
  stores (write_peer id f s)
    (match rm_peers rm !! id with Some p => mkRepl (rm_raftNode rm) (rm_stats rm) (<[id := f p]> (rm_peers rm)) | None => rm end).
Proof.
  intros Hs. pose proof (stores_lookup s rm id Hs) as Hl. unfold write_peer. destruct (ps_peers s !! id) as [l|] eqn:Hid; [|by rewrite Hl].
  destruct Hl as (p & Hp & ->). destruct Hs as [Hn Ht Hpeers Hv Hinj].
  split; cbn [ps_raftNode ps_stats ps_heap ps_peers rm_raftNode rm_stats rm_peers]; [done|done| | |done].
  - intros id'. destruct (decide (id' = id)) as [->|Hne].
    + rewrite Hid, lookup_insert_eq. cbn. by rewrite list_lookup_alter_eq, Hp.
    + rewrite lookup_insert_ne by done. rewrite <- Hpeers. destruct (ps_peers s !! id') as [l'|] eqn:Hid'; [|done].
      cbn. apply list_lookup_alter_ne. intros ->. by eapply Hne, Hinj.
  - intros id' l' Hid'. apply lookup_lt_is_Some. rewrite length_alter. by eapply lookup_lt_is_Some, Hv.
Qed.

Lemma stores_op s rm o : stores s rm → stores (ps_op s o) (rm_op rm o).
Proof.
  intros Hs. pose proof Hs as [Hn Ht Hpeers Hv Hinj]. destruct o as [c|now id addr voter|id|now id i t|id]; cbn [ps_op rm_op].
  - by split.
  - unfold ps_AddPeer, AddPeer. rewrite Hn. destruct (rm_raftNode rm) as [c|]; [|done].
    destruct (rc_AddVoter c id addr) as [c' [e|]]; cbn [fst]; split; cbn [ps_raftNode ps_stats ps_heap ps_peers rm_raftNode rm_stats rm_peers];
      try (by rewrite Ht); try done.
    + intros id'. destruct (decide (id' = id)) as [->|Hne].
      { rewrite !lookup_insert_eq. cbn. by rewrite lookup_app_r, Nat.sub_diag by lia. }
      rewrite !lookup_insert_ne by done. rewrite <- Hpeers. destruct (ps_peers s !! id') as [l'|] eqn:Hid'; [|done].
      cbn. apply lookup_app_l. by eapply lookup_lt_is_Some, Hv.
    + intros id' l' [[<- <-]|[_ Hl]]%lookup_insert_Some; apply lookup_lt_is_Some; rewrite length_app; cbn; [lia|].
      apply Hv, lookup_lt_is_Some in Hl. lia.
    + intros id1 id2 l' [[<- <-]|[_ H1]]%lookup_insert_Some [[<- H2]|[_ H2]]%lookup_insert_Some; [done| | |by eapply Hinj];
        subst; [apply Hv, lookup_lt_is_Some in H2|apply Hv, lookup_lt_is_Some in H1]; lia.
  - unfold ps_RemovePeer, RemovePeer. rewrite Hn. destruct (rm_raftNode rm) as [c|]; [|done].
    destruct (rc_RemoveServer c id) as [c' [e|]]; cbn [fst]; split; cbn [ps_raftNode ps_stats ps_heap ps_peers rm_raftNode rm_stats rm_peers];
      try (by rewrite Ht); try done.
    + intros id'. destruct (decide (id' = id)) as [->|Hne]; [by rewrite !lookup_delete_eq|]. by rewrite !lookup_delete_ne by done.
    + intros id' l' [_ Hl]%lookup_delete_Some. by eapply Hv.
    + intros id1 id2 l' [_ H1]%lookup_delete_Some [_ H2]%lookup_delete_Some. by eapply Hinj.
  - pose proof (stores_write s rm id (contact now i t (ps_raftNode s)) Hs) as Hw. unfold ps_UpdatePeerContact, UpdatePeerContact.
    unfold contact in *. by rewrite Hn in *.
  - exact (stores_write s rm id unhealthy Hs).
Qed.

Lemma stores_run ops s rm : stores s rm → stores (foldl ps_op s ops) (foldl rm_op rm ops).
Proof. revert s rm. induction ops as [|o ops IH]; intros s rm Hs; [done|]. by apply IH, stores_op. Qed.

Lemma stores_start : stores ps_New NewReplicationManager.
Proof. by split. Qed.

(** A record no entry points to is never written again. *)
Lemma detached_stays ops s l : (l < length (ps_heap s))%nat → (∀ id, ps_peers s !! id ≠ Some l) →
  ps_heap (foldl ps_op s ops) !! l = ps_heap s !! l.
Proof.
  revert s. induction ops as [|o ops IH]; intros s Hl Hno; [done|]. cbn [foldl].
  assert (ps_heap (ps_op s o) !! l = ps_heap s !! l ∧ (l < length (ps_heap (ps_op s o)))%nat ∧ ∀ id, ps_peers (ps_op s o) !! id ≠ Some l) as (Hh & Hlt & Hn).
  { destruct o as [c|now id addr voter|id|now id i t|id]; cbn [ps_op]; [done|..];
      unfold ps_AddPeer, ps_RemovePeer, ps_UpdatePeerContact, ps_MarkPeerUnhealthy, write_peer; repeat case_match; cbn; try done.
    - rewrite lookup_app_l, length_app by done. split_and!; [done|lia|]. intros id' [[_ ?]|[_ ?]]%lookup_insert_Some; [lia|by eapply Hno].
    - split_and!; [done|done|]. intros id' [_ ?]%lookup_delete_Some. by eapply Hno.
    - rewrite length_alter, list_lookup_alter_ne by (intros ->; by eapply Hno). done.
    - rewrite length_alter, list_lookup_alter_ne by (intros ->; by eapply Hno). done. }
  by rewrite IH.
Qed.

(** ** The history *)

(** What one more event changes. *)
Lemma known_snoc id h e : known id (h ++ [e]) =
  match e with
  | EAdded now id' addr voter => if decide (id' = id) then Some (mkPeerInfo id addr now 0 0 voter true 0) else known id h
  | ERemoved id' => if decide (id' = id) then None else known id h
  | EContact now id' i t last =>
      if decide (id' = id)
      then (λ p, mkPeerInfo (pi_ID p) (pi_Address p) now i t (pi_IsVoter p) true (Z.max 0 (last - i))) <$> known id h
      else known id h
  | EUnhealthy id' => if decide (id' = id) then unhealthy <$> known id h else known id h
  end.
Proof.
  assert (¬ membership id e → known id (h ++ [e]) =
    match list_find (membership id) (reverse h) with
    | Some (n, EAdded added _ addr voter) =>
        let since := e :: take n (reverse h) in
        let healthy := if snd <$> list_find (about_health id) since is Some (EUnhealthy _) then false else true in
        Some (match snd <$> list_find (contacted id) since with
              | Some (EContact now _ i t last) => mkPeerInfo id addr now i t voter healthy (Z.max 0 (last - i))
              | _ => mkPeerInfo id addr added 0 0 voter healthy 0
              end)
    | _ => None
    end) as Hno.
  { intros Hm. unfold known. rewrite reverse_snoc. cbn [list_find]. rewrite decide_False by done.
    destruct (list_find (membership id) (reverse h)) as [[n [added id' addr voter| | |]]|]; try done.
    cbn -[reverse]. unfold latest. by rewrite reverse_involutive. }
  assert (∀ (o : option (nat * peer_event)), snd <$> (prod_map S (λ y : peer_event, y) <$> o) = snd <$> o) as Hs by (by intros [[]|]).
  unfold known in *. destruct e as [now id' addr voter|id'|now id' i t last|id']; cbn [membership] in Hno.
  - destruct (decide (id' = id)) as [->|Hne].
    + rewrite reverse_snoc. cbn. by rewrite decide_True.
    + rewrite Hno by done. destruct (list_find (membership id) (reverse h)) as [[n [? ? ? ?| | |]]|]; try done.
      unfold latest. rewrite !reverse_involutive. cbn [list_find about_health contacted]. rewrite !decide_False by (by intros []).
      by rewrite !Hs.
  - destruct (decide (id' = id)) as [->|Hne].
    + rewrite reverse_snoc. cbn. by rewrite decide_True.
    + rewrite Hno by done. destruct (list_find (membership id) (reverse h)) as [[n [? ? ? ?| | |]]|]; try done.
      unfold latest. rewrite !reverse_involutive. cbn [list_find about_health contacted]. rewrite !decide_False by (by intros []).
      by rewrite !Hs.
  - rewrite Hno by (by intros []). destruct (list_find (membership id) (reverse h)) as [[n [? ? ? ?| | |]]|]; try by case_decide.
    unfold latest. rewrite !reverse_involutive. cbn [list_find about_health contacted].
    generalize (take n (reverse h)). intros since.
    destruct (decide (id' = id)) as [->|Hne]; [rewrite ?(decide_True (P := id = id)) by done|by rewrite ?decide_False, ?Hs by done].
    cbn [fmap option_fmap option_map snd]. by destruct (list_find (contacted id) since) as [[? [| | |]]|].
  - rewrite Hno by (by intros []). destruct (list_find (membership id) (reverse h)) as [[n [? ? ? ?| | |]]|]; try by case_decide.
    unfold latest. rewrite !reverse_involutive. cbn [list_find about_health contacted]. rewrite ?(decide_False (P := False)) by (by intros []).
    generalize (take n (reverse h)). intros since. rewrite Hs.
    destruct (decide (id' = id)) as [->|Hne]; [rewrite ?(decide_True (P := id = id)) by done|by rewrite ?decide_False, ?Hs by done].
    cbn [fmap option_fmap option_map snd]. by destruct (list_find (contacted id) since) as [[? [| | |]]|].
Qed.

(** Each pointer of the map points to a record of its own, which is what is known of its peer. *)
Record tracks (s : peer_store) (h : list peer_event) : Prop := {
  tr_node id l : ps_peers s !! id = Some l → is_Some (ps_raftNode s);
  tr_inj id id' l : ps_peers s !! id = Some l → ps_peers s !! id' = Some l → id = id';
  tr_known id : match ps_peers s !! id with
                | Some l => is_Some (known id h) ∧ ps_heap s !! l = known id h
                | None => known id h = None
                end
}.

Lemma tr_valid s h id l : tracks s h → ps_peers s !! id = Some l → (l < length (ps_heap s))%nat.
Proof.
  intros Ht Hl. pose proof (tr_known _ _ Ht id) as Hk. rewrite Hl in Hk. destruct Hk as [[p Hp] Hk].
  rewrite Hp in Hk. by eapply lookup_lt_Some.
Qed.

Lemma tracks_write s h id f e : tracks s h →
  (∀ id', known id' (h ++ [e]) = if decide (id = id') then f <$> known id' h else known id' h) →
  tracks (write_peer id f s) (h ++ [e]).
Proof.
  intros Ht He. pose proof Ht as [Hn Hi Hk]. unfold write_peer. destruct (ps_peers s !! id) as [l|] eqn:Hl.
  - split; cbn [ps_raftNode ps_heap ps_peers]; [done|done|]. intros id'. rewrite He. specialize (Hk id').
    destruct (decide (id = id')) as [<-|Hne].
    + rewrite Hl in *. destruct Hk as [[p Hp] Hk]. rewrite list_lookup_alter_eq, Hk, Hp. by split.
    + destruct (ps_peers s !! id') as [l'|] eqn:Hl'; [|done]. rewrite list_lookup_alter_ne; [done|].
      intros ->. by eapply Hne, Hi.
  - split; [done|done|]. intros id'. rewrite He. specialize (Hk id'). destruct (decide (id = id')) as [<-|Hne]; [|done].
    rewrite Hl in *. by rewrite Hk.
Qed.

Context `{!RaftClusterLaws}.

Lemma lag_max c i : 0 ≤ i → lag (rc_LastIndex c) i = Z.max 0 (rc_LastIndex c - i).
Proof. intros Hi. destruct (rc_index c) as [Hc Hmax]. unfold lag. case_decide; [rewrite u64_small|]; lia. Qed.

Lemma tracks_op s h o : op_typed o → tracks s h → tracks (ps_op s o) (h ++ events s o).
Proof.
  intros Hty Ht. pose proof Ht as [Hn Hi Hk]. destruct o as [c|now id addr voter|id|now id i t|id]; cbn [ps_op events].
  - rewrite app_nil_r. split; [by eexists|done|done].
  - unfold ps_AddPeer. destruct (ps_raftNode s) as [c|] eqn:Hc; cbn; [|by rewrite app_nil_r].
    destruct (rc_AddVoter c id addr) as [c' [e|]]; cbn [fst snd]; [rewrite app_nil_r; by split|].
    split; cbn [ps_raftNode ps_heap ps_peers]; [by eexists| |].
    + intros id1 id2 l [[<- <-]|[_ H1]]%lookup_insert_Some [[<- H2]|[_ H2]]%lookup_insert_Some; [done| | |by eapply Hi].
      * by apply (tr_valid _ _ _ _ Ht), Nat.lt_irrefl in H2.
      * rewrite <- H2 in H1. by apply (tr_valid _ _ _ _ Ht), Nat.lt_irrefl in H1.
    + intros id'. rewrite known_snoc. destruct (decide (id = id')) as [<-|Hne].
      * rewrite lookup_insert_eq, lookup_app_r, Nat.sub_diag by lia. by split.
      * rewrite lookup_insert_ne by done. specialize (Hk id'). destruct (ps_peers s !! id') as [l|] eqn:Hl; [|done].
        rewrite lookup_app_l by (by eapply tr_valid). done.
  - unfold ps_RemovePeer. destruct (ps_raftNode s) as [c|] eqn:Hc; cbn; [|by rewrite app_nil_r].
    destruct (rc_RemoveServer c id) as [c' [e|]]; cbn [fst snd]; [rewrite app_nil_r; by split|].
    split; cbn [ps_raftNode ps_heap ps_peers]; [by eexists| |].
    + intros id1 id2 l [_ H1]%lookup_delete_Some [_ H2]%lookup_delete_Some. by eapply Hi.
    + intros id'. rewrite known_snoc. destruct (decide (id = id')) as [<-|Hne]; [by rewrite lookup_delete_eq|].
      rewrite lookup_delete_ne by done. apply Hk.
  - unfold ps_UpdatePeerContact. destruct (ps_raftNode s) as [c|] eqn:Hc.
    + apply tracks_write; [done|]. intros id'. rewrite known_snoc. unfold contact. by rewrite lag_max by apply Hty.
    + rewrite app_nil_r. unfold write_peer. destruct (ps_peers s !! id) as [l|] eqn:Hl; [|done].
      destruct (Hn _ _ Hl) as [? ?]. congruence.
  - apply tracks_write; [done|]. intros id'. by rewrite known_snoc.
Qed.

Lemma tracks_run ops s h : Forall op_typed ops → tracks s h → tracks (foldl ps_op s ops) (h ++ history s ops).
Proof.
  revert s h. induction ops as [|o ops IH]; intros s h Hty Ht; cbn [foldl history]; [by rewrite app_nil_r|].
  apply Forall_cons in Hty as [? ?]. rewrite (assoc_L (++)). by apply IH, tracks_op.
Qed.

Lemma tracks_start : tracks ps_New [].
Proof. by split. Qed.

(** A step either leaves the pointer of a peer in the map, or replaces it and leaves its record alone. *)
Lemma pointer_step s h o id l : tracks s h → ps_peers s !! id = Some l →
  (Forall (λ e, ¬ membership id e) (events s o) ∧ ps_peers (ps_op s o) !! id = Some l) ∨
  (∃ e, events s o = [e] ∧ membership id e ∧ ps_heap (ps_op s o) !! l = ps_heap s !! l ∧
     (l < length (ps_heap (ps_op s o)))%nat ∧ ∀ id', ps_peers (ps_op s o) !! id' ≠ Some l).
Proof.
  intros Ht Hl. pose proof (tr_valid _ _ _ _ Ht Hl) as Hlt. pose proof (tr_inj _ _ Ht) as Hi.
  destruct o as [c|now id' addr voter|id'|now id' i t|id']; cbn [ps_op events].
  - by left.
  - unfold ps_AddPeer. destruct (ps_raftNode s) as [c|] eqn:Hc; [|by left].
    destruct (rc_AddVoter c id' addr) as [c' [e|]]; cbn [fst snd ps_peers ps_heap]; [by left|].
    destruct (decide (id' = id)) as [->|Hne]; [right|left; split; [by repeat constructor|by rewrite lookup_insert_ne]].
    eexists. split; [done|]. split; [done|]. rewrite lookup_app_l, length_app by done. split_and!; [done|lia|].
    intros id2 [[_ ?]|[Hne ?]]%lookup_insert_Some; [lia|]. by eapply Hne, Hi.
  - unfold ps_RemovePeer. destruct (ps_raftNode s) as [c|] eqn:Hc; [|by left].
    destruct (rc_RemoveServer c id') as [c' [e|]]; cbn [fst snd ps_peers ps_heap]; [by left|].
    destruct (decide (id' = id)) as [->|Hne]; [right|left; split; [by repeat constructor|by rewrite lookup_delete_ne]].
    eexists. split_and!; try done. intros id2 [Hne ?]%lookup_delete_Some. by eapply Hne, Hi.
  - left. split; [destruct (ps_raftNode s); [apply Forall_singleton; by intros []|by apply Forall_nil]|]. unfold ps_UpdatePeerContact, write_peer. by case_match.
  - left. split; [apply Forall_singleton; by intros []|]. unfold ps_MarkPeerUnhealthy, write_peer. by case_match.
Qed.

Lemma until_replaced_app id h h' : Forall (λ e, ¬ membership id e) h → until_replaced id (h ++ h') = h ++ until_replaced id h'.
Proof. induction 1 as [|e h He _ IH]; [done|]. cbn. by rewrite decide_False, IH. Qed.

(** A pointer follows its peer until that is replaced, and never changes after. *)
Lemma pointer_reads ops s h id l : Forall op_typed ops → tracks s h → ps_peers s !! id = Some l →
  ps_heap (foldl ps_op s ops) !! l = known id (h ++ until_replaced id (history s ops)).
Proof.
  revert s h. induction ops as [|o ops IH]; intros s h Hty Ht Hl; cbn [foldl history].
  - cbn. rewrite app_nil_r. pose proof (tr_known _ _ Ht id) as Hk. rewrite Hl in Hk. apply Hk.
  - apply Forall_cons in Hty as [Ho Hty]. destruct (pointer_step s h o id l Ht Hl) as [[He Hl']|(e & -> & Hm & Hh & Hlt & Hno)].
    + rewrite until_replaced_app, (assoc_L (++)) by done. apply IH; [done|by apply tracks_op|done].
    + rewrite detached_stays, Hh by done. cbn. rewrite decide_True, app_nil_r by done.
      pose proof (tr_known _ _ Ht id) as Hk. rewrite Hl in Hk. apply Hk.
Qed.

(** C27: the peers are what the history says.  After any calls, [GetPeerInfo] finds a peer exactly when the
    last of its successful additions and removals is an addition, and the record it points to has the address
    and vote of that addition, the time, index, term and lag of the last contact since then (of the addition if
    there is none), and is healthy unless the last call on its health was [MarkPeerUnhealthy].  The pointer is no
    snapshot: whatever calls follow, it reads what the history says of the peer at that later time, until the
    peer is added again or removed; from then on it never changes. *)
Theorem peers_from_history before after_ : Forall op_typed (before ++ after_) →
  let s := foldl ps_op ps_New before in
  let h := history ps_New before in
  (∀ id, match known id h with
         | Some p => ∃ l, ps_GetPeerInfo id s = Ok l ∧ ps_heap s !! l = Some p
         | None => ps_GetPeerInfo id s = Err ErrPeerNotFound
         end) ∧
  ∀ id l, ps_GetPeerInfo id s = Ok l →
    ps_heap (foldl ps_op s after_) !! l = known id (h ++ until_replaced id (history s after_)).
Proof.
  intros [Hb Ha]%Forall_app s h.
  assert (tracks s h) as Ht by exact (tracks_run before ps_New [] Hb tracks_start).
  split.
  - intros id. pose proof (tr_known _ _ Ht id) as Hk. unfold ps_GetPeerInfo. destruct (ps_peers s !! id) as [l|].
    + destruct Hk as [[p Hp] Hk]. rewrite Hp in *. eauto.
    + by rewrite Hk.
  - intros id l Hg. unfold ps_GetPeerInfo in Hg. destruct (ps_peers s !! id) as [l0|] eqn:Hl; [|done]. injection Hg as ->.
    by apply pointer_reads.
Qed.

(** The records of [Managers] are those behind the pointers. *)
Theorem stores_GetPeerInfo ops id : let s := foldl ps_op ps_New ops in
  GetPeerInfo id (foldl rm_op NewReplicationManager ops) =
    match ps_GetPeerInfo id s with Ok l => from_option Ok (Err ErrPeerNotFound) (ps_heap s !! l) | Err e => Err e end.
Proof.
  intros s. pose proof (stores_lookup _ _ id (stores_run ops _ _ stores_start)) as Hl. fold s in Hl.
  unfold ps_GetPeerInfo, GetPeerInfo. destruct (ps_peers s !! id) as [l|]; [|by rewrite Hl]. by destruct Hl as (p & -> & ->).
Qed.

(** Once its peer was removed, a pointer reads the same for ever, whether or not a peer
    with that ID is added again. *)
Theorem removed_peer_is_frozen before after_ id l p : let s := foldl ps_op ps_New before in
  ps_GetPeerInfo id s = Ok l → ps_heap s !! l = Some p → (ps_RemovePeer id s).2 = None →
  ps_heap (foldl ps_op (ps_RemovePeer id s).1 after_) !! l = Some p.
Proof.
  cbv zeta. pose proof (stores_run before _ _ stores_start) as Hs. set (s := foldl ps_op ps_New before) in *. intros Hg Hp Hr.
  unfold ps_GetPeerInfo in Hg. destruct (ps_peers s !! id) as [l0|] eqn:Hl; [|done]. injection Hg as ->.
  assert (ps_heap (ps_RemovePeer id s).1 = ps_heap s ∧ ps_peers (ps_RemovePeer id s).1 = delete id (ps_peers s)) as [Hh Hd].
  { revert Hr. unfold ps_RemovePeer. destruct (ps_raftNode s); [|done]. destruct (rc_RemoveServer _ _) as [c' [e|]]; done. }
  rewrite detached_stays; [by rewrite Hh|rewrite Hh; by eapply lookup_lt_Some|]. rewrite Hd. intros id' [Hne Hl']%lookup_delete_Some.
  by eapply Hne, (st_inj _ _ Hs).
Qed.
End peers.

(** * Instances *)

Section witnesses.
#[local] Existing Instance toy_cluster.
#[local] Existing Instance toy_cluster_laws.

Definition pe_before : list peer_op := [OSetNode ex_cluster; OAdd 8 "p" "h:1" true].
Definition pe_after : list peer_op := [OAdd 9 "q" "h:2" true; OContact 10 "p" 4 1].

Lemma peers_from_history_witness :
  ps_heap (foldl ps_op (foldl ps_op ps_New pe_before) pe_after) !! 0%nat =
    Some (mkPeerInfo "p" "h:1" 10 4 1 true true 1) ∧
  known "p" (history ps_New (pe_before ++ [OContact 10 "p" 4 1; OUnhealthy "p"])) = Some (mkPeerInfo "p" "h:1" 10 4 1 true false 1).
Proof.
  split; [|by vm_compute].
  destruct (peers_from_history pe_before pe_after) as [_ Hp]; [repeat constructor; cbn; lia|].
  etrans; [exact (Hp "p" 0%nat eq_refl)|]. by vm_compute.
Defined.

Lemma removed_peer_is_frozen_witness :
  let s := (ps_RemovePeer "p" (foldl ps_op ps_New pe_before)).1 in
  ps_heap (foldl ps_op s [OAdd 9 "p" "h:3" true; OContact 10 "p" 4 1]) !! 0%nat = Some (mkPeerInfo "p" "h:1" 8 0 0 true true 0).
Proof.
  apply (removed_peer_is_frozen pe_before [OAdd 9 "p" "h:3" true; OContact 10 "p" 4 1] "p" 0%nat); reflexivity.
Defined.
End witnesses.
