(* ===== verification/Metadata.v ===== *)
(** [internal/metadata/service.go]: the metadata of a node, kept in memory and
    saved to [metadata.json].

    The directory is [None] until it exists.
    [Save] has two critical sections: under [mu] it stamps and serialises the
    metadata, under [writeMu] it writes the temporary file and renames it; they
    are separate definitions, and [mstep] interleaves the sections of any
    number of callers.  Times are in UTC. *)

From S2P Require Import Prelude GoBytes GoFmt Json GoAny.
From Stdlib Require Import Ascii String.
#[local] Open Scope Z_scope.

(** * Data *)

Record Stats : Type := mkStats {
  TotalAdds : Z;
  TotalRemoves : Z;
  TotalQueries : Z;
  LastBackup : Z;
  LastCompaction : Z
}.

(** A nil slice, map or pointer is [None]. *)
Record Metadata : Type := mkMetadata {
  NodeID : string;
  CreatedAt : Z;
  UpdatedAt : Z;
  Version : string;
  ClusterNodes : option (list string);
  Config : option (gmap string value);
  md_Stats : option Stats
}.

Record Service : Type := mkService { dataDir : string; metadata : Metadata }.

Abbreviation dir := (option (gmap string (list byte))).

Definition metadata_json : string := "metadata.json".
Definition metadata_tmp : string := metadata_json +:+ ".tmp".

Inductive metadata_error : Type :=
  | MNotExist | MUnmarshal | MMarshal | MMkdir | MWrite | MRename.

(** * JSON *)

(** [Time.MarshalJSON] fails outside the years 0 to 9999. *)
Definition year_printable (t : Z) : Prop :=
  - 62167219200 * 10 ^ 9 ≤ t < 253402300800 * 10 ^ 9.
#[export] Instance year_printable_dec t : Decision (year_printable t).
Proof. unfold year_printable. apply _. Defined.

Section json.
Context `{TimeText}.

Definition time_json (t : Z) : option json :=
  if decide (year_printable t) then Some (encode_time t) else None.

Definition Stats_json (s : option Stats) : option json :=
  match s with
  | None => Some JNull
  | Some s =>
      lb ← time_json (LastBackup s); lc ← time_json (LastCompaction s);
      Some (JObj [("total_adds", JInt (TotalAdds s)); ("total_removes", JInt (TotalRemoves s));
                  ("total_queries", JInt (TotalQueries s)); ("last_backup", lb); ("last_compaction", lc)])
  end.

Definition Config_json (c : option (gmap string value)) : option json :=
  match c with
  | None => Some JNull
  | Some m => JObj <$> mapM (λ kv, (kv.1,.) <$> value_json kv.2) (sorted_entries m)
  end.

Definition Metadata_json (m : Metadata) : option json :=
  cr ← time_json (CreatedAt m); up ← time_json (UpdatedAt m);
  cf ← Config_json (Config m); st ← Stats_json (md_Stats m);
  Some (JObj [("node_id", JStr (NodeID m)); ("created_at", cr); ("updated_at", up);
              ("version", JStr (Version m));
              ("cluster_nodes", match ClusterNodes m with
                                | None => JNull | Some l => JArr (JStr <$> l) end);
              ("config", cf); ("stats", st)]).

Definition Stats_field (k : string) (v : json) (s : Stats) : option Stats :=
  let '(mkStats a r q lb lc) := s in
  if key_is k "total_adds" then a' ← decode_int64 a v; Some (mkStats a' r q lb lc)
  else if key_is k "total_removes" then r' ← decode_int64 r v; Some (mkStats a r' q lb lc)
  else if key_is k "total_queries" then q' ← decode_int64 q v; Some (mkStats a r q' lb lc)
  else if key_is k "last_backup" then t ← decode_time lb v; Some (mkStats a r q t lc)
  else if key_is k "last_compaction" then t ← decode_time lc v; Some (mkStats a r q lb t)
  else Some s.

Definition zero_Stats : Stats := mkStats 0 0 0 zero_time zero_time.

(** A pointer: [null] is nil, an object fills the value pointed to. *)
Definition decode_Stats (old : option Stats) (v : json) : option (option Stats) :=
  match v with
  | JNull => Some None
  | JObj l => Some <$> decode_members Stats_field l (default zero_Stats old)
  | _ => None
  end.

Definition decode_Config (old : option (gmap string value)) (v : json) : option (option (gmap string value)) :=
  match v with
  | JNull => Some None
  | JObj l => Some (Some (entries_map (default ∅ old) (map (λ kv, (kv.1, decode_any kv.2)) l)))
  | _ => None
  end.

Definition Metadata_field (k : string) (v : json) (m : Metadata) : option Metadata :=
  let '(mkMetadata id cr up ve cl cf st) := m in
  if key_is k "node_id" then x ← decode_string id v; Some (mkMetadata x cr up ve cl cf st)
  else if key_is k "created_at" then t ← decode_time cr v; Some (mkMetadata id t up ve cl cf st)
  else if key_is k "updated_at" then t ← decode_time up v; Some (mkMetadata id cr t ve cl cf st)
  else if key_is k "version" then x ← decode_string ve v; Some (mkMetadata id cr up x cl cf st)
  else if key_is k "cluster_nodes" then x ← decode_strings v; Some (mkMetadata id cr up ve x cf st)
  else if key_is k "config" then x ← decode_Config cf v; Some (mkMetadata id cr up ve cl x st)
  else if key_is k "stats" then x ← decode_Stats st v; Some (mkMetadata id cr up ve cl cf x)
  else Some m.

Definition zero_Metadata : Metadata := mkMetadata "" zero_time zero_time "" None None None.

Definition unmarshal_Metadata `{JsonText} (data : list byte) : option Metadata :=
  v ← json_parse data; decode_struct zero_Metadata Metadata_field v.

Definition marshal_Metadata `{JsonText} (m : Metadata) : option (list byte) :=
  json_print <$> Metadata_json m.
End json.

(** * The service *)

(** What the operating system answers to the calls of [Save]. *)
Inductive write_outcome : Type := WriteOk | OpenFails | WriteStops (written : nat).

Record save_env : Type := mkSaveEnv {
  mkdir_ok : bool;
  write_out : write_outcome;
  rename_ok : bool;
  remove_ok : bool
}.

Section service.
Context `{JsonText, TimeText}.

(** [os.ReadFile] *)
Definition ReadFile (name : string) (d : dir) : option (list byte) := d ≫= lookup name.

Definition Load (d : dir) (s : Service) : Service * option metadata_error :=
  match ReadFile metadata_json d with
  | None => (s, Some MNotExist)
  | Some data =>
      match unmarshal_Metadata data with
      | None => (s, Some MUnmarshal)
      | Some m => (mkService (dataDir s) m, None)
      end
  end.

Definition initial_Metadata (now : Z) : Metadata :=
  mkMetadata "" now now "1.0.0" (Some []) (Some ∅) (Some zero_Stats).

Definition NewService (now : Z) (dataDir : string) (d : dir) : Service :=
  (Load d (mkService dataDir (initial_Metadata now))).1.

Definition touch (now : Z) (m : Metadata) : Metadata :=
  let '(mkMetadata id cr up ve cl cf st) := m in mkMetadata id cr now ve cl cf st.

(** The section under [mu]. *)
Definition Save_marshal (now : Z) (s : Service) : Service * option (list byte) :=
  let m := touch now (metadata s) in
  (mkService (dataDir s) m, marshal_Metadata m).

(** [os.WriteFile] truncates the file before it writes. *)
Definition WriteFile (out : write_outcome) (name : string) (data : list byte) (files : gmap string (list byte))
  : gmap string (list byte) * bool :=
  match out with
  | WriteOk => (<[name := data]> files, true)
  | OpenFails => (files, false)
  | WriteStops k => (<[name := take k data]> files, false)
  end.

Definition Rename (old new : string) (files : gmap string (list byte)) : option (gmap string (list byte)) :=
  data ← files !! old; Some (<[new := data]> (delete old files)).

(** The section under [writeMu]. *)
Definition Save_commit (env : save_env) (data : list byte) (d : dir) : dir * option metadata_error :=
  if mkdir_ok env then
    let files := default ∅ d in
    let '(files, ok) := WriteFile (write_out env) metadata_tmp data files in
    if ok then
      match (if rename_ok env then Rename metadata_tmp metadata_json files else None) with
      | Some files => (Some files, None)
      | None => (Some (if remove_ok env then delete metadata_tmp files else files), Some MRename)
      end
    else (Some files, Some MWrite)
  else (d, Some MMkdir).

Definition Save (now : Z) (env : save_env) (s : Service) (d : dir) : Service * dir * option metadata_error :=
  let '(s, data) := Save_marshal now s in
  match data with
  | None => (s, d, Some MMarshal)
  | Some data => let '(d, e) := Save_commit env data d in (s, d, e)
  end.

Definition with_metadata (f : Metadata → Metadata) (s : Service) : Service :=
  mkService (dataDir s) (f (metadata s)).

Definition SetNodeID (now : Z) (nodeID : string) : Service → Service := with_metadata (λ m,
  touch now (mkMetadata nodeID (CreatedAt m) (UpdatedAt m) (Version m) (ClusterNodes m) (Config m) (md_Stats m))).

Definition GetNodeID (s : Service) : string := NodeID (metadata s).

Definition nodes (m : Metadata) : list string := default [] (ClusterNodes m).

Definition set_nodes (now : Z) (l : list string) (m : Metadata) : Metadata :=
  mkMetadata (NodeID m) (CreatedAt m) now (Version m) (Some l) (Config m) (md_Stats m).

Definition AddClusterNode (now : Z) (nodeID : string) : Service → Service := with_metadata (λ m,
  if existsb (String.eqb nodeID) (nodes m) then m else set_nodes now (nodes m ++ [nodeID]) m).

Definition RemoveClusterNode (now : Z) (nodeID : string) : Service → Service := with_metadata (λ m,
  set_nodes now (List.filter (λ n, negb (String.eqb n nodeID)) (nodes m)) m).

(** A fresh slice of the same length, copied into. *)
Definition GetClusterNodes (s : Service) : list string :=
  go_copy (replicate (Datatypes.length (nodes (metadata s))) ""%string) (nodes (metadata s)).

(** Writing to a nil map panics, reading from one does not. *)
Definition SetConfig (now : Z) (key : string) (v : value) (s : Service) : go Service :=
  let m := metadata s in
  match Config m with
  | None => Panic NilMapWrite
  | Some c => Ret (mkService (dataDir s) (mkMetadata (NodeID m) (CreatedAt m) now (Version m)
      (ClusterNodes m) (Some (<[key := v]> c)) (md_Stats m)))
  end.

Definition GetConfig (key : string) (s : Service) : option value :=
  default ∅ (Config (metadata s)) !! key.

Definition with_Stats (f : Stats → Stats) (s : Service) : go Service :=
  let m := metadata s in
  match md_Stats m with
  | None => Panic NilDereference
  | Some st => Ret (mkService (dataDir s) (mkMetadata (NodeID m) (CreatedAt m) (UpdatedAt m) (Version m)
      (ClusterNodes m) (Config m) (Some (f st))))
  end.

Definition RecordAdd : Service → go Service := with_Stats (λ st,
  mkStats (i64 (TotalAdds st + 1)) (TotalRemoves st) (TotalQueries st) (LastBackup st) (LastCompaction st)).
Definition RecordRemove : Service → go Service := with_Stats (λ st,
  mkStats (TotalAdds st) (i64 (TotalRemoves st + 1)) (TotalQueries st) (LastBackup st) (LastCompaction st)).
Definition RecordQuery : Service → go Service := with_Stats (λ st,
  mkStats (TotalAdds st) (TotalRemoves st) (i64 (TotalQueries st + 1)) (LastBackup st) (LastCompaction st)).
Definition SetLastBackup (t : Z) : Service → go Service := with_Stats (λ st,
  mkStats (TotalAdds st) (TotalRemoves st) (TotalQueries st) t (LastCompaction st)).
Definition SetLastCompaction (t : Z) : Service → go Service := with_Stats (λ st,
  mkStats (TotalAdds st) (TotalRemoves st) (TotalQueries st) (LastBackup st) t).

Definition GetStats (s : Service) : go Stats :=
  match md_Stats (metadata s) with None => Panic NilDereference | Some st => Ret st end.

(** A copy whose map and slice are never nil. *)
Definition GetMetadata (s : Service) : Metadata :=
  let m := metadata s in
  mkMetadata (NodeID m) (CreatedAt m) (UpdatedAt m) (Version m) (Some (GetClusterNodes s))
    (Some (default ∅ (Config m))) (md_Stats m).
End service.

(** * The JSON round trip *)

(** Metadata that a save can write and a load read back. *)
Definition int64_ok (z : Z) : Prop := - 2 ^ 63 ≤ z < 2 ^ 63.

Definition Stats_ok (s : Stats) : Prop :=
  int64_ok (TotalAdds s) ∧ int64_ok (TotalRemoves s) ∧ int64_ok (TotalQueries s) ∧
  year_ok (LastBackup s) ∧ year_ok (LastCompaction s).

Definition config_ok (c : gmap string value) : Prop :=
  map_Forall (λ k v, is_ascii k = true ∧ value_ok v = true) c.

Definition storable (m : Metadata) : Prop :=
  is_ascii (NodeID m) = true ∧ year_ok (CreatedAt m) ∧ year_ok (UpdatedAt m) ∧ is_ascii (Version m) = true ∧
  Forall (λ n, is_ascii n = true) (nodes m) ∧
  (∀ c, Config m = Some c → config_ok c) ∧ (∀ st, md_Stats m = Some st → Stats_ok st).

(** The metadata that a load gives back. *)
Definition restored (m : Metadata) : Metadata :=
  mkMetadata (NodeID m) (CreatedAt m) (UpdatedAt m) (Version m) (ClusterNodes m)
    ((λ c : gmap string value, loaded <$> c) <$> Config m) (md_Stats m).

Lemma year_ok_printable t : year_ok t → year_printable t.
Proof. unfold year_ok, year_printable. lia. Qed.

Section round_trip.
Context `{JsonTextLaws, TimeTextLaws}.

Lemma time_json_ok t : year_ok t → time_json t = Some (encode_time t).
Proof. intros Ht. unfold time_json. rewrite decide_True; [done|]. by apply year_ok_printable. Qed.

Lemma decode_encode_time old t : year_ok t → decode_time old (encode_time t) = Some t.
Proof. apply time_parse_print. Qed.

Lemma Stats_round st : (∀ s, st = Some s → Stats_ok s) →
  ∃ j, Stats_json st = Some j ∧ json_ascii j = true ∧ decode_Stats None j = Some st.
Proof.
  intros Hst. destruct st as [[a r q lb lc]|]; [|by exists JNull].
  destruct (Hst _ eq_refl) as (Ha & Hr & Hq & Hlb & Hlc).
  cbn [TotalAdds TotalRemoves TotalQueries LastBackup LastCompaction] in *. unfold int64_ok in *.
  unfold Stats_json. cbn [LastBackup LastCompaction]. rewrite !time_json_ok by done.
  cbn [mbind option_bind]. eexists. split; [done|]. split; [by texts|].
  cbn [decode_Stats decode_members default zero_Stats TotalAdds TotalRemoves TotalQueries].
  unfold Stats_field, decode_int64, zero_Stats.
  do 5 (keys; rewrite ?decide_True, ?decode_encode_time by done; cbn [mbind option_bind]). done.
Qed.

Lemma Config_round c : (∀ m, c = Some m → config_ok m) →
  ∃ j, Config_json c = Some j ∧ json_ascii j = true ∧ decode_Config None j = Some ((λ c : gmap string value, loaded <$> c) <$> c).
Proof.
  intros Hc. destruct c as [m|]; [|by exists JNull]. specialize (Hc _ eq_refl).
  destruct (entries_round (sorted_entries m)) as (js & Hm & Ha & Hd).
  { intros k v Hin%elem_of_sorted_entries. destruct (Hc k v Hin) as [? ?]. split; [done|by apply value_round]. }
  exists (JObj js). unfold Config_json. rewrite Hm. split_and!; [done..|].
  cbn [decode_Config default]. rewrite Hd. rewrite <- (fmap_empty (M:=gmap string) loaded), entries_map_fmap.
  by rewrite entries_map_sorted.
Qed.

(** The text a save writes is read back as the metadata, its integers as floats. *)
Lemma unmarshal_marshal m : storable m →
  ∃ data, marshal_Metadata m = Some data ∧ unmarshal_Metadata data = Some (restored m).
Proof.
  destruct m as [id cr up ve cl cf st]. intros (Hid & Hcr & Hup & Hve & Hcl & Hcf & Hst).
  cbn [NodeID CreatedAt UpdatedAt Version ClusterNodes Config md_Stats nodes] in *.
  destruct (Stats_round st Hst) as (js & Hjs & Has & Hds).
  destruct (Config_round cf Hcf) as (jc & Hjc & Hac & Hdc).
  unfold marshal_Metadata, unmarshal_Metadata, Metadata_json.
  cbn [NodeID CreatedAt UpdatedAt Version ClusterNodes Config md_Stats].
  rewrite !time_json_ok, Hjc, Hjs by done. cbn [mbind option_bind fmap option_fmap option_map].
  eexists. split; [done|].
  set (jn := match cl with None => JNull | Some l => JArr (JStr <$> l) end).
  assert (json_ascii jn = true ∧ decode_strings jn = Some cl) as [Han Hdn].
  { subst jn. destruct cl as [l|]; [|done]. destruct (strings_round l Hcl) as [? Hm]. split; [done|].
    cbn [decode_strings]. by rewrite Hm. }
  rewrite json_parse_print.
  2: { cbn -[is_ascii jn]. rewrite !time_print_ascii, Hid, Hve, Han, Hac, Has. done. }
  cbn [mbind option_bind decode_struct decode_members zero_Metadata]. unfold Metadata_field, zero_Metadata.
  do 7 (keys; rewrite ?decode_encode_time, ?Hdn, ?Hdc, ?Hds by done; cbn [decode_string mbind option_bind]).
  done.
Qed.
End round_trip.

(** * Operations on well-formed metadata *)

Inductive mop : Type :=
  | OSetNodeID (now : Z) (nodeID : string)
  | OAddClusterNode (now : Z) (nodeID : string)
  | ORemoveClusterNode (now : Z) (nodeID : string)
  | OSetConfig (now : Z) (key : string) (v : value)
  | ORecordAdd | ORecordRemove | ORecordQuery
  | OSetLastBackup (t : Z)
  | OSetLastCompaction (t : Z).

Definition apply_op (op : mop) (s : Service) : go Service :=
  match op with
  | OSetNodeID now id => Ret (SetNodeID now id s)
  | OAddClusterNode now id => Ret (AddClusterNode now id s)
  | ORemoveClusterNode now id => Ret (RemoveClusterNode now id s)
  | OSetConfig now k v => SetConfig now k v s
  | ORecordAdd => RecordAdd s
  | ORecordRemove => RecordRemove s
  | ORecordQuery => RecordQuery s
  | OSetLastBackup t => SetLastBackup t s
  | OSetLastCompaction t => SetLastCompaction t s
  end.

(** Arguments that can be saved. *)
Definition op_ok (op : mop) : Prop :=
  match op with
  | OSetNodeID now id | OAddClusterNode now id | ORemoveClusterNode now id =>
      year_ok now ∧ is_ascii id = true
  | OSetConfig now k v => year_ok now ∧ is_ascii k = true ∧ value_ok v = true
  | ORecordAdd | ORecordRemove | ORecordQuery => True
  | OSetLastBackup t | OSetLastCompaction t => year_ok t
  end.

(** Nothing is nil, the nodes are distinct, and everything can be saved. *)
Definition wf_metadata (m : Metadata) : Prop :=
  storable m ∧ is_Some (ClusterNodes m) ∧ NoDup (nodes m) ∧ is_Some (Config m) ∧ is_Some (md_Stats m).

Lemma i64_int64_ok z : int64_ok (i64 z).
Proof. unfold int64_ok, i64. pose proof (Z.mod_pos_bound (z + 2 ^ 63) (2 ^ 64)). lia. Qed.
#[local] Hint Resolve i64_int64_ok : dbf.

Lemma existsb_eqb id l : existsb (String.eqb id) l = true ↔ id ∈ l.
Proof.
  rewrite existsb_exists, list_elem_of_In. split; [|by exists id; rewrite String.eqb_refl].
  intros (x & Hx & ->%String.eqb_eq). done.
Qed.

Lemma elem_of_remove id n l :
  n ∈ List.filter (λ n, negb (String.eqb n id)) l ↔ n ≠ id ∧ n ∈ l.
Proof.
  rewrite !list_elem_of_In, List.filter_In, negb_true_iff, String.eqb_neq. tauto.
Qed.

Lemma remove_sublist id l : List.filter (λ n, negb (String.eqb n id)) l `sublist_of` l.
Proof.
  induction l as [|n l IH]; [done|]. cbn [List.filter]. destruct (negb _); by constructor.
Qed.

(** Solve the parts of well-formedness that did not change. *)
Ltac wf_parts := repeat match goal with
  | |- _ ∧ _ => split
  | |- is_Some (Some _) => by eexists
  | |- _ => done
  end.

Lemma wf_set_nodes now l m : wf_metadata m → year_ok now →
  Forall (λ n, is_ascii n = true) l → NoDup l → wf_metadata (set_nodes now l m).
Proof. intros ((?&?&?&?&?&?&?) & ?&?&?&?) ???. unfold wf_metadata, storable. cbn. wf_parts. Qed.

Lemma wf_with_Stats f s : wf_metadata (metadata s) → (∀ st, Stats_ok st → Stats_ok (f st)) →
  ∃ s', with_Stats f s = Ret s' ∧ wf_metadata (metadata s') ∧ dataDir s' = dataDir s.
Proof.
  intros ((?&?&?&?&?&?&Hst) & ?&?&?&[st Heq]) Hf. unfold with_Stats. rewrite Heq.
  eexists. split; [done|]. unfold wf_metadata, storable. cbn. wf_parts.
  intros st' [= <-]. by apply Hf, Hst.
Qed.

Lemma wf_AddClusterNode now id s : wf_metadata (metadata s) → year_ok now → is_ascii id = true →
  wf_metadata (metadata (AddClusterNode now id s)).
Proof.
  intros Hwf Hnow Hid. unfold AddClusterNode, with_metadata. cbn [metadata].
  destruct (existsb _ _) eqn:He; [done|]. pose proof Hwf as ((?&?&?&?&Hasc&?&?) & ?&Hnd&?).
  apply wf_set_nodes; [done..|by apply Forall_app; split; [|repeat constructor]|].
  apply NoDup_app. split_and!; [done| |repeat constructor; by intros ?%elem_of_nil].
  intros n Hn ->%list_elem_of_singleton. apply existsb_eqb in Hn. congruence.
Qed.

Lemma wf_RemoveClusterNode now id s : wf_metadata (metadata s) → year_ok now →
  wf_metadata (metadata (RemoveClusterNode now id s)).
Proof.
  intros Hwf Hnow. unfold RemoveClusterNode, with_metadata. cbn [metadata].
  pose proof Hwf as ((?&?&?&?&Hasc&?&?) & ?&Hnd&?). apply wf_set_nodes; [done..| |].
  - rewrite Forall_forall in *. intros n [_ Hn]%elem_of_remove. by apply Hasc.
  - eapply sublist_NoDup; [exact Hnd|apply remove_sublist].
Qed.

Lemma wf_apply_op op s : wf_metadata (metadata s) → op_ok op →
  ∃ s', apply_op op s = Ret s' ∧ wf_metadata (metadata s') ∧ dataDir s' = dataDir s.
Proof.
  intros Hwf Hop. destruct op as [now id|now id|now id|now k v| | | |t|t]; cbn [apply_op op_ok] in *.
  5-9: apply wf_with_Stats; [done|]; intros st (?&?&?&?&?); unfold Stats_ok; cbn; split_and!; auto with dbf.
  - eexists. split; [done|]. destruct Hop, s as [? []]. destruct Hwf as ((?&?&?&?&?&?&?)&?&?&?&?).
    unfold wf_metadata, storable. cbn. wf_parts.
  - eexists. split; [done|]. destruct Hop. split; [by apply wf_AddClusterNode|done].
  - eexists. split; [done|]. destruct Hop. split; [by apply wf_RemoveClusterNode|done].
  - destruct Hop as (Hnow & Hk & Hv). destruct Hwf as ((?&?&?&?&?&Hcf&?)&?&?&[c Hc]&?). unfold SetConfig. rewrite Hc.
    eexists. split; [done|]. unfold wf_metadata, storable. cbn. wf_parts.
    intros c' [= <-]. apply map_Forall_insert_2; [done|]. by apply Hcf.
Qed.

(** * Loading what was saved *)

Lemma wf_restored m : wf_metadata m → wf_metadata (restored m).
Proof.
  intros ((?&?&?&?&?&Hcf&?)&?&?&[c Hc]&?). unfold wf_metadata, storable, restored. cbn. rewrite Hc. cbn. wf_parts.
  intros c' [= <-]. intros k v Hv. apply lookup_fmap_Some in Hv as (v' & <- & Hv).
  destruct (Hcf _ Hc _ _ Hv). split; [done|]. by apply value_ok_loaded.
Qed.

Lemma wf_touch now m : wf_metadata m → year_ok now → wf_metadata (touch now m).
Proof. destruct m. intros ((?&?&?&?&?&?&?)&?&?&?&?) ?. unfold wf_metadata, storable. cbn. wf_parts. Qed.

Lemma wf_initial now : year_ok now → wf_metadata (initial_Metadata now).
Proof.
  intros Hn. unfold wf_metadata, storable. cbn. wf_parts.
  - by intros c [= <-].
  - intros st [= <-]. unfold Stats_ok, int64_ok, year_ok, zero_Stats, zero_time.
    cbn [TotalAdds TotalRemoves TotalQueries LastBackup LastCompaction]. lia.
  - constructor.
Qed.

(** Everything answers success. *)
Definition good_env : save_env := mkSaveEnv true WriteOk true true.

Lemma tmp_ne : metadata_tmp ≠ metadata_json.
Proof. by vm_compute. Qed.

Section loading.
Context `{JsonTextLaws, TimeTextLaws}.

Lemma Save_commit_good data d :
  Save_commit good_env data d = (Some (<[metadata_json := data]> (delete metadata_tmp (default ∅ d))), None).
Proof.
  unfold Save_commit. cbn [good_env mkdir_ok write_out rename_ok WriteFile]. unfold Rename.
  rewrite lookup_insert_eq. cbn [mbind option_bind]. by rewrite delete_insert_eq.
Qed.

Lemma Load_file data m s files : files !! metadata_json = Some data → unmarshal_Metadata data = Some m →
  Load (Some files) s = (mkService (dataDir s) m, None).
Proof. intros Hf Hm. unfold Load, ReadFile. cbn [mbind option_bind]. by rewrite Hf, Hm. Qed.

(** A save that succeeds is read back: loading gives the saved metadata with the
    time of the save, every integer of the configuration as a float.  The
    temporary file is gone and no other file of the directory has changed. *)
Theorem Load_Save now s d : storable (touch now (metadata s)) →
  ∃ s' files, Save now good_env s d = (s', Some files, None) ∧
    (∀ other, Load (Some files) other = (mkService (dataDir other) (restored (metadata s')), None)) ∧
    metadata s' = touch now (metadata s) ∧ files !! metadata_tmp = None ∧
    ∀ name, name ≠ metadata_json → name ≠ metadata_tmp → files !! name = default ∅ d !! name.
Proof.
  intros Hst. destruct (unmarshal_marshal _ Hst) as (data & Hm & Hu).
  unfold Save, Save_marshal. rewrite Hm, Save_commit_good. eexists _, _. split; [done|].
  split; [|split; [done|split]].
  - intros other. by apply (Load_file data); [apply lookup_insert_eq|].
  - rewrite lookup_insert_ne by (symmetry; apply tmp_ne). apply lookup_delete_eq.
  - intros name ??. by rewrite lookup_insert_ne, lookup_delete_ne.
Qed.

(** An error of [Save] leaves [metadata.json] as it was. *)
Theorem Save_error_keeps_file now env s d s' d' e : Save now env s d = (s', d', Some e) →
  ReadFile metadata_json d' = ReadFile metadata_json d.
Proof.
  unfold Save. destruct (Save_marshal now s) as [s1 [data|]]; [|naive_solver].
  destruct (Save_commit env data d) as [d1 e1] eqn:Hc. intros [= _ <- ->]. revert Hc.
  unfold Save_commit. destruct (mkdir_ok env); [|naive_solver].
  assert (∀ f : gmap string (list byte), f !! metadata_json = default ∅ d !! metadata_json →
    ReadFile metadata_json (Some f) = ReadFile metadata_json d) as Hsame.
  { intros f Hf. cbn. rewrite Hf. by destruct d. }
  pose proof tmp_ne. destruct (write_out env) as [| |k]; cbn [WriteFile].
  - destruct (if rename_ok env then _ else _); [done|]. intros [= <- _]. apply Hsame.
    destruct (remove_ok env); rewrite ?lookup_delete_ne, lookup_insert_ne by done; done.
  - intros [= <- _]. by apply Hsame.
  - intros [= <- _]. apply Hsame. by rewrite lookup_insert_ne.
Qed.
End loading.

(** C25: on well-formed metadata no operation panics, and the result is well-formed: nothing is nil, the
    cluster nodes are distinct, counters stay in their width and everything can still be saved.  The
    arguments must be storable themselves ([op_ok]): ASCII strings, times in the years JSON can print,
    configuration values JSON can print; [SetLastBackup] with a later year, for one, leaves metadata that
    no later [Save] accepts. *)
Theorem operations_preserve_wf ops s : wf_metadata (metadata s) → Forall op_ok ops →
  ∃ s', foldl (λ c op, c ≫= apply_op op) (Ret s) ops = Ret s' ∧ wf_metadata (metadata s').
Proof.
  intros Hwf Hops. revert s Hwf. induction Hops as [|op ops Hop _ IH]; intros s Hwf; [by exists s|].
  destruct (wf_apply_op op s Hwf Hop) as (s' & Heq & Hwf' & _). cbn [foldl mbind go_bind]. rewrite Heq. by apply IH.
Qed.

(** Membership in the cluster after [AddClusterNode] and [RemoveClusterNode]. *)
Lemma AddClusterNode_elem now id s n :
  n ∈ nodes (metadata (AddClusterNode now id s)) ↔ n = id ∨ n ∈ nodes (metadata s).
Proof.
  unfold AddClusterNode, with_metadata. cbn [metadata]. destruct (existsb _ _) eqn:He.
  - apply existsb_eqb in He. naive_solver.
  - change (n ∈ nodes (metadata s) ++ [id] ↔ n = id ∨ n ∈ nodes (metadata s)). rewrite elem_of_app, list_elem_of_singleton. tauto.
Qed.

Lemma RemoveClusterNode_elem now id s n :
  n ∈ nodes (metadata (RemoveClusterNode now id s)) ↔ n ≠ id ∧ n ∈ nodes (metadata s).
Proof. apply elem_of_remove. Qed.

Lemma GetClusterNodes_nodes s : GetClusterNodes s = nodes (metadata s).
Proof. unfold GetClusterNodes. apply go_copy_full. apply length_replicate. Qed.

(** A run of membership changes is the set of nodes added and not removed since. *)
Fixpoint members (ops : list mop) (start : gset string) : gset string :=
  match ops with
  | [] => start
  | OAddClusterNode _ id :: ops => members ops ({[ id ]} ∪ start)
  | ORemoveClusterNode _ id :: ops => members ops (start ∖ {[ id ]})
  | _ :: ops => members ops start
  end.

Lemma apply_op_members op s s' : apply_op op s = Ret s' →
  list_to_set (nodes (metadata s')) = members [op] (list_to_set (nodes (metadata s))).
Proof.
  destruct op as [now id|now id|now id|now k v| | | |t|t]; cbn [apply_op members]; intros Hop.
  5-9: unfold RecordAdd, RecordRemove, RecordQuery, SetLastBackup, SetLastCompaction, with_Stats in Hop;
    by destruct (md_Stats _); [injection Hop as <-|].
  - injection Hop as <-. by destruct s as [? []].
  - injection Hop as <-. apply set_eq. intros n.
    rewrite elem_of_list_to_set, AddClusterNode_elem, elem_of_union, elem_of_singleton, elem_of_list_to_set. done.
  - injection Hop as <-. apply set_eq. intros n.
    rewrite elem_of_list_to_set, RemoveClusterNode_elem, elem_of_difference, elem_of_singleton, elem_of_list_to_set.
    tauto.
  - unfold SetConfig in Hop. by destruct (Config _); [injection Hop as <-|].
Qed.

(** The cluster nodes refine a set: after any operations that do not panic they
    are the nodes added and not removed since. *)
Theorem cluster_membership ops s s' : foldl (λ c op, c ≫= apply_op op) (Ret s) ops = Ret s' →
  list_to_set (GetClusterNodes s') = members ops (list_to_set (GetClusterNodes s)).
Proof.
  rewrite !GetClusterNodes_nodes. revert s. induction ops as [|op ops IH]; intros s; [by intros [= <-]|].
  cbn [foldl mbind go_bind]. destruct (apply_op op s) as [s1|p] eqn:Hop.
  - intros Hf. rewrite (IH _ Hf), (apply_op_members _ _ _ Hop). by destruct op.
  - intros Hf. exfalso. clear -Hf. induction ops as [|o ops IH]; [done|]. by apply IH.
Qed.

(** * Interleaved saves and crashes

    A save is between [mu] and [writeMu] ([Marshalled]), holds [writeMu]
    ([Locked], [Made] after [MkdirAll]), or has opened the temporary file and
    written its first [k] bytes.  [m_hist] records what was serialised.

    [m_disk] is the directory as processes see it, and what a crash of the process
    leaves.  [m_unsynced] has the names whose content a power failure may lose:
    every file that was written, until the system writes it back ([LFlush]).  The
    program never syncs a file; syncing the directory at the end of [Save] makes
    the rename durable, not the bytes of the renamed file. *)

Inductive save_pc : Type :=
  | Marshalled (data : list byte)
  | Locked (data : list byte)
  | Made (data : list byte)
  | Writing (data : list byte) (k : nat).

Definition pc_data (pc : save_pc) : list byte :=
  match pc with Marshalled data | Locked data | Made data | Writing data _ => data end.

Definition holds_writeMu (pc : save_pc) : bool :=
  match pc with Marshalled _ => false | _ => true end.

Record mstate : Type := mkMState {
  m_svc : Service;
  m_disk : dir;
  m_writeMu : option nat;
  m_saves : gmap nat save_pc;
  m_hist : list Metadata;
  m_unsynced : gset string
}.

Inductive mlabel : Type :=
  | LOp (op : mop)
  | LMarshal (tid : nat) (now : Z)
  | LSave (tid : nat)
  | LFlush (name : string).

Definition label_ok (l : mlabel) : Prop :=
  match l with LOp op => op_ok op | LMarshal _ now => year_ok now | LSave _ | LFlush _ => True end.

Section steps.
Context `{JsonText, TimeText}.

Inductive mstep : mlabel → mstate → mstate → Prop :=
  | ms_op op s s' d mu sv h y : apply_op op s = Ret s' →
      mstep (LOp op) (mkMState s d mu sv h y) (mkMState s' d mu sv h y)
  | ms_marshal tid now s s' data d mu sv h y : sv !! tid = None → Save_marshal now s = (s', Some data) →
      mstep (LMarshal tid now) (mkMState s d mu sv h y)
        (mkMState s' d mu (<[tid := Marshalled data]> sv) (metadata s' :: h) y)
  | ms_marshal_fails tid now s s' d mu sv h y : sv !! tid = None → Save_marshal now s = (s', None) →
      mstep (LMarshal tid now) (mkMState s d mu sv h y) (mkMState s' d mu sv h y)
  | ms_lock tid data s d sv h y : sv !! tid = Some (Marshalled data) →
      mstep (LSave tid) (mkMState s d None sv h y) (mkMState s d (Some tid) (<[tid := Locked data]> sv) h y)
  | ms_mkdir tid data s d mu sv h y : sv !! tid = Some (Locked data) →
      mstep (LSave tid) (mkMState s d mu sv h y) (mkMState s (Some (default ∅ d)) mu (<[tid := Made data]> sv) h y)
  | ms_open tid data s files mu sv h y : sv !! tid = Some (Made data) →
      mstep (LSave tid) (mkMState s (Some files) mu sv h y)
        (mkMState s (Some (<[metadata_tmp := []]> files)) mu (<[tid := Writing data 0]> sv) h ({[metadata_tmp]} ∪ y))
  | ms_write tid data j k s files mu sv h y : sv !! tid = Some (Writing data j) → (j ≤ k)%nat →
      mstep (LSave tid) (mkMState s (Some files) mu sv h y)
        (mkMState s (Some (<[metadata_tmp := take k data]> files)) mu (<[tid := Writing data k]> sv) h ({[metadata_tmp]} ∪ y))
  | ms_rename tid data k s files files' mu sv h y : sv !! tid = Some (Writing data k) →
      (Datatypes.length data ≤ k)%nat → Rename metadata_tmp metadata_json files = Some files' →
      mstep (LSave tid) (mkMState s (Some files) mu sv h y)
        (mkMState s (Some files') None (delete tid sv) h ({[metadata_json; metadata_tmp]} ∪ y))
  | ms_fail tid pc s d mu sv h y : sv !! tid = Some pc → holds_writeMu pc = true →
      mstep (LSave tid) (mkMState s d mu sv h y) (mkMState s d None (delete tid sv) h y)
  | ms_fail_remove tid data k s files mu sv h y : sv !! tid = Some (Writing data k) →
      mstep (LSave tid) (mkMState s (Some files) mu sv h y)
        (mkMState s (Some (delete metadata_tmp files)) None (delete tid sv) h ({[metadata_tmp]} ∪ y))
  | ms_flush name s d mu sv h y :
      mstep (LFlush name) (mkMState s d mu sv h y) (mkMState s d mu sv h (y ∖ {[name]})).

Definition mstep_ok (a b : mstate) : Prop := ∃ l, label_ok l ∧ mstep l a b.

(** A service started on directory [d0]. *)
Definition m_init (now : Z) (name : string) (d0 : dir) : mstate :=
  mkMState (NewService now name d0) d0 None ∅ [] ∅.

(** A power failure leaves the files that were written back, and promises nothing about the others. *)
Definition power_failure (st : mstate) (d : dir) : Prop :=
  ∀ name, name ∉ m_unsynced st → ReadFile name d = ReadFile name (m_disk st).

Definition serialised (h : list Metadata) (data : list byte) : Prop :=
  ∃ m, m ∈ h ∧ marshal_Metadata m = Some data.

Record minv (d0 : dir) (st : mstate) : Prop := {
  mi_data tid pc : m_saves st !! tid = Some pc → serialised (m_hist st) (pc_data pc);
  mi_lock tid pc : m_saves st !! tid = Some pc → holds_writeMu pc = true → m_writeMu st = Some tid;
  mi_tmp tid data k : m_saves st !! tid = Some (Writing data k) →
    ReadFile metadata_tmp (m_disk st) = Some (take k data);
  mi_file : ReadFile metadata_json (m_disk st) = ReadFile metadata_json d0 ∨
    ∃ data, serialised (m_hist st) data ∧ ReadFile metadata_json (m_disk st) = Some data;
  mi_svc : wf_metadata (metadata (m_svc st));
  mi_hist : Forall wf_metadata (m_hist st)
}.
End steps.

Section crashes.
Context `{JsonTextLaws, TimeTextLaws}.

Lemma serialised_cons m h data : serialised h data → serialised (m :: h) data.
Proof. intros (m' & ? & ?). exists m'. split; [by right|done]. Qed.

Lemma ReadFile_insert_ne name name' data files : name ≠ name' →
  ReadFile name (Some (<[name' := data]> files)) = ReadFile name (Some files).
Proof. intros. unfold ReadFile. cbn. by rewrite lookup_insert_ne. Qed.

(** Only the holder of [writeMu] is past [Marshalled]. *)
Lemma minv_holder d0 st tid pc tid' pc' : minv d0 st →
  m_saves st !! tid = Some pc → holds_writeMu pc = true →
  m_saves st !! tid' = Some pc' → holds_writeMu pc' = true → tid' = tid.
Proof.
  intros Hi Ha Hha Hb Hhb. pose proof (mi_lock _ _ Hi _ _ Ha Hha). pose proof (mi_lock _ _ Hi _ _ Hb Hhb). congruence.
Qed.

(** The save [tid], which holds [writeMu] or takes it, moves on. *)
Lemma minv_move d0 s d mu sv h y y' tid pc pc' d' : minv d0 (mkMState s d mu sv h y) →
  sv !! tid = Some pc → pc_data pc' = pc_data pc → mu = None ∨ mu = Some tid →
  (∀ data k, pc' = Writing data k → ReadFile metadata_tmp d' = Some (take k data)) →
  ReadFile metadata_json d' = ReadFile metadata_json d →
  minv d0 (mkMState s d' (Some tid) (<[tid := pc']> sv) h y').
Proof.
  intros [Hd Hlk Ht Hf Hw Hh] Hpc Hdata Hmu Htmp Hfile.
  cbn [m_svc m_disk m_writeMu m_saves m_hist m_unsynced] in *.
  assert (∀ tid' pc'', tid' ≠ tid → sv !! tid' = Some pc'' → holds_writeMu pc'' = true → False) as Hno.
  { intros tid' pc'' Hne Hs Hho. specialize (Hlk _ _ Hs Hho). destruct Hmu; congruence. }
  split; cbn [m_svc m_disk m_writeMu m_saves m_hist m_unsynced]; try done.
  - intros tid' pc'' [[<- <-]|[_ Hs]]%lookup_insert_Some; [rewrite Hdata|]; eauto.
  - intros tid' pc'' [[<- <-]|[Hne Hs]]%lookup_insert_Some Hho; [done|]. by destruct (Hno tid' pc'').
  - intros tid' data k [[<- Heq]|[Hne Hs]]%lookup_insert_Some; [by apply Htmp|]. by destruct (Hno tid' (Writing data k)).
  - by rewrite Hfile.
Qed.

(** The save [tid], which holds [writeMu], ends. *)
Lemma minv_finish d0 s d mu sv h y y' tid pc d' : minv d0 (mkMState s d mu sv h y) →
  sv !! tid = Some pc → holds_writeMu pc = true →
  ReadFile metadata_json d' = ReadFile metadata_json d ∨ ReadFile metadata_json d' = Some (pc_data pc) →
  minv d0 (mkMState s d' None (delete tid sv) h y').
Proof.
  intros [Hd Hlk Ht Hf Hw Hh] Hpc Hho Hfile. cbn [m_svc m_disk m_writeMu m_saves m_hist m_unsynced] in *.
  assert (∀ tid' pc'', tid' ≠ tid → sv !! tid' = Some pc'' → holds_writeMu pc'' = true → False) as Hno.
  { intros tid' pc'' Hne Hs Hho'. specialize (Hlk _ _ Hs Hho') as Hl. rewrite (Hlk _ _ Hpc Hho) in Hl. congruence. }
  split; cbn [m_svc m_disk m_writeMu m_saves m_hist m_unsynced]; try done.
  - intros tid' pc'' [_ Hs]%lookup_delete_Some. eauto.
  - intros tid' pc'' [Hne Hs]%lookup_delete_Some Hho'. by destruct (Hno tid' pc'').
  - intros tid' data k [Hne Hs]%lookup_delete_Some. by destruct (Hno tid' (Writing data k)).
  - destruct Hfile as [->| ->]; [done|]. right. exists (pc_data pc). eauto.
Qed.

Lemma minv_step d0 a b : minv d0 a → mstep_ok a b → minv d0 b.
Proof.
  intros Hi (l & Hl & Hs). pose proof tmp_ne.
  destruct Hs as [op s s' d mu sv h y Hop|tid now s s' data d mu sv h y Hn Hm|tid now s s' d mu sv h y Hn Hm
    |tid data s d sv h y Hp|tid data s d mu sv h y Hp|tid data s f mu sv h y Hp|tid data j k s f mu sv h y Hp Hjk
    |tid data k s f f' mu sv h y Hp Hk Hr|tid pc s d mu sv h y Hp Hho|tid data k s f mu sv h y Hp|name s d mu sv h y].
  - destruct (wf_apply_op op s (mi_svc _ _ Hi) Hl) as (s1 & Heq & Hwf & _).
    rewrite Hop in Heq. injection Heq as <-. by destruct Hi.
  - unfold Save_marshal in Hm. injection Hm as <- Hm. destruct Hi as [Hd Hlk Ht Hf Hw Hh].
    cbn [m_svc m_disk m_writeMu m_saves m_hist m_unsynced label_ok metadata] in *. pose proof (wf_touch now _ Hw Hl) as Hwf.
    split; cbn [m_svc m_disk m_writeMu m_saves m_hist m_unsynced metadata]; [..|done|by constructor].
    + intros tid' pc [[<- <-]|[_ Hs]]%lookup_insert_Some; [|eapply serialised_cons; eauto].
      eexists. split; [by left|done].
    + intros tid' pc [[<- <-]|[_ Hs]]%lookup_insert_Some; [done|eauto].
    + intros tid' data' k [[<- ?]|[_ Hs]]%lookup_insert_Some; [done|eauto].
    + destruct Hf as [?|(data' & ? & ?)]; [by left|right]. exists data'. split; [by apply serialised_cons|done].
  - unfold Save_marshal in Hm. injection Hm as <- Hm. destruct Hi as [Hd Hlk Ht Hf Hw Hh].
    split; cbn [m_svc m_disk m_writeMu m_saves m_hist m_unsynced metadata] in *; try done. by apply wf_touch.
  - eapply minv_move; eauto; naive_solver.
  - pose proof (mi_lock _ _ Hi _ _ Hp eq_refl) as Hmu. cbn in Hmu. subst mu.
    eapply minv_move; eauto; [naive_solver|]. by destruct d.
  - pose proof (mi_lock _ _ Hi _ _ Hp eq_refl) as Hmu. cbn in Hmu. subst mu.
    eapply minv_move; eauto; [|by rewrite ReadFile_insert_ne]. intros ? ? [= <- <-]. unfold ReadFile. cbn.
    by rewrite lookup_insert_eq.
  - pose proof (mi_lock _ _ Hi _ _ Hp eq_refl) as Hmu. cbn in Hmu. subst mu.
    eapply minv_move; eauto; [|by rewrite ReadFile_insert_ne]. intros ? ? [= <- <-]. unfold ReadFile. cbn.
    by rewrite lookup_insert_eq.
  - eapply minv_finish; eauto. right. pose proof (mi_tmp _ _ Hi _ _ _ Hp) as Ht. cbn in Ht.
    unfold Rename in Hr. unfold ReadFile in *. cbn in *. rewrite Ht in Hr. injection Hr as <-.
    rewrite lookup_insert_eq, take_ge by done. done.
  - eapply minv_finish; eauto.
  - eapply minv_finish; eauto. left. unfold ReadFile. cbn. by rewrite lookup_delete_ne.
  - by destruct Hi.
Qed.

Lemma minv_init now name d0 : wf_metadata (metadata (NewService now name d0)) → minv d0 (m_init now name d0).
Proof. intros Hwf. split; cbn; try done. by left. Qed.

Lemma minv_reachable d0 now name st : wf_metadata (metadata (NewService now name d0)) →
  rtc mstep_ok (m_init now name d0) st → minv d0 st.
Proof.
  intros Hwf Hr. assert (minv d0 (m_init now name d0)) as Hi by by apply minv_init.
  induction Hr as [|a b c Hab _ IH]; [done|]. apply IH. by eapply minv_step.
Qed.

(** C18: crash consistency.  The service starts on a directory whose metadata, if any, is well-formed, and
    its operations and saves, with arguments that JSON can store, interleave in any way.  When the process
    crashes at any moment, or when the power fails at a moment at which the system has written back
    [metadata.json], a restart on what is left recovers a complete version: what was on disk before, or
    well-formed metadata that one of the saves serialised. *)
Theorem crash_consistent d0 now name st d now' name' :
  wf_metadata (metadata (NewService now name d0)) → rtc mstep_ok (m_init now name d0) st →
  d = m_disk st ∨ (power_failure st d ∧ metadata_json ∉ m_unsynced st) →
  metadata (NewService now' name' d) = metadata (NewService now' name' d0) ∨
  ∃ m, m ∈ m_hist st ∧ metadata (NewService now' name' d) = restored m ∧ wf_metadata (restored m).
Proof.
  intros Hwf Hr Hd. destruct (minv_reachable _ _ _ _ Hwf Hr) as [_ _ _ Hf _ Hh].
  assert (ReadFile metadata_json d = ReadFile metadata_json (m_disk st)) as Hread by (destruct Hd as [->|[Hd ?]]; auto).
  unfold NewService, Load. rewrite Hread. destruct Hf as [->|(data & (m & Hm & Hdata) & ->)]; [by left|right].
  exists m. rewrite Forall_forall in Hh. specialize (Hh _ Hm).
  destruct (unmarshal_marshal m) as (data' & Hd' & Hu); [by destruct Hh|].
  replace data' with data in Hu by congruence. rewrite Hu. split_and!; [done..|]. by apply wf_restored.
Qed.

Definition any_mstep (a b : mstate) : Prop := ∃ l, mstep l a b.

(** A run to some state with a given part, one step more. *)
Lemma run_cons a b (f : gset string → mstate) : any_mstep a b →
  (∃ y, rtc any_mstep b (f y)) → ∃ y, rtc any_mstep a (f y).
Proof. intros Hs [y Hr]. exists y. by eapply rtc_l. Qed.

Ltac mrun c := eapply run_cons; [eexists; eapply c; apply lookup_insert_eq || done || lia|];
  rewrite ?insert_insert_eq, ?delete_insert_eq.
Ltac mdone := eexists; apply rtc_refl.

(** The section under [writeMu], from the lock to the unlock. *)
Lemma commit_is_run env data s d tid sv h y d' e : sv !! tid = Some (Marshalled data) →
  Save_commit env data d = (d', e) →
  ∃ y', rtc any_mstep (mkMState s d None sv h y) (mkMState s d' None (delete tid sv) h y').
Proof.
  intros Hn Hc. eapply run_cons; [eexists; by eapply (ms_lock tid)|].
  unfold Save_commit in Hc. destruct (mkdir_ok env).
  2: { injection Hc as <- _. mrun (ms_fail tid). mdone. }
  mrun (ms_mkdir tid). destruct (write_out env) as [| |k]; cbn [WriteFile] in Hc.
  2: { injection Hc as <- _. mrun (ms_fail tid). mdone. }
  all: mrun (ms_open tid).
  2: { injection Hc as <- _. mrun (ms_write tid data 0 k). mrun (ms_fail tid). mdone. }
  mrun (ms_write tid data 0 (Datatypes.length data)). rewrite take_ge by done.
  destruct (rename_ok env); [destruct (Rename _ _ _) as [f|] eqn:Hren|].
  - injection Hc as <- _. mrun (ms_rename tid data (Datatypes.length data)). mdone.
  - unfold Rename in Hren. by rewrite lookup_insert_eq in Hren.
  - injection Hc as <- _. destruct (remove_ok env); [mrun (ms_fail_remove tid)|mrun (ms_fail tid)]; mdone.
Qed.

(** [Save] is a run of these steps: whatever the operating system answers, a save
    with nothing else going on ends in the directory [Save] computes. *)
Theorem Save_is_run now env s d tid sv h y s' d' e : sv !! tid = None →
  Save now env s d = (s', d', e) →
  ∃ h' y', rtc any_mstep (mkMState s d None sv h y) (mkMState s' d' None sv h' y').
Proof.
  intros Hn. unfold Save. destruct (Save_marshal now s) as [s1 [data|]] eqn:Hm.
  2: { intros [= -> -> _]. exists h, y. apply rtc_once. eexists. by eapply ms_marshal_fails. }
  destruct (Save_commit env data d) as [d1 e1] eqn:Hc. intros [= -> -> _]. exists (metadata s' :: h).
  eapply run_cons; [eexists; by eapply (ms_marshal tid)|].
  destruct (commit_is_run env data s' d tid (<[tid := Marshalled data]> sv) (metadata s' :: h) y d' e1) as [y' Hr];
    [apply lookup_insert_eq|exact Hc|]. rewrite delete_insert_id in Hr by done. by exists y'.
Qed.

(** A save that succeeds is not a save that lasts.  When the power fails before the system has written the
    new [metadata.json] back, zeros in its place are possible, whatever was on disk before; a restart then
    begins with empty metadata: the old version is lost with the new one. *)
Theorem power_failure_loses_metadata now name d0 now' name' :
  wf_metadata (metadata (NewService now name d0)) → year_ok now →
  ∃ s' st, Save now good_env (NewService now name d0) d0 = (s', m_disk st, None) ∧
    rtc mstep_ok (m_init now name d0) st ∧ m_saves st = ∅ ∧
    ∃ d, power_failure st d ∧ metadata (NewService now' name' d) = initial_Metadata now'.
Proof.
  intros Hwf Hnow. set (s := NewService now name d0). set (s' := mkService (dataDir s) (touch now (metadata s))).
  destruct (unmarshal_marshal (touch now (metadata s))) as (data & Hm & _); [by apply wf_touch|].
  assert (Save_marshal now s = (s', Some data)) as Hsm by (unfold Save_marshal; by rewrite Hm).
  set (files := <[metadata_json := data]> (delete metadata_tmp (default ∅ d0))).
  set (y := {[metadata_json; metadata_tmp]} ∪ ({[metadata_tmp]} ∪ ({[metadata_tmp]} ∪ (∅ : gset string)))).
  exists s', (mkMState s' (Some files) None ∅ [metadata s'] y). split_and!; [| |done|].
  - unfold Save. rewrite Hsm, Save_commit_good. done.
  - unfold m_init. fold s. eapply rtc_l; [exists (LMarshal 1 now); split; [done|by eapply (ms_marshal 1)]|].
    eapply rtc_l; [exists (LSave 1); split; [done|eapply (ms_lock 1), lookup_insert_eq]|].
    eapply rtc_l; [exists (LSave 1); split; [done|eapply (ms_mkdir 1), lookup_insert_eq]|].
    eapply rtc_l; [exists (LSave 1); split; [done|eapply (ms_open 1), lookup_insert_eq]|].
    eapply rtc_l; [exists (LSave 1); split; [done|eapply (ms_write 1 data 0 (Datatypes.length data)); [apply lookup_insert_eq|lia]]|].
    rewrite take_ge by done. apply rtc_once. exists (LSave 1). split; [done|].
    rewrite !insert_insert_eq. rewrite <- (delete_insert_id (∅ : gmap nat save_pc) 1%nat (Writing data (Datatypes.length data))) at 2 by done.
    eapply (ms_rename 1 data (Datatypes.length data)); [apply lookup_insert_eq|done|].
    unfold Rename. rewrite lookup_insert_eq. cbn. by rewrite delete_insert_eq.
  - exists (Some (<[metadata_json := [byte_of 0]]> files)). split.
    + intros n Hn. cbn. rewrite lookup_insert_ne; [done|]. intros <-. apply Hn. cbn. set_solver.
    + unfold NewService, Load, ReadFile. cbn [mbind option_bind]. rewrite lookup_insert_eq.
      unfold unmarshal_Metadata. by rewrite json_parse_control.
Qed.

(** Serialising and writing are under different locks: of two saves that both
    succeed, the one that serialised first may write last, and the directory then
    holds the older version. *)
Theorem older_save_wins s d h sv y t1 t2 older newer : t1 ≠ t2 →
  sv !! t1 = Some (Marshalled older) → sv !! t2 = Some (Marshalled newer) →
  ∃ files y', rtc any_mstep (mkMState s d None sv h y) (mkMState s (Some files) None (delete t1 (delete t2 sv)) h y') ∧
    files !! metadata_json = Some older.
Proof.
  intros Hne Hold Hnew.
  destruct (commit_is_run good_env newer s d t2 sv h y _ _ Hnew (Save_commit_good newer d)) as [y1 Hr1].
  eassert (_) as Hr2; [eapply (commit_is_run good_env older s _ t1 (delete t2 sv) h y1 _ _); [by rewrite lookup_delete_ne|apply Save_commit_good]|].
  destruct Hr2 as [y2 Hr2]. eexists _, y2. split; [etrans; [exact Hr1|exact Hr2]|]. apply lookup_insert_eq.
Qed.

(** A file with the text of an empty object is accepted and leaves nil pointers:
    the next statistics or configuration update panics. *)
Theorem empty_object_loads s files now k v : files !! metadata_json = Some (json_print (JObj [])) →
  ∃ s', Load (Some files) s = (s', None) ∧ RecordAdd s' = Panic NilDereference ∧
    SetConfig now k v s' = Panic NilMapWrite ∧ GetStats s' = Panic NilDereference.
Proof.
  intros Hf. exists (mkService (dataDir s) zero_Metadata). split; [eapply Load_file; [exact Hf|]|done].
  unfold unmarshal_Metadata. by rewrite json_parse_print.
Qed.
End crashes.

(** * Instances *)

#[local] Existing Instance tree_text.
#[local] Existing Instance tree_text_laws.
#[local] Existing Instance tree_time.
#[local] Existing Instance tree_time_laws.

Definition ex_config : gmap string value := {[ "shards" := VInt 4; "tags" := VSlice [VString "a"; VNil] ]}.
Definition ex_metadata : Metadata :=
  mkMetadata "n1" 0 0 "1.0.0" (Some ["n1"; "n2"]%string) (Some ex_config) (Some (mkStats 3 1 4 0 0)).
Definition ex_service : Service := mkService "/data" ex_metadata.

Lemma ex_wf : wf_metadata ex_metadata.
Proof.
  unfold wf_metadata, storable, year_ok, ex_metadata. cbn. wf_parts; try lia.
  - repeat constructor.
  - intros c [= <-]. unfold config_ok, ex_config. do 2 (apply map_Forall_insert_2; [done|]). apply map_Forall_empty.
  - intros st [= <-]. unfold Stats_ok, int64_ok, year_ok. cbn [TotalAdds TotalRemoves TotalQueries LastBackup LastCompaction].
    lia.
  - repeat constructor; set_solver.
Qed.

Lemma Load_Save_witness : ∃ s' files, Save 7 good_env ex_service None = (s', Some files, None) ∧
  (∀ other, Load (Some files) other = (mkService (dataDir other) (restored (metadata s')), None)) ∧
  metadata s' = touch 7 ex_metadata ∧ files !! metadata_tmp = None ∧
  ∀ name, name ≠ metadata_json → name ≠ metadata_tmp → files !! name = (∅ : gmap string (list byte)) !! name.
Proof. apply (Load_Save 7 ex_service None). apply wf_touch; [apply ex_wf|unfold year_ok; lia]. Defined.

Lemma operations_preserve_wf_witness : ∃ s',
  foldl (λ c op, c ≫= apply_op op) (Ret ex_service)
    [OAddClusterNode 5 "n3"; OSetConfig 6 "limit" (VInt 9); ORecordAdd; ORemoveClusterNode 7 "n1"] = Ret s' ∧
  wf_metadata (metadata s').
Proof.
  apply operations_preserve_wf; [apply ex_wf|].
  repeat constructor; unfold year_ok; lia.
Defined.

Lemma cluster_membership_witness :
  list_to_set (GetClusterNodes (RemoveClusterNode 7 "n1" ex_service)) =
  members [ORemoveClusterNode 7 "n1"] (list_to_set (GetClusterNodes ex_service)).
Proof. by apply cluster_membership. Defined.

Definition full_disk : save_env := mkSaveEnv true (WriteStops 10) true true.

Lemma Save_error_keeps_file_witness :
  ReadFile metadata_json (Save 7 full_disk ex_service (Some {[ metadata_json := [] ]})).1.2 = Some [].
Proof.
  etrans; [eapply (Save_error_keeps_file 7 full_disk ex_service _ _ _ MWrite)|].
  - unfold Save, Save_marshal. destruct (unmarshal_marshal (touch 7 (metadata ex_service))) as (data & -> & _);
      [apply wf_touch; [apply ex_wf|unfold year_ok; lia]|]. reflexivity.
  - reflexivity.
Defined.

(** A directory a power failure leaves, when the file was written back. *)
Lemma crash_consistent_witness : ∃ st d, rtc mstep_ok (m_init 0 "/data" None) st ∧ power_failure st d ∧
  (metadata (NewService 9 "/data" d) = metadata (NewService 9 "/data" None) ∨
   ∃ m, m ∈ m_hist st ∧ metadata (NewService 9 "/data" d) = restored m ∧ wf_metadata (restored m)).
Proof.
  assert (wf_metadata (metadata (NewService 0 "/data" None))) as Hwf.
  { apply wf_initial. unfold year_ok. lia. }
  destruct (power_failure_loses_metadata 0 "/data" None 9 "/data" Hwf) as (s' & st0 & _ & Hr & _); [unfold year_ok; lia|].
  destruct st0 as [s d mu sv h y]. set (st := mkMState s d mu sv h (y ∖ {[metadata_json]})). exists st, d.
  assert (rtc mstep_ok (m_init 0 "/data" None) st) as Hst.
  { eapply rtc_r; [exact Hr|]. exists (LFlush metadata_json). split; [done|apply ms_flush]. }
  split; [exact Hst|]. split; [by intros n ?|]. apply (crash_consistent None 0 "/data" st d 9 "/data" Hwf Hst).
  right. split; [by intros n ?|]. cbn. set_solver.
Defined.

Lemma power_failure_loses_metadata_witness : ∃ s' st, Save 7 good_env (NewService 7 "/data" None) None = (s', m_disk st, None) ∧
  rtc mstep_ok (m_init 7 "/data" None) st ∧ m_saves st = ∅ ∧
  ∃ d, power_failure st d ∧ metadata (NewService 9 "/data" d) = initial_Metadata 9.
Proof. apply power_failure_loses_metadata; [apply wf_initial|]; unfold year_ok; lia. Defined.

Lemma Save_is_run_witness : ∃ h' y',
  rtc any_mstep (mkMState ex_service None None ∅ [] ∅)
    (mkMState (Save 7 good_env ex_service None).1.1 (Save 7 good_env ex_service None).1.2 None ∅ h' y').
Proof.
  apply (Save_is_run 7 good_env ex_service None 1 ∅ [] ∅ _ _ (Save 7 good_env ex_service None).2); [done|].
  by destruct (Save 7 good_env ex_service None) as [[??]?].
Defined.

Lemma older_save_wins_witness : ∃ files y',
  rtc any_mstep (mkMState ex_service None None {[ 1%nat := Marshalled []; 2%nat := Marshalled [byte_of 1] ]} [] ∅)
    (mkMState ex_service (Some files) None ∅ [] y') ∧ files !! metadata_json = Some [].
Proof. exact (older_save_wins ex_service None [] {[ 1%nat := Marshalled []; 2%nat := Marshalled [byte_of 1] ]} ∅ 1 2 [] [byte_of 1] ltac:(done) eq_refl eq_refl). Defined.

Lemma empty_object_loads_witness : ∃ s',
  Load (Some {[ metadata_json := json_print (JObj []) ]}) ex_service = (s', None) ∧
  RecordAdd s' = Panic NilDereference ∧ SetConfig 0 "k" VNil s' = Panic NilMapWrite ∧
  GetStats s' = Panic NilDereference.
Proof. apply empty_object_loads. apply lookup_insert_eq. Defined.
