(* ===== verification/AuditLog.v ===== *)
(** [internal/audit]: events ([events.go]) and the audit logger ([logger.go]).

    The log directory is a map from names to contents and modification times;
    sub-directories are not modelled.  An open file is named by its path until
    it is closed or removed; what is written to a removed file is lost.  The
    text of times is the class [AuditClock]; [strings.ToLower] is modelled on
    ASCII.  The answers of the operating system are the arguments [io_env];
    writing to the console and [Sync] have no effect here.  The asynchronous
    writer, its callers and the cleaner are interleaved by [astep]. *)

From S2P Require Import Prelude GoBytes GoFmt Json GoAny.
From stdpp Require Import sorting.
From Stdlib Require Import Ascii String.
#[local] Open Scope Z_scope.

(** * Events *)

Definition EventAuthSuccess : string := "auth.success".
Definition EventAuthFailure : string := "auth.failure".
Definition EventRateLimitViolated : string := "ratelimit.violated".
Definition EventPermissionChanged : string := "permission.changed".
Definition EventPermissionGranted : string := "permission.granted".
Definition EventPermissionRevoked : string := "permission.revoked".
Definition EventConfigModified : string := "config.modified".
Definition EventConfigCreated : string := "config.created".
Definition EventConfigDeleted : string := "config.deleted".
Definition EventSystemStart : string := "system.start".
Definition EventSystemStop : string := "system.stop".
Definition EventSystemRestart : string := "system.restart".

Definition SeverityInfo : string := "INFO".
Definition SeverityWarning : string := "WARNING".
Definition SeverityError : string := "ERROR".
Definition SeverityCritical : string := "CRITICAL".

Record AuditEvent : Type := mkEvent {
  ev_Timestamp : Z;
  ev_Time : string;
  ev_EventType : string;
  ev_Severity : string;
  ev_ClientIP : string;
  ev_UserID : string;
  ev_Method : string;
  ev_Result : string;
  ev_Reason : string;
  ev_Metadata : gmap string value;
  ev_RequestID : string
}.

(** [Format(time.RFC3339)] and [Format(20060102_150405)], which has a resolution of a
    second. *)
Class AuditClock : Type := {
  rfc3339 : Z → string;
  timestamp_text : Z → string
}.
Class AuditClockLaws `{AuditClock} : Prop := {
  timestamp_second t t' : t / 10 ^ 9 = t' / 10 ^ 9 → timestamp_text t = timestamp_text t'
}.

Definition NewAuditEvent `{AuditClock} (now : Z) (eventType severity : string) : AuditEvent :=
  mkEvent (now / 10 ^ 6) (rfc3339 now) eventType severity "" "" "" "" "" ∅ "".

Definition WithClientIP (ip : string) (e : AuditEvent) : AuditEvent :=
  let '(mkEvent a b c d _ f g h i j k) := e in mkEvent a b c d ip f g h i j k.
Definition WithUserID (userID : string) (e : AuditEvent) : AuditEvent :=
  let '(mkEvent a b c d e _ g h i j k) := e in mkEvent a b c d e userID g h i j k.
Definition WithMethod (method : string) (e : AuditEvent) : AuditEvent :=
  let '(mkEvent a b c d e f _ h i j k) := e in mkEvent a b c d e f method h i j k.
Definition WithResult (r : string) (e : AuditEvent) : AuditEvent :=
  let '(mkEvent a b c d e f g _ i j k) := e in mkEvent a b c d e f g r i j k.
Definition WithReason (reason : string) (e : AuditEvent) : AuditEvent :=
  let '(mkEvent a b c d e f g h _ j k) := e in mkEvent a b c d e f g h reason j k.
Definition WithMetadata (key : string) (v : value) (e : AuditEvent) : AuditEvent :=
  let '(mkEvent a b c d e f g h i j k) := e in mkEvent a b c d e f g h i (<[key := v]> j) k.
Definition WithRequestID (requestID : string) (e : AuditEvent) : AuditEvent :=
  let '(mkEvent a b c d e f g h i j _) := e in mkEvent a b c d e f g h i j requestID.

Definition GetDefaultSeverity (eventType : string) : string :=
  if decide (eventType = EventAuthSuccess) then SeverityInfo
  else if decide (eventType = EventAuthFailure) then SeverityWarning
  else if decide (eventType = EventRateLimitViolated) then SeverityWarning
  else if decide (eventType = EventPermissionChanged ∨ eventType = EventPermissionGranted ∨
                  eventType = EventPermissionRevoked) then SeverityWarning
  else if decide (eventType = EventConfigModified ∨ eventType = EventConfigCreated ∨
                  eventType = EventConfigDeleted) then SeverityWarning
  else if decide (eventType = EventSystemStart ∨ eventType = EventSystemRestart) then SeverityInfo
  else if decide (eventType = EventSystemStop) then SeverityWarning
  else SeverityInfo.

(** A member with [omitempty]. *)
Definition omit_empty (key s : string) : list (string * json) :=
  if decide (s = "") then [] else [(key, JStr s)].

Definition AuditEvent_json (e : AuditEvent) : option json :=
  md ← mapM (λ kv, (kv.1,.) <$> value_json kv.2) (sorted_entries (ev_Metadata e));
  Some (JObj ([("timestamp", JInt (ev_Timestamp e)); ("time", JStr (ev_Time e));
               ("event_type", JStr (ev_EventType e)); ("severity", JStr (ev_Severity e))] ++
              omit_empty "client_ip" (ev_ClientIP e) ++ omit_empty "user_id" (ev_UserID e) ++
              omit_empty "method" (ev_Method e) ++ [("result", JStr (ev_Result e))] ++
              omit_empty "reason" (ev_Reason e) ++
              (if decide (ev_Metadata e = ∅) then [] else [("metadata", JObj md)]) ++
              omit_empty "request_id" (ev_RequestID e))).

(** * Masking *)

Definition stars (n : nat) : string := string_of_list_ascii (repeat "*"%char n).

(** [s[n:]] and [s[:n]] in range. *)
Fixpoint str_drop (n : nat) (s : string) : string :=
  match n, s with S n', String _ s' => str_drop n' s' | _, _ => s end.
Fixpoint str_take (n : nat) (s : string) : string :=
  match n, s with S n', String c s' => String c (str_take n' s') | _, _ => EmptyString end.

Definition SanitizeValue (v : string) : string :=
  let n := String.length v in
  if decide (n = 0)%nat then v
  else if decide (n ≤ 4)%nat then stars n
  else stars (n - 4) +:+ str_drop (n - 4) v.

Definition SanitizeAPIKey (apiKey : string) : string :=
  let n := String.length apiKey in
  if decide (n = 0)%nat then apiKey
  else if decide (n ≤ 8)%nat then stars n
  else str_take 4 apiKey +:+ (stars (n - 8) +:+ str_drop (n - 4) apiKey).

(** [strings.Contains] *)
Fixpoint Contains (s sub : string) : bool :=
  String.prefix sub s || match s with EmptyString => false | String _ s' => Contains s' sub end.

Definition SanitizeConfigValue (v : value) : value :=
  match v with
  | VString s =>
      let l := lower s in
      if Contains l "secret" || Contains l "password" || Contains l "token" || Contains l "key"
      then VString (SanitizeValue s) else VString s
  | _ => v
  end.

(** * The logger *)

Record LoggerConfig : Type := mkLoggerConfig {
  LogDir : string;
  MaxFileSize : Z;
  MaxAge : Z;
  BufferSize : Z;
  FlushInterval : Z;
  EnableConsole : bool;
  CompressionEnabled : bool
}.

Definition DefaultLogDir : string := "logs/audit".
Definition DefaultMaxFileSize : Z := 10 * 1024 * 1024.
Definition DefaultMaxAge : Z := 30 * 24 * (3600 * 10 ^ 9).
Definition DefaultBufferSize : Z := 1000.
Definition DefaultFlushInterval : Z := 5 * 10 ^ 9.

Definition log_defaults (c : LoggerConfig) : LoggerConfig :=
  mkLoggerConfig
    (if decide (LogDir c = "") then DefaultLogDir else LogDir c)
    (if decide (MaxFileSize c ≤ 0) then DefaultMaxFileSize else MaxFileSize c)
    (if decide (MaxAge c ≤ 0) then DefaultMaxAge else MaxAge c)
    (if decide (BufferSize c ≤ 0) then DefaultBufferSize else BufferSize c)
    (if decide (FlushInterval c ≤ 0) then DefaultFlushInterval else FlushInterval c)
    (EnableConsole c) (CompressionEnabled c).

(** The open file: a file of the directory, a removed one, or closed. *)
Inductive handle : Type := HPath (path : string) | HRemoved | HClosed.

Record Logger : Type := mkLogger {
  l_config : LoggerConfig;
  l_logChan : list AuditEvent;
  l_stopped : bool;                    (* stopChan is closed *)
  l_currentFile : option handle;
  l_currentSize : Z;
  l_currentPath : string;
  l_encoder : bool                     (* not nil *)
}.

(** Contents and modification time. *)
Abbreviation logdir := (gmap string (list byte * Z)).

(** [io_write] is the number of bytes after which a write fails, [None] when it
    succeeds. *)
Record io_env : Type := mkIo { io_mkdir : bool; io_open : bool; io_rename : bool; io_write : option nat }.
Definition good_io : io_env := mkIo true true true None.

Inductive audit_error : Type :=
  | AMkdir | AOpen | ANotInitialized | ARename | AReopen | AMarshal | AWrite | AClose | ATimeout.

Definition log_name `{AuditClock} (now : Z) : string :=
  "audit_" +:+ timestamp_text now +:+ ".log".

(** [os.OpenFile] for appending. *)
Definition OpenAppend (now : Z) (path : string) (d : logdir) : logdir :=
  match d !! path with Some _ => d | None => <[path := ([], now)]> d end.

Definition os_Rename (old new : string) (d : logdir) : option logdir :=
  f ← d !! old; Some (<[new := f]> (delete old d)).

Definition set_file (h : option handle) (size : Z) (path : string) (enc : bool) (l : Logger) : Logger :=
  mkLogger (l_config l) (l_logChan l) (l_stopped l) h size path enc.

Section logger.
Context `{JsonText, AuditClock}.

(** An error leaves the old handle in place, closed. *)
Definition openLogFile (env : io_env) (now : Z) (l : Logger) (d : logdir)
  : Logger * logdir * option audit_error :=
  let closed := match l_currentFile l with None => None | Some _ => Some HClosed end in
  let path := log_name now in
  if io_open env then
    (set_file (Some (HPath path)) 0 path true l, OpenAppend now path d, None)
  else (set_file closed (l_currentSize l) (l_currentPath l) (l_encoder l) l, d, Some AOpen).

Definition NewLogger (env : io_env) (now : Z) (config : LoggerConfig) (d : logdir)
  : result audit_error (Logger * logdir) :=
  let config := log_defaults config in
  if io_mkdir env then
    match openLogFile env now (mkLogger config [] false None 0 "" false) d with
    | (l, d, None) => Ok (l, d)
    | (_, _, Some e) => Err e
    end
  else Err AMkdir.

Definition rotateLog (env : io_env) (now : Z) (l : Logger) (d : logdir)
  : Logger * logdir * option audit_error :=
  let closed := match l_currentFile l with None => None | Some _ => Some HClosed end in
  let l := set_file closed (l_currentSize l) (l_currentPath l) (l_encoder l) l in
  match (if io_rename env then os_Rename (l_currentPath l) (log_name now) d else None) with
  | None => (l, d, Some ARename)
  | Some d =>
      if io_open env then
        (set_file (Some (HPath (l_currentPath l))) 0 (l_currentPath l) true l,
         OpenAppend now (l_currentPath l) d, None)
      else (l, d, Some AReopen)
  end.

Definition event_line (e : AuditEvent) : option (list byte) :=
  (λ v, json_print v ++ [byte_of 10]) <$> AuditEvent_json e.

(** Writing at the end of an open file. *)
Definition append_file (now : Z) (path : string) (data : list byte) (d : logdir) : logdir :=
  match d !! path with
  | Some (c, _) => <[path := (c ++ data, now)]> d
  | None => d
  end.

(** The part of [writeEvent] after the rotation. *)
Definition write_line (env : io_env) (now : Z) (e : AuditEvent) (l : Logger) (d : logdir)
  : Logger * logdir * option audit_error :=
  match event_line e with
  | None => (l, d, Some AMarshal)
  | Some data =>
      let grown := set_file (l_currentFile l) (i64 (l_currentSize l + len data)) (l_currentPath l) (l_encoder l) l in
      match l_currentFile l, io_write env with
      | Some (HPath p), None => (grown, append_file now p data d, None)
      | Some (HPath p), Some k => (l, append_file now p (take k data) d, Some AWrite)
      | Some HRemoved, None => (grown, d, None)
      | _, _ => (l, d, Some AWrite)
      end
  end.

Definition writeEvent (env : io_env) (now : Z) (e : AuditEvent) (l : Logger) (d : logdir)
  : Logger * logdir * option audit_error :=
  if decide (l_currentFile l = None ∨ l_encoder l = false) then (l, d, Some ANotInitialized)
  else if decide (MaxFileSize (l_config l) ≤ l_currentSize l) then
    match rotateLog env now l d with
    | (l, d, Some err) => (l, d, Some err)
    | (l, d, None) => write_line env now e l d
    end
  else write_line env now e l d.

(** Files not modified since [MaxAge] ago; removing the open one leaves it without a
    name. *)
Definition expired (cutoff : Z) (name : string) (f : list byte * Z) : bool :=
  HasPrefix name "audit_" && bool_decide (f.2 < cutoff).

Definition performCleanup (now : Z) (l : Logger) (d : logdir) : Logger * logdir :=
  let cutoff := now - MaxAge (l_config l) in
  let d' := filter (λ nf, expired cutoff nf.1 nf.2 = false) d in
  let h := match l_currentFile l with
           | Some (HPath p) => Some (match d' !! p with Some _ => HPath p | None => HRemoved end)
           | h => h
           end in
  (set_file h (l_currentSize l) (l_currentPath l) (l_encoder l) l, d').

(** Every hour, and once more when the logger is closed. *)
Definition cleanupOldLogs : list loop_event → Logger * logdir → (Logger * logdir) * bool :=
  let perform now ld := performCleanup now ld.1 ld.2 in run_loop perform perform.

(** A full channel drops the event. *)
Definition Log (e : AuditEvent) (l : Logger) : Logger :=
  if decide (len (l_logChan l) < BufferSize (l_config l)) then
    mkLogger (l_config l) (l_logChan l ++ [e]) (l_stopped l) (l_currentFile l) (l_currentSize l)
      (l_currentPath l) (l_encoder l)
  else l.

Definition LogSync (env : io_env) (now : Z) (e : AuditEvent) (l : Logger) (d : logdir)
  : Logger * logdir * option audit_error := writeEvent env now e l d.

(** [Close] first closes [stopChan], once; when the goroutines are done it closes
    the file.  [finished] is whether they are done within ten seconds. *)
Definition Close_stop (l : Logger) : Logger :=
  mkLogger (l_config l) (l_logChan l) true (l_currentFile l) (l_currentSize l) (l_currentPath l) (l_encoder l).

Definition Close_file (finished : bool) (l : Logger) : Logger * option audit_error :=
  if finished then
    match l_currentFile l with
    | None => (l, None)
    | Some h => (set_file (Some HClosed) (l_currentSize l) (l_currentPath l) (l_encoder l) l,
                 match h with HClosed => Some AClose | _ => None end)
    end
  else (l, Some ATimeout).

Definition SetLogWriter (l : Logger) : Logger := l.

(** [sort.Strings] of the names with the prefix; the directory is the same in
    front of each. *)
Definition GetLogFiles (d : logdir) : list string :=
  merge_sort name_le (List.filter (λ n, HasPrefix n "audit_") (elements (dom d))).

(** ** The package's logger *)

(** [globalLogger] and whether [initOnce] has run. *)
Record audit_global : Type := mkGlobal { globalLogger : option Logger; initDone : bool }.

Definition InitWithConfig (env : io_env) (now : Z) (config : LoggerConfig) (g : audit_global) (d : logdir)
  : audit_global * logdir * option audit_error :=
  if initDone g then (g, d, None)
  else match NewLogger env now config d with
       | Err e => (mkGlobal (globalLogger g) true, d, Some e)
       | Ok (l, d) => (mkGlobal (Some l) true, d, None)
       end.

Definition default_log_config : LoggerConfig :=
  mkLoggerConfig DefaultLogDir DefaultMaxFileSize DefaultMaxAge DefaultBufferSize DefaultFlushInterval false false.

Definition Init (env : io_env) (now : Z) (g : audit_global) (d : logdir)
  : audit_global * logdir * option audit_error :=
  InitWithConfig env now default_log_config g d.

Definition GetLogger (g : audit_global) : option Logger := globalLogger g.

Definition global_Log (e : AuditEvent) (g : audit_global) : audit_global :=
  mkGlobal (Log e <$> globalLogger g) (initDone g).

Definition auth_success_event (now : Z) (clientIP userID method : string) : AuditEvent :=
  WithReason "Authentication successful" (WithResult "success" (WithMethod method
    (WithUserID userID (WithClientIP clientIP (NewAuditEvent now EventAuthSuccess SeverityInfo))))).
Definition LogAuthSuccess (now : Z) (clientIP userID method : string) : audit_global → audit_global :=
  global_Log (auth_success_event now clientIP userID method).

Definition auth_failure_event (now : Z) (clientIP userID method reason : string) : AuditEvent :=
  WithReason reason (WithResult "failure" (WithMethod method
    (WithUserID (SanitizeValue userID) (WithClientIP clientIP (NewAuditEvent now EventAuthFailure SeverityWarning))))).
Definition LogAuthFailure (now : Z) (clientIP userID method reason : string) : audit_global → audit_global :=
  global_Log (auth_failure_event now clientIP userID method reason).

Definition rate_limit_event (now : Z) (clientIP userID method : string) : AuditEvent :=
  WithReason "Rate limit exceeded" (WithResult "violation" (WithMethod method
    (WithUserID userID (WithClientIP clientIP (NewAuditEvent now EventRateLimitViolated SeverityWarning))))).
Definition LogRateLimitViolation (now : Z) (clientIP userID method : string) : audit_global → audit_global :=
  global_Log (rate_limit_event now clientIP userID method).

Definition permission_event (now : Z) (clientIP userID action targetUser permission : string) : AuditEvent :=
  WithMetadata "permission" (VString permission)
    (WithMetadata "target_user" (VString (SanitizeValue targetUser))
      (WithMetadata "action" (VString action)
        (WithReason ("Permission " +:+ action +:+ " for user " +:+ targetUser)
          (WithResult "changed" (WithUserID userID (WithClientIP clientIP
            (NewAuditEvent now EventPermissionChanged SeverityWarning))))))).
Definition LogPermissionChange (now : Z) (clientIP userID action targetUser permission : string)
  : audit_global → audit_global :=
  global_Log (permission_event now clientIP userID action targetUser permission).

Definition config_event (now : Z) (clientIP userID configKey : string) (oldValue newValue : value) : AuditEvent :=
  WithMetadata "new_value" (SanitizeConfigValue newValue)
    (WithMetadata "old_value" (SanitizeConfigValue oldValue)
      (WithMetadata "config_key" (VString configKey)
        (WithReason ("Configuration key " +:+ configKey +:+ " modified")
          (WithResult "modified" (WithUserID userID (WithClientIP clientIP
            (NewAuditEvent now EventConfigModified SeverityWarning))))))).
Definition LogConfigChange (now : Z) (clientIP userID configKey : string) (oldValue newValue : value)
  : audit_global → audit_global :=
  global_Log (config_event now clientIP userID configKey oldValue newValue).
End logger.

(** ** Audit values of a context *)

Record AuditValues : Type := mkAuditValues {
  av_requestID : option string;
  av_clientIP : option string;
  av_userID : option string
}.

Definition no_audit_values : AuditValues := mkAuditValues None None None.

Definition ContextWithAuditInfo (requestID clientIP userID : string) (_ : AuditValues) : AuditValues :=
  mkAuditValues (Some requestID) (Some clientIP) (Some userID).

Definition GetAuditInfoFromContext (v : AuditValues) : string * string * string :=
  (default ""%string (av_requestID v), default ""%string (av_clientIP v), default ""%string (av_userID v)).

(** * Masking reveals at most the ends *)

Lemma length_stars n : String.length (stars n) = n.
Proof. unfold stars. induction n as [|n IH]; [done|]. cbn. by rewrite IH. Qed.

Lemma length_str_drop n s : String.length (str_drop n s) = (String.length s - n)%nat.
Proof. revert s. induction n as [|n IH]; intros [|c s]; try done. cbn. apply IH. Qed.

Lemma length_str_take n s : String.length (str_take n s) = (n `min` String.length s)%nat.
Proof. revert s. induction n as [|n IH]; intros [|c s]; try done. cbn. by rewrite IH. Qed.

Lemma string_app_inj a b c d : String.length a = String.length c →
  (a ++ b = c ++ d)%string → a = c ∧ b = d.
Proof.
  revert c. induction a as [|x a IH]; intros [|y c] Hl; try done. cbn. intros [= -> Heq].
  injection Hl as Hl. destruct (IH _ Hl Heq) as [-> ->]. done.
Qed.

Lemma str_drop_app a b : str_drop (String.length a) (a ++ b) = b.
Proof. induction a as [|x a IH]; [by destruct b|]. done. Qed.

Lemma length_SanitizeValue v : String.length (SanitizeValue v) = String.length v.
Proof.
  unfold SanitizeValue. repeat case_decide; [done|apply length_stars|].
  rewrite string_app_length, length_stars, length_str_drop. lia.
Qed.

Lemma length_SanitizeAPIKey v : String.length (SanitizeAPIKey v) = String.length v.
Proof.
  unfold SanitizeAPIKey. repeat case_decide; [done|apply length_stars|].
  rewrite !string_app_length, length_stars, length_str_drop, length_str_take. lia.
Qed.

Definition last4 (s : string) : string := str_drop (String.length s - 4) s.

Lemma empty_string_length s : String.length s = 0%nat → s = EmptyString.
Proof. by destruct s. Qed.

Lemma SanitizeValue_eq a b : SanitizeValue a = SanitizeValue b ↔
  String.length a = String.length b ∧ ((String.length a ≤ 4)%nat ∨ last4 a = last4 b).
Proof.
  split.
  - intros Heq. assert (String.length a = String.length b) as Hl.
    { by rewrite <- length_SanitizeValue, Heq, length_SanitizeValue. }
    split; [done|]. destruct (decide (String.length a ≤ 4)%nat) as [|Hn]; [by left|right].
    revert Heq. unfold SanitizeValue, last4. rewrite <- Hl. rewrite !decide_False by lia.
    intros [_ ?]%string_app_inj; [done|by rewrite !length_stars].
  - intros [Hl Hor]. unfold SanitizeValue, last4 in *. rewrite <- Hl in *. repeat case_decide; [|done|].
    + rewrite (empty_string_length a), (empty_string_length b) by lia. done.
    + destruct Hor as [|Heq]; [lia|]. by rewrite Heq.
Qed.

Lemma SanitizeAPIKey_eq a b : SanitizeAPIKey a = SanitizeAPIKey b ↔
  String.length a = String.length b ∧
  ((String.length a ≤ 8)%nat ∨ str_take 4 a = str_take 4 b ∧ last4 a = last4 b).
Proof.
  split.
  - intros Heq. assert (String.length a = String.length b) as Hl.
    { by rewrite <- length_SanitizeAPIKey, Heq, length_SanitizeAPIKey. }
    split; [done|]. destruct (decide (String.length a ≤ 8)%nat) as [|Hn]; [by left|right].
    revert Heq. unfold SanitizeAPIKey, last4. rewrite <- Hl. rewrite !decide_False by lia.
    intros [? [_ ?]%string_app_inj]%string_app_inj; rewrite ?length_stars, ?length_str_take; [done..|lia].
  - intros [Hl Hor]. unfold SanitizeAPIKey, last4 in *. rewrite <- Hl in *. repeat case_decide; [|done|].
    + rewrite (empty_string_length a), (empty_string_length b) by lia. done.
    + destruct Hor as [|[-> ->]]; [lia|]. done.
Qed.

Lemma stars_app n m : (stars n ++ stars m)%string = stars (n + m).
Proof.
  induction n as [|n IH]; [done|].
  change (String "*" (stars n ++ stars m) = String "*" (stars (n + m)))%string. by rewrite IH.
Qed.

Lemma last4_SanitizeAPIKey a : (8 < String.length a)%nat → last4 (SanitizeAPIKey a) = last4 a.
Proof.
  intros Hn. unfold last4 at 1. rewrite length_SanitizeAPIKey. unfold SanitizeAPIKey. rewrite !decide_False by lia.
  rewrite string_app_assoc. fold (last4 a).
  replace (String.length a - 4)%nat with (String.length (str_take 4 a ++ stars (String.length a - 8))) at 1
    by (rewrite string_app_length, length_str_take, length_stars; lia).
  apply str_drop_app.
Qed.

Section events.
Context `{AuditClock}.

Lemma auth_success_user now ip u m : ev_UserID (auth_success_event now ip u m) = u.
Proof. done. Qed.

(** What the log of an authentication reveals of the API key.  A success reveals
    exactly its length and, of a key of more than eight characters, the first and
    last four; a failure, which masks twice, only the last four: events of two keys
    are equal if and only if the keys agree there. *)
Theorem logged_key_reveals now ip m reason a b :
  (auth_success_event now ip (SanitizeAPIKey a) m = auth_success_event now ip (SanitizeAPIKey b) m ↔
    String.length a = String.length b ∧
    ((String.length a ≤ 8)%nat ∨ str_take 4 a = str_take 4 b ∧ last4 a = last4 b)) ∧
  (auth_failure_event now ip (SanitizeAPIKey a) m reason = auth_failure_event now ip (SanitizeAPIKey b) m reason ↔
    String.length a = String.length b ∧ ((String.length a ≤ 8)%nat ∨ last4 a = last4 b)).
Proof.
  split.
  - rewrite <- SanitizeAPIKey_eq. split; [|by intros ->]. intros Heq.
    rewrite <- (auth_success_user now ip _ m), Heq. apply auth_success_user.
  - transitivity (SanitizeValue (SanitizeAPIKey a) = SanitizeValue (SanitizeAPIKey b)).
    { split; [by intros [= Heq]|]. unfold auth_failure_event. by intros ->. }
    rewrite SanitizeValue_eq, !length_SanitizeAPIKey. split; intros [Hl Hor]; split; try done.
    + destruct (decide (String.length a ≤ 8)%nat) as [|Hn]; [by left|right].
      rewrite !last4_SanitizeAPIKey in Hor by lia. destruct Hor; [lia|done].
    + destruct Hor as [Hn|Heq]; right.
      * f_equal. apply SanitizeAPIKey_eq. auto.
      * destruct (decide (String.length a ≤ 8)%nat); [f_equal; apply SanitizeAPIKey_eq; auto|].
        by rewrite !last4_SanitizeAPIKey by lia.
Qed.
End events.

(** * The queue *)

(** The logger with its asynchronous writer: what was accepted, what the writer has
    taken, and whether it has returned. *)
Record astate : Type := mkA {
  a_log : Logger;
  a_dir : logdir;
  a_exited : bool;
  a_accepted : list AuditEvent;
  a_taken : list AuditEvent
}.

Definition full (l : Logger) : bool := bool_decide (BufferSize (l_config l) ≤ len (l_logChan l)).

Definition set_chan (q : list AuditEvent) (l : Logger) : Logger :=
  mkLogger (l_config l) q (l_stopped l) (l_currentFile l) (l_currentSize l) (l_currentPath l) (l_encoder l).

Section queue.
Context `{JsonText, AuditClock}.

(** [asyncWriter] takes an event in its outer or, when stopping, its inner loop, and
    returns when it is stopping and finds the channel empty. *)
Inductive astep : astate → astate → Prop :=
  | as_log e l d x acc tk : full l = false →
      astep (mkA l d x acc tk) (mkA (Log e l) d x (acc ++ [e]) tk)
  | as_drop e l d x acc tk : full l = true →
      astep (mkA l d x acc tk) (mkA (Log e l) d x acc tk)
  | as_take env now e q l d l' d' r acc tk : l_logChan l = e :: q →
      writeEvent env now e (set_chan q l) d = (l', d', r) →
      astep (mkA l d false acc tk) (mkA l' d' false acc (tk ++ [e]))
  | as_sync env now e l d l' d' r x acc tk : LogSync env now e l d = (l', d', r) →
      astep (mkA l d x acc tk) (mkA l' d' x acc tk)
  | as_cleanup now l d x acc tk :
      astep (mkA l d x acc tk) (mkA (performCleanup now l d).1 (performCleanup now l d).2 x acc tk)
  | as_stop l d x acc tk : astep (mkA l d x acc tk) (mkA (Close_stop l) d x acc tk)
  | as_exit l d acc tk : l_stopped l = true → l_logChan l = [] →
      astep (mkA l d false acc tk) (mkA l d true acc tk)
  | as_close l d fin acc tk :
      astep (mkA l d true acc tk) (mkA (Close_file fin l).1 d true acc tk).

Definition a_start (l : Logger) (d : logdir) : astate := mkA l d false [] [].

(** What the file operations leave alone. *)
Definition same_queue (l l' : Logger) : Prop :=
  l_logChan l' = l_logChan l ∧ l_config l' = l_config l ∧ l_stopped l' = l_stopped l.

#[export] Instance same_queue_po : PreOrder same_queue.
Proof. split; [done|]. intros a b c (?&?&?) (?&?&?). unfold same_queue. intuition congruence. Qed.

Lemma rotateLog_queue env now l d l' d' r : rotateLog env now l d = (l', d', r) → same_queue l l'.
Proof. unfold rotateLog. destruct (if io_rename env then _ else _); [destruct (io_open env)|]; by intros [= <- _ _]. Qed.

Lemma write_line_queue env now e l d l' d' r : write_line env now e l d = (l', d', r) → same_queue l l'.
Proof.
  unfold write_line. destruct (event_line e); [|by intros [= <- _ _]].
  by destruct (l_currentFile l) as [[]|], (io_write env); intros [= <- _ _].
Qed.

Lemma writeEvent_queue env now e l d l' d' r : writeEvent env now e l d = (l', d', r) → same_queue l l'.
Proof.
  unfold writeEvent. case_decide; [by intros [= <- _ _]|]. case_decide; [|apply write_line_queue].
  destruct (rotateLog env now l d) as [[l1 d1] [err|]] eqn:Hr; apply rotateLog_queue in Hr; [by intros [= <- _ _]|].
  intros ?%write_line_queue. by etrans.
Qed.

Record ainv (cfg : LoggerConfig) (st : astate) : Prop := {
  ai_config : l_config (a_log st) = cfg;
  ai_bound : len (l_logChan (a_log st)) ≤ BufferSize cfg;
  ai_order : a_accepted st = a_taken st ++ l_logChan (a_log st);
  ai_exit : a_exited st = true → l_stopped (a_log st) = true
}.

Lemma ainv_same cfg l d x acc tk l' d' : ainv cfg (mkA l d x acc tk) → same_queue l l' → ainv cfg (mkA l' d' x acc tk).
Proof. intros [Hc Hb Ho He] (Hq & Hcfg & Hs). split; cbn in *; rewrite ?Hq, ?Hcfg, ?Hs; auto. Qed.

Lemma ainv_step cfg a b : ainv cfg a → astep a b → ainv cfg b.
Proof.
  intros Hi Hs. destruct Hs as [e l d x acc tk Hf|e l d x acc tk Hf|env now e q l d l' d' r acc tk Hq Hw
    |env now e l d l' d' r x acc tk Hw|now l d x acc tk|l d x acc tk|l d acc tk Hst Hq|l d fin acc tk].
  - unfold full in Hf. apply bool_decide_eq_false in Hf. unfold Log. rewrite decide_True by lia.
    destruct Hi as [Hc Hb Ho He]. cbn in *. split; cbn; [done| |by rewrite Ho, (assoc_L (++))|done].
    rewrite len_app, len_cons, len_nil. rewrite Hc in Hf. lia.
  - unfold full in Hf. apply bool_decide_eq_true in Hf. unfold Log. by rewrite decide_False by lia.
  - apply writeEvent_queue in Hw. eapply (ainv_same _ _ d); [|exact Hw]. destruct Hi as [Hc Hb Ho He].
    cbn in *. rewrite Hq in *. split; cbn; [done|rewrite len_cons in Hb; lia| |done].
    by rewrite Ho, <- (assoc_L (++)).
  - apply writeEvent_queue in Hw. by eapply ainv_same.
  - eapply ainv_same; [done|]. done.
  - destruct Hi as [Hc Hb Ho He]. by split.
  - destruct Hi as [Hc Hb Ho He]. by split.
  - eapply ainv_same; [done|]. unfold Close_file. destruct fin; [|done]. by destruct (l_currentFile l).
Qed.

Lemma ainv_run cfg a b : ainv cfg a → rtc astep a b → ainv cfg b.
Proof. intros Hi Hr. induction Hr; [done|]. eauto using ainv_step. Qed.

Lemma ainv_start l d : l_logChan l = [] → 0 ≤ BufferSize (l_config l) → ainv (l_config l) (a_start l d).
Proof. intros Hq Hb. split; cbn; rewrite ?Hq; try done. Qed.

(** C24: The queue of the audit logger.  At any moment of any interleaving, the events
    accepted are those the writer took, in the same order, followed by those still
    queued, of which there are at most [BufferSize]; when the writer returns after
    [Close], it has taken every event accepted until then. *)
Theorem audit_queue l d st : l_logChan l = [] → 0 ≤ BufferSize (l_config l) → rtc astep (a_start l d) st →
  a_accepted st = a_taken st ++ l_logChan (a_log st) ∧
  len (l_logChan (a_log st)) ≤ BufferSize (l_config l) ∧
  (∀ st', astep st st' → a_exited st = false → a_exited st' = true → a_taken st' = a_accepted st').
Proof.
  intros Hq Hb Hr. apply (ainv_run (l_config l)) in Hr as Hi; [|by apply ainv_start].
  split_and!; [by destruct Hi..|]. intros st' Hs Hx Hx'. pose proof (ai_order _ _ Hi) as Ho.
  destruct Hs as [| | | | | |l0 d0 acc tk Hst Hq0|]; cbn in *; try congruence.
  by rewrite Ho, Hq0, app_nil_r.
Qed.

(** After [Close] the writer can always finish: it takes the queued events, one
    step each, and returns. *)
Theorem audit_drains st : a_exited st = false → l_stopped (a_log st) = true →
  ∃ st', nsteps astep (S (List.length (l_logChan (a_log st)))) st st' ∧ a_exited st' = true ∧
    a_taken st' = a_taken st ++ l_logChan (a_log st).
Proof.
  remember (l_logChan (a_log st)) as q eqn:Hq. revert st Hq. induction q as [|e q IH]; intros st Hq Hx Hst;
    destruct st as [l d x acc tk]; cbn in *; subst x.
  - exists (mkA l d true acc tk). split; [|by rewrite app_nil_r]. apply nsteps_once. by apply as_exit.
  - destruct (writeEvent good_io 0 e (set_chan q l) d) as [[l' d'] r] eqn:Hw.
    pose proof (writeEvent_queue _ _ _ _ _ _ _ _ Hw) as (Hq' & _ & Hst').
    destruct (IH (mkA l' d' false acc (tk ++ [e]))) as (st' & Hr & Hx' & Htk); cbn; [by rewrite Hq'|done|by rewrite Hst'|].
    exists st'. split_and!; [|done|by rewrite Htk; cbn; rewrite <- (assoc_L (++))].
    eapply nsteps_l; [by eapply as_take|exact Hr].
Qed.

(** An event logged after the writer has returned is accepted and never written:
    the writer takes nothing more. *)
Theorem late_events_lost st st' : a_exited st = true → rtc astep st st' →
  a_exited st' = true ∧ a_taken st' = a_taken st.
Proof.
  intros Hx Hr. induction Hr as [|a b c Hab _ IH]; [done|].
  assert (a_exited b = true ∧ a_taken b = a_taken a) as [Hb Ht].
  { destruct Hab; cbn in *; try done. }
  destruct (IH Hb) as [? ->]. done.
Qed.
End queue.

(** * The files *)

(** Every content is still the beginning of some file. *)
Definition kept (d d' : logdir) : Prop :=
  ∀ n f, d !! n = Some f → ∃ n' f', d' !! n' = Some f' ∧ f.1 `prefix_of` f'.1.

#[export] Instance kept_po : PreOrder kept.
Proof.
  split; [by intros d n f Hf; exists n, f|].
  intros a b c Hab Hbc n f Hf. destruct (Hab _ _ Hf) as (n1 & f1 & H1 & ?).
  destruct (Hbc _ _ H1) as (n2 & f2 & ? & ?). exists n2, f2. split; [done|]. by etrans.
Qed.

Definition in_log (d : logdir) (line : list byte) : Prop :=
  ∃ n pre post t, d !! n = Some (pre ++ line ++ post, t).

Lemma in_log_kept d d' line : kept d d' → in_log d line → in_log d' line.
Proof.
  intros Hk (n & pre & post & t & Hn). destruct (Hk _ _ Hn) as (n' & [c t'] & Hn' & [post' Hc]).
  cbn in Hc. exists n', pre, (post ++ post'), t'. by rewrite Hn', Hc, <- !(assoc_L (++)).
Qed.

(** The logger writes to a file of the directory. *)
Definition healthy (l : Logger) (d : logdir) : Prop :=
  l_currentFile l = Some (HPath (l_currentPath l)) ∧ l_encoder l = true ∧ is_Some (d !! l_currentPath l).

Section files.
Context `{JsonText, AuditClock}.

Definition needs_rotation (l : Logger) : Prop := MaxFileSize (l_config l) ≤ l_currentSize l.

(** A rotation does not rename over another file. *)
Definition rotation_fresh (now : Z) (l : Logger) (d : logdir) : Prop :=
  needs_rotation l → d !! log_name now = None ∨ log_name now = l_currentPath l.

Lemma append_file_kept now p data d : kept d (append_file now p data d).
Proof.
  unfold append_file. destruct (d !! p) as [[c t]|] eqn:Hp; [|done]. intros n f Hf.
  destruct (decide (n = p)) as [->|Hne].
  - exists p, (c ++ data, now). rewrite lookup_insert_eq. simplify_eq. split; [done|]. by eexists.
  - exists n, f. by rewrite lookup_insert_ne.
Qed.

Lemma OpenAppend_kept now p d : kept d (OpenAppend now p d).
Proof.
  unfold OpenAppend. destruct (d !! p) as [?|] eqn:Hp; [done|]. intros n f Hf. exists n, f.
  rewrite lookup_insert_ne; [done|]. intros ->. congruence.
Qed.

Lemma os_Rename_kept old new d d' : os_Rename old new d = Some d' → d !! new = None ∨ new = old → kept d d'.
Proof.
  unfold os_Rename. destruct (d !! old) as [g|] eqn:Hold; [|done]. intros [= <-] Hnew n f Hf.
  destruct (decide (n = old)) as [->|Hne].
  - exists new, g. rewrite lookup_insert_eq. naive_solver.
  - exists n, f. rewrite lookup_insert_ne, lookup_delete_ne; [done..|]. destruct Hnew as [?| ->]; congruence.
Qed.

Lemma OpenAppend_Some now p d : is_Some (OpenAppend now p d !! p).
Proof. unfold OpenAppend. destruct (d !! p) eqn:Hp; [by rewrite Hp|]. rewrite lookup_insert_eq. by eexists. Qed.

Lemma rotateLog_good now l d : healthy l d → d !! log_name now = None ∨ log_name now = l_currentPath l →
  ∃ l' d', rotateLog good_io now l d = (l', d', None) ∧ healthy l' d' ∧ kept d d' ∧
    l_currentPath l' = l_currentPath l.
Proof.
  intros (Hf & He & [f Hp]) Hfresh. unfold rotateLog. cbn [io_rename io_open good_io].
  assert (∃ d1, os_Rename (l_currentPath l) (log_name now) d = Some d1) as [d1 Hd1].
  { unfold os_Rename. rewrite Hp. by eexists. }
  cbn [set_file l_currentPath]. rewrite Hd1. eexists _, _. split; [done|]. split_and!; [|..|done].
  - split_and!; [done..|]. apply OpenAppend_Some.
  - etrans; [by eapply os_Rename_kept|]. apply OpenAppend_kept.
Qed.

Lemma write_line_good now e l d line : healthy l d → event_line e = Some line →
  ∃ l' d', write_line good_io now e l d = (l', d', None) ∧ healthy l' d' ∧ kept d d' ∧ in_log d' line.
Proof.
  intros (Hf & He & [[c t] Hp]) Hl. unfold write_line. rewrite Hl, Hf. cbn [io_write good_io].
  eexists _, _. split; [done|]. split_and!; [|apply append_file_kept|].
  - split_and!; [done..|]. cbn. unfold append_file. rewrite Hp, lookup_insert_eq. by eexists.
  - exists (l_currentPath l), c, [], now. unfold append_file. by rewrite Hp, lookup_insert_eq, app_nil_r.
Qed.

Lemma writeEvent_good now e l d line : healthy l d → event_line e = Some line → rotation_fresh now l d →
  ∃ l' d', writeEvent good_io now e l d = (l', d', None) ∧ healthy l' d' ∧ kept d d' ∧ in_log d' line.
Proof.
  intros Hh Hl Hfresh. pose proof Hh as (Hf & He & _). unfold writeEvent. rewrite decide_False by (rewrite Hf, He; naive_solver).
  case_decide as Hrot; [|by apply write_line_good].
  destruct (rotateLog_good now l d Hh (Hfresh Hrot)) as (l1 & d1 & -> & Hh1 & Hk1 & _).
  destruct (write_line_good now e l1 d1 line Hh1 Hl) as (l2 & d2 & -> & ? & ? & ?).
  eexists _, _. split; [done|]. split_and!; [done| |done]. by etrans.
Qed.

(** Events with the times at which they are written. *)
Definition write_all (evs : list (Z * AuditEvent)) (l : Logger) (d : logdir) : Logger * logdir :=
  foldl (λ ld ne, (writeEvent good_io ne.1 ne.2 ld.1 ld.2).1) (l, d) evs.

Fixpoint rotations_fresh (evs : list (Z * AuditEvent)) (l : Logger) (d : logdir) : Prop :=
  match evs with
  | [] => True
  | (now, e) :: evs =>
      rotation_fresh now l d ∧
      let '(l', d', _) := writeEvent good_io now e l d in rotations_fresh evs l' d'
  end.

(** C26: As long as no rotation renames over an existing file, nothing is lost: after
    any sequence of writes on a working disk, across any number of rotations, the
    line of every event is in some file, and so is all that was there before. *)
Theorem no_event_lost evs l d : healthy l d → (∀ now e, (now, e) ∈ evs → is_Some (event_line e)) →
  rotations_fresh evs l d →
  kept d (write_all evs l d).2 ∧
  ∀ now e line, (now, e) ∈ evs → event_line e = Some line → in_log (write_all evs l d).2 line.
Proof.
  revert l d. induction evs as [|[now e] evs IH]; intros l d Hh Hl Hfr.
  { split; [done|]. by intros ??? ?%elem_of_nil. }
  cbn [rotations_fresh] in Hfr. destruct Hfr as [Hf Hfr].
  destruct (Hl now e) as [line Hline]; [by left|].
  destruct (writeEvent_good now e l d line Hh Hline Hf) as (l1 & d1 & Hw & Hh1 & Hk1 & Hin).
  rewrite Hw in Hfr. destruct (IH l1 d1 Hh1) as [Hk Hall]; [|done|].
  { intros now' e' ?. apply (Hl now'). by right. }
  assert (write_all ((now, e) :: evs) l d = write_all evs l1 d1) as ->.
  { unfold write_all. cbn [foldl fst snd]. by rewrite Hw. }
  split; [by etrans|]. intros now' e' line' [[= -> ->]|Hin']%elem_of_cons Hline'.
  - replace line' with line by congruence. by eapply in_log_kept.
  - by eapply Hall.
Qed.

(** ** Ways to lose events *)

Lemma writeEvent_rotates now e l d line old t : healthy l d → needs_rotation l → event_line e = Some line →
  d !! l_currentPath l = Some (old, t) → log_name now ≠ l_currentPath l →
  writeEvent good_io now e l d =
    (set_file (Some (HPath (l_currentPath l))) (i64 (0 + len line)) (l_currentPath l) true l,
     <[l_currentPath l := (line, now)]> (<[log_name now := (old, t)]> (delete (l_currentPath l) d)), None).
Proof.
  intros (Hf & He & _) Hrot Hl Hp Hne. unfold writeEvent. rewrite decide_False by (rewrite Hf, He; naive_solver).
  rewrite decide_True by done. unfold rotateLog. cbn [io_rename io_open good_io set_file l_currentPath]. unfold os_Rename.
  rewrite Hp. cbn [mbind option_bind]. unfold OpenAppend. rewrite lookup_insert_ne, lookup_delete_eq by done.
  unfold write_line. rewrite Hl. cbn [l_currentFile set_file io_write good_io l_currentSize l_currentPath l_encoder].
  unfold append_file. rewrite lookup_insert_eq. cbn [app]. by rewrite insert_insert_eq.
Qed.

Lemma writeEvent_appends now e l d line c t : healthy l d → ¬ needs_rotation l → event_line e = Some line →
  d !! l_currentPath l = Some (c, t) →
  writeEvent good_io now e l d =
    (set_file (Some (HPath (l_currentPath l))) (i64 (l_currentSize l + len line)) (l_currentPath l) true l,
     <[l_currentPath l := (c ++ line, now)]> d, None).
Proof.
  intros (Hf & He & _) Hrot Hl Hp. unfold writeEvent. rewrite decide_False by (rewrite Hf, He; naive_solver).
  rewrite decide_False by done. unfold write_line. rewrite Hl, Hf. cbn [io_write good_io].
  unfold append_file. by rewrite Hp, He.
Qed.

Lemma healthy_written l d p f size : l_currentPath l = p → d !! p = Some f →
  healthy (set_file (Some (HPath p)) size p true l) d.
Proof. intros <- Hd. split_and!; [done..|]. by eexists. Qed.

(** Rotated files are named after the second of the rotation: of three events that
    each fill a file, the first is lost when the second and third are written in the
    same second. *)
Theorem same_second_rotation_loses `{!AuditClockLaws} p t0 t1 t2 t3 e1 e2 e3 l1 l2 l3 l :
  l_currentPath l = p → l_currentFile l = Some (HPath p) → l_encoder l = true → l_currentSize l = 0 →
  0 < MaxFileSize (l_config l) → log_name t2 ≠ p → t2 / 10 ^ 9 = t3 / 10 ^ 9 →
  (∀ e li, (e, li) ∈ [(e1, l1); (e2, l2); (e3, l3)] →
    event_line e = Some li ∧ MaxFileSize (l_config l) ≤ len li < 2 ^ 63) →
  (write_all [(t1, e1); (t2, e2); (t3, e3)] l {[ p := ([], t0) ]}).2 =
    {[ p := (l3, t3); log_name t2 := (l2, t2) ]}.
Proof.
  intros Hp Hf He Hs Hmax Hne Hsec Hl.
  assert (log_name t3 = log_name t2) as Hname by (unfold log_name; by rewrite (timestamp_second t3 t2)).
  destruct (Hl e1 l1) as [Hl1 Hb1]; [by left|]. destruct (Hl e2 l2) as [Hl2 Hb2]; [by right; left|].
  destruct (Hl e3 l3) as [Hl3 Hb3]; [by right; right; left|]. subst p.
  unfold write_all. cbn [foldl fst snd].
  rewrite (writeEvent_appends t1 e1 l _ l1 [] t0); [|split_and!; rewrite ?lookup_singleton_eq; done || by eexists
    |unfold needs_rotation; lia|done|apply lookup_singleton_eq].
  cbn [fst snd app]. rewrite insert_singleton_eq, Hs, i64_small by lia.
  rewrite (writeEvent_rotates t2 e2 _ _ l2 l1 t1); [|eapply healthy_written; [done|apply lookup_singleton_eq]
    |unfold needs_rotation; cbn; lia|done|apply lookup_singleton_eq|done].
  cbn [fst snd]. rewrite (writeEvent_rotates t3 e3 _ _ l3 l2 t2);
    [|eapply healthy_written; [done|apply lookup_insert_eq]
     |unfold needs_rotation; cbn; rewrite i64_small by lia; lia|done|apply lookup_insert_eq|cbn; congruence].
  cbn [fst snd set_file l_currentPath]. rewrite Hname, delete_insert_eq.
  rewrite delete_insert_ne, delete_delete_eq, delete_singleton_eq, insert_insert_eq by done. done.
Qed.

(** When the loop has returned, after whatever ticks, no rotated file older than [MaxAge]
    is left, and the configuration is the same. *)
Theorem cleanupOldLogs_final events l d : (cleanupOldLogs events (l, d)).2 = true →
  ∃ now, LoopStop now ∈ events ∧ let '(l', d') := (cleanupOldLogs events (l, d)).1 in
    l_config l' = l_config l ∧ ∀ name f, d' !! name = Some f → expired (now - MaxAge (l_config l)) name f = false.
Proof.
  revert l d. induction events as [|[now|now] events IH]; intros l d; cbn; [done|..].
  - intros (t & Ht & Hl)%IH. exists t. split; [by right|]. revert Hl. unfold cleanupOldLogs. by destruct (run_loop _ _ _ _).1.
  - intros _. exists now. split; [by left|]. split; [done|]. intros name f [_ Hf]%map_lookup_filter_Some. exact Hf.
Qed.

(** A file not written for [MaxAge] is removed even when it is the open one; later
    events are reported written and are in no file. *)
Theorem cleanup_removes_open_file now l d c t now' e line : healthy l d →
  d !! l_currentPath l = Some (c, t) → t < now - MaxAge (l_config l) →
  HasPrefix (l_currentPath l) "audit_" = true → ¬ needs_rotation l → event_line e = Some line →
  let l1 := (performCleanup now l d).1 in let d1 := (performCleanup now l d).2 in
  d1 !! l_currentPath l = None ∧ ∃ l2, writeEvent good_io now' e l1 d1 = (l2, d1, None).
Proof.
  intros (Hf & He & _) Hp Ht Hpre Hrot Hl. unfold performCleanup. rewrite Hf.
  set (d1 := filter _ d). assert (d1 !! l_currentPath l = None) as Hd1.
  { subst d1. apply map_lookup_filter_None_2. right. intros x Hx. cbn. rewrite Hp in Hx. injection Hx as <-.
    unfold expired. rewrite Hpre, bool_decide_eq_true_2 by done. done. }
  cbn [fst snd]. rewrite Hd1. split; [done|]. unfold writeEvent. cbn [set_file l_currentFile l_encoder l_config l_currentSize].
  rewrite decide_False by (rewrite He; naive_solver). rewrite decide_False by done.
  unfold write_line. rewrite Hl. cbn. by eexists.
Qed.

(** When the new file cannot be opened after a rotation has renamed the old one, the
    logger never recovers: every later write fails, whatever the disk does. *)
Theorem reopen_failure_is_permanent env now l d l1 d1 : healthy l d → needs_rotation l →
  log_name now ≠ l_currentPath l → rotateLog env now l d = (l1, d1, Some AReopen) →
  ∀ env' now' e, writeEvent env' now' e l1 d1 = (l1, d1, Some ARename).
Proof.
  intros (Hf & He & [f Hp]) Hrot Hne. unfold rotateLog. rewrite Hf.
  destruct (io_rename env); [|done]. cbn [set_file l_currentPath]. unfold os_Rename at 1. rewrite Hp.
  cbn [mbind option_bind]. destruct (io_open env); [done|]. intros [= <- <-] env' now' e.
  unfold writeEvent. cbn [set_file l_currentFile l_encoder l_config l_currentSize].
  rewrite decide_False by (rewrite He; naive_solver). rewrite decide_True by done.
  unfold rotateLog. cbn [set_file l_currentFile l_encoder l_config l_currentSize l_currentPath].
  assert (os_Rename (l_currentPath l) (log_name now') (<[log_name now := f]> (delete (l_currentPath l) d)) = None) as ->.
  { unfold os_Rename. by rewrite lookup_insert_ne, lookup_delete_eq. }
  by destruct (io_rename env').
Qed.

(** [sync.Once] runs a failing initialisation only once: the second call reports
    success and there is still no logger, so that events are silently dropped. *)
Theorem init_failure_is_silent env now c g d e env' now' c' ev :
  globalLogger g = None → initDone g = false → NewLogger env now c d = Err e →
  let g1 := (InitWithConfig env now c g d).1.1 in
  InitWithConfig env' now' c' g1 d = (g1, d, None) ∧ GetLogger g1 = None ∧ global_Log ev g1 = g1.
Proof.
  intros Hg Hi Hn. assert ((InitWithConfig env now c g d).1.1 = mkGlobal None true) as ->; [|done].
  unfold InitWithConfig. by rewrite Hi, Hn, Hg.
Qed.
End files.

(** * Instances *)

(** Times as numbers, with the stated resolution. *)
#[local] Instance toy_clock : AuditClock := {|
  rfc3339 := Sprintf_int;
  timestamp_text t := Sprintf_int (t / 10 ^ 9)
|}.
#[local] Instance toy_clock_laws : AuditClockLaws.
Proof. split. intros t t' Ht. cbn. by rewrite Ht. Qed.

(** Every value as a pair of braces. *)
#[local] Instance braces_text : JsonText := {|
  json_print _ := [byte_of 123; byte_of 125];
  json_parse _ := None
|}.

Definition ex_event : AuditEvent := NewAuditEvent 5 EventSystemStart SeverityInfo.
Definition ex_line : list byte := [byte_of 123; byte_of 125; byte_of 10].
Definition ex_path : string := log_name 0.
Definition ex_logger : Logger :=
  mkLogger (mkLoggerConfig "logs" 3 10 2 5 false false) [] false (Some (HPath ex_path)) 0 ex_path true.
Definition ex_dir : logdir := {[ ex_path := ([], 0) ]}.

Lemma ex_healthy : healthy ex_logger ex_dir.
Proof. split_and!; [done..|]. by eexists. Qed.

Lemma ex_NewLogger : ∃ d, NewLogger good_io 0 (mkLoggerConfig "logs" 3 10 2 5 false false) ∅ = Ok (ex_logger, d).
Proof. by eexists. Qed.

Lemma audit_queue_witness : ∃ st, rtc astep (a_start ex_logger ex_dir) st ∧ l_logChan (a_log st) = [ex_event] ∧
  a_accepted st = a_taken st ++ l_logChan (a_log st) ∧ len (l_logChan (a_log st)) ≤ 2 ∧
  (∀ st', astep st st' → a_exited st = false → a_exited st' = true → a_taken st' = a_accepted st').
Proof.
  assert (rtc astep (a_start ex_logger ex_dir) (mkA (Log ex_event ex_logger) ex_dir false [ex_event] [])) as Hr.
  { apply rtc_once. by apply as_log. }
  eexists. split; [exact Hr|]. split; [done|]. apply (audit_queue ex_logger ex_dir _ eq_refl ltac:(done) Hr).
Defined.

Lemma audit_drains_witness : ∃ st',
  nsteps astep 2 (mkA (Close_stop (Log ex_event ex_logger)) ex_dir false [ex_event] []) st' ∧
  a_exited st' = true ∧ a_taken st' = [ex_event].
Proof. exact (audit_drains (mkA (Close_stop (Log ex_event ex_logger)) ex_dir false [ex_event] []) eq_refl eq_refl). Defined.

Lemma late_events_lost_witness : ∃ st', l_logChan (a_log st') = [ex_event] ∧ a_exited st' = true ∧ a_taken st' = [].
Proof.
  exists (mkA (Log ex_event ex_logger) ex_dir true [ex_event] []). split; [done|].
  apply (late_events_lost (mkA ex_logger ex_dir true [] [])); [done|]. apply rtc_once.
  by apply (as_log ex_event ex_logger ex_dir true [] []).
Defined.

(** The second event fills a second file. *)
Lemma no_event_lost_witness :
  kept ex_dir (write_all [(1, ex_event); (2 * 10 ^ 9, ex_event)] ex_logger ex_dir).2 ∧
  ∀ now e line, (now, e) ∈ [(1, ex_event); (2 * 10 ^ 9, ex_event)] → event_line e = Some line →
    in_log (write_all [(1, ex_event); (2 * 10 ^ 9, ex_event)] ex_logger ex_dir).2 line.
Proof.
  apply no_event_lost; [apply ex_healthy| |].
  - intros now e Hin. assert (e = ex_event) as -> by set_solver. by eexists.
  - split; [intros H; exfalso; by vm_compute in H|]. split; [intros _; left; by vm_compute|done].
Defined.

Lemma same_second_rotation_loses_witness :
  (write_all [(1, ex_event); (2 * 10 ^ 9, ex_event); (2 * 10 ^ 9 + 7, ex_event)] ex_logger ex_dir).2 =
    {[ ex_path := (ex_line, 2 * 10 ^ 9 + 7); log_name (2 * 10 ^ 9) := (ex_line, 2 * 10 ^ 9) ]}.
Proof.
  apply (same_second_rotation_loses ex_path 0 1 (2 * 10 ^ 9) (2 * 10 ^ 9 + 7) ex_event ex_event ex_event
    ex_line ex_line ex_line ex_logger); [done..|by vm_compute|done|].
  intros e li Hin. assert (e = ex_event ∧ li = ex_line) as [-> ->] by set_solver. by vm_compute.
Defined.

Lemma cleanup_removes_open_file_witness :
  (performCleanup 100 ex_logger ex_dir).2 !! ex_path = None ∧
  ∃ l2, writeEvent good_io 101 ex_event (performCleanup 100 ex_logger ex_dir).1 (performCleanup 100 ex_logger ex_dir).2 =
    (l2, (performCleanup 100 ex_logger ex_dir).2, None).
Proof.
  apply (cleanup_removes_open_file 100 ex_logger ex_dir [] 0 101 ex_event ex_line);
    [apply ex_healthy|done..|unfold needs_rotation; cbn; lia|done].
Defined.

Definition no_open : io_env := mkIo true false true None.

Lemma reopen_failure_is_permanent_witness :
  let l := set_file (Some (HPath ex_path)) 3 ex_path true ex_logger in
  let r := rotateLog no_open (2 * 10 ^ 9) l ex_dir in
  ∀ env' now' e, writeEvent env' now' e r.1.1 r.1.2 = (r.1.1, r.1.2, Some ARename).
Proof.
  apply (reopen_failure_is_permanent no_open (2 * 10 ^ 9) (set_file (Some (HPath ex_path)) 3 ex_path true ex_logger) ex_dir);
    [split_and!; [done..|by eexists]|unfold needs_rotation; cbn; lia|by vm_compute|done].
Defined.

Lemma init_failure_is_silent_witness :
  let g1 := (InitWithConfig no_open 0 default_log_config (mkGlobal None false) ∅).1.1 in
  InitWithConfig good_io 1 default_log_config g1 ∅ = (g1, ∅, None) ∧ GetLogger g1 = None ∧ global_Log ex_event g1 = g1.
Proof. by apply (init_failure_is_silent no_open 0 default_log_config (mkGlobal None false) ∅ AOpen). Defined.
