(* ===== verification/RateLimit.v ===== *)
(** [internal/grpc/ratelimit.go]: trusted proxies, the identity of clients, the
    rate-limiting interceptors and the token bucket.

    [golang.org/x/time/rate] is the class [RateLimiter], with the bound its
    documentation states; the clock is an argument.  [TrustedProxies] is an
    argument too: it is parsed once, on first use.  [float64] is the
    specification of IEEE 754 in the Standard Library. *)

From S2P Require Import Prelude GoBytes GoFmt NetAddr Grpc.
From stdpp Require Import sorting.
From Stdlib Require Import Ascii String SpecFloat.
#[local] Open Scope Z_scope.

(** * Trusted proxies *)

Definition defaultRanges : list string :=
  ["127.0.0.0/8"; "::1/128"; "10.0.0.0/8"; "172.16.0.0/12"; "192.168.0.0/16"; "fc00::/7"; "fe80::/10"].

Definition proxy_net (proxy : string) : option IPNet :=
  if has_char "/" proxy then ParseCIDR proxy
  else ip ← ParseIP proxy;
       match To4 ip with
       | Some _ => ParseCIDR (proxy +:+ "/32")
       | None => ParseCIDR (proxy +:+ "/128")
       end.

(** [trustedProxyNets] after [initTrustedProxies]. *)
Definition initTrustedProxies (TrustedProxies : list string) : list IPNet :=
  if decide (TrustedProxies = []) then omap ParseCIDR defaultRanges
  else omap proxy_net TrustedProxies.

Definition isTrustedProxy (TrustedProxies : list string) (ip : list byte) : bool :=
  existsb (λ n, net_Contains n ip) (initTrustedProxies TrustedProxies).

(** * The identity of a client *)

Section identity.
Context `{X509}.

(** The IP address of a TCP peer, empty when there is none. *)
Definition peer_IP (ctx : context) : list byte :=
  match ctx_peer ctx with
  | Some p => match p_Addr p with TCPAddr ip _ => ip | OtherAddr _ => [] end
  | None => []
  end.

(** [peerIP != nil && isTrustedProxy(peerIP)] *)
Definition from_trusted (TrustedProxies : list string) (ip : list byte) : bool :=
  negb (bool_decide (ip = [])) && isTrustedProxy TrustedProxies ip.

Definition first_forwarded (xff : string) : string :=
  match Split xff "," with h :: _ => TrimSpace h | [] => "" end.

(** The fallback to the peer's address. *)
Definition peer_address (unknown : string) (ctx : context) : string :=
  if decide (peer_IP ctx = []) then
    match ctx_peer ctx with Some p => addr_String (p_Addr p) | None => unknown end
  else IP_String (peer_IP ctx).

Definition getClientID (TrustedProxies : list string) (ctx : context) : string :=
  let md := default ∅ (ctx_md ctx) in
  match md_Get md "x-forwarded-for", md_Get md "x-real-ip", from_trusted TrustedProxies (peer_IP ctx) with
  | xff :: _, _, true => first_forwarded xff
  | [], xri :: _, true => xri
  | _, _, _ => peer_address "unknown" ctx
  end.

Definition GetClientIP (TrustedProxies : list string) (ctx : context) : string :=
  let md := default ∅ (ctx_md ctx) in
  match md_Get md "x-forwarded-for", md_Get md "x-real-ip", from_trusted TrustedProxies (peer_IP ctx) with
  | xff :: _, _, true => first_forwarded xff
  | [], xri :: _, true => xri
  | _, _, _ => peer_address "" ctx
  end.
End identity.

(** What is read of an [http.Request]: canonical header keys. *)
Record http_identity : Type := mkHttpId { RemoteAddr : string; req_Header : gmap string (list string) }.

(** [Header.Get]: the first value. *)
Definition Header_Get (h : gmap string (list string)) (k : string) : string :=
  match default [] (h !! k) with v :: _ => v | [] => "" end.

Definition GetClientHTTP (TrustedProxies : list string) (r : http_identity) : string :=
  let remoteIP := default (RemoteAddr r) (SplitHostPort (RemoteAddr r)) in
  let trusted := match ParseIP remoteIP with Some ip => isTrustedProxy TrustedProxies ip | None => false end in
  let xff := Header_Get (req_Header r) "X-Forwarded-For" in
  let xri := Header_Get (req_Header r) "X-Real-Ip" in
  if decide (xff ≠ "" ∧ trusted = true) then first_forwarded xff
  else if decide (xri ≠ "" ∧ trusted = true) then xri
  else remoteIP.

(** * The interceptor *)

(** [rate.Limiter]: [NewLimiter r b] with [r] tokens per second and bursts of [b]. *)
Class RateLimiter : Type := {
  Limiter : Type;
  NewLimiter : Z → Z → Limiter;
  limiter_Allow : Z → Limiter → bool * Limiter
}.

Fixpoint allowed_count `{RateLimiter} (times : list Z) (l : Limiter) : Z :=
  match times with
  | [] => 0
  | t :: times =>
      let '(ok, l) := limiter_Allow t l in (if ok then 1 else 0) + allowed_count times l
  end.

(** At most a burst and [r] per second; the first call of a new limiter is
    allowed. *)
Class RateLimiterLaws `{RateLimiter} : Prop := {
  allowed_bound r b times t0 t1 : 0 < r → 0 < b → Sorted Z.le times → t0 ≤ t1 →
    Forall (λ t, t0 ≤ t ≤ t1) times →
    allowed_count times (NewLimiter r b) * 10 ^ 9 ≤ b * 10 ^ 9 + r * (t1 - t0);
  first_allowed r b t : 0 < r → 0 < b → (limiter_Allow t (NewLimiter r b)).1 = true
}.

Definition defaultRateLimit : Z := 100.
Definition defaultBurstSize : Z := 200.
Definition perClientRateLimit : Z := 20.
Definition perClientBurstSize : Z := 40.
Definition clientLimiterTimeout : Z := 10 * (60 * 10 ^ 9).

Record RateLimitConfig : Type := mkRateLimitConfig {
  RequestsPerSecond : Z;
  rl_BurstSize : Z;
  PerClientRPS : Z;
  PerClientBurst : Z;
  EnablePerClient : bool
}.

Inductive ratelimit_error : Type :=
  | GlobalLimitExceeded
  | ClientLimitExceeded (clientID : string).

Section interceptor.
Context `{X509, RateLimiter}.

Record RateLimitInterceptor : Type := mkRateLimit {
  globalLimiter : Limiter;
  clientLimiters : gmap string Limiter;
  clientLastSeen : gmap string Z;
  rl_stopped : bool;
  rps : Z;
  burstSize : Z;
  perClientRPS : Z;
  perClientBurst : Z;
  enablePerClient : bool
}.

Definition NewRateLimitInterceptorWithConfig (config : RateLimitConfig) : RateLimitInterceptor :=
  let positive n d := if decide (n ≤ 0) then d else n in
  let r := positive (RequestsPerSecond config) defaultRateLimit in
  let b := positive (rl_BurstSize config) defaultBurstSize in
  mkRateLimit (NewLimiter r b) ∅ ∅ false r b
    (positive (PerClientRPS config) perClientRateLimit)
    (positive (PerClientBurst config) perClientBurstSize) (EnablePerClient config).

Definition NewRateLimitInterceptor (requestsPerSecond burst : Z) : RateLimitInterceptor :=
  NewRateLimitInterceptorWithConfig
    (mkRateLimitConfig requestsPerSecond burst perClientRateLimit perClientBurstSize false).

Definition rl_Stop (r : RateLimitInterceptor) : RateLimitInterceptor :=
  mkRateLimit (globalLimiter r) (clientLimiters r) (clientLastSeen r) true (rps r) (burstSize r)
    (perClientRPS r) (perClientBurst r) (enablePerClient r).

Definition set_global (l : Limiter) (r : RateLimitInterceptor) : RateLimitInterceptor :=
  mkRateLimit l (clientLimiters r) (clientLastSeen r) (rl_stopped r) (rps r) (burstSize r)
    (perClientRPS r) (perClientBurst r) (enablePerClient r).

Definition set_clients (ls : gmap string Limiter) (seen : gmap string Z) (r : RateLimitInterceptor)
  : RateLimitInterceptor :=
  mkRateLimit (globalLimiter r) ls seen (rl_stopped r) (rps r) (burstSize r)
    (perClientRPS r) (perClientBurst r) (enablePerClient r).

(** Each client seen before the cut-off is deleted from both maps. *)
Definition cleanupInactiveClients (now : Z) (r : RateLimitInterceptor) : RateLimitInterceptor :=
  let cutoff := now - clientLimiterTimeout in
  let stale := filter (λ kt, kt.2 < cutoff) (clientLastSeen r) in
  set_clients (filter (λ kl, stale !! kl.1 = None) (clientLimiters r))
    (filter (λ kt, ¬ kt.2 < cutoff) (clientLastSeen r)) r.

(** The goroutine of the interceptor. *)
Definition rl_periodicCleanup : list loop_event → RateLimitInterceptor → RateLimitInterceptor * bool :=
  run_loop cleanupInactiveClients (λ _ r, r).

(** The limiter of a client, created when there is none. *)
Definition findLimiter (clientID : string) (r : RateLimitInterceptor) : Limiter :=
  default (NewLimiter (perClientRPS r) (perClientBurst r)) (clientLimiters r !! clientID).

Definition allowClient (now : Z) (clientID : string) (r : RateLimitInterceptor) : RateLimitInterceptor * bool :=
  let '(ok, l) := limiter_Allow now (findLimiter clientID r) in
  (set_clients (<[clientID := l]> (clientLimiters r)) (<[clientID := now]> (clientLastSeen r)) r, ok).

(** The checks before the handler. *)
Definition check_request (TrustedProxies : list string) (now : Z) (ctx : context) (r : RateLimitInterceptor)
  : RateLimitInterceptor * option ratelimit_error :=
  let '(ok, g) := limiter_Allow now (globalLimiter r) in
  let r := set_global g r in
  if ok then
    let clientID := getClientID TrustedProxies ctx in
    if decide (enablePerClient r = true ∧ clientID ≠ "") then
      let '(r, ok) := allowClient now clientID r in
      (r, if ok then None else Some (ClientLimitExceeded clientID))
    else (r, None)
  else (r, Some GlobalLimitExceeded).

Definition rl_UnaryInterceptor {Req Resp} (TrustedProxies : list string) (now : Z) (ctx : context) (req : Req)
    (handler : context → Req → Resp) (r : RateLimitInterceptor) : RateLimitInterceptor * result ratelimit_error Resp :=
  let '(r, e) := check_request TrustedProxies now ctx r in
  (r, match e with None => Ok (handler ctx req) | Some e => Err e end).

Definition rl_StreamInterceptor {Resp} (TrustedProxies : list string) (now : Z) (ctx : context)
    (handler : context → Resp) (r : RateLimitInterceptor) : RateLimitInterceptor * result ratelimit_error Resp :=
  let '(r, e) := check_request TrustedProxies now ctx r in
  (r, match e with None => Ok (handler ctx) | Some e => Err e end).
End interceptor.

(** * Trusted networks *)

Lemma To4_4 ip : Datatypes.length ip = 4%nat → To4 ip = Some ip.
Proof. intros Hn. unfold To4. by rewrite decide_True. Qed.

Lemma net_Contains_v4 a m ip : Datatypes.length a = 4%nat → Datatypes.length m = 4%nat → Datatypes.length ip = 4%nat →
  net_Contains (mkIPNet a m) ip = bool_decide (zip_with byte_and a m = zip_with byte_and ip m).
Proof.
  intros Ha Hm Hip. unfold net_Contains, networkNumberAndMask. cbn [net_IP net_Mask].
  rewrite (To4_4 a), (To4_4 ip) by done. cbn [mbind option_bind]. rewrite !decide_True by done.
  cbn [default from_option]. unfold id. rewrite bool_decide_eq_true_2 by congruence. done.
Qed.

Lemma net_Contains_v6_v4 a m ip : Datatypes.length a = 16%nat → To4 a = None → Datatypes.length ip = 4%nat →
  Datatypes.length m = 16%nat → net_Contains (mkIPNet a m) ip = false.
Proof.
  intros Ha Hn Hip Hm. unfold net_Contains, networkNumberAndMask. cbn [net_IP net_Mask].
  rewrite Hn, (To4_4 ip) by done. rewrite (decide_True _ _ Ha). cbn [mbind option_bind].
  rewrite decide_False by lia. rewrite (decide_True _ _ Hm). cbn [default from_option].
  unfold id. rewrite bool_decide_eq_false_2 by lia. done.
Qed.

Lemma default_nets : initTrustedProxies [] =
  [mkIPNet [byte_of 127; byte_of 0; byte_of 0; byte_of 0] [byte_of 255; byte_of 0; byte_of 0; byte_of 0];
   mkIPNet (replicate 15 (byte_of 0) ++ [byte_of 1]) (replicate 16 (byte_of 255));
   mkIPNet [byte_of 10; byte_of 0; byte_of 0; byte_of 0] [byte_of 255; byte_of 0; byte_of 0; byte_of 0];
   mkIPNet [byte_of 172; byte_of 16; byte_of 0; byte_of 0] [byte_of 255; byte_of 240; byte_of 0; byte_of 0];
   mkIPNet [byte_of 192; byte_of 168; byte_of 0; byte_of 0] [byte_of 255; byte_of 255; byte_of 0; byte_of 0];
   mkIPNet (byte_of 252 :: replicate 15 (byte_of 0)) (byte_of 254 :: replicate 15 (byte_of 0));
   mkIPNet (byte_of 254 :: byte_of 128 :: replicate 14 (byte_of 0)) (byte_of 255 :: byte_of 192 :: replicate 14 (byte_of 0))].
Proof. vm_compute. reflexivity. Qed.

Lemma byte_and_240 b : byte_of 16 = byte_and b (byte_of 240) ↔ 16 ≤ byte_val b < 32.
Proof.
  pose proof (byte_cases (λ b, bool_decide (byte_of 16 = byte_and b (byte_of 240) ↔ 16 ≤ byte_val b < 32))) as Hb.
  specialize (Hb ltac:(vm_compute; reflexivity) b). by apply bool_decide_eq_true in Hb.
Qed.

Lemma eq_byte_of n b : 0 ≤ n < 256 → byte_of n = b ↔ byte_val b = n.
Proof.
  intros Hn. split.
  - intros <-. rewrite byte_val_of. apply u8_small. lia.
  - intros <-. apply byte_of_val.
Qed.

Lemma four_eq {A} (a b c d a' b' c' d' : A) :
  [a; b; c; d] = [a'; b'; c'; d'] ↔ a = a' ∧ b = b' ∧ c = c' ∧ d = d'.
Proof. naive_solver. Qed.

(** With no proxies configured, an IPv4 address is trusted exactly when it is in
    127.0.0.0/8, 10.0.0.0/8, 172.16.0.0/12 or 192.168.0.0/16. *)
Theorem default_trusted_v4 a b c d : isTrustedProxy [] [a; b; c; d] = true ↔
  byte_val a = 127 ∨ byte_val a = 10 ∨ (byte_val a = 172 ∧ 16 ≤ byte_val b < 32) ∨
  (byte_val a = 192 ∧ byte_val b = 168).
Proof.
  unfold isTrustedProxy. rewrite default_nets. cbn [existsb].
  rewrite (net_Contains_v6_v4 (replicate 15 _ ++ _)), (net_Contains_v6_v4 (byte_of 252 :: _)),
    (net_Contains_v6_v4 (byte_of 254 :: _)) by (vm_compute; reflexivity). rewrite !net_Contains_v4 by done.
  cbn [zip_with orb]. rewrite !byte_and_ones, !byte_and_zero.
  rewrite !orb_false_r, !orb_true_iff, !bool_decide_eq_true, !four_eq, byte_and_240, !eq_byte_of by lia.
  tauto.
Qed.

Lemma zip_with_ones ip : Datatypes.length ip = 4%nat → zip_with byte_and ip (replicate 4 (byte_of 255)) = ip.
Proof.
  destruct ip as [|a [|b [|c [|d [|]]]]]; try done. intros _. cbn [replicate zip_with]. by rewrite !byte_and_ones.
Qed.

Lemma proxy_net_v4 p : Datatypes.length p = 4%nat → proxy_net (v4_text p) = Some (mkIPNet p (replicate 4 (byte_of 255))).
Proof.
  intros Hp. unfold proxy_net. assert (has_char "/" (v4_text p) = false) as Hs.
  { apply v4_text_no_char; [done|]. intros b. apply octet_marks. }
  rewrite Hs. unfold ParseIP. rewrite ParseAddr_v4_text by done. cbn [fmap option_fmap option_map mbind option_bind].
  unfold To16. rewrite decide_True by done. rewrite To4_v4InV6 by done.
  unfold ParseCIDR. change (v4_text p +:+ "/32") with (v4_text p ++ String "/" "32")%string.
  rewrite cut_app by done. cbn [mbind option_bind]. rewrite ParseAddr_v4_text by done. cbn [mbind option_bind].
  change (parse_prefix_length "32") with (Some 32). cbn [mbind option_bind]. rewrite Hp, decide_True by lia.
  change (CIDRMask 32 4) with (replicate 4 (byte_of 255)). by rewrite zip_with_ones.
Qed.

(** With a list of IPv4 addresses configured, exactly the addresses on the list
    are trusted. *)
Theorem configured_trusted_v4 (ips : list (list byte)) ip : ips ≠ [] →
  Forall (λ p, Datatypes.length p = 4%nat) ips → Datatypes.length ip = 4%nat →
  isTrustedProxy (map v4_text ips) ip = true ↔ ip ∈ ips.
Proof.
  intros Hne Hips Hip. unfold isTrustedProxy, initTrustedProxies. rewrite decide_False by (by destruct ips).
  clear Hne. induction Hips as [|p ips Hp _ IH]; [by cbn; split; [|intros ?%elem_of_nil]|].
  cbn [map omap list_omap]. rewrite proxy_net_v4 by done. cbn [existsb].
  rewrite orb_true_iff, IH, net_Contains_v4, !zip_with_ones, bool_decide_eq_true, elem_of_cons by done.
  naive_solver.
Qed.

(** * Identities *)

Section identities.
Context `{X509}.

(** C37: Headers of a peer that is not a trusted proxy are ignored: the identity used
    for limiting and for the audit log depends on the connection alone, whatever
    metadata the client sends; likewise for HTTP requests. *)
Theorem untrusted_headers_ignored proxies p md md' remote h h' :
  from_trusted proxies (peer_IP (mkContext p md)) = false →
  match ParseIP (default remote (SplitHostPort remote)) with
  | Some ip => isTrustedProxy proxies ip | None => false end = false →
  getClientID proxies (mkContext p md) = getClientID proxies (mkContext p md') ∧
  GetClientIP proxies (mkContext p md) = GetClientIP proxies (mkContext p md') ∧
  GetClientHTTP proxies (mkHttpId remote h) = GetClientHTTP proxies (mkHttpId remote h').
Proof.
  intros Hf Hh. unfold getClientID, GetClientIP, GetClientHTTP. cbn [RemoteAddr].
  rewrite Hf, Hh. rewrite !decide_False by naive_solver.
  change (peer_IP (mkContext p md')) with (peer_IP (mkContext p md)). rewrite Hf.
  split_and!; [| |done]; destruct (md_Get _ "x-forwarded-for"), (md_Get _ "x-real-ip"),
    (md_Get (default ∅ (ctx_md (mkContext p md'))) "x-forwarded-for"),
    (md_Get (default ∅ (ctx_md (mkContext p md'))) "x-real-ip"); done.
Qed.

(** The two functions differ only when there is no peer at all. *)
Lemma getClientID_GetClientIP proxies ctx : is_Some (ctx_peer ctx) → getClientID proxies ctx = GetClientIP proxies ctx.
Proof.
  intros [p Hp]. unfold getClientID, GetClientIP, peer_address. rewrite Hp. done.
Qed.

(** Behind a trusted proxy the client chooses its identity: it is the first entry of
    the forwarded list, which a proxy that appends leaves as the client sent it. *)
Theorem forwarded_identity_is_chosen proxies p md id rest :
  from_trusted proxies (peer_IP (mkContext p (Some md))) = true →
  md_Get md "x-forwarded-for" = [(id ++ String "," rest)%string] → has_char "," id = false →
  getClientID proxies (mkContext p (Some md)) = TrimSpace id.
Proof.
  intros Hf Hmd Hid. unfold getClientID. change (default ∅ (ctx_md (mkContext p (Some md)))) with md.
  rewrite Hf, Hmd. unfold first_forwarded.
  by rewrite split_on_app.
Qed.
End identities.

(** * Limits *)

Section limits.
Context `{X509, RateLimiter}.
Implicit Types (r : RateLimitInterceptor) (reqs : list (Z * context)).

(** A run of requests with their times: those that reach the handler. *)
Fixpoint serve (proxies : list string) (reqs : list (Z * context)) (r : RateLimitInterceptor)
  : RateLimitInterceptor * list (Z * context) :=
  match reqs with
  | [] => (r, [])
  | (now, ctx) :: reqs =>
      let '(r1, e) := check_request proxies now ctx r in
      let '(r2, passed) := serve proxies reqs r1 in
      (r2, match e with None => (now, ctx) :: passed | Some _ => passed end)
  end.

Definition same_config (r r' : RateLimitInterceptor) : Prop :=
  perClientRPS r' = perClientRPS r ∧ perClientBurst r' = perClientBurst r ∧ enablePerClient r' = enablePerClient r.

Lemma check_request_config proxies now ctx r : same_config r (check_request proxies now ctx r).1.
Proof.
  unfold check_request, allowClient. destruct (limiter_Allow now (globalLimiter r)) as [[] g]; [|done].
  case_decide; [|done]. by destruct (limiter_Allow now _).
Qed.

(** Every request asks the global limiter once. *)
Lemma check_request_global proxies now ctx r :
  globalLimiter (check_request proxies now ctx r).1 = (limiter_Allow now (globalLimiter r)).2 ∧
  ((check_request proxies now ctx r).2 = None → (limiter_Allow now (globalLimiter r)).1 = true).
Proof.
  unfold check_request, allowClient. destruct (limiter_Allow now (globalLimiter r)) as [[] g]; [|done].
  case_decide; [|done]. by destruct (limiter_Allow now _).
Qed.

Lemma serve_global proxies reqs r :
  len (serve proxies reqs r).2 ≤ allowed_count reqs.*1 (globalLimiter r).
Proof.
  revert r. induction reqs as [|[now ctx] reqs IH]; intros r; [done|].
  cbn [serve fmap list_fmap allowed_count fst]. pose proof (check_request_global proxies now ctx r) as [Hg Hok].
  destruct (check_request proxies now ctx r) as [r1 e]. cbn [fst snd] in *. specialize (IH r1). rewrite Hg in IH.
  destruct (serve proxies reqs r1) as [r2 passed]. destruct (limiter_Allow now (globalLimiter r)) as [ok g].
  cbn [fst snd] in *. destruct e; [destruct ok; lia|]. rewrite (Hok eq_refl), len_cons. lia.
Qed.

(** The limiter of a client changes only with its own requests. *)
Lemma check_request_client proxies now ctx r c : c ≠ "" → enablePerClient r = true →
  let r' := (check_request proxies now ctx r).1 in
  (findLimiter c r' = findLimiter c r ∧
     (getClientID proxies ctx = c → (check_request proxies now ctx r).2 ≠ None)) ∨
  (getClientID proxies ctx = c ∧ findLimiter c r' = (limiter_Allow now (findLimiter c r)).2 ∧
     ((check_request proxies now ctx r).2 = None ↔ (limiter_Allow now (findLimiter c r)).1 = true)) ∨
  (getClientID proxies ctx ≠ c ∧ findLimiter c r' = findLimiter c r).
Proof.
  intros Hc He r'. subst r'. unfold check_request. destruct (limiter_Allow now (globalLimiter r)) as [[] g]; [|by left].
  destruct (decide (getClientID proxies ctx = c)) as [Heq|Hne].
  - rewrite Heq. right. left. rewrite decide_True by done. unfold allowClient.
    change (findLimiter c (set_global g r)) with (findLimiter c r).
    destruct (limiter_Allow now (findLimiter c r)) as [ok l]. cbn [fst snd].
    split_and!; [done| |by destruct ok]. unfold findLimiter. cbn. by rewrite lookup_insert_eq.
  - right. right. split; [done|]. case_decide; [|done]. unfold allowClient.
    destruct (limiter_Allow now _) as [ok l]. cbn [fst]. unfold findLimiter. cbn. by rewrite lookup_insert_ne.
Qed.

Lemma serve_client proxies reqs r c : c ≠ "" → enablePerClient r = true →
  ∃ times, times `sublist_of` reqs.*1 ∧
    len (List.filter (λ q, bool_decide (getClientID proxies q.2 = c)) (serve proxies reqs r).2) ≤
    allowed_count times (findLimiter c r).
Proof.
  intros Hc. revert r. induction reqs as [|[now ctx] reqs IH]; intros r He; [by exists []|].
  cbn [serve]. pose proof (check_request_client proxies now ctx r c Hc He) as Hcl.
  pose proof (check_request_config proxies now ctx r) as (_ & _ & He').
  destruct (check_request proxies now ctx r) as [r1 e]. cbn [fst snd] in *. rewrite He in He'.
  destruct (IH r1 He') as (times & Hsub & Hle). destruct (serve proxies reqs r1) as [r2 passed]. cbn [snd fst] in *.
  destruct Hcl as [[Hl Hno]|[(Heq & Hl & Hok)|[Hne Hl]]].
  - exists times. split; [by constructor|]. rewrite <- Hl. destruct e; [done|]. cbn [List.filter snd].
    rewrite bool_decide_eq_false_2; [done|]. intros Heq. by destruct (Hno Heq).
  - exists (now :: times). split; [by constructor|]. cbn [allowed_count]. rewrite Hl in Hle.
    destruct (limiter_Allow now (findLimiter c r)) as [ok l]. cbn [fst snd] in *.
    destruct e; [|cbn [List.filter snd]; rewrite bool_decide_eq_true_2 by done; rewrite len_cons].
    + destruct ok; lia.
    + rewrite (proj1 Hok eq_refl). lia.
  - exists times. split; [by constructor|]. rewrite <- Hl. destruct e; [done|]. cbn [List.filter snd].
    by rewrite bool_decide_eq_false_2.
Qed.

Lemma sublist_Sorted (l k : list Z) : l `sublist_of` k → Sorted Z.le k → Sorted Z.le l.
Proof.
  intros Hs Hk. apply Sorted_StronglySorted in Hk; [|intros x y z; lia]. apply StronglySorted_Sorted.
  revert Hk. induction Hs as [|x l k Hs IH|x l k Hs IH]; intros Hk; [done|..].
  - apply StronglySorted_inv in Hk as [Hk Hf]. constructor; [auto|]. rewrite List.Forall_forall in Hf |- *.
    intros y Hy. apply Hf. apply list_elem_of_In. apply list_elem_of_In in Hy. by eapply elem_of_sublist.
  - apply StronglySorted_inv in Hk as [Hk _]. auto.
Qed.

Lemma config_positive config : let r := NewRateLimitInterceptorWithConfig config in
  0 < rps r ∧ 0 < burstSize r ∧ 0 < perClientRPS r ∧ 0 < perClientBurst r.
Proof.
  cbn. unfold defaultRateLimit, defaultBurstSize, perClientRateLimit, perClientBurstSize.
  repeat case_decide; lia.
Qed.

(** The limits hold.  Of any requests handled one at a time in an interval of time,
    between two cleanings, whoever sends them, at most a burst and [rps] per second
    reach the handler; with per-client limits enabled, so do at most
    [perClientBurst] and [perClientRPS] per second of each client. *)
Theorem request_limits `{!RateLimiterLaws} config proxies reqs t0 t1 :
  Sorted Z.le reqs.*1 → t0 ≤ t1 → Forall (λ t, t0 ≤ t ≤ t1) reqs.*1 →
  let r := NewRateLimitInterceptorWithConfig config in
  let passed := (serve proxies reqs r).2 in
  len passed * 10 ^ 9 ≤ burstSize r * 10 ^ 9 + rps r * (t1 - t0) ∧
  (enablePerClient r = true → ∀ c, c ≠ "" →
    len (List.filter (λ q, bool_decide (getClientID proxies q.2 = c)) passed) * 10 ^ 9 ≤
    perClientBurst r * 10 ^ 9 + perClientRPS r * (t1 - t0)).
Proof.
  intros Hs Ht Hw r passed. pose proof (config_positive config) as Hpos. cbn zeta in Hpos. fold r in Hpos.
  destruct Hpos as (?&?&?&?).
  assert (globalLimiter r = NewLimiter (rps r) (burstSize r)) as Hg by done. split.
  - pose proof (serve_global proxies reqs r) as Hle. rewrite Hg in Hle. fold passed in Hle.
    pose proof (allowed_bound (rps r) (burstSize r) reqs.*1 t0 t1 ltac:(done) ltac:(done) Hs Ht Hw). lia.
  - intros He c Hc. destruct (serve_client proxies reqs r c Hc He) as (times & Hsub & Hle). fold passed in Hle.
    assert (findLimiter c r = NewLimiter (perClientRPS r) (perClientBurst r)) as Hl by done. rewrite Hl in Hle.
    pose proof (allowed_bound (perClientRPS r) (perClientBurst r) times t0 t1) as Hb.
    specialize (Hb ltac:(done) ltac:(done) (sublist_Sorted _ _ Hsub Hs) Ht).
    assert (Forall (λ t, t0 ≤ t ≤ t1) times) as Hf; [|specialize (Hb Hf); lia].
    rewrite Forall_forall in *. intros t Hin. apply Hw. by eapply elem_of_sublist.
Qed.

(** A new client passes when the global limiter lets it. *)
Lemma new_client_passes `{!RateLimiterLaws} config proxies now ctx g :
  let r := NewRateLimitInterceptorWithConfig config in
  (limiter_Allow now g).1 = true → (check_request proxies now ctx (set_global g r)).2 = None.
Proof.
  intros r Hg. pose proof (config_positive config) as Hpos. cbn zeta in Hpos. fold r in Hpos.
  destruct Hpos as (?&?&?&?). unfold check_request.
  cbn [globalLimiter set_global]. destruct (limiter_Allow now g) as [ok g']. cbn [fst] in Hg. subst ok.
  case_decide; [|done]. unfold allowClient.
  change (findLimiter (getClientID proxies ctx) (set_global g' (set_global g r)))
    with (NewLimiter (perClientRPS r) (perClientBurst r)).
  pose proof (first_allowed (perClientRPS r) (perClientBurst r) now) as Hf.
  destruct (limiter_Allow now (NewLimiter _ _)) as [ok l]. cbn [fst snd] in *. by rewrite Hf.
Qed.

(** An empty first entry of the forwarded list gives an empty identity, which is not
    limited: such requests pass whenever the global limiter lets them. *)
Theorem empty_identity_unlimited proxies now p md rest r :
  from_trusted proxies (peer_IP (mkContext p (Some md))) = true →
  md_Get md "x-forwarded-for" = [String "," rest] → (limiter_Allow now (globalLimiter r)).1 = true →
  (check_request proxies now (mkContext p (Some md)) r).2 = None ∧
  clientLimiters (check_request proxies now (mkContext p (Some md)) r).1 = clientLimiters r.
Proof.
  intros Hf Hmd Hg. assert (getClientID proxies (mkContext p (Some md)) = "") as Hid.
  { unfold getClientID. change (default ∅ (ctx_md (mkContext p (Some md)))) with md. rewrite Hf, Hmd.
    unfold first_forwarded. change (String "," rest) with (("" ++ String "," rest)%string).
    by rewrite split_on_app. }
  unfold check_request. destruct (limiter_Allow now (globalLimiter r)) as [ok g]. cbn [fst] in Hg. subst ok.
  rewrite Hid. by rewrite decide_False by naive_solver.
Qed.

(** ** The maps of clients *)

Definition clients_wf (r : RateLimitInterceptor) : Prop := dom (clientLimiters r) = dom (clientLastSeen r).

(** What requests, stopping and cleaning do to an interceptor. *)
Inductive rl_step : RateLimitInterceptor → RateLimitInterceptor → Prop :=
  | rl_request proxies now ctx r : rl_step r (check_request proxies now ctx r).1
  | rl_cleanup now r : rl_step r (cleanupInactiveClients now r)
  | rl_stop r : rl_step r (rl_Stop r).

Lemma cleanup_lookup now r c :
  clientLastSeen (cleanupInactiveClients now r) !! c =
    (t ← clientLastSeen r !! c; if decide (t < now - clientLimiterTimeout) then None else Some t) ∧
  (clients_wf r → clientLimiters (cleanupInactiveClients now r) !! c =
    (t ← clientLastSeen r !! c; if decide (t < now - clientLimiterTimeout) then None else clientLimiters r !! c)).
Proof.
  cbn [cleanupInactiveClients clientLastSeen clientLimiters set_clients]. split.
  - rewrite map_lookup_filter. destruct (clientLastSeen r !! c) as [t|]; [|done]. cbn [mbind option_bind].
    by repeat case_guard || case_decide.
  - intros Hwf. rewrite map_lookup_filter. destruct (clientLastSeen r !! c) as [t|] eqn:Ht.
    + cbn [mbind option_bind]. destruct (clientLimiters r !! c) as [l|]; cbn [mbind option_bind]; [|by case_decide].
      case_decide as Hd.
      * rewrite option_guard_False; [done|]. cbn. intros Hn.
        by rewrite (map_lookup_filter_Some_2 _ _ _ t Ht Hd) in Hn.
      * rewrite option_guard_True; [done|]. apply map_lookup_filter_None_2. right. cbn. intros x Hx.
        rewrite Ht in Hx. by injection Hx as <-.
    + assert (clientLimiters r !! c = None) as ->; [|done].
      apply not_elem_of_dom. rewrite Hwf. by apply not_elem_of_dom.
Qed.

Lemma clients_wf_step r r' : clients_wf r → rl_step r r' → clients_wf r'.
Proof.
  intros Hwf Hs. destruct Hs as [proxies now ctx r|now r|r]; [|..|done].
  - unfold check_request, allowClient. destruct (limiter_Allow now (globalLimiter r)) as [[] g]; [|done].
    case_decide; [|done]. destruct (limiter_Allow now _) as [ok l]. unfold clients_wf in *. cbn.
    by rewrite !dom_insert_L, Hwf.
  - apply set_eq. intros c. rewrite !elem_of_dom. destruct (cleanup_lookup now r c) as [-> Hl].
    rewrite (Hl Hwf). destruct (clientLastSeen r !! c) as [t|] eqn:Ht; [|by split; intros [? ?]]. cbn [mbind option_bind].
    case_decide; [by split; intros [? ?]|]. assert (is_Some (clientLimiters r !! c)) as [l ->]; [|split; by eexists].
    apply elem_of_dom. rewrite Hwf. apply elem_of_dom. by eexists.
Qed.

(** The map of limiters does not leak: however requests and cleanings, one at a
    time, are ordered, both maps have the same clients, so that a cleaning removes
    exactly the clients not seen for ten minutes, and keeps the limiters of the
    others. *)
Theorem cleanup_removes_inactive config r now c :
  rtc rl_step (NewRateLimitInterceptorWithConfig config) r →
  dom (clientLimiters r) = dom (clientLastSeen r) ∧
  let r' := cleanupInactiveClients now r in
  (c ∈ dom (clientLimiters r') ↔
     ∃ t, clientLastSeen r !! c = Some t ∧ now - clientLimiterTimeout ≤ t) ∧
  (c ∈ dom (clientLimiters r') → clientLimiters r' !! c = clientLimiters r !! c ∧
     clientLastSeen r' !! c = clientLastSeen r !! c).
Proof.
  intros Hr. assert (clients_wf r) as Hwf.
  { assert (clients_wf (NewRateLimitInterceptorWithConfig config)) as Hinit by done.
    induction Hr as [|a b d Hab _ IH]; [done|]. apply IH. by eapply clients_wf_step. }
  split; [done|]. intros r'. destruct (cleanup_lookup now r c) as [Hseen Hlim]. specialize (Hlim Hwf).
  rewrite elem_of_dom. fold r' in Hseen, Hlim. rewrite Hlim, Hseen.
  destruct (clientLastSeen r !! c) as [t|] eqn:Ht; cbn [mbind option_bind].
  - assert (is_Some (clientLimiters r !! c)) as [l Hl].
    { apply elem_of_dom. rewrite Hwf. apply elem_of_dom. by eexists. }
    rewrite Hl. case_decide as Hd; split.
    + split; [by intros [? ?]|]. intros (t' & [= <-] & ?). lia.
    + by intros [? ?].
    + split; [|by eexists]. intros _. exists t. split; [done|lia].
    + done.
  - split; [|by intros [? ?]]. split; [by intros [? ?]|]. by intros (? & ? & ?).
Qed.
End limits.

(** * The token bucket *)

Definition f64_of_Z (z : Z) : spec_float := binary_normalize 53 1024 z 0 false.
Definition f64_add := SFadd 53 1024.
Definition f64_sub := SFsub 53 1024.
Definition f64_mul := SFmul 53 1024.
Definition f64_div := SFdiv 53 1024.

(** [Time.Sub], which saturates, and [Duration.Seconds]. *)
Definition time_Sub (a b : Z) : Z := Z.max (- 2 ^ 63) (Z.min (2 ^ 63 - 1) (a - b)).
Definition duration_Seconds (d : Z) : spec_float :=
  f64_add (f64_of_Z (Z.quot d (10 ^ 9))) (f64_div (f64_of_Z (Z.rem d (10 ^ 9))) (f64_of_Z (10 ^ 9))).

Definition f64_min (a b : spec_float) : spec_float := if SFltb a b then a else b.

Record TokenBucketLimiter : Type := mkBucket {
  tokens : spec_float;
  maxTokens : spec_float;
  refillRate : spec_float;
  lastRefill : Z
}.

Definition NewTokenBucketLimiter (now : Z) (ratePerSecond burst : spec_float) : TokenBucketLimiter :=
  mkBucket burst burst ratePerSecond now.

(** The tokens at a time. *)
Definition Tokens (now : Z) (t : TokenBucketLimiter) : spec_float :=
  let elapsed := duration_Seconds (time_Sub now (lastRefill t)) in
  f64_min (maxTokens t) (f64_add (tokens t) (f64_mul elapsed (refillRate t))).

Definition bucket_Allow (now : Z) (t : TokenBucketLimiter) : TokenBucketLimiter * bool :=
  let n := Tokens now t in
  if SFleb (f64_of_Z 1) n
  then (mkBucket (f64_sub n (f64_of_Z 1)) (maxTokens t) (refillRate t) now, true)
  else (mkBucket n (maxTokens t) (refillRate t) now, false).

(** [Wait] tries at the given times; each comes with whether the context is done
    after it.  [None] is still waiting. *)
Fixpoint bucket_Wait (attempts : list (Z * bool)) (t : TokenBucketLimiter) : TokenBucketLimiter * option bool :=
  match attempts with
  | [] => (t, None)
  | (now, done) :: attempts =>
      let '(t, ok) := bucket_Allow now t in
      if ok then (t, Some true) else if done then (t, Some false) else bucket_Wait attempts t
  end.

Lemma SFltb_irrefl x : SFltb x x = false.
Proof.
  unfold SFltb. destruct x as [s|s| |s m e]; cbn; try done; [by destruct s|].
  destruct s; rewrite Z.compare_refl, Pos.compare_cont_refl; done.
Qed.

(** Never more than the maximum, whatever the times. *)
Lemma Tokens_at_most_max now t : SFltb (maxTokens t) (Tokens now t) = false.
Proof.
  unfold Tokens, f64_min. set (x := f64_add _ _). destruct (SFltb (maxTokens t) x) eqn:Hlt; [apply SFltb_irrefl|done].
Qed.

(** The number of requests a bucket allows at once. *)
Fixpoint allowed_at_once (calls : nat) (now : Z) (t : TokenBucketLimiter) : nat :=
  match calls with
  | O => O
  | S calls => let '(t, ok) := bucket_Allow now t in ((if ok then 1 else 0) + allowed_at_once calls now t)%nat
  end.

(** A full bucket of [b] tokens, for [b] up to 200, allows exactly [b] of [b + 3] calls
    at one moment: the floating-point bookkeeping loses no token and invents none. *)
Theorem bucket_burst (b : nat) : (b ≤ 200)%nat →
  allowed_at_once (b + 3) 0 (NewTokenBucketLimiter 0 (f64_of_Z 20) (f64_of_Z (Z.of_nat b))) = b.
Proof.
  intros Hb. assert (forallb (λ b, bool_decide (allowed_at_once (b + 3) 0
    (NewTokenBucketLimiter 0 (f64_of_Z 20) (f64_of_Z (Z.of_nat b))) = b)) (seq 0 201) = true) as Hall
    by (vm_compute; reflexivity).
  rewrite forallb_forall in Hall. specialize (Hall b). rewrite in_seq in Hall. specialize (Hall ltac:(lia)).
  by apply bool_decide_eq_true in Hall.
Qed.

(** [Wait] succeeds at the first attempt that is allowed, unless the context was done
    at an earlier one. *)
Lemma bucket_Wait_spec attempts t :
  match (bucket_Wait attempts t).2 with
  | Some true => ∃ now, now ∈ attempts.*1 ∧
      ∃ t', (bucket_Allow now t').2 = true ∧ (bucket_Allow now t').1 = (bucket_Wait attempts t).1
  | Some false => ∃ now, (now, true) ∈ attempts
  | None => Forall (λ a, a.2 = false) attempts
  end.
Proof.
  revert t. induction attempts as [|[now fin] attempts IH]; intros t; cbn [bucket_Wait]; [constructor|].
  destruct (bucket_Allow now t) as [t' ok] eqn:Ha. destruct ok; [|destruct fin].
  - cbn [fst snd]. exists now. split; [by left|]. exists t. by rewrite Ha.
  - exists now. by left.
  - specialize (IH t'). destruct (bucket_Wait attempts t') as [t2 [[]|]]; cbn [fst snd] in *.
    + destruct IH as (n & Hn & Hx). exists n. split; [by right|done].
    + destruct IH as (n & Hn). exists n. by right.
    + by constructor.
Qed.

(** * Instances *)

#[local] Instance no_x509 : X509 :=
  {| Certificate := unit; pem_Decode _ := None; ParseCertificate _ := None; cert_Verify _ _ := false |}.

(** A bucket of billionths of a token: rate, burst, tokens and the time of the last
    call, if any. *)
Record exact_bucket : Type := mkExact { eb_rate : Z; eb_burst : Z; eb_tokens : Z; eb_last : option Z }.

Definition exact_level (t : Z) (l : exact_bucket) : Z :=
  Z.min (eb_burst l * 10 ^ 9)
    (match eb_last l with Some u => eb_tokens l + eb_rate l * (t - u) | None => eb_burst l * 10 ^ 9 end).

#[local] Instance exact_limiter : RateLimiter := {|
  Limiter := exact_bucket;
  NewLimiter r b := mkExact r b (b * 10 ^ 9) None;
  limiter_Allow t l :=
    let n := exact_level t l in
    if decide (10 ^ 9 ≤ n) then (true, mkExact (eb_rate l) (eb_burst l) (n - 10 ^ 9) (Some t))
    else (false, mkExact (eb_rate l) (eb_burst l) n (Some t))
|}.

Lemma exact_bound times r b n u t1 : 0 < r → 0 ≤ b → 0 ≤ n → Sorted Z.le (u :: times) → Forall (λ t, t ≤ t1) (u :: times) →
  allowed_count times (mkExact r b n (Some u)) * 10 ^ 9 ≤ n + r * (t1 - u).
Proof.
  intros Hr Hb. revert n u. induction times as [|t times IH]; intros n u Hn Hs Hf.
  - cbn. apply Forall_cons in Hf as [Hf _]. nia.
  - apply Sorted_inv in Hs as [Hs Hh]. apply HdRel_inv in Hh. apply Forall_cons in Hf as [Hu Hf].
    pose proof Hf as [Ht _]%Forall_cons. cbn [allowed_count limiter_Allow exact_limiter].
    unfold exact_level. cbn [eb_last eb_tokens eb_rate eb_burst].
    destruct (decide (10 ^ 9 ≤ _)) as [Hd|Hd].
    + specialize (IH (Z.min (b * 10 ^ 9) (n + r * (t - u)) - 10 ^ 9) t ltac:(lia) Hs Hf). nia.
    + specialize (IH (Z.min (b * 10 ^ 9) (n + r * (t - u))) t ltac:(nia) Hs Hf). nia.
Qed.

#[local] Instance exact_limiter_laws : RateLimiterLaws.
Proof.
  split.
  - intros r b times t0 t1 Hr Hb Hs Ht Hf. destruct times as [|t times]; [cbn; nia|].
    cbn [allowed_count limiter_Allow NewLimiter exact_limiter]. unfold exact_level.
    cbn [eb_last eb_tokens eb_rate eb_burst]. rewrite Z.min_id, decide_True by lia.
    pose proof (exact_bound times r b (b * 10 ^ 9 - 10 ^ 9) t t1 Hr ltac:(lia) ltac:(lia) Hs) as He.
    pose proof Hf as [Ht0 _]%Forall_cons. specialize (He ltac:(eapply Forall_impl; [exact Hf|cbn; lia])). nia.
  - intros r b t Hr Hb. cbn. unfold exact_level. cbn. by rewrite decide_True by lia.
Qed.

Definition ex_ctx_of (ip : list byte) (xff : list string) : context :=
  mkContext (Some (mkPeer (TCPAddr ip "peer") None)) (Some {[ "x-forwarded-for" := xff ]}).
Definition ip_a : list byte := [byte_of 8; byte_of 8; byte_of 8; byte_of 8].
Definition ip_local : list byte := [byte_of 10; byte_of 0; byte_of 0; byte_of 1].
Definition ex_rl_config : RateLimitConfig := mkRateLimitConfig 10 3 1 2 true.

Lemma configured_trusted_v4_witness : isTrustedProxy (map v4_text [ip_a]) ip_a = true ↔ ip_a ∈ [ip_a].
Proof. apply configured_trusted_v4; [done|by repeat constructor|done]. Defined.

Lemma untrusted_headers_ignored_witness :
  getClientID [] (ex_ctx_of ip_a ["1.1.1.1"]) = getClientID [] (mkContext (ctx_peer (ex_ctx_of ip_a [])) None) ∧
  GetClientIP [] (ex_ctx_of ip_a ["1.1.1.1"]) = GetClientIP [] (mkContext (ctx_peer (ex_ctx_of ip_a [])) None) ∧
  GetClientHTTP [] (mkHttpId "8.8.8.8:99" {[ "X-Forwarded-For" := ["1.1.1.1"] ]}) =
  GetClientHTTP [] (mkHttpId "8.8.8.8:99" ∅).
Proof. apply untrusted_headers_ignored; by vm_compute. Defined.

Lemma forwarded_identity_is_chosen_witness :
  getClientID [] (ex_ctx_of ip_local ["anything,8.8.8.8"]) = TrimSpace "anything".
Proof. by apply (forwarded_identity_is_chosen _ _ _ "anything" "8.8.8.8"); vm_compute. Defined.

(** Five requests of one client at once: three pass the global burst, two the
    client's. *)
Lemma request_limits_witness :
  let r := NewRateLimitInterceptorWithConfig ex_rl_config in
  let reqs := replicate 5 (0, ex_ctx_of ip_a []) in
  let passed := (serve [] reqs r).2 in
  len passed = 2 ∧
  len passed * 10 ^ 9 ≤ burstSize r * 10 ^ 9 + rps r * (0 - 0) ∧
  (enablePerClient r = true → ∀ c, c ≠ "" →
    len (List.filter (λ q, bool_decide (getClientID [] q.2 = c)) passed) * 10 ^ 9 ≤
    perClientBurst r * 10 ^ 9 + perClientRPS r * (0 - 0)).
Proof.
  split; [by vm_compute|]. apply (request_limits ex_rl_config [] (replicate 5 (0, ex_ctx_of ip_a [])) 0 0);
    [cbn; repeat first [apply Sorted_nil|apply Sorted_cons|constructor]; lia|lia|cbn; repeat constructor; lia].
Defined.

Lemma empty_identity_unlimited_witness :
  let r := NewRateLimitInterceptorWithConfig ex_rl_config in
  (check_request [] 0 (ex_ctx_of ip_local [",8.8.8.8"%string]) r).2 = None ∧
  clientLimiters (check_request [] 0 (ex_ctx_of ip_local [",8.8.8.8"%string]) r).1 = clientLimiters r.
Proof. by apply (empty_identity_unlimited [] 0 _ _ "8.8.8.8"); vm_compute. Defined.

Lemma cleanup_removes_inactive_witness :
  let r := (check_request [] 0 (ex_ctx_of ip_a []) (NewRateLimitInterceptorWithConfig ex_rl_config)).1 in
  dom (clientLimiters r) = dom (clientLastSeen r) ∧
  let r' := cleanupInactiveClients (10 ^ 12) r in
  ("8.8.8.8" ∈ dom (clientLimiters r') ↔
     ∃ t, clientLastSeen r !! "8.8.8.8"%string = Some t ∧ 10 ^ 12 - clientLimiterTimeout ≤ t) ∧
  ("8.8.8.8" ∈ dom (clientLimiters r') →
     clientLimiters r' !! "8.8.8.8"%string = clientLimiters r !! "8.8.8.8"%string ∧
     clientLastSeen r' !! "8.8.8.8"%string = clientLastSeen r !! "8.8.8.8"%string).
Proof. eapply (cleanup_removes_inactive ex_rl_config). apply rtc_once. apply rl_request. Defined.

Lemma bucket_burst_witness :
  allowed_at_once 43 0 (NewTokenBucketLimiter 0 (f64_of_Z 20) (f64_of_Z (Z.of_nat 40))) = 40%nat.
Proof. apply (bucket_burst 40). lia. Defined.
