(* ===== verification/RateLimitRace.v ===== *)
(** Concurrent calls of the rate-limiting interceptor: [UnaryInterceptor] in the
    steps its locks allow, interleaved with [periodicCleanup].

    A call asks the global limiter; looks its client up under the read lock of the
    map; creates a limiter under the write lock if there was none, after looking
    again; records the time under the lock of the second map; and then asks the
    limiter it holds, which is shared.  [cleanupInactiveClients] holds both locks
    and is one step.  Limiters are cells of a heap, so that a call keeps the limiter
    it has found when a cleaning takes it out of the map.  Reading the clock and
    asking a limiter is one step. *)

From S2P Require Import Prelude GoBytes GoFmt NetAddr Grpc RateLimit.
From Stdlib Require Import Ascii String Sorted.
#[local] Open Scope Z_scope.

(** * Definitions *)

(** Where a call is: past the global limiter; after a failed look-up; with the
    limiter in its hands; with its time recorded. *)
Inductive call_pc : Type :=
  | Asked (c : string)
  | Missing (c : string)
  | Found (c : string) (p : nat)
  | Recorded (c : string) (p : nat).

Section concurrent.
Context `{X509, RateLimiter}.

(** The parameters of the interceptor. *)
Context (r0 : RateLimitInterceptor).

(** A limiter, with the client it was made for and the times it was asked. *)
Record cell : Type := mkCell { cell_limiter : Limiter; cell_owner : string; cell_times : list Z }.

(** [c_gtimes], the owners and times of cells, [c_passed] (the calls that reached the
    handler) and [c_cleaned] (the clients a cleaning has removed) are history. *)
Record cstate : Type := mkC {
  c_global : Limiter;
  c_gtimes : list Z;
  c_heap : list cell;
  c_limiters : gmap string nat;
  c_seen : gmap string Z;
  c_calls : gmap nat call_pc;
  c_clock : Z;
  c_passed : list (Z * string);
  c_cleaned : gset string
}.

Definition set_call (tid : nat) (pc : call_pc) (st : cstate) : cstate :=
  mkC (c_global st) (c_gtimes st) (c_heap st) (c_limiters st) (c_seen st) (<[tid := pc]> (c_calls st)) (c_clock st)
    (c_passed st) (c_cleaned st).

Definition ask_global (tid : nat) (now : Z) (clientID : string) (st : cstate) : cstate :=
  let '(ok, g) := limiter_Allow now (c_global st) in
  let per_client := decide (enablePerClient r0 = true ∧ clientID ≠ ""%string) in
  mkC g (c_gtimes st ++ [now]) (c_heap st) (c_limiters st) (c_seen st)
    (if ok then if per_client then <[tid := Asked clientID]> (c_calls st) else c_calls st else c_calls st) now
    (if ok then if per_client then c_passed st else (now, clientID) :: c_passed st else c_passed st) (c_cleaned st).

Definition lookup_pc (c : string) (st : cstate) : call_pc :=
  match c_limiters st !! c with Some p => Found c p | None => Missing c end.

(** The double check under the write lock. *)
Definition create (tid : nat) (c : string) (st : cstate) : cstate :=
  match c_limiters st !! c with
  | Some p => set_call tid (Found c p) st
  | None =>
      let p := Datatypes.length (c_heap st) in
      mkC (c_global st) (c_gtimes st)
        (c_heap st ++ [mkCell (NewLimiter (perClientRPS r0) (perClientBurst r0)) c []])
        (<[c := p]> (c_limiters st)) (c_seen st) (<[tid := Found c p]> (c_calls st)) (c_clock st)
        (c_passed st) (c_cleaned st)
  end.

Definition record_seen (tid : nat) (c : string) (p : nat) (now : Z) (st : cstate) : cstate :=
  mkC (c_global st) (c_gtimes st) (c_heap st) (c_limiters st) (<[c := now]> (c_seen st))
    (<[tid := Recorded c p]> (c_calls st)) now (c_passed st) (c_cleaned st).

Definition ask_client (tid : nat) (c : string) (p : nat) (cl : cell) (now : Z) (st : cstate) : cstate :=
  let '(ok, l) := limiter_Allow now (cell_limiter cl) in
  mkC (c_global st) (c_gtimes st) (<[p := mkCell l (cell_owner cl) (cell_times cl ++ [now])]> (c_heap st))
    (c_limiters st) (c_seen st) (delete tid (c_calls st)) now
    (if ok then (now, c) :: c_passed st else c_passed st) (c_cleaned st).

Definition stale (now : Z) (seen : gmap string Z) : gmap string Z :=
  filter (λ kt, kt.2 < now - clientLimiterTimeout) seen.

Definition clean (now : Z) (st : cstate) : cstate :=
  let s := stale now (c_seen st) in
  mkC (c_global st) (c_gtimes st) (c_heap st) (filter (λ kp, s !! kp.1 = None) (c_limiters st))
    (filter (λ kt, ¬ kt.2 < now - clientLimiterTimeout) (c_seen st)) (c_calls st) (c_clock st)
    (c_passed st) (c_cleaned st ∪ dom s).

Inductive cstep : cstate → cstate → Prop :=
  | cs_global tid proxies now ctx st : c_calls st !! tid = None → c_clock st ≤ now →
      cstep st (ask_global tid now (getClientID proxies ctx) st)
  | cs_lookup tid c st : c_calls st !! tid = Some (Asked c) →
      cstep st (set_call tid (lookup_pc c st) st)
  | cs_create tid c st : c_calls st !! tid = Some (Missing c) → cstep st (create tid c st)
  | cs_record tid c p now st : c_calls st !! tid = Some (Found c p) → c_clock st ≤ now →
      cstep st (record_seen tid c p now st)
  | cs_allow tid c p cl now st : c_calls st !! tid = Some (Recorded c p) → c_heap st !! p = Some cl →
      c_clock st ≤ now → cstep st (ask_client tid c p cl now st)
  | cs_clean now st : cstep st (clean now st).

Definition c_start (t0 : Z) : cstate :=
  mkC (NewLimiter (rps r0) (burstSize r0)) [] [] ∅ ∅ ∅ t0 [] ∅.

(** * Invariant *)

Definition after (times : list Z) (l : Limiter) : Limiter := foldl (λ l t, (limiter_Allow t l).2) l times.

Lemma allowed_count_snoc times t l :
  allowed_count (times ++ [t]) l = allowed_count times l + (if (limiter_Allow t (after times l)).1 then 1 else 0).
Proof.
  revert l. induction times as [|u times IH]; intros l.
  - cbn. destruct (limiter_Allow t l). cbn. lia.
  - cbn [app allowed_count]. cbn [after foldl]. destruct (limiter_Allow u l) as [ok l']. cbn [snd]. rewrite IH.
    unfold after. lia.
Qed.

Lemma after_snoc times t l : after (times ++ [t]) l = (limiter_Allow t (after times l)).2.
Proof. unfold after. by rewrite foldl_app. Qed.

#[local] Arguments after : simpl never.
#[local] Arguments allowed_count : simpl never.

(** Times asked in order, from the start to the present. *)
Definition in_order (t0 t1 : Z) (times : list Z) : Prop :=
  Sorted Z.le times ∧ Forall (λ t, t0 ≤ t ≤ t1) times.

Lemma in_order_later t0 t1 t1' times : in_order t0 t1 times → t1 ≤ t1' → in_order t0 t1' times.
Proof. intros [Hs Hf] Hle. split; [done|]. eapply Forall_impl; [exact Hf|]. cbn. lia. Qed.

Lemma in_order_snoc t0 t1 t times : in_order t0 t1 times → t0 ≤ t1 ≤ t → in_order t0 t (times ++ [t]).
Proof.
  intros Hio Ht. destruct (in_order_later _ _ t _ Hio) as [Hs Hf]; [lia|]. destruct Hio as [_ Hf1]. split.
  - apply StronglySorted_Sorted. apply Sorted_StronglySorted in Hs; [|intros x y z; lia].
    clear Hf. induction Hs as [|x l Hs IH Hx]; [by repeat constructor|].
    apply Forall_cons in Hf1 as [Hx1 Hf1]. cbn [app]. constructor; [by apply IH|].
    rewrite List.Forall_forall in Hx |- *. intros y [Hy|[<-|[]]]%in_app_or; [auto|lia].
  - apply Forall_app. split; [done|]. repeat constructor; lia.
Qed.

Definition pc_client (pc : call_pc) : string :=
  match pc with Asked c | Missing c | Found c _ | Recorded c _ => c end.
Definition pc_pointer (pc : call_pc) : option nat :=
  match pc with Found _ p | Recorded _ p => Some p | _ => None end.

Definition passed_of (c : string) (st : cstate) : Z :=
  len (List.filter (λ q, bool_decide (q.2 = c)) (c_passed st)).

Definition owned (c : string) (p : nat) (st : cstate) : Prop :=
  ∃ cl, c_heap st !! p = Some cl ∧ cell_owner cl = c.

Definition new_limiter : Limiter := NewLimiter (perClientRPS r0) (perClientBurst r0).

(** The global limiter: it was asked in order, and every call in flight or past it
    was allowed. *)
Record global_inv (t0 : Z) (st : cstate) : Prop := {
  gi_clock : t0 ≤ c_clock st;
  gi_times : in_order t0 (c_clock st) (c_gtimes st);
  gi_limiter : c_global st = after (c_gtimes st) (NewLimiter (rps r0) (burstSize r0));
  gi_passed : len (c_passed st) + Z.of_nat (size (c_calls st)) ≤
    allowed_count (c_gtimes st) (NewLimiter (rps r0) (burstSize r0))
}.

(** The cells: a pointer in the map or in a call is to a cell of that client, and to
    the one of the map unless the client has been cleaned away. *)
Record cells_inv (t0 : Z) (st : cstate) : Prop := {
  ce_clock : t0 ≤ c_clock st;
  ce_cell p cl : c_heap st !! p = Some cl →
    in_order t0 (c_clock st) (cell_times cl) ∧ cell_limiter cl = after (cell_times cl) new_limiter;
  ce_map c p : c_limiters st !! c = Some p → owned c p st;
  ce_call tid pc p : c_calls st !! tid = Some pc → pc_pointer pc = Some p → owned (pc_client pc) p st;
  ce_same tid pc p : c_calls st !! tid = Some pc → pc_pointer pc = Some p → pc_client pc ∉ c_cleaned st →
    c_limiters st !! pc_client pc = Some p
}.

(** Calls of a client that passed were allowed by its limiter. *)
Record client_inv (c : string) (st : cstate) : Prop := {
  cl_none : c_limiters st !! c = None → passed_of c st = 0;
  cl_some p cl : c_limiters st !! c = Some p → c_heap st !! p = Some cl →
    passed_of c st ≤ allowed_count (cell_times cl) new_limiter
}.

(** A limiter in the map has a time, or is about to get one. *)
Definition seen_inv (st : cstate) : Prop :=
  ∀ c, c ∈ dom (c_limiters st) → c ∈ dom (c_seen st) ∨ ∃ tid p, c_calls st !! tid = Some (Found c p).

Lemma global_inv_step t0 a b : global_inv t0 a → cstep a b → global_inv t0 b.
Proof.
  intros [Hc Ht Hg Hp] Hs. destruct Hs as [tid proxies now ctx st Hn Hle|tid c st Hpc|tid c st Hpc
    |tid c p now st Hpc Hle|tid c p cl now st Hpc Hcl Hle|now st].
  - unfold ask_global. destruct (limiter_Allow now (c_global st)) as [ok g] eqn:Hok. split; cbn.
    + lia.
    + by apply (in_order_snoc _ (c_clock st)).
    + by rewrite after_snoc, <- Hg, Hok.
    + rewrite allowed_count_snoc, <- Hg, Hok. cbn [fst]. destruct ok; [case_decide|lia].
      * rewrite map_size_insert_None by done. lia.
      * rewrite len_cons. lia.
  - split; cbn; [done..|]. by rewrite map_size_insert_Some by (by eexists).
  - unfold create. destruct (c_limiters st !! c); split; cbn; try done; by rewrite map_size_insert_Some by (by eexists).
  - split; cbn; [lia|by eapply in_order_later|done|]. by rewrite map_size_insert_Some by (by eexists).
  - assert (size (c_calls st) ≠ 0%nat) as Hsz.
    { intros Hz%map_size_empty_inv. rewrite Hz in Hpc. by rewrite lookup_empty in Hpc. }
    unfold ask_client. destruct (limiter_Allow now (cell_limiter cl)) as [ok l].
    split; cbn; [lia|by eapply in_order_later|done|].
    rewrite map_size_delete_Some by (by eexists). destruct ok; rewrite ?len_cons; lia.
  - by split.
Qed.

(** A step that leaves heap and map alone. *)
Lemma cells_frame t0 st st' : cells_inv t0 st → c_heap st' = c_heap st → c_limiters st' = c_limiters st →
  c_cleaned st' = c_cleaned st → c_clock st ≤ c_clock st' →
  (∀ tid pc, c_calls st' !! tid = Some pc → c_calls st !! tid = Some pc ∨
     ∀ p, pc_pointer pc = Some p → owned (pc_client pc) p st ∧
       (pc_client pc ∉ c_cleaned st → c_limiters st !! pc_client pc = Some p)) →
  cells_inv t0 st'.
Proof.
  intros [Ht Hc Hm Hp Hs] Hh Hl Hcl Hle Hnew. split; unfold owned; rewrite ?Hh, ?Hl, ?Hcl.
  - lia.
  - intros p cl Hlk. destruct (Hc p cl Hlk). split; [by eapply in_order_later|done].
  - done.
  - intros tid pc p Hpc Hptr. destruct (Hnew _ _ Hpc) as [Hold|Hn]; [by eapply Hp|by apply Hn].
  - intros tid pc p Hpc Hptr. destruct (Hnew _ _ Hpc) as [Hold|Hn]; [by eapply Hs|by apply Hn].
Qed.

Lemma insert_cases (m : gmap nat call_pc) tid pc tid' pc' : <[tid := pc]> m !! tid' = Some pc' →
  pc' = pc ∨ m !! tid' = Some pc'.
Proof. intros [[_ ->]|[_ ?]]%lookup_insert_Some; auto. Qed.

Lemma clean_limiters now st c : c ∉ c_cleaned (clean now st) → c_limiters (clean now st) !! c = c_limiters st !! c.
Proof.
  cbn. intros Hc. assert (stale now (c_seen st) !! c = None) as Hs by (apply not_elem_of_dom; set_solver).
  rewrite map_lookup_filter. destruct (c_limiters st !! c); [|done]. cbn. by rewrite option_guard_True.
Qed.

Lemma clean_limiters_Some now st c p : c_limiters (clean now st) !! c = Some p → c_limiters st !! c = Some p.
Proof. cbn. by intros [? _]%map_lookup_filter_Some. Qed.

(** A new cell. *)
Lemma cells_create t0 tid c st : cells_inv t0 st → c_calls st !! tid = Some (Missing c) →
  c_limiters st !! c = None → cells_inv t0 (create tid c st).
Proof.
  intros [Ht Hc Hm Hp Hs] Hpc Hn. unfold create. rewrite Hn.
  assert (∀ c' p, owned c' p st → ∀ cl l s k g t pa cn,
    owned c' p (mkC g t (c_heap st ++ [cl]) l s k (c_clock st) pa cn)) as Hown.
  { intros c' p (cl' & Hlk & Ho). intros. exists cl'. split; [|done]. by apply lookup_app_l_Some. }
  split; cbn [c_heap c_limiters c_calls c_clock c_cleaned].
  - done.
  - intros p cl [Hlk|[_ Hlk]]%lookup_app_Some; [by apply (Hc p)|].
    apply list_lookup_singleton_Some in Hlk as [_ <-]. cbn. split; [split; constructor|done].
  - intros c' p [[<- <-]|[_ Hlk]]%lookup_insert_Some; [|by apply Hown, Hm].
    eexists. split; [by apply list_lookup_middle|done].
  - intros tid' pc p [->|Hold]%insert_cases Hptr; [|by eapply Hown, Hp]. injection Hptr as <-.
    eexists. split; [by apply list_lookup_middle|done].
  - intros tid' pc p [->|Hold]%insert_cases Hptr Hcn.
    + injection Hptr as <-. apply lookup_insert_eq.
    + pose proof (Hs _ _ _ Hold Hptr Hcn) as Hlk. rewrite lookup_insert_ne; [done|]. congruence.
Qed.

Lemma cells_inv_step t0 a b : cells_inv t0 a → cstep a b → cells_inv t0 b.
Proof.
  intros Hi Hs. destruct Hs as [tid proxies now ctx st Hn Hle|tid c st Hpc|tid c st Hpc
    |tid c p now st Hpc Hle|tid c p cl now st Hpc Hcl Hle|now st].
  - apply (cells_frame _ st); [done|..]; unfold ask_global; destruct (limiter_Allow now _) as [ok g]; try done.
    intros tid' pc. cbn. destruct ok; [case_decide|]; auto. intros [->|?]%insert_cases; auto. right. by intros ? [=].
  - apply (cells_frame _ st); [done..|]. intros tid' pc [->|?]%insert_cases; auto. right.
    unfold lookup_pc. destruct (c_limiters st !! c) as [p|] eqn:Hl; intros p' [= <-]. split; [by eapply ce_map|done].
  - destruct (c_limiters st !! c) as [p|] eqn:Hl; [|by apply cells_create].
    unfold create. rewrite Hl. apply (cells_frame _ st); [done..|]. intros tid' pc [->|?]%insert_cases; auto. right.
    intros p' [= <-]. split; [by eapply ce_map|done].
  - apply (cells_frame _ st); [done..|]. intros tid' pc [->|?]%insert_cases; auto. right.
    intros p' [= <-]. split; [by apply (ce_call _ _ Hi _ _ p Hpc)|by apply (ce_same _ _ Hi _ _ p Hpc)].
  - destruct Hi as [Ht Hc Hm Hp Hs]. unfold ask_client. destruct (limiter_Allow now (cell_limiter cl)) as [ok l] eqn:Hok.
    assert (∀ c' p', owned c' p' st → ∀ ls s k g t clk pa cn,
      owned c' p' (mkC g t (<[p := mkCell l (cell_owner cl) (cell_times cl ++ [now])]> (c_heap st)) ls s k clk pa cn)) as Hown.
    { intros c' p' (cl' & Hlk & Ho). intros. unfold owned. cbn. destruct (decide (p' = p)) as [->|Hne].
      - eexists. rewrite list_lookup_insert_eq by (by eapply lookup_lt_Some). split; [done|]. cbn. congruence.
      - exists cl'. by rewrite list_lookup_insert_ne. }
    split; cbn [c_heap c_limiters c_calls c_clock c_cleaned].
    + lia.
    + intros p' cl' [(<- & <- & _)|[_ Hlk]]%list_lookup_insert_Some.
      * cbn [cell_times cell_limiter]. destruct (Hc p cl Hcl) as [Hio Hlim].
        split; [by apply (in_order_snoc _ (c_clock st))|]. by rewrite after_snoc, <- Hlim, Hok.
      * destruct (Hc p' cl' Hlk). split; [by eapply in_order_later|done].
    + intros c' p' Hlk. by apply Hown, Hm.
    + intros tid' pc p' [_ Hlk]%lookup_delete_Some Hptr. by eapply Hown, Hp.
    + intros tid' pc p' [_ Hlk]%lookup_delete_Some Hptr. by eapply Hs.
  - destruct Hi as [Ht Hc Hm Hp Hs]. split.
    + exact Ht.
    + exact Hc.
    + intros c p Hl%clean_limiters_Some. by apply Hm.
    + exact Hp.
    + intros tid pc p Hpc Hptr Hcn. rewrite clean_limiters by done. eapply Hs; [done..|]. cbn in Hcn. set_solver.
Qed.

Lemma client_frame c st st' : client_inv c st → c_heap st' = c_heap st → c_limiters st' !! c = c_limiters st !! c →
  passed_of c st' = passed_of c st → client_inv c st'.
Proof. intros [Hn Hs] Hh Hl Hp. by split; rewrite ?Hh, Hl, ?Hp. Qed.

Lemma passed_of_cons c now c' l : len (List.filter (λ q : Z * string, bool_decide (q.2 = c)) ((now, c') :: l)) =
  (if decide (c' = c) then 1 else 0) + len (List.filter (λ q, bool_decide (q.2 = c)) l).
Proof. cbn [List.filter snd]. case_decide; [rewrite bool_decide_true, len_cons by done|rewrite bool_decide_false by done]; lia. Qed.

(** Only a client that no cleaning removed keeps one limiter. *)
Lemma client_inv_step t0 a b c : enablePerClient r0 = true → c ≠ ""%string →
  cells_inv t0 a → (c ∉ c_cleaned a → client_inv c a) → cstep a b → c ∉ c_cleaned b → client_inv c b.
Proof.
  intros He Hne Hce Hi Hs Hcn. destruct Hs as [tid proxies now ctx st Hn Hle|tid c' st Hpc|tid c' st Hpc
    |tid c' p now st Hpc Hle|tid c' p cl now st Hpc Hcl Hle|now st].
  - unfold ask_global in *. destruct (limiter_Allow now _) as [ok g]. apply (client_frame _ st); [by apply Hi|done..|].
    unfold passed_of. cbn. destruct ok; [case_decide|]; try done. rewrite passed_of_cons. rewrite decide_False; [done|].
    naive_solver.
  - by apply (client_frame _ st); [apply Hi|..].
  - unfold create in *. destruct (c_limiters st !! c') as [p|] eqn:Hl; [by apply (client_frame _ st); [apply Hi|..]|].
    destruct (Hi Hcn) as [Hnone Hsome]. cbn in Hcn. split; cbn [c_limiters c_heap].
    + intros [? Hlk]%lookup_insert_None. by apply Hnone.
    + intros p cl [[<- <-]|[_ Hlk]]%lookup_insert_Some Hcell.
      * rewrite list_lookup_middle in Hcell by done. injection Hcell as <-. cbn. change (passed_of c' st ≤ 0).
        by rewrite Hnone.
      * destruct (ce_map _ _ Hce _ _ Hlk) as (cl' & Hlk' & _). rewrite (lookup_app_l_Some _ _ _ _ Hlk') in Hcell.
        injection Hcell as <-. by apply (Hsome p).
  - by apply (client_frame _ st); [apply Hi|..].
  - unfold ask_client in *. destruct (ce_cell _ _ Hce _ _ Hcl) as [_ Hlim].
    destruct (limiter_Allow now (cell_limiter cl)) as [ok l] eqn:Hok. cbn in Hcn. destruct (Hi Hcn) as [Hnone Hsome].
    destruct (decide (c' = c)) as [->|Hc'].
    + pose proof (ce_same _ _ Hce _ _ p Hpc eq_refl Hcn) as Hmap. cbn in Hmap. split; cbn [c_limiters c_heap]; [congruence|].
      intros p' cl' Hlk Hcell. replace p' with p in * by congruence.
      rewrite list_lookup_insert_eq in Hcell by (by eapply lookup_lt_Some). injection Hcell as <-. cbn [cell_times].
      rewrite allowed_count_snoc, <- Hlim, Hok. specialize (Hsome p cl Hmap Hcl). unfold passed_of in *. cbn.
      destruct ok; [rewrite passed_of_cons, decide_True by done|]; lia.
    + assert (∀ p', c_limiters st !! c = Some p' → p ≠ p') as Hp'.
      { intros p' Hlk <-. destruct (ce_map _ _ Hce _ _ Hlk) as (x & Hx & Hox).
        destruct (ce_call _ _ Hce _ _ p Hpc eq_refl) as (y & Hy & Hoy). cbn in Hoy. congruence. }
      assert (∀ z, passed_of c (mkC (c_global st) (c_gtimes st) z (c_limiters st) (c_seen st) (delete tid (c_calls st)) now
        (if ok then (now, c') :: c_passed st else c_passed st) (c_cleaned st)) = passed_of c st) as Hps.
      { intros z. unfold passed_of. cbn. destruct ok; [|done]. by rewrite passed_of_cons, decide_False. }
      split; cbn [c_limiters c_heap]; rewrite ?Hps; [done|]. intros p' cl' Hlk Hcell.
      rewrite list_lookup_insert_ne in Hcell by auto. by apply (Hsome p').
  - apply (client_frame _ st); [|done|by apply clean_limiters|done]. apply Hi. cbn in Hcn. set_solver.
Qed.

Lemma seen_inv_step a b : seen_inv a → cstep a b → seen_inv b.
Proof.
  intros Hi Hs. assert (∀ st' tid pc, (∀ c p, c_calls a !! tid ≠ Some (Found c p)) → c_limiters st' = c_limiters a →
    c_seen st' = c_seen a → c_calls st' = <[tid := pc]> (c_calls a) ∨ c_calls st' = delete tid (c_calls a) ∨
      c_calls st' = c_calls a → seen_inv st') as Hframe.
  { intros st' tid pc Hno Hl Hse Hc c. rewrite Hl, Hse. intros Hin. destruct (Hi c Hin) as [?|(t & p & Hp)]; [by left|].
    right. exists t, p. assert (t ≠ tid) by (intros ->; by apply (Hno c p)).
    destruct Hc as [->|[->| ->]]; [by rewrite lookup_insert_ne|by rewrite lookup_delete_ne|done]. }
  destruct Hs as [tid proxies now ctx st Hn Hle|tid c st Hpc|tid c st Hpc
    |tid c p now st Hpc Hle|tid c p cl now st Hpc Hcl Hle|now st].
  - unfold ask_global. destruct (limiter_Allow now (c_global st)) as [ok g].
    apply (Hframe _ tid (Asked (getClientID proxies ctx))); [congruence|done..|]. cbn. destruct ok; [case_decide|]; auto.
  - apply (Hframe _ tid (lookup_pc c st)); [congruence|done..|by left].
  - unfold create. destruct (c_limiters st !! c) as [p|] eqn:Hl; [apply (Hframe _ tid (Found c p)); [congruence|done..|by left]|].
    intros c'. cbn. rewrite dom_insert_L, elem_of_union, elem_of_singleton. intros [->|Hin].
    + right. exists tid. eexists. apply lookup_insert_eq.
    + destruct (Hi c' Hin) as [?|(t & p & Hp)]; [by left|]. right. exists t, p.
      rewrite lookup_insert_ne; [done|]. intros <-. congruence.
  - intros c' Hin. cbn in *. rewrite dom_insert_L. destruct (Hi c' Hin) as [?|(t & p' & Hp)]; [left; set_solver|].
    destruct (decide (t = tid)) as [->|Hne]; [left; set_solver|]. right. exists t, p'. by rewrite lookup_insert_ne.
  - unfold ask_client. destruct (limiter_Allow now (cell_limiter cl)) as [ok l].
    apply (Hframe _ tid (Asked c)); [congruence|done..|by auto].
  - intros c [p [Hlk Hst]%map_lookup_filter_Some]%elem_of_dom. cbn in Hst.
    destruct (Hi c) as [[t Ht]%elem_of_dom|?]; [by apply elem_of_dom; eexists| |by right].
    left. apply elem_of_dom. exists t. apply map_lookup_filter_Some. split; [done|]. cbn. intros Hlt.
    apply map_lookup_filter_None_1 in Hst. destruct Hst as [?|Hst]; [congruence|]. by apply (Hst t).
Qed.

Lemma invs_start t0 : global_inv t0 (c_start t0) ∧ cells_inv t0 (c_start t0) ∧ (∀ c, client_inv c (c_start t0)) ∧
  seen_inv (c_start t0).
Proof. split_and!; [split; cbn; try done; split; constructor|by split|by split|]. intros c. cbn. by rewrite dom_empty. Qed.

(** All of it, of every reachable state. *)
Lemma invs_reachable t0 st : rtc cstep (c_start t0) st → global_inv t0 st ∧ cells_inv t0 st ∧ seen_inv st ∧
  (enablePerClient r0 = true → ∀ c, c ≠ ""%string → c ∉ c_cleaned st → client_inv c st).
Proof.
  intros Hr. pose proof (invs_start t0) as (Hg & Hce & Hcl & Hse).
  assert (enablePerClient r0 = true → ∀ c, c ≠ ""%string → c ∉ c_cleaned (c_start t0) → client_inv c (c_start t0)) as Hc by auto.
  clear Hcl. induction Hr as [|a b d Hab _ IH]; [done|].
  apply IH; [by eapply global_inv_step|by eapply cells_inv_step|by eapply seen_inv_step|].
  intros He c Hne. by eapply client_inv_step; eauto.
Qed.

(** ** A call on its own *)

(** The interceptor a state stands for. *)
Record stands_for (st : cstate) (r : RateLimitInterceptor) : Prop := {
  sf_global : globalLimiter r = c_global st;
  sf_limiters c : clientLimiters r !! c = (p ← c_limiters st !! c; cell_limiter <$> c_heap st !! p);
  sf_seen : clientLastSeen r = c_seen st;
  sf_config : same_config r0 r
}.

Lemma stands_for_findLimiter st r c : stands_for st r → findLimiter c r =
  match p ← c_limiters st !! c; c_heap st !! p with Some cl => cell_limiter cl | None => new_limiter end.
Proof.
  intros [_ Hl _ (Hrps & Hb & _)]. unfold findLimiter. rewrite Hl, Hrps, Hb. destruct (c_limiters st !! c) as [p|]; [|done].
  cbn. by destruct (c_heap st !! p).
Qed.

(** The part of a call after the global limiter, from a call that has its limiter. *)
Lemma allow_is_run t0 st r tid c p now : cells_inv t0 st → stands_for st r → c_calls st !! tid = Some (Found c p) →
  c_limiters st !! c = Some p → c_clock st ≤ now →
  ∃ st', rtc cstep st st' ∧ stands_for st' (allowClient now c r).1 ∧ c_calls st' = delete tid (c_calls st) ∧
    c_passed st' = (if (allowClient now c r).2 then (now, c) :: c_passed st else c_passed st).
Proof.
  intros Hce Hsf Hpc Hmap Hle. destruct (ce_map _ _ Hce _ _ Hmap) as (cl & Hcl & Ho).
  pose proof (stands_for_findLimiter _ _ c Hsf) as Hf. rewrite Hmap in Hf. cbn in Hf. rewrite Hcl in Hf.
  eexists. split.
  { eapply rtc_l; [by apply (cs_record tid c p now)|]. apply rtc_once.
    apply (cs_allow tid c p cl now); cbn; [apply lookup_insert_eq|done|lia]. }
  unfold allowClient, ask_client. rewrite Hf. destruct (limiter_Allow now (cell_limiter cl)) as [ok l]. cbn [fst snd].
  split_and!; cbn; [|by rewrite delete_insert_eq|done]. destruct Hsf as [Hg Hl Hs Hcfg]. split; cbn; [done| |by rewrite Hs|done].
  intros c'. destruct (decide (c' = c)) as [->|Hne].
  - rewrite lookup_insert_eq, Hmap. cbn. by rewrite list_lookup_insert_eq by (by eapply lookup_lt_Some).
  - rewrite lookup_insert_ne, Hl by done. destruct (c_limiters st !! c') as [p'|] eqn:Hp'; [|done]. cbn.
    rewrite list_lookup_insert_ne; [done|]. intros <-. destruct (ce_map _ _ Hce _ _ Hp') as (x & Hx & Hox). congruence.
Qed.

(** A limiter that no map has yet stands for nothing. *)
Lemma create_stands_for t0 st r tid c : cells_inv t0 st → stands_for st r → c_limiters st !! c = None →
  stands_for (create tid c st) (set_clients (<[c := findLimiter c r]> (clientLimiters r)) (clientLastSeen r) r).
Proof.
  intros Hce Hsf Hn. pose proof (stands_for_findLimiter _ _ c Hsf) as Hf. rewrite Hn in Hf. cbn in Hf.
  destruct Hsf as [Hg Hl Hs Hcfg]. unfold create. rewrite Hn. split; cbn; [done| |done|done].
  intros c'. destruct (decide (c' = c)) as [->|Hne].
  - rewrite !lookup_insert_eq, Hf. cbn. by rewrite list_lookup_middle.
  - rewrite !lookup_insert_ne, Hl by done. destruct (c_limiters st !! c') as [p|] eqn:Hp; [|done]. cbn.
    destruct (ce_map _ _ Hce _ _ Hp) as (x & Hx & _). by rewrite Hx, (lookup_app_l_Some _ _ _ _ Hx).
Qed.

Lemma allowClient_created now c r :
  allowClient now c (set_clients (<[c := findLimiter c r]> (clientLimiters r)) (clientLastSeen r) r) = allowClient now c r.
Proof.
  unfold allowClient. change (findLimiter c r) with (findLimiter c r) at 1.
  assert (findLimiter c (set_clients (<[c:=findLimiter c r]> (clientLimiters r)) (clientLastSeen r) r) = findLimiter c r) as ->.
  { unfold findLimiter at 1. cbn. by rewrite lookup_insert_eq. }
  destruct (limiter_Allow now (findLimiter c r)) as [ok l]. f_equal. unfold set_clients. cbn. by rewrite insert_insert_eq.
Qed.

Lemma stands_for_call st r tid pc : stands_for st r → stands_for (set_call tid pc st) r.
Proof. by intros []. Qed.

(** From a call that has passed the global limiter. *)
Lemma allowClient_is_run t0 st r tid c now : cells_inv t0 st → stands_for st r →
  c_calls st !! tid = Some (Asked c) → c_clock st ≤ now →
  ∃ st', rtc cstep st st' ∧ stands_for st' (allowClient now c r).1 ∧ c_calls st' = delete tid (c_calls st) ∧
    c_passed st' = (if (allowClient now c r).2 then (now, c) :: c_passed st else c_passed st).
Proof.
  intros Hce Hsf Hpc Hle. pose proof (cs_lookup _ _ _ Hpc) as Hs1.
  pose proof (cells_inv_step _ _ _ Hce Hs1) as Hce1. pose proof (stands_for_call st r tid (lookup_pc c st) Hsf) as Hsf1.
  unfold lookup_pc in *. destruct (c_limiters st !! c) as [p|] eqn:Hl.
  - destruct (allow_is_run t0 _ r tid c p now Hce1 Hsf1) as (st' & Hr & Hsf' & Hc' & Hp'); [apply lookup_insert_eq|done..|].
    exists st'. split; [by eapply rtc_l|]. split_and!; [done| |done]. rewrite Hc'. apply delete_insert_eq.
  - set (st1 := set_call tid (Missing c) st) in *.
    assert (c_calls st1 !! tid = Some (Missing c)) as Hpc1 by apply lookup_insert_eq.
    pose proof (cs_create _ _ _ Hpc1) as Hs2. pose proof (cells_inv_step _ _ _ Hce1 Hs2) as Hce2.
    pose proof (create_stands_for _ _ _ tid c Hce1 Hsf1 Hl) as Hsf2.
    assert (create tid c st1 = mkC (c_global st) (c_gtimes st) (c_heap st ++ [mkCell new_limiter c []])
      (<[c := Datatypes.length (c_heap st)]> (c_limiters st)) (c_seen st)
      (<[tid := Found c (Datatypes.length (c_heap st))]> (<[tid := Missing c]> (c_calls st))) (c_clock st)
      (c_passed st) (c_cleaned st)) as Heq by (unfold create; cbn; by rewrite Hl).
    rewrite Heq in *.
    destruct (allow_is_run t0 _ _ tid c (Datatypes.length (c_heap st)) now Hce2 Hsf2) as (st' & Hr & Hsf' & Hc' & Hp');
      [apply lookup_insert_eq|apply lookup_insert_eq|done|].
    rewrite allowClient_created in Hsf', Hp'. exists st'. split; [eapply rtc_l; [exact Hs1|by eapply rtc_l]|].
    split_and!; [done| |done]. rewrite Hc'. cbn. by rewrite !delete_insert_eq.
Qed.

(** A call with nothing between its steps does to the interceptor what
    [check_request] computes, and answers the same. *)
Theorem check_request_is_run t0 st r tid proxies now ctx : rtc cstep (c_start t0) st → stands_for st r →
  c_calls st !! tid = None → c_clock st ≤ now →
  ∃ st', rtc cstep st st' ∧ stands_for st' (check_request proxies now ctx r).1 ∧ c_calls st' = c_calls st ∧
    c_passed st' = match (check_request proxies now ctx r).2 with
                   | None => (now, getClientID proxies ctx) :: c_passed st
                   | Some _ => c_passed st
                   end.
Proof.
  intros (_ & Hce & _)%invs_reachable Hsf Hn Hle. pose proof (cs_global tid proxies now ctx st Hn Hle) as Hs1.
  pose proof (cells_inv_step _ _ _ Hce Hs1) as Hce1. unfold check_request, ask_global in *.
  rewrite (sf_global _ _ Hsf). destruct (limiter_Allow now (c_global st)) as [ok g].
  assert (∀ k pa, stands_for (mkC g (c_gtimes st ++ [now]) (c_heap st) (c_limiters st) (c_seen st) k now pa (c_cleaned st))
    (set_global g r)) as Hsf1 by (by destruct Hsf).
  assert (enablePerClient (set_global g r) = enablePerClient r0) as ->.
  { destruct (sf_config _ _ Hsf) as (_ & _ & He). exact He. }
  destruct ok; [|by eexists; split_and!; [by apply rtc_once|..]].
  case_decide as Hd; [|by eexists; split_and!; [by apply rtc_once|..]].
  destruct (allowClient_is_run t0 _ (set_global g r) tid (getClientID proxies ctx) now Hce1 (Hsf1 _ _))
    as (st' & Hr & Hsf' & Hc' & Hp'); [apply lookup_insert_eq|done|]. cbn in Hc', Hp'.
  exists st'. split; [by eapply rtc_l|]. destruct (allowClient now _ (set_global g r)) as [r' ok']. cbn [fst snd] in *.
  split_and!; [done| |by destruct ok']. by rewrite Hc', delete_insert_id.
Qed.
End concurrent.

(** * The limits under concurrency *)

Section limits.
Context `{X509, RateLimiter}.


(** The map of limiters does not leak under concurrency: whenever no call is in
    progress, every client with a limiter has a recorded time, so that a cleaning
    keeps no limiter of a client not seen for ten minutes. *)
Theorem limiters_do_not_leak r t0 st now c : rtc (cstep r) (c_start r t0) st → c_calls st = ∅ →
  c ∈ dom (c_limiters (clean now st)) → ∃ t, c_seen st !! c = Some t ∧ now - clientLimiterTimeout ≤ t.
Proof.
  intros (_ & _ & Hse & _)%invs_reachable Hcalls [p [Hlk Hst]%map_lookup_filter_Some]%elem_of_dom. cbn in Hst.
  destruct (Hse c) as [[t Ht]%elem_of_dom|(tid & p' & Hpc)]; [apply elem_of_dom; by eexists| |by rewrite Hcalls in Hpc].
  exists t. split; [done|]. apply map_lookup_filter_None_1 in Hst as [?|Hst]; [congruence|].
  specialize (Hst t Ht). cbn in Hst. lia.
Qed.
End limits.

(** * Instances, and the race with the cleaning *)

#[local] Existing Instance no_x509.
#[local] Existing Instance exact_limiter.
#[local] Existing Instance exact_limiter_laws.

(** One request a second, in bursts of one; the global limit is far. *)
Definition tight : RateLimitInterceptor := NewRateLimitInterceptorWithConfig (mkRateLimitConfig 1000 1000 1 1 true).

(** A step to a state that is computed. *)
Lemma cstep_computed r a b b' c : cstep r a b → b = b' → rtc (cstep r) b' c → rtc (cstep r) a c.
Proof. intros Hs <- Hr. by eapply rtc_l. Qed.

(** Computing the left side only: the instances in the types are functions. *)
Ltac computed :=
  match goal with
  | |- ?l = _ => let v := eval vm_compute in l in transitivity v; [exact (eq_refl v <: l = v)|reflexivity]
  | |- _ ≤ _ => vm_compute; discriminate
  end.
Ltac next_step c := eapply cstep_computed; [eapply c; computed|computed|].

(** A call from its start to the look-up, and from its limiter to the end. *)
Ltac call_steps tid now :=
  next_step (cs_global tight tid [] now (ex_ctx_of ip_a [])); next_step (cs_lookup tight tid).
Ltac end_call tid now :=
  next_step (λ c p, cs_record tight tid c p now); next_step (λ c p cl, cs_allow tight tid c p cl now).

(** A call that found the client's limiter before a cleaning removed it still uses it,
    while the next call gets a new one: after ten silent minutes two requests pass at
    once where the burst is one. *)
Theorem cleaning_doubles_burst : perClientBurst tight = 1 ∧
  ∃ st, rtc (cstep tight) (c_start tight 0) st ∧
    c_passed st = [(601 * 10 ^ 9, "8.8.8.8"%string); (601 * 10 ^ 9, "8.8.8.8"%string); (0, "8.8.8.8"%string)].
Proof.
  split; [done|]. eexists. split.
  - call_steps 0%nat 0. next_step (cs_create tight 0%nat). end_call 0%nat 0.
    call_steps 1%nat (601 * 10 ^ 9).
    next_step (cs_clean tight (601 * 10 ^ 9)).
    call_steps 2%nat (601 * 10 ^ 9). next_step (cs_create tight 2%nat). end_call 2%nat (601 * 10 ^ 9). end_call 1%nat (601 * 10 ^ 9).
    apply rtc_refl.
  - reflexivity.
Qed.

(** One call of a new client. *)
Definition one_call : @cstate exact_limiter :=
  ask_client 0 "8.8.8.8" 0 (mkCell (NewLimiter 1 1) "8.8.8.8" []) 5
    (record_seen 0 "8.8.8.8" 0 5
       (create tight 0 "8.8.8.8" (set_call 0 (Missing "8.8.8.8")
          (ask_global tight 0 5 "8.8.8.8" (c_start tight 0))))).

Lemma one_call_run : rtc (cstep tight) (c_start tight 0) one_call.
Proof.
  next_step (cs_global tight 0%nat [] 5 (ex_ctx_of ip_a [])). next_step (cs_lookup tight 0%nat).
  next_step (cs_create tight 0%nat). end_call 0%nat 5.
  replace one_call with (ltac:(let v := eval vm_compute in one_call in exact v)); [apply rtc_refl|].
  symmetry. computed.
Qed.


Lemma limiters_do_not_leak_witness : ∃ t, c_seen one_call !! "8.8.8.8"%string = Some t ∧ 600 * 10 ^ 9 - clientLimiterTimeout ≤ t.
Proof.
  apply (limiters_do_not_leak tight 0 one_call (600 * 10 ^ 9) "8.8.8.8" one_call_run); [reflexivity|].
  apply elem_of_dom. exists 0%nat. reflexivity.
Defined.

Lemma check_request_is_run_witness :
  let ctx := ex_ctx_of ip_a [] in
  ∃ st', rtc (cstep tight) (c_start tight 0) st' ∧ stands_for tight st' (check_request [] 5 ctx tight).1 ∧
    c_calls st' = ∅ ∧
    c_passed st' = match (check_request [] 5 ctx tight).2 with
                   | None => [(5, getClientID [] ctx)]
                   | Some _ => []
                   end.
Proof.
  apply (check_request_is_run tight 0 (c_start tight 0) tight 0 [] 5 (ex_ctx_of ip_a [])).
  - apply rtc_refl.
  - split; done.
  - done.
  - cbn. lia.
Defined.
