(* ===== verification/AuditInterceptor.v ===== *)
(** [internal/grpc/audit_interceptor.go]: the interceptors that write to the
    audit log, around a handler, around the authentication interceptor and
    around the rate limiter.

    A handler's error is a gRPC status or another error.  The values the audit
    interceptor adds to the context are carried beside it.  The time and the
    random request id are arguments; the handler starts at [start] and ends at
    [now].  The text that a library adds to an authentication error is the
    argument [detail]. *)

From S2P Require Import Prelude GoBytes GoFmt Json GoAny NetAddr Grpc Auth AuditLog RateLimit.
From Stdlib Require Import Ascii String.
#[local] Open Scope Z_scope.

(** * Errors *)

Inductive rpc_error : Type :=
  | StatusError (code message : string)
  | PlainError (text : string).

(** [status.FromError]: code and message. *)
Definition FromError (e : rpc_error) : string * string :=
  match e with StatusError c m => (c, m) | PlainError t => ("Unknown"%string, t) end.

(** [err.Error()] *)
Definition error_text (e : rpc_error) : string :=
  match e with StatusError c m => "rpc error: code = " +:+ c +:+ " desc = " +:+ m | PlainError t => t end.

Definition auth_message (detail : string) (e : auth_error) : string :=
  match e with
  | EMissingKey => "missing API key"
  | EInvalidKey => "invalid API key"
  | ETooOld => "request timestamp too old"
  | EReplay => "replay attack detected"
  | EBadSignature => "invalid signature"
  | ETLSRequired => "TLS connection required"
  | ECertRequired => "client certificate required"
  | EBadCert => "invalid client certificate: " +:+ detail
  | EMTLSRequired => "mTLS authentication required"
  | EMissingMetadata => "missing metadata"
  | EMissingHeader => "missing authorization header"
  | EBadFormat => "invalid authorization format"
  | EBadToken => "invalid token" +:+ detail
  | ETokenExpired => "token expired"
  | EMissingNode => "missing node_id in token"
  | EReadCA | EPEM | EParseCA | ESigning => detail      (* not answers to a request *)
  end.

Definition auth_status (detail : string) (e : auth_error) : rpc_error :=
  StatusError "Unauthenticated" (auth_message detail e).

Definition rate_status (e : ratelimit_error) : rpc_error :=
  StatusError "ResourceExhausted"
    match e with
    | GlobalLimitExceeded => "global rate limit exceeded"
    | ClientLimitExceeded c => "per-client rate limit exceeded for " +:+ c
    end.

(** The answer of an interceptor around a handler that answers itself. *)
Definition flatten {E Resp} (status : E → rpc_error) (r : result E (result rpc_error Resp)) : result rpc_error Resp :=
  match r with Ok r => r | Err e => Err (status e) end.

(** * Definitions *)

(** How a request offers its API key: by a method [GetAuth() *APIMetadata], as the
    authentication interceptor expects, or by a method [GetAuth() interface{}] whose
    result, when not nil, may have a method [GetApiKey].  A Go type has at most one
    of them. *)
Inductive get_auth : Type :=
  | NoGetAuth
  | GetAuthMeta (auth : option APIMetadata)
  | GetAuthAny (key : option string).

Definition meta_auth (g : get_auth) : option APIMetadata :=
  match g with GetAuthMeta a => a | _ => None end.

Definition extractAPIKey (g : get_auth) : string :=
  match g with GetAuthAny (Some k) => k | _ => "" end.

Definition methodToEventType (method : string) : string := "rpc." +:+ method.

Section interceptors.
Context `{X509, Hmac256, JWT, GoOrder, AuditClock, RateLimiter}.

Record call_ctx : Type := mkCall { cc_ctx : context; cc_audit : AuditValues }.

Record AuditInterceptor : Type := mkAuditInterceptor { ad_logger : option Logger }.

Definition NewAuditInterceptor (logger : option Logger) : AuditInterceptor := mkAuditInterceptor logger.

(** The [user-id] header, else whether there is an [authorization] header. *)
Definition extractUserID (ctx : context) : string :=
  match ctx_md ctx with
  | None => ""
  | Some md =>
      match md_Get md "user-id", md_Get md "authorization" with
      | u :: _, _ => u
      | [], _ :: _ => "authenticated"
      | [], [] => ""
      end
  end.

Definition rpc_event (now : Z) (clientIP userID method result : string) (duration : Z) (err : option rpc_error)
  : AuditEvent :=
  let e := WithMetadata "duration_ms" (VInt (Z.quot duration (10 ^ 6)))
    (WithResult result (WithMethod method (WithUserID userID (WithClientIP clientIP
      (NewAuditEvent now (methodToEventType method) SeverityInfo))))) in
  match err with
  | None => e
  | Some err => WithReason (FromError err).2 (WithMetadata "error_code" (VString (FromError err).1) e)
  end.

Definition logRPCEvent (now : Z) (clientIP userID method result : string) (duration : Z) (err : option rpc_error)
    (a : AuditInterceptor) : AuditInterceptor :=
  match ad_logger a with
  | None => a
  | Some l => mkAuditInterceptor (Some (Log (rpc_event now clientIP userID method result duration err) l))
  end.

Definition error_of {Resp} (r : result rpc_error Resp) : option rpc_error :=
  match r with Ok _ => None | Err e => Some e end.

Definition audit_UnaryInterceptor {Req Resp} (proxies : list string) (requestID : string) (start now : Z)
    (c : call_ctx) (req : Req) (method : string) (handler : call_ctx → Req → result rpc_error Resp)
    (a : AuditInterceptor) : AuditInterceptor * result rpc_error Resp :=
  let clientIP := GetClientIP proxies (cc_ctx c) in
  let userID := extractUserID (cc_ctx c) in
  let c := mkCall (cc_ctx c) (ContextWithAuditInfo requestID clientIP userID (cc_audit c)) in
  let r := handler c req in
  let res := match r with Ok _ => "success"%string | Err _ => "failure"%string end in
  (logRPCEvent now clientIP userID method res (now - start) (error_of r) a, r).

(** The stream is given the extended context. *)
Definition audit_StreamInterceptor {Resp} (proxies : list string) (requestID : string) (start now : Z)
    (c : call_ctx) (method : string) (handler : call_ctx → result rpc_error Resp)
    (a : AuditInterceptor) : AuditInterceptor * result rpc_error Resp :=
  audit_UnaryInterceptor proxies requestID start now c tt method (λ c _, handler c) a.

(** ** Around authentication *)

Record AuditAuthInterceptor : Type := mkAuditAuth {
  aa_authInterceptor : option AuthInterceptor;
  aa_auditLogger : option Logger
}.

Definition callAuthInterceptor {Req Resp} (detail : string) (GetAuth : Req → get_auth) (now : Z) (c : call_ctx)
    (req : Req) (method : string) (handler : call_ctx → Req → result rpc_error Resp) (a : AuditAuthInterceptor)
  : go (AuditAuthInterceptor * result rpc_error Resp) :=
  match aa_authInterceptor a with
  | None => Ret (a, handler c req)
  | Some auth =>
      '(auth, r) ← UnaryInterceptor (λ q, meta_auth (GetAuth q)) auth now (cc_ctx c) req method
                     (λ ctx q, handler (mkCall ctx (cc_audit c)) q);
      Ret (mkAuditAuth (Some auth) (aa_auditLogger a), flatten (auth_status detail) r)
  end.

(** The events go to the package's logger, not to [auditLogger]. *)
Definition auth_UnaryInterceptor {Req Resp} (proxies : list string) (detail : string) (GetAuth : Req → get_auth)
    (now : Z) (c : call_ctx) (req : Req) (method : string) (handler : call_ctx → Req → result rpc_error Resp)
    (a : AuditAuthInterceptor) (g : audit_global) : go (AuditAuthInterceptor * audit_global * result rpc_error Resp) :=
  let clientIP := GetClientIP proxies (cc_ctx c) in
  let key := SanitizeAPIKey (extractAPIKey (GetAuth req)) in
  '(a, r) ← callAuthInterceptor detail GetAuth now c req method handler a;
  let g := match r with
           | Err e => LogAuthFailure now clientIP key method (error_text e) g
           | Ok _ => LogAuthSuccess now clientIP key method g
           end in
  Ret (a, g, r).

(** ** Around the rate limiter *)

Record AuditRateLimitInterceptor : Type := mkAuditRate {
  ar_rateInterceptor : option RateLimitInterceptor;
  ar_auditLogger : option Logger
}.

Definition callRateLimitInterceptor {Req Resp} (proxies : list string) (now : Z) (c : call_ctx) (req : Req)
    (handler : call_ctx → Req → result rpc_error Resp) (a : AuditRateLimitInterceptor)
  : AuditRateLimitInterceptor * result rpc_error Resp :=
  match ar_rateInterceptor a with
  | None => (a, handler c req)
  | Some rl =>
      let '(rl, r) := rl_UnaryInterceptor proxies now (cc_ctx c) req
                        (λ ctx q, handler (mkCall ctx (cc_audit c)) q) rl in
      (mkAuditRate (Some rl) (ar_auditLogger a), flatten rate_status r)
  end.

Definition rate_extractUserID (c : call_ctx) : string :=
  let '(_, clientIP, userID) := GetAuditInfoFromContext (cc_audit c) in
  if decide (userID ≠ "") then userID else if decide (clientIP ≠ "") then clientIP else "".

Definition rate_UnaryInterceptor {Req Resp} (proxies : list string) (now : Z) (c : call_ctx) (req : Req)
    (method : string) (handler : call_ctx → Req → result rpc_error Resp) (a : AuditRateLimitInterceptor)
    (g : audit_global) : AuditRateLimitInterceptor * audit_global * result rpc_error Resp :=
  let clientIP := GetClientIP proxies (cc_ctx c) in
  let userID := rate_extractUserID c in
  let '(a, r) := callRateLimitInterceptor proxies now c req handler a in
  let g := match r with
           | Err e => if decide ((FromError e).1 = "ResourceExhausted")
                      then LogRateLimitViolation now clientIP userID method g else g
           | Ok _ => g
           end in
  (a, g, r).
End interceptors.

(** * Theorems *)

Section theorems.
Context `{X509, Hmac256, JWT, GoOrder, AuditClock, RateLimiter}.

Definition logged (a : AuditInterceptor) : list AuditEvent := from_option l_logChan [] (ad_logger a).

Lemma Log_full e l : full l = true → Log e l = l.
Proof. unfold full, Log. intros Hf%bool_decide_eq_true. rewrite decide_False by lia. done. Qed.

Lemma Log_queue e l : full l = false → l_logChan (Log e l) = l_logChan l ++ [e].
Proof. unfold full, Log. intros Hf%bool_decide_eq_false. by rewrite decide_True by lia. Qed.

Lemma rpc_event_fields now ip u m res d err : ev_Method (rpc_event now ip u m res d err) = m ∧
  ev_Result (rpc_event now ip u m res d err) = res ∧ ev_ClientIP (rpc_event now ip u m res d err) = ip.
Proof. by destruct err as [[]|]. Qed.

(** The audit interceptor is transparent and complete.  It answers what the
    handler answers in the extended context, and unless the queue is full it queues
    exactly one event, with the method, the address of the client, and a result that
    is [success] exactly when the handler succeeded. *)
Theorem audit_transparent {Req Resp} proxies rid start now c (req : Req) method
    (handler : call_ctx → Req → result rpc_error Resp) l :
  let out := audit_UnaryInterceptor proxies rid start now c req method handler (mkAuditInterceptor (Some l)) in
  let ip := GetClientIP proxies (cc_ctx c) in
  out.2 = handler (mkCall (cc_ctx c) (mkAuditValues (Some rid) (Some ip) (Some (extractUserID (cc_ctx c))))) req ∧
  (full l = true → logged out.1 = l_logChan l) ∧
  (full l = false → ∃ e, logged out.1 = l_logChan l ++ [e] ∧ ev_Method e = method ∧ ev_ClientIP e = ip ∧
     (ev_Result e = "success" ↔ is_ok out.2 = true)).
Proof.
  cbn zeta. unfold audit_UnaryInterceptor, logRPCEvent. cbn [ad_logger fst snd cc_ctx cc_audit].
  set (r := handler _ req). split; [done|]. unfold logged. cbn [ad_logger from_option]. split.
  - intros Hf. by rewrite Log_full.
  - intros Hf. rewrite Log_queue by done. eexists. split; [done|].
    destruct (rpc_event_fields now (GetClientIP proxies (cc_ctx c)) (extractUserID (cc_ctx c)) method
      (match r with Ok _ => "success"%string | Err _ => "failure"%string end) (now - start) (error_of r)) as (-> & -> & ->).
    split_and!; [done..|]. by destruct r.
Qed.

(** The events of the package's logger. *)
Definition global_events (g : audit_global) : list AuditEvent := from_option l_logChan [] (globalLogger g).

Lemma global_Log_events e g : (∀ l, globalLogger g = Some l → full l = false) →
  global_events (global_Log e g) = global_events g ++ (if globalLogger g then [e] else []).
Proof.
  unfold global_events, global_Log. cbn [globalLogger]. intros Hf. destruct (globalLogger g) as [l|]; [|done].
  cbn. by rewrite Log_queue by auto.
Qed.

(** Around authentication the answer is that of the authentication interceptor,
    and one event is queued with it: a failure with the error's text when the call
    failed, a success otherwise.  It shows no key: the requests the authentication
    interceptor reads a key from are not those the audit interceptor reads one
    from. *)
Theorem audit_auth_logs {Req Resp} proxies detail (GetAuth : Req → get_auth) now c req method
    (handler : call_ctx → Req → result rpc_error Resp) auth lg g l a' g' r :
  globalLogger g = Some l → full l = false → (∃ m, GetAuth req = GetAuthMeta m) →
  auth_UnaryInterceptor proxies detail GetAuth now c req method handler (mkAuditAuth (Some auth) lg) g = Ret (a', g', r) →
  (∃ auth' r', UnaryInterceptor (λ q, meta_auth (GetAuth q)) auth now (cc_ctx c) req method
     (λ ctx q, handler (mkCall ctx (cc_audit c)) q) = Ret (auth', r') ∧
     aa_authInterceptor a' = Some auth' ∧ r = flatten (auth_status detail) r') ∧
  ∃ e, global_events g' = l_logChan l ++ [e] ∧ ev_UserID e = "" ∧ ev_Method e = method ∧
    ev_EventType e = (if is_ok r then EventAuthSuccess else EventAuthFailure).
Proof.
  intros Hg Hf [m Hm]. unfold auth_UnaryInterceptor, callAuthInterceptor. cbn [aa_authInterceptor].
  destruct (UnaryInterceptor _ auth now _ req method _) as [[auth' r']|p]; [|done].
  cbn [mbind go_bind]. intros [= <- <- <-]. split; [by exists auth', r'|].
  rewrite Hm. cbn [extractAPIKey]. change (SanitizeAPIKey "") with ""%string.
  assert (∀ l', globalLogger g = Some l' → full l' = false) as Hf' by (intros l'; rewrite Hg; by intros [= <-]).
  destruct (flatten _ r') as [v|err]; unfold LogAuthSuccess, LogAuthFailure; rewrite global_Log_events by done;
    unfold global_events; rewrite Hg; cbn [from_option]; eexists; (split; [done|]); done.
Qed.

(** A handler that fails after the client was accepted is logged as a failed
    authentication. *)
Theorem handler_error_logged_as_auth_failure {Req Resp} proxies detail (GetAuth : Req → get_auth) now c req method
    (handler : call_ctx → Req → result rpc_error Resp) auth auth' lg g l err :
  globalLogger g = Some l → full l = false → handler c req = Err err →
  UnaryInterceptor (λ q, meta_auth (GetAuth q)) auth now (cc_ctx c) req method
     (λ ctx q, handler (mkCall ctx (cc_audit c)) q) = Ret (auth', Ok (Err err)) →
  ∃ a' g', auth_UnaryInterceptor proxies detail GetAuth now c req method handler (mkAuditAuth (Some auth) lg) g =
      Ret (a', g', Err err) ∧
    ∃ e, global_events g' = l_logChan l ++ [e] ∧ ev_EventType e = EventAuthFailure.
Proof.
  intros Hg Hf Hh Ha. unfold auth_UnaryInterceptor, callAuthInterceptor. cbn [aa_authInterceptor]. rewrite Ha.
  cbn [mbind go_bind flatten]. eexists _, _. split; [done|]. unfold LogAuthFailure.
  rewrite global_Log_events by (intros l'; rewrite Hg; by intros [= <-]). unfold global_events. rewrite Hg.
  cbn [from_option]. eexists. split; [done|]. done.
Qed.

(** Around the rate limiter every refusal is logged: a request the limiter refuses
    does not reach the handler, answers [ResourceExhausted], and queues one
    violation; a request it admits answers what the handler answers. *)
Theorem rate_refusal_logged {Req Resp} proxies now c (req : Req) method
    (handler : call_ctx → Req → result rpc_error Resp) rl lg g l :
  globalLogger g = Some l → full l = false →
  let out := rate_UnaryInterceptor proxies now c req method handler (mkAuditRate (Some rl) lg) g in
  match (check_request proxies now (cc_ctx c) rl).2 with
  | Some e => out.2 = Err (rate_status e) ∧
      ∃ ev, global_events out.1.2 = l_logChan l ++ [ev] ∧ ev_EventType ev = EventRateLimitViolated ∧
        ev_ClientIP ev = GetClientIP proxies (cc_ctx c)
  | None => out.2 = handler c req
  end.
Proof.
  intros Hg Hf. cbn zeta. unfold rate_UnaryInterceptor, callRateLimitInterceptor, rl_UnaryInterceptor.
  cbn [ar_rateInterceptor]. destruct (check_request proxies now (cc_ctx c) rl) as [rl' [e|]]; cbn [fst snd flatten].
  - split; [done|]. cbn [rate_status FromError fst]. rewrite decide_True by done. unfold LogRateLimitViolation.
    rewrite global_Log_events by (intros l'; rewrite Hg; by intros [= <-]). unfold global_events. rewrite Hg.
    cbn [from_option]. eexists. split; [done|]. done.
  - by destruct c.
Qed.

(** The user shown in the audit log is whatever the client puts in a header. *)
Lemma user_id_is_client_supplied ctx md u us : ctx_md ctx = Some md → md_Get md "user-id" = u :: us →
  extractUserID ctx = u.
Proof. intros Hc Hu. unfold extractUserID. by rewrite Hc, Hu. Qed.
End theorems.

(** * Instances *)

#[local] Instance wit_x509 : X509 :=
  {| Certificate := unit; pem_Decode _ := None; ParseCertificate _ := None; cert_Verify _ _ := false |}.
#[local] Instance wit_hmac : Hmac256 := λ _ m, m.
#[local] Instance wit_jwt : JWT :=
  {| ParseWithClaims _ _ _ := None; SignedString _ _ := None; jwt_signature_ok _ _ _ := false |}.
#[local] Instance wit_order : GoOrder := {| map_Range := elements; sort_Slice l := l |}.
#[local] Instance wit_clock : AuditClock := {| rfc3339 := Sprintf_int; timestamp_text := Sprintf_int |}.

(** A limiter that allows nothing. *)
#[local] Instance closed_limiter : RateLimiter :=
  {| Limiter := unit; NewLimiter _ _ := tt; limiter_Allow _ _ := (false, tt) |}.

Definition wit_logger : Logger :=
  mkLogger (mkLoggerConfig "logs" 3 10 2 5 false false) [] false (Some (HPath "a")) 0 "a" true.
Definition wit_global : audit_global := mkGlobal (Some wit_logger) true.
Definition open_auth : AuthInterceptor := mkInterceptor (mkAuthConfig false "" false "" 0 false ∅) None None ∅ 0 false false.
Definition wit_call : call_ctx := mkCall (mkContext None None) no_audit_values.
Definition wit_error : rpc_error := StatusError "Internal" "disk".

Lemma audit_auth_logs_witness : ∃ a' g',
  auth_UnaryInterceptor [] "" (λ _ : unit, GetAuthMeta None) 0 wit_call tt "/Add" (λ _ _, Ok true)
    (mkAuditAuth (Some open_auth) None) wit_global = Ret (a', g', Ok true) ∧
  ∃ e, global_events g' = [] ++ [e] ∧ ev_UserID e = "" ∧ ev_Method e = "/Add"%string ∧ ev_EventType e = EventAuthSuccess.
Proof.
  eexists _, _. split; [done|].
  exact (proj2 (audit_auth_logs [] "" (λ _ : unit, GetAuthMeta None) 0 wit_call tt "/Add" (λ _ _, Ok true)
    open_auth None wit_global wit_logger _ _ _ eq_refl eq_refl (ex_intro _ None eq_refl) eq_refl)).
Defined.

Lemma handler_error_logged_as_auth_failure_witness : ∃ a' g',
  auth_UnaryInterceptor [] "" (λ _ : unit, NoGetAuth) 0 wit_call tt "/Add" (λ _ _, @Err _ bool wit_error)
    (mkAuditAuth (Some open_auth) None) wit_global = Ret (a', g', Err wit_error) ∧
  ∃ e, global_events g' = [] ++ [e] ∧ ev_EventType e = EventAuthFailure.
Proof.
  apply (handler_error_logged_as_auth_failure [] "" (λ _ : unit, NoGetAuth) 0 wit_call tt "/Add"
    (λ _ _, @Err _ bool wit_error) open_auth open_auth None wit_global wit_logger wit_error); done.
Defined.

Lemma rate_refusal_logged_witness :
  let out := rate_UnaryInterceptor [] 0 wit_call tt "/Add" (λ _ _, Ok true)
    (mkAuditRate (Some (NewRateLimitInterceptor 1 1)) None) wit_global in
  out.2 = Err (rate_status GlobalLimitExceeded) ∧
  ∃ ev, global_events out.1.2 = [] ++ [ev] ∧ ev_EventType ev = EventRateLimitViolated ∧ ev_ClientIP ev = "".
Proof.
  exact (rate_refusal_logged [] 0 wit_call tt "/Add" (λ _ _, Ok true) (NewRateLimitInterceptor 1 1) None
    wit_global wit_logger eq_refl eq_refl).
Defined.
