(* ===== verification/Gateway.v ===== *)
(** [internal/gateway/gateway.go]: the HTTP gateway in front of the gRPC service.

    A handler is a function from the request and the world behind the
    generated client ([DBFServiceClient]) to the new world and the response.
    [json.NewDecoder(body).Decode] reads the first value of the body and is
    the class [JsonDecoder].  The mux is modelled on clean paths; listening,
    TLS and the log lines are not modelled. *)

From S2P Require Import Prelude GoBytes GoFmt Hash Counting CountingSpec CountingCodec.
From S2P Require Import WalCrypto WalFiles Json GoAny RaftFsm Node Service Sdk Grpc Auth AuditLog.
From stdpp Require Import sorting.
From Stdlib Require Import Ascii String.
#[local] Open Scope Z_scope.

(** * Definitions *)

Record GatewayConfig : Type := mkGatewayConfig {
  Port : Z;
  GRPCAddress : string;
  TLSCertFile : string;
  EnableTLS : bool;
  gw_APIKey : string;
  gw_APISecret : string
}.

(** The first value of a stream; an object is read whatever follows it on the next
    line. *)
Class JsonDecoder : Type := decode_first : list byte → option json.
Class JsonDecoderLaws `{JsonText, JsonDecoder} : Prop := {
  decode_first_print l rest : json_ascii (JObj l) = true → rest = [] ∨ head rest = Some (byte_of 10) →
    decode_first (json_print (JObj l) ++ rest) = Some (JObj l)
}.

Record http_request : Type := mkReq { r_Method : string; r_Path : string; r_Body : list byte }.

(** Status, headers and body; [None] is no JSON body. *)
Record http_response : Type := mkHttpResp {
  h_Status : Z;
  h_Header : gmap string string;
  h_Body : option json
}.

Definition StatusOK : Z := 200.
Definition StatusNoContent : Z := 204.
Definition StatusTemporaryRedirect : Z := 307.
Definition StatusBadRequest : Z := 400.
Definition StatusNotFound : Z := 404.
Definition StatusMethodNotAllowed : Z := 405.
Definition StatusInternalServerError : Z := 500.

Definition APIResponse_json (success : bool) (data : option json) (error leader : string) : json :=
  JObj ([("success", JBool success)] ++
        match data with Some d => [("data", d)] | None => [] end ++
        omit_empty "error" error ++ omit_empty "leader" leader).

Definition json_header : gmap string string := {[ "Content-Type" := "application/json"%string ]}.

Definition sendSuccess (data : json) (leader : string) : http_response :=
  mkHttpResp StatusOK json_header (Some (APIResponse_json true (Some data) "" leader)).

Definition sendError (message : string) (statusCode : Z) : http_response :=
  mkHttpResp statusCode json_header (Some (APIResponse_json false None message "")).

Definition sendRedirect (errorMsg : string) : http_response :=
  mkHttpResp StatusTemporaryRedirect json_header (Some (APIResponse_json false None errorMsg "")).

(** The bodies [{"item": ...}] and [{"items": ...}]. *)
Definition item_field (k : string) (v : json) (s : string) : option string :=
  if key_is k "item" then decode_string s v else Some s.

Definition items_field (k : string) (v : json) (s : option (list string)) : option (option (list string)) :=
  if key_is k "items" then decode_strings v else Some s.

Section handlers.
Context `{JsonText, JsonDecoder, DBFServiceClient W}.

Definition decode_item (body : list byte) : option string :=
  v ← decode_first body; decode_struct ""%string item_field v.

Definition decode_items (body : list byte) : option (list string) :=
  v ← decode_first body; default [] <$> decode_struct None items_field v.

Definition not_leader (msg : string) : bool := AuditLog.Contains msg "not the leader".

(** The guards shared by the handlers of one item: the method, the body and the
    empty item. *)
Definition with_item (method : string) (r : http_request) (w : W) (k : string → W * http_response)
  : W * http_response :=
  if decide (r_Method r ≠ method) then (w, sendError "method not allowed" StatusMethodNotAllowed)
  else match decode_item (r_Body r) with
       | None => (w, sendError "invalid request body" StatusBadRequest)
       | Some item =>
           if decide (item = "") then (w, sendError "item cannot be empty" StatusBadRequest) else k item
       end.

Definition with_items (method : string) (r : http_request) (w : W) (k : list string → W * http_response)
  : W * http_response :=
  if decide (r_Method r ≠ method) then (w, sendError "method not allowed" StatusMethodNotAllowed)
  else match decode_items (r_Body r) with
       | None => (w, sendError "invalid request body" StatusBadRequest)
       | Some items =>
           if decide (items = []) then (w, sendError "no items provided" StatusBadRequest) else k items
       end.

Definition grpc_error (text : string) : http_response :=
  sendError ("gRPC error: " +:+ text) StatusInternalServerError.

(** The answer to a write: success, redirect or error. *)
Definition write_response (done : string) (resp : AddResponse) : http_response :=
  if ar_Success resp then sendSuccess (JObj [(done, JBool true)]) ""
  else if not_leader (ar_Error resp) then sendRedirect (ar_Error resp)
  else sendError (ar_Error resp) StatusInternalServerError.

Definition handleAdd (g : GatewayConfig) (r : http_request) (w : W) : W * http_response :=
  with_item "POST" r w (λ item,
    match rpc_Add (GRPCAddress g) (bytes_of_string item) w with
    | (w, Err e) => (w, grpc_error e)
    | (w, Ok resp) => (w, write_response "added" resp)
    end).

Definition handleRemove (g : GatewayConfig) (r : http_request) (w : W) : W * http_response :=
  with_item "DELETE" r w (λ item,
    match rpc_Remove (GRPCAddress g) (bytes_of_string item) w with
    | (w, Err e) => (w, grpc_error e)
    | (w, Ok resp) => (w, write_response "removed" resp)
    end).

Definition handleContains (g : GatewayConfig) (r : http_request) (w : W) : W * http_response :=
  with_item "POST" r w (λ item,
    match rpc_Contains (GRPCAddress g) (bytes_of_string item) w with
    | (w, Err e) => (w, grpc_error e)
    | (w, Ok resp) =>
        (w, if decide (cr_Error resp ≠ "") then sendError (cr_Error resp) StatusInternalServerError
            else sendSuccess (JObj [("exists", JBool (cr_Exists resp))]) "")
    end).

(** A nil slice of errors is [null]. *)
Definition errors_json (l : list string) : json := match l with [] => JNull | _ => JArr (JStr <$> l) end.

Definition handleBatchAdd (g : GatewayConfig) (r : http_request) (w : W) : W * http_response :=
  with_items "POST" r w (λ items,
    match rpc_BatchAdd (GRPCAddress g) (bytes_of_string <$> items) w with
    | (w, Err e) => (w, grpc_error e)
    | (w, Ok resp) =>
        let success := sendSuccess (JObj [("errors", errors_json (br_Errors resp));
                                          ("failure_count", JInt (br_FailureCount resp));
                                          ("success_count", JInt (br_SuccessCount resp))]) "" in
        (w, if decide (br_FailureCount resp = i32 (len items)) then
              match br_Errors resp with
              | e :: _ => if not_leader e then sendRedirect e else success
              | [] => success
              end
            else success)
    end).

(** The loop over the items: a repeated item keeps its last result. *)
Definition results_map (items : list string) (results : list bool) : gmap string bool :=
  foldl (λ m kv, <[kv.1 := kv.2]> m) ∅ (zip items results).

Definition handleBatchContains (g : GatewayConfig) (r : http_request) (w : W) : W * http_response :=
  with_items "POST" r w (λ items,
    match rpc_BatchContains (GRPCAddress g) (bytes_of_string <$> items) w with
    | (w, Err e) => (w, grpc_error e)
    | (w, Ok resp) =>
        (w, if decide (bc_Error resp ≠ "") then sendError (bc_Error resp) StatusInternalServerError
            else sendSuccess (JObj [("results", JObj (map (λ kv, (kv.1, JBool kv.2))
                   (sorted_entries (results_map items (bc_Results resp)))))]) "")
    end).

Definition with_stats (g : GatewayConfig) (r : http_request) (w : W) (k : GetStatsResponse → json)
  : W * http_response :=
  if decide (r_Method r ≠ "GET") then (w, sendError "method not allowed" StatusMethodNotAllowed)
  else match rpc_GetStats (GRPCAddress g) w with
       | (w, Err e) => (w, grpc_error e)
       | (w, Ok resp) =>
           (w, if decide (st_Error resp ≠ "") then sendError (st_Error resp) StatusInternalServerError
               else sendSuccess (k resp) "")
       end.

Definition handleStatus (g : GatewayConfig) (r : http_request) (w : W) : W * http_response :=
  with_stats g r w (λ resp,
    JObj [("bloom_count", JInt (st_BloomCount resp)); ("bloom_k", JInt (st_BloomK resp));
          ("bloom_size", JInt (st_BloomSize resp)); ("is_leader", JBool (st_IsLeader resp));
          ("leader", JStr (st_Leader resp)); ("node_id", JStr (st_NodeId resp));
          ("raft_port", JInt (st_RaftPort resp)); ("raft_state", JStr (st_RaftState resp))]).

Definition handleCluster (g : GatewayConfig) (r : http_request) (w : W) : W * http_response :=
  with_stats g r w (λ resp,
    JObj [("cluster_info", JObj [("is_leader", JBool (st_IsLeader resp)); ("leader", JStr (st_Leader resp));
                                 ("node_id", JStr (st_NodeId resp)); ("raft_state", JStr (st_RaftState resp))])]).

(** The routes registered by [Start]; the mux answers other paths itself. *)
Definition not_found : http_response := mkHttpResp StatusNotFound ∅ None.

Definition mux (g : GatewayConfig) (r : http_request) (w : W) : W * http_response :=
  let p := r_Path r in
  if decide (p = "/api/v1/add") then handleAdd g r w
  else if decide (p = "/api/v1/remove") then handleRemove g r w
  else if decide (p = "/api/v1/contains") then handleContains g r w
  else if decide (p = "/api/v1/batch/add") then handleBatchAdd g r w
  else if decide (p = "/api/v1/batch/contains") then handleBatchContains g r w
  else if decide (p = "/api/v1/status") then handleStatus g r w
  else if decide (p = "/api/v1/cluster") then handleCluster g r w
  else (w, not_found).

Definition cors_headers : gmap string string := {[
  "Access-Control-Allow-Origin" := "*"%string;
  "Access-Control-Allow-Methods" := "GET, POST, DELETE, OPTIONS"%string;
  "Access-Control-Allow-Headers" := "Content-Type, Authorization"%string ]}.

Definition corsMiddleware (next : http_request → W → W * http_response) (r : http_request) (w : W)
  : W * http_response :=
  if decide (r_Method r = "OPTIONS") then (w, mkHttpResp StatusNoContent cors_headers None)
  else let '(w, resp) := next r w in
       (w, mkHttpResp (h_Status resp) (h_Header resp ∪ cors_headers) (h_Body resp)).

(** The handler of the server; the logging middleware only logs. *)
Definition gateway_ServeHTTP (g : GatewayConfig) (r : http_request) (w : W) : W * http_response :=
  corsMiddleware (mux g) r w.
End handlers.

(** Never called by the handlers above. *)
Definition gw_computeSignature `{Hmac256} (apiKey : string) (timestamp : Z) (method secret : string) : string :=
  let message := apiKey +:+ Sprintf_int timestamp +:+ method in
  base64_encode (hmac_sha256 (bytes_of_string secret) (bytes_of_string message)).

Definition gw_createAuthMetadata `{Hmac256} (now : Z) (g : GatewayConfig) (method : string) : APIMetadata :=
  let timestamp := now / 10 ^ 9 in
  mkAuth (gw_APIKey g) timestamp (gw_computeSignature (gw_APIKey g) timestamp method (gw_APISecret g)).

(** * What a request does *)

(** The one call that a request stands for. *)
Inductive gw_call : Type :=
  | CallAdd (item : string)
  | CallRemove (item : string)
  | CallContains (item : string)
  | CallBatchAdd (items : list string)
  | CallBatchContains (items : list string)
  | CallGetStats.

Section specification.
Context `{JsonText, JsonDecoder, DBFServiceClient W}.

Definition item_call (method : string) (r : http_request) (k : string → gw_call) : option gw_call :=
  if decide (r_Method r = method) then
    item ← decode_item (r_Body r); if decide (item = "") then None else Some (k item)
  else None.

Definition items_call (method : string) (r : http_request) (k : list string → gw_call) : option gw_call :=
  if decide (r_Method r = method) then
    items ← decode_items (r_Body r); if decide (items = []) then None else Some (k items)
  else None.

Definition mux_call (r : http_request) : option gw_call :=
  let p := r_Path r in
  if decide (p = "/api/v1/add") then item_call "POST" r CallAdd
  else if decide (p = "/api/v1/remove") then item_call "DELETE" r CallRemove
  else if decide (p = "/api/v1/contains") then item_call "POST" r CallContains
  else if decide (p = "/api/v1/batch/add") then items_call "POST" r CallBatchAdd
  else if decide (p = "/api/v1/batch/contains") then items_call "POST" r CallBatchContains
  else if decide (p = "/api/v1/status" ∨ p = "/api/v1/cluster") then
    if decide (r_Method r = "GET") then Some CallGetStats else None
  else None.

(** A preflight request stands for nothing. *)
Definition gateway_call (r : http_request) : option gw_call :=
  if decide (r_Method r = "OPTIONS") then None else mux_call r.

Definition run_call (addr : string) (c : gw_call) (w : W) : W :=
  match c with
  | CallAdd item => (rpc_Add addr (bytes_of_string item) w).1
  | CallRemove item => (rpc_Remove addr (bytes_of_string item) w).1
  | CallContains item => (rpc_Contains addr (bytes_of_string item) w).1
  | CallBatchAdd items => (rpc_BatchAdd addr (bytes_of_string <$> items) w).1
  | CallBatchContains items => (rpc_BatchContains addr (bytes_of_string <$> items) w).1
  | CallGetStats => (rpc_GetStats addr w).1
  end.

Definition run_opt (addr : string) (c : option gw_call) (w : W) : W :=
  match c with Some c => run_call addr c w | None => w end.

Lemma with_item_world g method r (w : W) k c :
  (∀ item, (k item).1 = run_call (GRPCAddress g) (c item) w) →
  (with_item method r w k).1 = run_opt (GRPCAddress g) (item_call method r c) w.
Proof.
  intros Hk. unfold with_item, item_call. repeat case_decide; try done.
  destruct (decode_item (r_Body r)) as [item|]; [|done]. cbn [mbind option_bind]. by case_decide.
Qed.

Lemma with_items_world g method r (w : W) k c :
  (∀ items, (k items).1 = run_call (GRPCAddress g) (c items) w) →
  (with_items method r w k).1 = run_opt (GRPCAddress g) (items_call method r c) w.
Proof.
  intros Hk. unfold with_items, items_call. repeat case_decide; try done.
  destruct (decode_items (r_Body r)) as [items|]; [|done]. cbn [mbind option_bind]. by case_decide.
Qed.

Lemma with_stats_world g r (w : W) k :
  (with_stats g r w k).1 = run_opt (GRPCAddress g) (if decide (r_Method r = "GET") then Some CallGetStats else None) w.
Proof.
  unfold with_stats. repeat case_decide; try done. cbn [run_opt run_call].
  by destruct (rpc_GetStats (GRPCAddress g) w) as [w' []].
Qed.

Lemma mux_world g r w : (mux g r w).1 = run_opt (GRPCAddress g) (mux_call r) w.
Proof.
  unfold mux, mux_call. cbn zeta. case_decide; [|case_decide; [|case_decide; [|case_decide; [|case_decide]]]].
  - apply with_item_world. intros item. cbn. by destruct (rpc_Add _ _ w) as [? []].
  - apply with_item_world. intros item. cbn. by destruct (rpc_Remove _ _ w) as [? []].
  - apply with_item_world. intros item. cbn. by destruct (rpc_Contains _ _ w) as [? []].
  - apply with_items_world. intros items. cbn. by destruct (rpc_BatchAdd _ _ w) as [? []].
  - apply with_items_world. intros items. cbn. by destruct (rpc_BatchContains _ _ w) as [? []].
  - destruct (decide (r_Path r = "/api/v1/status")) as [Hs|Hs];
      [rewrite decide_True by auto; apply with_stats_world|].
    destruct (decide (r_Path r = "/api/v1/cluster")) as [Hc|Hc];
      [rewrite decide_True by auto; apply with_stats_world|].
    by rewrite decide_False by tauto.
Qed.

(** C22: A request performs exactly the one call it stands for: the service is reached
    only on a registered path, with its method and a body that has a non-empty item;
    then it is called once, with the bytes of the items. *)
Theorem gateway_one_call g r w :
  (gateway_ServeHTTP g r w).1 = run_opt (GRPCAddress g) (gateway_call r) w.
Proof.
  unfold gateway_ServeHTTP, corsMiddleware, gateway_call. case_decide; [done|].
  rewrite <- mux_world. by destruct (mux g r w).
Qed.

(** ** Statuses *)

(** The [success] member of the answer. *)
Definition body_success (resp : http_response) : option bool :=
  match h_Body resp with Some (JObj ((_, JBool b) :: _)) => Some b | _ => None end.

(** The answers of the API: success with 200, failure with a failure status. *)
Definition api_answer (resp : http_response) : Prop :=
  h_Header resp = json_header ∧
  ((h_Status resp = StatusOK ∧ body_success resp = Some true) ∨
  (h_Status resp ∈ [StatusTemporaryRedirect; StatusBadRequest; StatusMethodNotAllowed; StatusInternalServerError] ∧
   body_success resp = Some false)).

Lemma api_success data leader : api_answer (sendSuccess data leader).
Proof. split; [done|by left]. Qed.
Lemma api_redirect msg : api_answer (sendRedirect msg).
Proof. split; [done|right]. split; [set_solver|done]. Qed.
Lemma api_error msg st : st ∈ [StatusBadRequest; StatusMethodNotAllowed; StatusInternalServerError] →
  api_answer (sendError msg st).
Proof. split; [done|right]. split; [set_solver|done]. Qed.

Lemma api_bad_request msg : api_answer (sendError msg StatusBadRequest).
Proof. apply api_error. set_solver. Qed.
Lemma api_method msg : api_answer (sendError msg StatusMethodNotAllowed).
Proof. apply api_error. set_solver. Qed.
Lemma api_internal msg : api_answer (sendError msg StatusInternalServerError).
Proof. apply api_error. set_solver. Qed.
#[local] Hint Resolve api_success api_redirect api_bad_request api_method api_internal : dbf.

Lemma with_item_api method r (w : W) k : (∀ item, api_answer (k item).2) → api_answer (with_item method r w k).2.
Proof. intros Hk. unfold with_item. case_decide; [|destruct (decode_item _); [case_decide|]]; cbn; auto with dbf. Qed.
Lemma with_items_api method r (w : W) k : (∀ items, api_answer (k items).2) → api_answer (with_items method r w k).2.
Proof. intros Hk. unfold with_items. case_decide; [|destruct (decode_items _); [case_decide|]]; cbn; auto with dbf. Qed.
Lemma with_stats_api g r (w : W) k : api_answer (with_stats g r w k).2.
Proof.
  unfold with_stats, grpc_error. case_decide; [cbn; auto with dbf|].
  destruct (rpc_GetStats _ w) as [w' [resp|e]]; [|cbn; auto with dbf]. cbn. case_decide; auto with dbf.
Qed.

Lemma write_response_api done_ resp : api_answer (write_response done_ resp).
Proof. unfold write_response. destruct (ar_Success resp), (not_leader (ar_Error resp)); auto with dbf. Qed.

Lemma mux_api g r w : (mux g r w).2 = not_found ∨ api_answer (mux g r w).2.
Proof.
  unfold mux. cbn zeta. repeat (case_decide; [right|]); [..|by left].
  - apply with_item_api. intros item. destruct (rpc_Add _ _ w) as [w' [resp|e]]; cbn; unfold grpc_error;
      auto using write_response_api with dbf.
  - apply with_item_api. intros item. destruct (rpc_Remove _ _ w) as [w' [resp|e]]; cbn; unfold grpc_error;
      auto using write_response_api with dbf.
  - apply with_item_api. intros item. destruct (rpc_Contains _ _ w) as [w' [resp|e]]; cbn; unfold grpc_error;
      [case_decide|]; auto with dbf.
  - apply with_items_api. intros items. destruct (rpc_BatchAdd _ _ w) as [w' [resp|e]]; cbn; unfold grpc_error;
      [case_decide; [destruct (br_Errors resp) as [|e l]; [|destruct (not_leader e)]|]|]; auto with dbf.
  - apply with_items_api. intros items. destruct (rpc_BatchContains _ _ w) as [w' [resp|e]]; cbn; unfold grpc_error;
      [case_decide|]; auto with dbf.
  - apply with_stats_api.
  - apply with_stats_api.
Qed.

(** Every answer is consistent: a preflight gets 204 and an unknown path 404, both
    without a JSON body, and every other answer has [success] true with status 200 or
    [success] false with a redirect or an error status.  All carry the CORS header. *)
Theorem gateway_status g r w : let resp := (gateway_ServeHTTP g r w).2 in
  (h_Body resp = None ∧ (h_Status resp = StatusNoContent ∧ r_Method r = "OPTIONS"%string ∨ h_Status resp = StatusNotFound) ∨
   h_Status resp = StatusOK ∧ body_success resp = Some true ∨
   h_Status resp ∈ [StatusTemporaryRedirect; StatusBadRequest; StatusMethodNotAllowed; StatusInternalServerError] ∧
     body_success resp = Some false) ∧
  h_Header resp !! "Access-Control-Allow-Origin"%string = Some "*"%string.
Proof.
  unfold gateway_ServeHTTP, corsMiddleware. case_decide; [split; [left; auto|done]|].
  pose proof (mux_api g r w) as Hm. destruct (mux g r w) as [w' resp]. cbn [snd] in *.
  destruct Hm as [->|[Hh Ha]]; [split; [left; split; [done|by right]|done]|]. split.
  - destruct Ha as [?|?]; auto.
  - cbn [h_Header]. by rewrite Hh.
Qed.

(** A redirect names no location: the address of the leader is only in the text of
    the error, although the status is 307. *)
Theorem redirect_without_location g r w : let resp := (gateway_ServeHTTP g r w).2 in
  h_Header resp !! "Location"%string = None.
Proof.
  unfold gateway_ServeHTTP, corsMiddleware. case_decide; [done|].
  pose proof (mux_api g r w) as Hm. destruct (mux g r w) as [w' resp]. cbn [snd h_Header] in *.
  by destruct Hm as [->|[-> _]].
Qed.

(** A batch of which every item failed is answered 200 and [success] true, unless the
    first error is a redirect. *)
Theorem failed_batch_is_success g r w w' items e errs :
  r_Method r = "POST"%string → decode_items (r_Body r) = Some items → items ≠ [] →
  rpc_BatchAdd (GRPCAddress g) (bytes_of_string <$> items) w =
    (w', Ok (mkBatchResp 0 (i32 (len items)) (e :: errs))) → not_leader e = false →
  h_Status (handleBatchAdd g r w).2 = StatusOK ∧ body_success (handleBatchAdd g r w).2 = Some true.
Proof.
  intros Hm Hd Hne Hrpc He. unfold handleBatchAdd, with_items. rewrite Hm, Hd.
  rewrite (decide_False (P := "POST"%string ≠ "POST"%string)) by naive_solver. rewrite decide_False by done.
  rewrite Hrpc. cbn [br_FailureCount br_Errors]. rewrite decide_True by done. by rewrite He.
Qed.
End specification.

(** The metadata the gateway would sign is the metadata the server expects, but no
    request carries it. *)
Lemma gw_createAuthMetadata_token `{Hmac256} now g method :
  gw_createAuthMetadata now g method = GenerateAPIKeyToken now (gw_APIKey g) (gw_APISecret g) method.
Proof. done. Qed.

(** * Requests *)

Section requests.
Context `{!JsonText, !JsonTextLaws, !JsonDecoder, !JsonDecoderLaws, !DBFServiceClient W}.

Definition item_request (method path item : string) : http_request :=
  mkReq method path (json_print (JObj [("item"%string, JStr item)])).

Definition items_request (method path : string) (items : list string) : http_request :=
  mkReq method path (json_print (JObj [("items"%string, JArr (JStr <$> items))])).

Lemma decode_item_request item : is_ascii item = true →
  decode_item (json_print (JObj [("item"%string, JStr item)])) = Some item.
Proof.
  intros Ha. unfold decode_item. rewrite <- (app_nil_r (json_print _)), decode_first_print; [done| |by left].
  cbn -[is_ascii]. by rewrite Ha.
Qed.

Lemma decode_items_request items : Forall (λ s, is_ascii s = true) items →
  decode_items (json_print (JObj [("items"%string, JArr (JStr <$> items))])) = Some items.
Proof.
  intros Ha. destruct (strings_round items Ha) as [Hasc Hd]. unfold decode_items.
  rewrite <- (app_nil_r (json_print _)), decode_first_print; [| |by left].
  - cbn [mbind option_bind decode_struct decode_members]. unfold items_field.
    change (key_is "items" "items") with true. cbn [decode_strings]. by rewrite Hd.
  - cbn [json_ascii forallb fst snd] in *. by rewrite Hasc.
Qed.

Definition with_cors (resp : http_response) : http_response :=
  mkHttpResp (h_Status resp) (h_Header resp ∪ cors_headers) (h_Body resp).

Lemma gateway_add_rpc g (w : W) item : is_ascii item = true → item ≠ ""%string →
  gateway_ServeHTTP g (item_request "POST" "/api/v1/add" item) w =
    let '(w', r) := rpc_Add (GRPCAddress g) (bytes_of_string item) w in
    (w', with_cors (match r with Ok resp => write_response "added" resp | Err e => grpc_error e end)).
Proof.
  intros Ha Hne. unfold gateway_ServeHTTP, corsMiddleware, mux, item_request, handleAdd, with_item. cbn [r_Method r_Path r_Body].
  rewrite (decide_False (P := "POST"%string = "OPTIONS"%string)) by done.
  rewrite (decide_True (P := "/api/v1/add"%string = "/api/v1/add"%string)) by done.
  rewrite (decide_False (P := "POST"%string ≠ "POST"%string)) by naive_solver.
  rewrite decode_item_request, decide_False by done. by destruct (rpc_Add _ _ w) as [w' []].
Qed.

Definition contains_response (resp : ContainsResponse) : http_response :=
  if decide (cr_Error resp ≠ "") then sendError (cr_Error resp) StatusInternalServerError
  else sendSuccess (JObj [("exists"%string, JBool (cr_Exists resp))]) "".

Lemma gateway_contains_rpc g (w : W) item : is_ascii item = true → item ≠ ""%string →
  gateway_ServeHTTP g (item_request "POST" "/api/v1/contains" item) w =
    let '(w', r) := rpc_Contains (GRPCAddress g) (bytes_of_string item) w in
    (w', with_cors (match r with Ok resp => contains_response resp | Err e => grpc_error e end)).
Proof.
  intros Ha Hne. unfold gateway_ServeHTTP, corsMiddleware, mux, item_request, handleContains, with_item. cbn [r_Method r_Path r_Body].
  rewrite (decide_False (P := "POST"%string = "OPTIONS"%string)) by done.
  rewrite (decide_False (P := "/api/v1/contains"%string = "/api/v1/add"%string)) by done.
  rewrite (decide_False (P := "/api/v1/contains"%string = "/api/v1/remove"%string)) by done.
  rewrite (decide_True (P := "/api/v1/contains"%string = "/api/v1/contains"%string)) by done.
  rewrite (decide_False (P := "POST"%string ≠ "POST"%string)) by naive_solver.
  rewrite decode_item_request, decide_False by done. by destruct (rpc_Contains _ _ w) as [w' []].
Qed.
End requests.

(** * The gateway in front of a node *)

Section end_to_end.
Context `{!JsonText, !JsonTextLaws, !JsonDecoder, !JsonDecoderLaws, !TimeText, !TimeTextLaws, !Murmur3, !HRaft, !HRaftLaws}.

(** A network that hands every call to the handlers of [server.go]. *)
Definition ask_node {A} (r : go (Node * A)) (n : Node) : Node * result string A :=
  match r with Ret (n', a) => (n', Ok a) | Panic _ => (n, Err "handler panicked"%string) end.

#[local] Instance direct_client : DBFServiceClient Node := {|
  rpc_Add _ item n := ask_node (server_Add n item) n;
  rpc_Remove _ item n := ask_node (server_Remove n item) n;
  rpc_Contains _ item n := ask_node (r ← server_Contains n item; Ret (n, r)) n;
  rpc_BatchAdd _ items n := ask_node (server_BatchAdd n items) n;
  rpc_BatchContains _ items n := ask_node (r ← server_BatchContains n items; Ret (n, r)) n;
  rpc_GetStats _ n := (n, Ok (server_GetStats n))
|}.

Lemma string_bytes_nonempty s : s ≠ ""%string → bytes_of_string s ≠ [].
Proof. by destruct s. Qed.

Lemma gateway_add g n r item : n_raftNode n = Some r → usable (n_bloomFilter n) → is_ascii item = true → item ≠ ""%string →
  ∃ n' resp, server_Add n (bytes_of_string item) = Ret (n', resp) ∧
    (gateway_ServeHTTP g (item_request "POST" "/api/v1/add" item) n) =
      (n', mkHttpResp (h_Status (write_response "added" resp)) (h_Header (write_response "added" resp) ∪ cors_headers)
             (h_Body (write_response "added" resp))) ∧
    usable (n_bloomFilter n') ∧
    (ar_Success resp = true → ∃ f1 err, usable f1 ∧ Counting.Add f1 (bytes_of_string item) = Ret (n_bloomFilter n', err)).
Proof.
  intros Hr Hu Ha Hne.
  destruct (server_Add_run n r (bytes_of_string item) Hr Hu) as (n' & resp & Hadd & Hu' & Hok);
    [by apply string_bytes_nonempty|].
  exists n', resp. split_and!; [done| |done|done].
  rewrite gateway_add_rpc by done. cbn [rpc_Add direct_client]. by rewrite Hadd.
Qed.

Lemma gateway_contains g n item b : is_ascii item = true → item ≠ ""%string →
  server_Contains n (bytes_of_string item) = Ret (mkContResp b "") →
  gateway_ServeHTTP g (item_request "POST" "/api/v1/contains" item) n =
    (n, mkHttpResp StatusOK (json_header ∪ cors_headers)
          (Some (APIResponse_json true (Some (JObj [("exists"%string, JBool b)])) "" ""))).
Proof.
  intros Ha Hne Hc. rewrite gateway_contains_rpc by done. cbn [rpc_Contains direct_client]. by rewrite Hc.
Qed.

Lemma write_response_ok done_ resp : h_Status (write_response done_ resp) = StatusOK → ar_Success resp = true.
Proof. unfold write_response. destruct (ar_Success resp), (not_leader (ar_Error resp)); done. Qed.

(** End to end: after a POST to [/api/v1/add] answered with 200, the item's entry has
    been executed on the node's filter, and unless it hit a full counter, a POST to
    [/api/v1/contains] answers 200 and [exists] true. *)
Theorem gateway_add_then_contains g n r item :
  n_raftNode n = Some r → usable (n_bloomFilter n) → is_ascii item = true → item ≠ ""%string →
  let '(n', resp) := gateway_ServeHTTP g (item_request "POST" "/api/v1/add" item) n in
  usable (n_bloomFilter n') ∧
  (h_Status resp = StatusOK →
   ∃ f1 err, usable f1 ∧ Counting.Add f1 (bytes_of_string item) = Ret (n_bloomFilter n', err) ∧
     (err = None →
      let resp' := (gateway_ServeHTTP g (item_request "POST" "/api/v1/contains" item) n').2 in
      h_Status resp' = StatusOK ∧
      h_Body resp' = Some (APIResponse_json true (Some (JObj [("exists"%string, JBool true)])) "" ""))).
Proof.
  intros Hr Hu Ha Hne. destruct (gateway_add g n r item Hr Hu Ha Hne) as (n' & resp & _ & -> & Hu' & Hok).
  split; [done|]. cbn [h_Status]. intros Hs%write_response_ok. destruct (Hok Hs) as (f1 & err & Hu1 & Hadd).
  exists f1, err. split_and!; [done..|]. intros ->. rewrite (gateway_contains g n' item true); [done..|].
  eapply server_Contains_added; [by apply string_bytes_nonempty|done|done].
Qed.

(** ** Batches *)

Lemma results_map_fun (f : string → bool) items x :
  results_map items (f <$> items) !! x = if decide (x ∈ items) then Some (f x) else None.
Proof.
  unfold results_map. assert (∀ m : gmap string bool,
    foldl (λ m kv, <[kv.1 := kv.2]> m) m (zip items (f <$> items)) !! x =
      if decide (x ∈ items) then Some (f x) else m !! x) as Hm; [|apply Hm].
  induction items as [|y items IH]; intros m; [done|]. cbn [fmap list_fmap zip_with foldl fst snd].
  rewrite IH. destruct (decide (x ∈ items)) as [Hin|Hnin].
  - by rewrite decide_True by (by right).
  - destruct (decide (x = y)) as [->|Hne].
    + by rewrite lookup_insert_eq, decide_True by (by left).
    + rewrite lookup_insert_ne by done. by rewrite decide_False by (by intros [?|?]%elem_of_cons).
Qed.

(** The answer of the node for one item; the empty item is absent. *)
Definition node_has (n : Node) (item : list byte) : bool :=
  match server_Contains n item with Ret r => cr_Exists r | Panic _ => false end.
Definition node_answer (n : Node) (item : string) : bool := node_has n (bytes_of_string item).

Lemma server_contains_loop_answers n items : usable (n_bloomFilter n) →
  server_contains_loop n items = Ret (node_has n <$> items).
Proof.
  intros Hu. induction items as [|x items IH]; [done|]. cbn [fmap list_fmap server_contains_loop].
  rewrite IH. unfold node_has at 2, server_Contains, Node_Contains. case_decide; [done|].
  by rewrite Contains_spec.
Qed.

(** A batch query answers for every item what a single query answers, also for
    repeated and empty items, whose answer is absence. *)
Theorem gateway_batch_contains g n items : usable (n_bloomFilter n) → Forall (λ s, is_ascii s = true) items →
  items ≠ [] →
  ∃ m : gmap string bool,
    gateway_ServeHTTP g (items_request "POST" "/api/v1/batch/contains" items) n =
      (n, mkHttpResp StatusOK (json_header ∪ cors_headers)
            (Some (APIResponse_json true (Some (JObj [("results"%string,
               JObj (map (λ kv, (kv.1, JBool kv.2)) (sorted_entries m)))])) "" ""))) ∧
    ∀ x, m !! x = if decide (x ∈ items) then Some (node_answer n x) else None.
Proof.
  intros Hu Ha Hne. exists (results_map items (node_answer n <$> items)). split; [|apply results_map_fun].
  unfold gateway_ServeHTTP, corsMiddleware, mux, items_request, handleBatchContains, with_items.
  cbn [r_Method r_Path r_Body].
  rewrite (decide_False (P := "POST"%string = "OPTIONS"%string)) by done.
  do 4 rewrite (decide_False (P := "/api/v1/batch/contains"%string = _)) by done.
  rewrite (decide_True (P := "/api/v1/batch/contains"%string = "/api/v1/batch/contains"%string)) by done.
  rewrite (decide_False (P := "POST"%string ≠ "POST"%string)) by naive_solver.
  rewrite decode_items_request by done. rewrite decide_False by done.
  cbn [rpc_BatchContains direct_client]. unfold server_BatchContains. rewrite decide_False by (by destruct items).
  rewrite server_contains_loop_answers by done. rewrite <- list_fmap_compose. done.
Qed.
End end_to_end.

(** * Instances *)

Section witnesses.
#[local] Existing Instance tree_text.
#[local] Existing Instance tree_text_laws.
#[local] Existing Instance tree_time.
#[local] Existing Instance tree_time_laws.
#[local] Existing Instance byte_sum.
#[local] Instance gw_leader : HRaft := solo_raft true.
#[local] Existing Instance direct_client.
#[local] Instance gw_leader_laws : HRaftLaws := solo_raft_laws true.

Fixpoint leading_bits (l : list byte) : list byte :=
  match l with
  | b :: l' => if decide (b = byte_of 48 ∨ b = byte_of 49) then b :: leading_bits l' else []
  | [] => []
  end.

#[local] Instance tree_decoder : JsonDecoder := λ l,
  match l with b :: l' => json_parse (b :: leading_bits l') | [] => None end.

Lemma leading_bits_pos p rest : rest = [] ∨ head rest = Some (byte_of 10) → leading_bits (pos_bytes p ++ rest) = pos_bytes p.
Proof.
  intros Hr. induction p as [p IH|p IH|]; cbn [pos_bytes app leading_bits]; [by rewrite decide_True, IH by auto..|].
  destruct Hr as [->|Hr]; [done|]. destruct rest as [|b rest]; [done|]. cbn in Hr. injection Hr as ->. done.
Qed.

#[local] Instance tree_decoder_laws : JsonDecoderLaws.
Proof.
  split. intros l rest Ha Hr. rewrite <- (json_parse_print _ Ha).
  change (json_print (JObj l)) with (byte_of 123 :: pos_bytes (encode (JObj l))).
  unfold decode_first, tree_decoder. cbn [app]. by rewrite leading_bits_pos.
Qed.

Definition gw_config : GatewayConfig := mkGatewayConfig 8080 "node:9090" "" false "" "".
Definition gw_node : Node := mkNode "n1" 7000 ex_f0 false (Some (1 : @Raft (solo_raft true))).

Lemma gateway_add_then_contains_witness :
  let '(n', resp) := gateway_ServeHTTP gw_config (item_request "POST" "/api/v1/add" "x") gw_node in
  usable (n_bloomFilter n') ∧
  (h_Status resp = StatusOK →
   ∃ f1 err, usable f1 ∧ Counting.Add f1 (bytes_of_string "x") = Ret (n_bloomFilter n', err) ∧
     (err = None →
      let resp' := (gateway_ServeHTTP gw_config (item_request "POST" "/api/v1/contains" "x") n').2 in
      h_Status resp' = StatusOK ∧
      h_Body resp' = Some (APIResponse_json true (Some (JObj [("exists"%string, JBool true)])) "" ""))).
Proof.
  apply (gateway_add_then_contains gw_config gw_node (1 : @Raft (solo_raft true)) "x");
    [reflexivity|exact ex_usable|done|done].
Defined.

Lemma gateway_batch_contains_witness : ∃ m : gmap string bool,
  gateway_ServeHTTP gw_config (items_request "POST" "/api/v1/batch/contains" ["x"; "x"; ""]%string) gw_node =
    (gw_node, mkHttpResp StatusOK (json_header ∪ cors_headers)
      (Some (APIResponse_json true (Some (JObj [("results"%string,
         JObj (map (λ kv, (kv.1, JBool kv.2)) (sorted_entries m)))])) "" ""))) ∧
  ∀ x, m !! x = if decide (x ∈ ["x"; "x"; ""]%string) then Some (node_answer gw_node x) else None.
Proof. apply gateway_batch_contains; [exact ex_usable|by repeat constructor|done]. Defined.

(** A world that refuses every write. *)
#[local] Instance refusing_client : DBFServiceClient unit := {|
  rpc_Add _ _ w := (w, Ok (mkAddResp false "disk full"));
  rpc_Remove _ _ w := (w, Ok (mkAddResp false "disk full"));
  rpc_Contains _ _ w := (w, Ok (mkContResp false ""));
  rpc_BatchAdd _ l w := (w, Ok (mkBatchResp 0 (i32 (len l)) (map (λ _, "disk full"%string) l)));
  rpc_BatchContains _ l w := (w, Ok (mkBContResp (map (λ _, false) l) ""));
  rpc_GetStats _ w := (w, Err "down"%string)
|}.

Lemma failed_batch_is_success_witness :
  let r := items_request "POST" "/api/v1/batch/add" ["x"]%string in
  h_Status (handleBatchAdd gw_config r tt).2 = StatusOK ∧ body_success (handleBatchAdd gw_config r tt).2 = Some true.
Proof.
  apply (failed_batch_is_success gw_config _ tt tt ["x"]%string "disk full" []);
    [done| |done|done|by vm_compute].
  apply decode_items_request. by repeat constructor.
Defined.
End witnesses.
