(* ===== verification/GatewayServer.v ===== *)
(** [internal/gateway/gateway.go]: making, starting and stopping the gateway.

    [Start] makes a server and serves until it is shut down; [Stop] shuts the server
    down that the gateway knows and closes the connection to the gRPC server.  The two
    run in different goroutines and share the field [server] without a lock.  A server is
    its index in the list of those made. *)

From S2P Require Import Prelude GoBytes GoFmt Json NetAddr Grpc Gateway.
#[local] Open Scope Z_scope.

(** * Definitions *)

Inductive server_state : Type := Made | Serving | ShutDown | Failed.
#[export] Instance server_state_eq_dec : EqDecision server_state.
Proof. solve_decision. Defined.

Record Gateway : Type := mkGateway {
  g_config : GatewayConfig;
  g_conn : bool;                      (* is the connection open? *)
  g_server : option nat;
  g_servers : list server_state
}.

Inductive gateway_error : Type := GCredentials | GDial | GListen | GShutdown.

(** [creds] and [dials] say whether the credentials load and the connection is made. *)
Definition NewGateway (creds dials : bool) (config : GatewayConfig) : result gateway_error Gateway :=
  if EnableTLS config && negb creds then Err GCredentials
  else if dials then Ok (mkGateway config true None []) else Err GDial.

(** The two parts of [Start]: the new server, and [ListenAndServe] of server [i].  A server
    that was shut down before it listens returns at once, without an error. *)
Definition gateway_make (g : Gateway) : Gateway :=
  mkGateway (g_config g) (g_conn g) (Some (length (g_servers g))) (g_servers g ++ [Made]).

Definition gateway_listen (binds : bool) (i : nat) (g : Gateway) : Gateway * option gateway_error :=
  match g_servers g !! i with
  | Some Made =>
      (mkGateway (g_config g) (g_conn g) (g_server g) (<[i := if binds then Serving else Failed]> (g_servers g)),
       if binds then None else Some GListen)
  | _ => (g, None)
  end.

(** [Stop]; [drains] says whether the open requests end within five seconds.  Shutting a
    server down closes its listener in any case. *)
Definition gateway_Stop (drains : bool) (g : Gateway) : Gateway * option gateway_error :=
  match g_server g with
  | Some i =>
      let servers := alter (λ _, ShutDown) i (g_servers g) in
      if drains then (mkGateway (g_config g) false (g_server g) servers, None)
      else (mkGateway (g_config g) (g_conn g) (g_server g) servers, Some GShutdown)
  | None => (mkGateway (g_config g) false None (g_servers g), None)
  end.

Inductive gateway_event : Type := EMake | EListen (binds : bool) (i : nat) | EStop (drains : bool).

Definition gateway_event_step (g : Gateway) (e : gateway_event) : Gateway :=
  match e with
  | EMake => gateway_make g
  | EListen binds i => (gateway_listen binds i g).1
  | EStop drains => (gateway_Stop drains g).1
  end.

Definition gateway_events (g : Gateway) (es : list gateway_event) : Gateway := foldl gateway_event_step g es.

(** * Theorems *)

(** After the first [Start] there is one server, whatever is stopped and listens. *)
Lemma one_server es g s0 : Forall (λ e, e ≠ EMake) es → g_server g = Some 0%nat → g_servers g = [s0] →
  let g' := gateway_events g es in
  g_server g' = Some 0%nat ∧ ∃ s1, g_servers g' = [s1] ∧ (s0 = ShutDown → s1 = ShutDown) ∧ (g_conn g = false → g_conn g' = false).
Proof.
  revert g s0. induction es as [|e es IH]; intros g s0 He Hs Hl; [cbn; eauto|]. apply Forall_cons in He as [He Hes].
  assert (g_server (gateway_event_step g e) = Some 0%nat ∧ ∃ s1, g_servers (gateway_event_step g e) = [s1] ∧ (s0 = ShutDown → s1 = ShutDown) ∧
    (g_conn g = false → g_conn (gateway_event_step g e) = false)) as (Hs1 & s1 & Hl1 & Hsd & Hc).
  { destruct e as [|b [|j]|d]; cbn; [done|..]; unfold gateway_listen, gateway_Stop; rewrite ?Hs, ?Hl; cbn.
    - destruct s0; cbn; eauto 6. split; [done|]. eexists. by split_and!.
    - eauto 6.
    - destruct d; cbn; (split; [done|]; exists ShutDown; split_and!; done). }
  destruct (IH _ s1 Hes Hs1 Hl1) as (? & s2 & ? & ? & ?). cbn. split; [done|]. exists s2. naive_solver.
Qed.

(** A [Stop] that follows [Start] ends the gateway.  Once the server was made, a [Stop]
    that drains in time, wherever it comes, closes the connection and the server for
    good, also when the server had not begun to listen; one that does not drain closes
    the server and leaves the connection open. *)
Theorem Stop_ends_gateway config es1 es2 drains g : NewGateway true true config = Ok g →
  Forall (λ e, e ≠ EMake) es1 → Forall (λ e, e ≠ EMake) es2 →
  let g1 := gateway_events g (EMake :: es1) in let '(g2, err) := gateway_Stop drains g1 in
  (err = None ↔ drains = true) ∧ g_servers (gateway_events g2 es2) = [ShutDown] ∧
  (drains = true → g_conn (gateway_events g2 es2) = false) ∧ (drains = false → g_conn g2 = g_conn g1).
Proof.
  unfold NewGateway. rewrite andb_false_r. intros [= <-] H1 H2. cbn [gateway_events foldl gateway_event_step].
  set (g0 := gateway_make _). destruct (one_server es1 g0 Made H1 eq_refl eq_refl) as (Hs & s1 & Hl & _). cbv zeta.
  unfold gateway_events in Hs, Hl. set (g1 := foldl _ g0 es1) in *. unfold gateway_Stop. rewrite Hs, Hl. cbn [alter list_alter].
  destruct drains.
  - destruct (one_server es2 (mkGateway (g_config g1) false (Some 0%nat) [ShutDown]) ShutDown H2 eq_refl eq_refl) as (_ & s2 & -> & Hsd & Hc).
    rewrite Hsd by done. split_and!; [done|done|auto|done].
  - destruct (one_server es2 (mkGateway (g_config g1) (g_conn g1) (Some 0%nat) [ShutDown]) ShutDown H2 eq_refl eq_refl) as (_ & s2 & -> & Hsd & Hc).
    rewrite Hsd by done. by split_and!.
Qed.

(** A [Stop] that comes before the goroutine of [Start] has made its server finds none and
    reports success; the gateway then serves over a connection that is closed, and a
    second [Start] hides the first server from every later [Stop]. *)
Theorem early_Stop_is_lost config g : NewGateway true true config = Ok g →
  (let g' := gateway_events g [EStop true; EMake; EListen true 0] in g_servers g' = [Serving] ∧ g_conn g' = false) ∧
  ∀ ds, ∃ l, g_servers (gateway_events g ([EMake; EListen true 0; EMake] ++ map EStop ds)) = Serving :: l.
Proof.
  unfold NewGateway. rewrite andb_false_r. intros [= <-]. split; [done|]. intros ds. unfold gateway_events. rewrite foldl_app. cbn.
  match goal with |- context [foldl _ ?g0 _] => assert (g_server g0 = Some 1%nat ∧ ∃ s, g_servers g0 = [Serving; s]) as H by eauto; revert H; generalize g0 end.
  induction ds as [|d ds IH]; intros g [Hs [s Hl]]; cbn; [eauto|]. apply IH. unfold gateway_Stop. rewrite Hs, Hl. destruct d; cbn; eauto.
Qed.

(** * Instances *)

Definition gs_config : GatewayConfig := mkGatewayConfig 8080 "localhost:7000" "" false "" "".

Lemma Stop_ends_gateway_witness : let g1 := gateway_events (mkGateway gs_config true None []) [EMake; EListen true 0] in
  g_servers g1 = [Serving] ∧ g_servers (gateway_Stop true g1).1 = [ShutDown] ∧ g_conn (gateway_Stop true g1).1 = false.
Proof.
  destruct (Stop_ends_gateway gs_config [EListen true 0] [] true (mkGateway gs_config true None [])) as (_ & H1 & H2 & _);
    [done|by repeat constructor|by constructor|]. split; [done|]. split; [exact H1|]. by apply H2.
Defined.

Lemma early_Stop_is_lost_witness :
  g_servers (gateway_events (mkGateway gs_config true None []) [EStop true; EMake; EListen true 0]) = [Serving].
Proof. apply (early_Stop_is_lost gs_config (mkGateway gs_config true None []) eq_refl). Defined.
