(* ===== verification/ClusterClients.v ===== *)
(** The clients of a cluster: [sdk/client.go] and [internal/gateway/gateway.go] in front
    of the handlers of [internal/grpc/server.go] on the nodes of [Cluster].

    The class [ClusterService] is what the servers promise to a client: a remote call
    is a run of the cluster, an answered [Add] is an executed entry, an answered
    [Contains] is a read of the replica that was asked.  The theorems about the SDK and
    the gateway are proved against it.  [net] is a network that discharges it: it runs
    the handlers of the code on the state of the cluster, under a script that says what
    happens to each call: what the replicas do meanwhile, whether the request arrives,
    what becomes of its proposals and whether the answer is lost. *)

From S2P Require Import Prelude GoBytes GoFmt Hash Counting CountingSpec CountingCodec.
From S2P Require Import WalCrypto WalFiles Json GoAny RaftFsm Node Service Cluster Sdk Gateway.
#[local] Open Scope Z_scope.

(** * Definitions *)

(** ** The promise *)

Class ClusterService (W : Type) : Type := {
  cs_log : W → list Log;
  cs_replicas : W → gmap string replica;
  cs_snaps : W → gmap string (nat * list byte)
}.

(** A state of the cluster with the log, replicas and snapshots of a world, and no call under way. *)
Definition represents `{ClusterService W} (w : W) (st : cluster) : Prop :=
  k_log st = cs_log w ∧ k_replicas st = cs_replicas w ∧ k_calls st = ∅ ∧ k_snaps st = cs_snaps w.

(** Node [a] has answered a call with success, whose entry was committed after the first [n]. *)
Definition answered (ty a : string) (x : list byte) (n : nat) (st : cluster) : Prop :=
  ∃ ix r, mkCallK a ty x (Some ix) ∈ k_acked st ∧ k_replicas st !! a = Some r ∧ (n ≤ ix < rp_applied r)%nat.

Section promise.
Context `{JsonText, TimeText, Murmur3, HRaft}.

Definition reachable (f0 : CountingBloomFilter) (nodes : gset string) (st : cluster) : Prop :=
  rtc (kstep f0) (k_start f0 nodes) st.

Class ClusterServiceLaws `{ClusterService W, !DBFServiceClient W} (f0 : CountingBloomFilter) : Prop := {
  law_Add nodes st a x w w' r : reachable f0 nodes st → represents w st → rpc_Add a x w = (w', r) →
    ∃ st', rtc (kstep f0) st st' ∧ represents w' st' ∧
      ∀ resp, r = Ok resp →
        (ar_Success resp = true → answered "add" a x (Datatypes.length (cs_log w)) st') ∧
        isLeaderRedirect (ar_Error resp) = false;
  law_Contains nodes st a x w w' r : reachable f0 nodes st → represents w st → rpc_Contains a x w = (w', r) →
    ∃ st', rtc (kstep f0) st st' ∧ represents w' st' ∧
      ∀ resp, r = Ok resp → ∃ n rp, cs_replicas w' !! a = Some rp ∧ read_at n rp x = Ret resp
}.
End promise.

(** ** A network *)

(** What becomes of a proposal: entries of others committed before it, and its own. *)
Inductive outcome : Type := Done | Lost (err : string) (committed : bool).
Record fate : Type := mkFate { ft_before : list Log; ft_ix : Z; ft_tm : Z; ft_outcome : outcome }.

(** The library on the node that serves a call: entries committed but not handed to it
    yet, the fates of the proposals to come, and what was committed during the call. *)
Record lib : Type := mkLib { lb_pending : list Log; lb_fates : list fate; lb_log : list Log }.

Definition lib_Apply (l : lib) (data : list byte) : lib * list Log * option string :=
  match lb_fates l with
  | [] => (l, [], Some "timed out enqueuing operation"%string)
  | p :: ps =>
      let entry := mkLog (ft_ix p) (ft_tm p) data in
      let committed := match ft_outcome p with Done | Lost _ true => [entry] | Lost _ false => [] end in
      let new := ft_before p ++ committed in
      match ft_outcome p with
      | Done => (mkLib [] ps (lb_log l ++ new), lb_pending l ++ new, None)
      | Lost err _ => (mkLib (lb_pending l ++ new) ps (lb_log l ++ new), [], Some err)
      end
  end.

#[export] Instance lib_raft : HRaft := {|
  Raft := lib;
  raft_Apply := lib_Apply;
  raft_State _ := Leader;
  raft_Leader _ := ""%string
|}.

Lemma lib_raft_laws : HRaftLaws.
Proof.
  split. cbn. unfold lib_Apply. intros l data l' logs. destruct (lb_fates l) as [|p ps]; [done|].
  destruct (ft_outcome p) as [|err c]; [|done]. intros [= <- <-].
  exists (lb_pending l ++ ft_before p), (ft_ix p), (ft_tm p). by rewrite (assoc_L (++)).
Qed.

(** What the replicas do between two calls. *)
Inductive background : Type :=
  | Deliver (i : string) | Other (l : Log) | Restart (i : string)
  | TakeSnapshot (i : string) (now : Z) | InstallSnapshot (i j : string).

Record rpc_fate : Type := mkRpc { rf_background : list background; rf_arrives : bool; rf_fates : list fate; rf_lost : bool }.

Record net : Type := mkNet {
  nt_log : list Log;
  nt_replicas : gmap string replica;
  nt_snaps : gmap string (nat * list byte);
  nt_script : list rpc_fate
}.

#[export] Instance net_service : ClusterService net := {| cs_log := nt_log; cs_replicas := nt_replicas; cs_snaps := nt_snaps |}.

Section net.
Context `{JsonText, TimeText, Murmur3} (f0 : CountingBloomFilter).

Definition background_step (b : background) (w : net) : net :=
  let '(mkNet log rs sn sc) := w in
  match b with
  | Other l => mkNet (log ++ [l]) rs sn sc
  | Restart i =>
      match rs !! i, sn !! i with
      | Some _, None => mkNet log (<[i := mkReplica f0 0]> rs) sn sc
      | Some _, Some _ => mkNet log (delete i rs) sn sc
      | None, _ => w
      end
  | TakeSnapshot i now =>
      match rs !! i with
      | Some r => mkNet log rs (<[i := (rp_applied r, Persist now (Node_Snapshot (rp_filter r)))]> sn) sc
      | None => w
      end
  | InstallSnapshot i j =>
      match rs !! i, sn !! j with
      | Some r, Some (p, data) =>
          if decide (rp_applied r < p)%nat then
            let '(f, e) := Node_Restore data (rp_filter r) in
            mkNet log (<[i := mkReplica f (if e is None then p else rp_applied r)]> rs) sn sc
          else w
      | _, _ => w
      end
  | Deliver i =>
      match rs !! i with
      | Some r =>
          match log !! rp_applied r with
          | Some l =>
              match Node_Apply l (rp_filter r) with
              | Ret (f, _) => mkNet log (<[i := mkReplica f (S (rp_applied r))]> rs) sn sc
              | Panic _ => w
              end
          | None => w
          end
      | None => w
      end
  end.

Definition background_run (bs : list background) (w : net) : net := foldl (λ w b, background_step b w) w bs.

(** The node at [a] as a handler sees it. *)
Definition node_at (a : string) (r : replica) (l : lib) : Node := mkNode a 0 (rp_filter r) false (Some l).

(** The replica after the handler. *)
Definition leave (a : string) (n : Node) (w : net) : net :=
  match n_raftNode n with
  | Some l =>
      let log := nt_log w ++ lb_log l in
      mkNet log (<[a := mkReplica (n_bloomFilter n) (Datatypes.length log - Datatypes.length (lb_pending l))]> (nt_replicas w))
        (nt_snaps w) (nt_script w)
  | None => w
  end.

Definition serve {A} (a : string) (handler : Node → go (Node * A)) (w : net) : net * result string A :=
  match nt_script w with
  | [] => (w, Err "unavailable"%string)
  | e :: es =>
      let w := background_run (rf_background e) (mkNet (nt_log w) (nt_replicas w) (nt_snaps w) es) in
      match nt_replicas w !! a with
      | Some r =>
          if rf_arrives e then
            match handler (node_at a r (mkLib (drop (rp_applied r) (nt_log w)) (rf_fates e) [])) with
            | Ret (n, resp) => (leave a n w, if rf_lost e then Err "unavailable"%string else Ok resp)
            | Panic _ => (w, Err "internal"%string)
            end
          else (w, Err "unavailable"%string)
      | None => (w, Err "unavailable"%string)
      end
  end.

Definition net_client : DBFServiceClient net := {|
  rpc_Add a x := serve a (λ n, server_Add n x);
  rpc_Remove a x := serve a (λ n, server_Remove n x);
  rpc_Contains a x := serve a (λ n, r ← server_Contains n x; Ret (n, r));
  rpc_BatchAdd a xs := serve a (λ n, server_BatchAdd n xs);
  rpc_BatchContains a xs := serve a (λ n, r ← server_BatchContains n xs; Ret (n, r));
  rpc_GetStats a := serve a (λ n, Ret (n, server_GetStats n))
|}.
End net.

(** * The network keeps the promise *)

Section simulation.
Context `{JsonTextLaws, TimeTextLaws, Murmur3} (f0 : CountingBloomFilter).

(** A request under way at [a] since [st0]: the node's library and filter are the
    replica's, and what was committed since is in the log. *)
Record serving (a : string) (st0 : cluster) (n : Node) (st : cluster) : Prop := {
  sv_run : rtc (kstep f0) st0 st;
  sv_calls : k_calls st = ∅;
  sv_snaps : k_snaps st = k_snaps st0;
  sv_node : ∃ l pre, n_raftNode n = Some l ∧ k_log st = pre ++ lb_pending l ∧ k_log st = k_log st0 ++ lb_log l ∧
    k_replicas st = <[a := mkReplica (n_bloomFilter n) (Datatypes.length pre)]> (k_replicas st0)
}.

Lemma deliver_nil f : deliver [] f = Ret f.
Proof. done. Qed.

(** Other entries and then a call of [a] are committed. *)
Lemma commit_run a ty x ix tm before log rs sn ak : ty = "add"%string ∨ ty = "remove"%string → x ≠ [] → is_Some (rs !! a) →
  rtc (kstep f0) (mkCluster log rs sn ∅ ak)
    (mkCluster ((log ++ before) ++ [proposal (mkCallK a ty x None) ix tm]) rs sn
      (<[0%nat := mkCallK a ty x (Some (Datatypes.length (log ++ before)))]> ∅) ak).
Proof.
  intros Hty Hx Ha. etrans; [exact (other_entries f0 before (mkCluster log rs sn ∅ ak))|].
  eapply rtc_l; [by apply (k_call f0 0 a ty x)|]. apply rtc_once.
  pose proof (k_commit f0 0 a ty x ix tm (log ++ before) rs sn (<[0%nat := mkCallK a ty x None]> ∅) ak) as Hc.
  rewrite insert_insert_eq in Hc. apply Hc, lookup_insert_eq.
Qed.

(** The call at hand is the only one. *)
Lemma only_call c : delete 0%nat (<[0%nat := c]> (∅ : gmap nat call)) = ∅.
Proof. by apply delete_insert_id. Qed.

(** Nothing answered by [a] is taken back, and the log only grows. *)
Definition keeps (a : string) (st st' : cluster) : Prop :=
  (∀ ty x k, answered ty a x k st → answered ty a x k st') ∧ (Datatypes.length (k_log st) ≤ Datatypes.length (k_log st'))%nat.

Lemma keeps_same a st st' : k_acked st' = k_acked st → k_replicas st' = k_replicas st →
  (Datatypes.length (k_log st) ≤ Datatypes.length (k_log st'))%nat → keeps a st st'.
Proof. intros Ha Hr Hl. split; [|done]. intros ty x k. unfold answered. by rewrite Ha, Hr. Qed.

Lemma keeps_trans a st1 st2 st3 : keeps a st1 st2 → keeps a st2 st3 → keeps a st1 st3.
Proof. intros [Ha ?] [Hb ?]. split; [by intros; apply Hb, Ha|lia]. Qed.

(** A proposal is a run of the cluster. *)
Lemma propose_serving a st0 n st ty x n' err : ty = "add"%string ∨ ty = "remove"%string → x ≠ [] →
  serving a st0 n st → propose ty n x = Ret (n', err) →
  ∃ st', serving a st0 n' st' ∧ (err = None → answered ty a x (Datatypes.length (k_log st)) st') ∧ keeps a st st'.
Proof.
  intros Hty Hx [Hrun Hcalls Hsnaps ([pend fates log'] & pre & Hr & Hpre & Hlog & Hrs)]. unfold propose. rewrite Hr.
  cbn [raft_Apply lib_raft]. unfold lib_Apply. cbn [lb_fates lb_pending lb_log] in *.
  destruct st as [log rs sn cs ak], fates as [|[before ix tm oc] fates]; cbn [k_log k_replicas k_snaps k_calls k_acked] in *.
  { rewrite deliver_nil. cbn [mbind go_bind]. intros [= <- <-]. eexists. split; [|split; [done|by apply keeps_same]].
    split; [exact Hrun|done|done|]. by exists (mkLib pend [] log'), pre. }
  cbn [ft_before ft_ix ft_tm ft_outcome]. set (entry := mkLog ix tm (Marshal (mkCommand ty x zero_time))).
  subst cs. assert (is_Some (rs !! a)) as Ha by (rewrite Hrs, lookup_insert_eq; by eexists).
  pose proof (commit_run a ty x ix tm before log rs sn ak Hty Hx Ha) as Hc.
  change (proposal _ ix tm) with entry in Hc.
  destruct oc as [|e []]; cbn [mbind go_bind].
  - destruct (deliver _ (n_bloomFilter n)) as [f'|] eqn:Hd; [|done]. cbn [mbind go_bind]. intros [= <- <-].
    set (log2 := (log ++ before) ++ [entry]) in *.
    assert (log2 = pre ++ pend ++ before ++ [entry]) as Hl2 by (unfold log2; by rewrite Hpre, <- !(assoc_L (++))).
    exists (mkCluster log2 (<[a := mkReplica f' (Datatypes.length log2)]> rs) sn ∅ (mkCallK a ty x (Some (Datatypes.length (log ++ before))) :: ak)).
    split; [|split].
    + split; [|done|done|].
      * etrans; [exact Hrun|]. etrans; [exact Hc|]. rewrite Hl2. etrans.
        { eapply (deliver_run f0 (pend ++ before ++ [entry]) pre a); [rewrite Hrs; apply lookup_insert_eq|exact Hd]. }
        apply rtc_once. rewrite <- Hl2.
        erewrite <- (only_call (mkCallK a ty x (Some (Datatypes.length (log ++ before))))) at 2. eapply k_ack; [apply lookup_insert_eq|apply lookup_insert_eq|]. cbn. unfold log2. rewrite !length_app. cbn. lia.
      * exists (mkLib [] fates (log' ++ before ++ [entry])), log2. cbn [n_raftNode lb_pending lb_log n_bloomFilter k_log k_replicas].
        split_and!; [done|by rewrite app_nil_r| |].
        { unfold log2. rewrite Hlog, <- !(assoc_L (++)). done. }
        { by rewrite Hrs, insert_insert_eq. }
    + intros _. eexists _, _. split; [by left|]. split; [apply lookup_insert_eq|]. cbn [rp_applied].
      unfold log2. rewrite !length_app. cbn. lia.
    + split; [|cbn; unfold log2; rewrite !length_app; lia]. intros ty' x' k (ix' & r & Hin & Hra & Hle). cbn in Hin, Hra.
      rewrite Hrs, lookup_insert_eq in Hra. injection Hra as <-. cbn in Hle.
      eexists ix', _. split; [by right|]. split; [apply lookup_insert_eq|]. cbn. rewrite Hl2, length_app. lia.
  - rewrite deliver_nil. cbn [mbind go_bind]. intros [= <- <-].
    exists (mkCluster ((log ++ before) ++ [entry]) rs sn ∅ ak).
    split; [|split; [done|apply keeps_same; cbn; rewrite ?length_app; (done || lia)]]. split; [|done|done|].
    + etrans; [exact Hrun|]. etrans; [exact Hc|]. apply rtc_once.
      erewrite <- (only_call (mkCallK a ty x (Some (Datatypes.length (log ++ before))))) at 2. apply k_fail.
    + exists (mkLib (pend ++ before ++ [entry]) fates (log' ++ before ++ [entry])), pre.
      cbn. split_and!; [done|by rewrite Hpre, <- !(assoc_L (++))|by rewrite Hlog, <- !(assoc_L (++))|done].
  - rewrite deliver_nil. cbn [mbind go_bind]. intros [= <- <-]. rewrite app_nil_r.
    exists (mkCluster (log ++ before) rs sn ∅ ak).
    split; [|split; [done|apply keeps_same; cbn; rewrite ?length_app; (done || lia)]]. split; [|done|done|].
    { etrans; [exact Hrun|]. exact (other_entries f0 before (mkCluster log rs sn ∅ ak)). }
    exists (mkLib (pend ++ before) fates (log' ++ before)), pre.
    cbn. split_and!; [done|by rewrite Hpre, <- !(assoc_L (++))|by rewrite Hlog, <- !(assoc_L (++))|done].
Qed.

(** What the replicas do meanwhile is a run. *)
Lemma background_step_run b w st : represents w st →
  ∃ st', rtc (kstep f0) st st' ∧ represents (background_step f0 b w) st'.
Proof.
  destruct w as [log rs sn sc], st as [log' rs' sn' cs ak]. intros (Hl & Hr & Hc & Hsn). cbn in *. subst.
  assert (∃ st', rtc (kstep f0) (mkCluster log rs sn ∅ ak) st' ∧ represents (mkNet log rs sn sc) st') as Hstay by by eexists.
  destruct b as [i|l|i|i now|i j]; cbn [background_step].
  - destruct (rs !! i) as [r|] eqn:Hi; [|done]. destruct (log !! rp_applied r) as [l|] eqn:Hl; [|done].
    destruct (Node_Apply l (rp_filter r)) as [[f res]|] eqn:Ha; [|done].
    eexists. split; [by apply rtc_once; eapply k_deliver|done].
  - eexists. split; [apply rtc_once, k_other|done].
  - destruct (rs !! i) as [r|] eqn:Hi; [|done]. destruct (sn !! i) as [pd|] eqn:Hsn.
    + eexists. split; [apply rtc_once, k_hang; by eexists|]. split_and!; [done..|apply map_filter_empty|done].
    + eexists. split; [apply rtc_once, k_restart; [by eexists|done]|]. split_and!; [done..|apply map_filter_empty|done].
  - destruct (rs !! i) as [r|] eqn:Hi; [|done]. eexists. split; [by apply rtc_once, k_snapshot|done].
  - destruct (rs !! i) as [r|] eqn:Hi; [|done]. destruct (sn !! j) as [[p data]|] eqn:Hsn; [|done]. case_decide as Hlt; [|done].
    destruct (Node_Restore data (rp_filter r)) as [f e] eqn:Hre. eexists. split; [by apply rtc_once; eapply k_install|done].
Qed.

Lemma background_run_run bs w st : represents w st →
  ∃ st', rtc (kstep f0) st st' ∧ represents (background_run f0 bs w) st'.
Proof.
  revert w st. induction bs as [|b bs IH]; intros w st Hw; [by exists st|].
  destruct (background_step_run b w st Hw) as (st1 & Hr1 & Hw1). destruct (IH _ _ Hw1) as (st2 & Hr2 & Hw2).
  exists st2. split; [by etrans|done].
Qed.

Lemma background_run_script bs w : nt_script (background_run f0 bs w) = nt_script w.
Proof.
  unfold background_run. revert w. induction bs as [|b bs IH]; intros [log rs sn sc]; [done|]. cbn [foldl]. rewrite IH.
  destruct b; cbn [background_step]; repeat case_match; done.
Qed.

Lemma log_grows_step st st' : kstep f0 st st' → k_log st `prefix_of` k_log st'.
Proof. destruct 1 as [| | |a b []| | | | | |]; cbn; try done; by apply prefix_app_r. Qed.

Lemma log_grows st st' : rtc (kstep f0) st st' → k_log st `prefix_of` k_log st'.
Proof. induction 1 as [|a b c Hab _ IH]; [done|]. apply log_grows_step in Hab. by etrans. Qed.

(** A handler that runs the cluster while it serves a call makes a remote call a run. *)
Lemma serve_run {A} nodes a (h : Node → go (Node * A)) w st w' r (Q : nat → cluster → Node → A → Prop) :
  reachable f0 nodes st → represents w st →
  (∀ st0 n n' resp, serving a st0 n st0 → h n = Ret (n', resp) →
     ∃ st', serving a st0 n' st' ∧ Q (Datatypes.length (k_log st0)) st' n' resp) →
  serve f0 a h w = (w', r) →
  ∃ st', rtc (kstep f0) st st' ∧ represents w' st' ∧
    ∀ resp, r = Ok resp → ∃ k n', (Datatypes.length (cs_log w) ≤ k)%nat ∧ Q k st' n' resp ∧
      ∃ rp, cs_replicas w' !! a = Some rp ∧ rp_filter rp = n_bloomFilter n'.
Proof.
  intros Hreach Hw Hh. unfold serve. destruct (nt_script w) as [|e es]; [intros [= <- <-]; by exists st|].
  set (w0 := mkNet (nt_log w) (nt_replicas w) (nt_snaps w) es). assert (represents w0 st) as Hw0 by exact Hw.
  destruct (background_run_run (rf_background e) w0 st Hw0) as (st1 & Hr1 & Hw1).
  set (w1 := background_run f0 (rf_background e) w0) in *.
  assert (∀ e', (w1, Err e') = (w', r) → ∃ st', rtc (kstep f0) st st' ∧ represents w' st' ∧
    ∀ resp : A, r = Ok resp → ∃ k n', (Datatypes.length (cs_log w) ≤ k)%nat ∧ Q k st' n' resp ∧
      ∃ rp, cs_replicas w' !! a = Some rp ∧ rp_filter rp = n_bloomFilter n') as Hno.
  { intros e' [= <- <-]. by exists st1. }
  destruct (nt_replicas w1 !! a) as [rp|] eqn:Ha; [|apply Hno]. destruct (rf_arrives e); [|apply Hno].
  destruct (h (node_at a rp _)) as [[n' resp]|] eqn:Hrun; [|apply Hno]. intros [= <- <-].
  destruct Hw1 as (Hl1 & Hrs1 & Hc1 & Hsn1). change (nt_log w1) with (cs_log w1) in *. change (nt_replicas w1) with (cs_replicas w1) in *.
  assert (kinv f0 st1) as Hk by (eapply kinv_reachable; etrans; [exact Hreach|exact Hr1]).
  rewrite <- Hrs1 in Ha. destruct (ki_replica _ _ Hk _ _ Ha) as [Hle _].
  edestruct (λ n Hs, Hh st1 n n' resp Hs) as (st2 & [Hr2 Hc2 Hsn2 (l & pre & Hn & Hpre & Hlog & Hrs2)] & HQ); [|exact Hrun|].
  { split; [done|done|done|]. eexists _, (take (rp_applied rp) (k_log st1)). split; [reflexivity|]. cbn [lb_pending lb_log node_at n_bloomFilter].
    rewrite <- Hl1, take_drop, app_nil_r, length_take, Nat.min_l by done. split_and!; [done..|]. rewrite insert_id; [done|]. by destruct rp. }
  exists st2. split; [by etrans|]. unfold leave. rewrite Hn. split.
  - split_and!; cbn; [by rewrite Hlog, Hl1| |done|by rewrite Hsn2, Hsn1]. rewrite Hrs2, Hrs1. do 2 f_equal.
    change (nt_log w1) with (cs_log w1). rewrite <- Hl1, <- Hlog, Hpre, length_app. lia.
  - intros resp' Heq. exists (Datatypes.length (k_log st1)), n'. split_and!.
    + destruct Hw as (<- & _). by apply prefix_length, log_grows.
    + destruct (rf_lost e); [done|]. by injection Heq as <-.
    + eexists. cbn. by rewrite lookup_insert_eq.
Qed.

Lemma answered_le ty a x n k st : (n ≤ k)%nat → answered ty a x k st → answered ty a x n st.
Proof. intros ? (ix & r & ? & ? & ?). exists ix, r. split_and!; [done|done|lia|lia]. Qed.

Lemma failed_not_redirect e : isLeaderRedirect ("failed to add item: " +:+ e) = false.
Proof. unfold isLeaderRedirect. case_decide; [done|]. reflexivity. Qed.

Lemma server_Add_serving a st0 n x n' resp : serving a st0 n st0 → server_Add n x = Ret (n', resp) →
  ∃ st', serving a st0 n' st' ∧ (ar_Success resp = true → answered "add" a x (Datatypes.length (k_log st0)) st') ∧
    isLeaderRedirect (ar_Error resp) = false.
Proof.
  intros Hs. unfold server_Add, Node_Add. case_decide as Hx; [intros [= <- <-]; by exists st0|].
  destruct (propose "add" n x) as [[n1 err]|] eqn:Hp; [|done]. cbn [mbind go_bind].
  destruct (propose_serving a st0 n st0 "add" x n1 err) as (st' & Hs' & Hok & _); [by left|done..|].
  destruct err as [e|]; intros [= <- <-]; exists st'; (split; [done|]); [|by auto].
  split; [done|apply failed_not_redirect].
Qed.

Lemma server_Remove_serving a st0 n x n' resp : serving a st0 n st0 → server_Remove n x = Ret (n', resp) →
  ∃ st', serving a st0 n' st' ∧ (ar_Success resp = true → answered "remove" a x (Datatypes.length (k_log st0)) st').
Proof.
  intros Hs. unfold server_Remove, Node_Remove. case_decide as Hx; [intros [= <- <-]; by exists st0|].
  destruct (propose "remove" n x) as [[n1 err]|] eqn:Hp; [|done]. cbn [mbind go_bind].
  destruct (propose_serving a st0 n st0 "remove" x n1 err) as (st' & Hs' & Hok & _); [by right|done..|].
  destruct err as [e|]; intros [= <- <-]; exists st'; by auto.
Qed.

(** The items of a batch, one proposal after the other. *)
Lemma server_batch_serving a st0 items n st s f n' s' f' errs : serving a st0 n st →
  server_batch_loop n items s f = Ret (n', s', f', errs) →
  ∃ st', serving a st0 n' st' ∧ keeps a st st' ∧
    ∀ i x, items !! i = Some x → errs !! i = Some ""%string → answered "add" a x (Datatypes.length (k_log st)) st'.
Proof.
  revert n st s f n' s' f' errs. induction items as [|x items IH]; intros n st s f n' s' f' errs Hs; cbn [server_batch_loop].
  { intros [= <- _ _ <-]. exists st. split; [done|]. split; [by apply keeps_same|]. by intros []. }
  case_decide as Hx.
  { destruct (server_batch_loop n items _ _) as [[[[n1 s1] f1] errs1]|] eqn:Hl; [|done]. cbn [mbind go_bind]. intros [= <- _ _ <-].
    destruct (IH _ _ _ _ _ _ _ _ Hs Hl) as (st' & Hs' & Hk & Hall). exists st'. split_and!; [done..|]. intros [|i] y; [done|]. apply Hall. }
  destruct (Node_Add n x) as [[n1 err]|] eqn:Hp; [|done]. cbn [mbind go_bind]. unfold Node_Add in Hp.
  destruct (propose_serving a st0 n st "add" x n1 err) as (st1 & Hs1 & Hok & Hk1); [by left|done..|].
  assert (∀ k s1 f1 errs1 e, server_batch_loop n1 items k s1 = Ret (n', s', f1, errs1) → (e = ""%string → err = None) → errs = e :: errs1 →
    ∃ st', serving a st0 n' st' ∧ keeps a st st' ∧
      ∀ i y, (x :: items) !! i = Some y → errs !! i = Some ""%string → answered "add" a y (Datatypes.length (k_log st)) st') as Hrest.
  { intros k s1 f1 errs1 e Hl He ->. destruct (IH _ _ _ _ _ _ _ _ Hs1 Hl) as (st' & Hs' & Hk & Hall). exists st'. split_and!; [done|by eapply keeps_trans|].
    intros [|i] y Hi Hei.
    - injection Hi as ->. injection Hei as ->. apply (proj1 Hk), Hok. auto.
    - eapply answered_le; [apply Hk1|by eapply Hall]. }
  destruct err as [e|]; destruct (server_batch_loop n1 items _ _) as [[[[n2 s2] f2] errs2]|] eqn:Hl; try done; cbn [mbind go_bind];
    intros [= -> -> -> <-]; (eapply Hrest; [exact Hl| |reflexivity]); [by intros He|done].
Qed.

(** The handlers keep the promise made to clients. *)
Lemma net_laws : ClusterServiceLaws (W := net) (DBFServiceClient0 := net_client f0) f0.
Proof.
  split.
  - intros nodes st a x w w' r Hreach Hw Hrpc.
    destruct (serve_run nodes a (λ n, server_Add n x) w st w' r (λ k st' n' resp, (ar_Success resp = true → answered "add" a x k st') ∧
      isLeaderRedirect (ar_Error resp) = false) Hreach Hw) as (st' & Hrun & Hw' & HQ); [|exact Hrpc|].
    { intros st0 n n' resp. apply server_Add_serving. }
    exists st'. split_and!; [done..|]. intros resp Hr. destruct (HQ resp Hr) as (k & n' & Hk & [Hok ?] & _).
    split; [|done]. intros Hs. by eapply answered_le, Hok.
  - intros nodes st a x w w' r Hreach Hw Hrpc.
    destruct (serve_run nodes a (λ n, r ← server_Contains n x; Ret (n, r)) w st w' r (λ _ _ n' resp, server_Contains n' x = Ret resp) Hreach Hw)
      as (st' & Hrun & Hw' & HQ); [|exact Hrpc|].
    { intros st0 n n' resp Hs. destruct (server_Contains n x) as [resp'|] eqn:Hc; [|done]. intros [= <- <-]. by exists st0. }
    exists st'. split_and!; [done..|]. intros resp Hr. destruct (HQ resp Hr) as (k & n' & _ & Hc & rp & Hrp & Hf).
    exists n', rp. split; [done|]. unfold read_at. rewrite Hf. by destruct n'.
Qed.

(** A call of any kind, and what an answer to it promises about the cluster. *)
Inductive service_call : Type :=
  | SAdd (x : list byte)
  | SRemove (x : list byte)
  | SContains (x : list byte)
  | SBatchAdd (xs : list (list byte))
  | SBatchContains (xs : list (list byte))
  | SGetStats.

Definition call_net (a : string) (c : service_call) (w : net) : net :=
  match c with
  | SAdd x => (@rpc_Add _ (net_client f0) a x w).1
  | SRemove x => (@rpc_Remove _ (net_client f0) a x w).1
  | SContains x => (@rpc_Contains _ (net_client f0) a x w).1
  | SBatchAdd xs => (@rpc_BatchAdd _ (net_client f0) a xs w).1
  | SBatchContains xs => (@rpc_BatchContains _ (net_client f0) a xs w).1
  | SGetStats => (@rpc_GetStats _ (net_client f0) a w).1
  end.

(** The entries that were reported as added or removed. *)
Definition reported (a : string) (c : service_call) (w : net) : list (string * list byte) :=
  match c with
  | SAdd x => match (@rpc_Add _ (net_client f0) a x w).2 with Ok resp => if ar_Success resp then [("add"%string, x)] else [] | Err _ => [] end
  | SRemove x => match (@rpc_Remove _ (net_client f0) a x w).2 with Ok resp => if ar_Success resp then [("remove"%string, x)] else [] | Err _ => [] end
  | SBatchAdd xs =>
      match (@rpc_BatchAdd _ (net_client f0) a xs w).2 with
      | Ok resp => omap (λ xe, if decide (xe.2 = ""%string) then Some ("add"%string, xe.1) else None) (zip xs (br_Errors resp))
      | Err _ => []
      end
  | _ => []
  end.

(** A handler that leaves the node as it is. *)
Lemma serve_read {A} nodes a (h : Node → go A) w st w' r : reachable f0 nodes st → represents w st →
  serve f0 a (λ n, x ← h n; Ret (n, x)) w = (w', r) → ∃ st', rtc (kstep f0) st st' ∧ represents w' st'.
Proof.
  intros Hreach Hw Hs. edestruct (serve_run nodes a (λ n, x ← h n; Ret (n, x)) w st w' r (λ _ _ _ _, True) Hreach Hw) as (st' & ? & ? & _); [|exact Hs|by exists st'].
  intros st0 n n' resp Hserv. destruct (h n) as [y|]; [|done]. intros [= <- <-]. by exists st0.
Qed.

(** C3: The servers behind a network refine the cluster.  Whatever call is made to whichever
    node, and whatever the network does to the request and the answer, the other replicas
    to the log and the library to the proposals, the call is a run of the cluster; and
    every entry it reported as added or removed, also item by item in a batch, was committed
    during the call and executed on the node that answered. *)
Theorem net_refines_cluster nodes st a c w : reachable f0 nodes st → represents w st →
  ∃ st', rtc (kstep f0) st st' ∧ represents (call_net a c w) st' ∧
    ∀ ty x, (ty, x) ∈ reported a c w → answered ty a x (Datatypes.length (cs_log w)) st'.
Proof.
  intros Hreach Hw. assert (∀ w', (∃ st', rtc (kstep f0) st st' ∧ represents w' st') → ∃ st', rtc (kstep f0) st st' ∧ represents w' st' ∧
    ∀ ty x, (ty, x) ∈ [] → answered ty a x (Datatypes.length (cs_log w)) st') as Hread.
  { intros w' (st' & ? & ?). exists st'. split_and!; [done..|]. by intros ? ? ?%elem_of_nil. }
  destruct c as [x|x|x|xs|xs|]; cbn [call_net reported].
  - destruct (rpc_Add a x w) as [w' r] eqn:Hrpc. destruct (law_Add (ClusterServiceLaws := net_laws) nodes st a x w w' r Hreach Hw Hrpc) as (st' & Hrun & Hw' & HQ).
    exists st'. split_and!; [done..|]. cbn [snd]. destruct r as [resp|e]; [|by intros ? ? ?%elem_of_nil]. destruct (HQ resp eq_refl) as [Hok _].
    destruct (ar_Success resp); [|by intros ? ? ?%elem_of_nil]. intros ty y [= -> ->]%list_elem_of_singleton. by apply Hok.
  - destruct (rpc_Remove a x w) as [w' r] eqn:Hrpc.
    destruct (serve_run nodes a (λ n, server_Remove n x) w st w' r (λ k st' n' resp, ar_Success resp = true → answered "remove" a x k st') Hreach Hw)
      as (st' & Hrun & Hw' & HQ); [|exact Hrpc|].
    { intros st0 n n' resp. apply server_Remove_serving. }
    exists st'. split_and!; [done..|]. cbn [snd]. destruct r as [resp|e]; [|by intros ? ? ?%elem_of_nil].
    destruct (HQ resp eq_refl) as (k & n' & Hk & Hok & _). destruct (ar_Success resp); [|by intros ? ? ?%elem_of_nil].
    intros ty y [= -> ->]%list_elem_of_singleton. by eapply answered_le, Hok.
  - apply Hread. destruct (rpc_Contains a x w) as [w' r] eqn:Hrpc. by eapply (serve_read nodes a (λ n, server_Contains n x)).
  - destruct (rpc_BatchAdd a xs w) as [w' r] eqn:Hrpc.
    destruct (serve_run nodes a (λ n, server_BatchAdd n xs) w st w' r (λ k st' n' resp,
      ∀ i x, xs !! i = Some x → br_Errors resp !! i = Some ""%string → answered "add" a x k st') Hreach Hw) as (st' & Hrun & Hw' & HQ); [|exact Hrpc|].
    { intros st0 n n' resp Hs. unfold server_BatchAdd. case_decide as Hnil; [intros [= <- <-]; exists st0; subst; by split|].
      destruct (server_batch_loop n xs 0 0) as [[[[n1 s1] f1] errs1]|] eqn:Hl; [|done]. cbn [mbind go_bind]. intros [= <- <-].
      destruct (server_batch_serving _ _ _ _ _ _ _ _ _ _ _ Hs Hl) as (st' & ? & _ & ?). by exists st'. }
    exists st'. split_and!; [done..|]. cbn [snd]. destruct r as [resp|e]; [|by intros ? ? ?%elem_of_nil].
    destruct (HQ resp eq_refl) as (k & n' & Hk & Hok & _). intros ty y ([y' e] & Hin & Hd)%list_elem_of_omap. case_decide as He; [|done].
    cbn in He, Hd. injection Hd as <- ->. subst e. apply list_elem_of_lookup in Hin as [i Hi]. apply lookup_zip_Some in Hi as [Hx He].
    by eapply answered_le, Hok.
  - apply Hread. destruct (rpc_BatchContains a xs w) as [w' r] eqn:Hrpc. by eapply (serve_read nodes a (λ n, server_BatchContains n xs)).
  - apply Hread. destruct (rpc_GetStats a w) as [w' r] eqn:Hrpc. by eapply (serve_read nodes a (λ n, Ret (server_GetStats n))).
Qed.
End simulation.

(** * The SDK *)

(** A client that is never redirected stays at its server. *)
Lemma retry_stays {S} (P : S → Prop) dial ctx_done (fn : string → S → S * option sdk_error) a :
  (∀ s s' e, P s → fn a s = (s', e) → P s' ∧ ∀ m, e ≠ Some (ErrLeaderRedirect m)) →
  ∀ rem att lastErr c s c' s', c_client c = Some a → P s →
    retry_loop dial ctx_done fn rem att lastErr c s = (c', s', None) →
    c' = c ∧ ((rem = 0%nat ∧ lastErr = None) ∨ ∃ s1, P s1 ∧ fn a s1 = (s', None)).
Proof.
  intros Hfn rem. induction rem as [|rem IH]; intros att lastErr c s c' s' Hc HP; cbn [retry_loop].
  { intros [= <- <- ->]. by split; [|left]. }
  rewrite Hc. destruct (fn a s) as [s1 [e|]] eqn:Ef; [|intros [= <- <-]; split; [done|right; by exists s]].
  destruct (Hfn _ _ _ HP Ef) as [HP1 Hne].
  assert (∀ att', retry_loop dial ctx_done fn rem att' (Some e) c s1 = (c', s', None) →
    c' = c ∧ ((Datatypes.S rem = 0%nat ∧ lastErr = None) ∨ ∃ s1, P s1 ∧ fn a s1 = (s', None))) as Hgo.
  { intros att' Hl. by destruct (IH _ _ _ _ _ _ Hc HP1 Hl) as [-> [[_ ?]|?]]; [|split; [|right]]. }
  destruct e as [| | | | |m| | | | |]; try by (case_decide; [destruct (ctx_done att)|]; eauto).
  by destruct (Hne m).
Qed.

Section sdk.
Context `{JsonTextLaws, TimeTextLaws, Murmur3, HRaft, !ClusterService W, !DBFServiceClient W} (f0 : CountingBloomFilter).
Context `{!ClusterServiceLaws (W := W) f0}.
Context (nodes : gset string).
Implicit Types (w : W).

Lemma reachable_trans st st' : reachable f0 nodes st → rtc (kstep f0) st st' → reachable f0 nodes st'.
Proof. intros Hr ?. unfold reachable in *. by etrans. Qed.

(** A world that a run from [st] has led to. *)
Definition after (st : cluster) (w : W) : Prop := ∃ st', rtc (kstep f0) st st' ∧ represents w st'.

Lemma client_Add_answered dial ctx_done key c c' st w w' a : reachable f0 nodes st → represents w st →
  c_client c = Some a → 0 ≤ MaxRetries (c_config c) → client_Add dial ctx_done key c w = (c', w', None) →
  c' = c ∧ ∃ st', rtc (kstep f0) st st' ∧ represents w' st' ∧
    answered "add" a (bytes_of_string key) (Datatypes.length (cs_log w)) st'.
Proof.
  intros Hreach Hw Hc Hn Hex. unfold client_Add, executeWithRetry in Hex.
  eapply (retry_stays (after st)) in Hex as [-> Hex]; [|clear Hex|exact Hc|by exists st].
  - destruct Hex as [[? _]|(w1 & (st1 & Hr1 & Hw1) & Hcall)]; [lia|]. split; [done|]. unfold call_Add in Hcall. destruct (rpc_Add a _ w1) as [w2 [resp|e]] eqn:Hrpc; [|done].
    destruct (law_Add nodes st1 a (bytes_of_string key) w1 w2 (Ok resp)) as (st2 & Hr2 & Hw2 & HQ);
      [by eapply reachable_trans|done..|]. destruct (HQ resp eq_refl) as [Hok Hnr]. unfold answer_error in Hcall.
    destruct (ar_Success resp); [|by rewrite Hnr in Hcall]. injection Hcall as ->.
    exists st2. split_and!; [by etrans|done|]. eapply answered_le, Hok; [|done].
    destruct Hw as (<- & _), Hw1 as (<- & _). apply prefix_length. by eapply log_grows.
  - intros w1 w2 e (st1 & Hr1 & Hw1). unfold call_Add.
    destruct (rpc_Add a _ w1) as [w3 r] eqn:Hrpc.
    destruct (law_Add nodes st1 a (bytes_of_string key) w1 w3 r) as (st2 & Hr2 & Hw2 & HQ); [by eapply reachable_trans|done..|].
    assert (after st w3) as Ha by (exists st2; split; [by etrans|done]).
    destruct r as [resp|e']; [|by intros [= <- <-]]. intros [= <- <-]. split; [done|]. intros m.
    destruct (HQ resp eq_refl) as [_ Hnr]. unfold answer_error. rewrite Hnr. by destruct (ar_Success resp).
Qed.

Lemma client_Contains_answered dial ctx_done key c c' st w w' a b : reachable f0 nodes st → represents w st →
  c_client c = Some a → 0 ≤ MaxRetries (c_config c) → client_Contains dial ctx_done key c w = (c', (w', b), None) →
  c' = c ∧ ∃ st' n rp, rtc (kstep f0) st st' ∧ represents w' st' ∧ cs_replicas w' !! a = Some rp ∧
    ∃ resp, read_at n rp (bytes_of_string key) = Ret resp ∧ cr_Exists resp = b ∧ cr_Error resp = "".
Proof.
  intros Hreach Hw Hc Hn Hex. unfold client_Contains, executeWithRetry in Hex.
  eapply (retry_stays (λ s, after st s.1)) in Hex as [-> Hex]; [|clear Hex|exact Hc|by exists st].
  - destruct Hex as [[? _]|([w1 b1] & (st1 & Hr1 & Hw1) & Hcall)]; [lia|]. split; [done|]. unfold call_Contains in Hcall. cbn [fst snd] in *.
    destruct (rpc_Contains a _ w1) as [w2 [resp|e]] eqn:Hrpc; [|done].
    destruct (law_Contains nodes st1 a (bytes_of_string key) w1 w2 (Ok resp)) as (st2 & Hr2 & Hw2 & HQ);
      [by eapply reachable_trans|done..|]. destruct (HQ resp eq_refl) as (n & rp & Hrp & Hread).
    case_decide as He; [done|]. injection Hcall as -> <-. exists st2, n, rp. split_and!; [by etrans|done..|].
    exists resp. split_and!; [done..|]. by destruct (decide (cr_Error resp = "")).
  - intros [w1 b1] [w2 b2] e (st1 & Hr1 & Hw1). unfold call_Contains. cbn [fst snd] in *.
    destruct (rpc_Contains a _ w1) as [w3 r] eqn:Hrpc.
    destruct (law_Contains nodes st1 a (bytes_of_string key) w1 w3 r) as (st2 & Hr2 & Hw2 & HQ); [by eapply reachable_trans|done..|].
    assert (after st w3) as Ha by (exists st2; split; [by etrans|done]).
    destruct r as [resp|e']; [case_decide|]; by intros [= <- <- <-].
Qed.

(** From position [n] on no entry of the log removes the item or meets a full counter
    when it adds it, and no entry at all removes an absent item. *)
Definition lasting (n : nat) (x : list byte) (log : list Log) : Prop :=
  (∃ M, tally log f0 ∅ = Some M) ∧
  (∀ ix l f1, (n ≤ ix)%nat → log !! ix = Some l → log_op l = Some (OpAdd x) → deliver (take ix log) f0 = Ret f1 →
     ∃ f2, Add f1 x = Ret (f2, None)) ∧
  (∀ ix l, (n ≤ ix)%nat → log !! ix = Some l → log_op l ≠ Some (OpRemove x)).

(** An answered [Add] is visible on every replica that has caught up with it. *)
Lemma answered_visible m k n a x j rp st1 st2 nd : params_ok m k → NewCountingBloomFilter m k = Ret f0 → x ≠ [] →
  reachable f0 nodes st1 → answered "add" a x n st1 → rtc (kstep f0) st1 st2 →
  k_replicas st2 !! j = Some rp → (Datatypes.length (k_log st1) ≤ rp_applied rp)%nat →
  lasting n x (take (rp_applied rp) (k_log st2)) → read_at nd rp x = Ret (mkContResp true "").
Proof.
  intros Hp Hnew Hx Hreach (ix & r1 & Hack & Hr1 & Hix) Hrun Hj Hle (Ht & Hfull & Hrem).
  assert (kinv f0 st1) as Hk1 by by eapply (kinv_reachable f0 nodes).
  assert (kinv f0 st2) as Hk2 by (eapply (kinv_reachable f0 nodes), reachable_trans; [exact Hreach|exact Hrun]).
  destruct (ki_acked _ _ Hk1 _ Hack) as (ix' & tm & ix2 & [= <-] & Hlog).
  destruct (ki_replica _ _ Hk1 _ _ Hr1) as [Hle1 _]. destruct (ki_replica _ _ Hk2 _ _ Hj) as [Hle2 Hd].
  assert (take (rp_applied rp) (k_log st2) !! ix = Some (proposal (mkCallK a "add" x (Some ix)) tm ix2)) as Hlog2.
  { rewrite lookup_take_lt by lia. eapply prefix_lookup_Some; [exact Hlog|by eapply (log_grows f0)]. }
  replace rp with (mkReplica (rp_filter rp) (Datatypes.length (take (rp_applied rp) (k_log st2))))
    by (rewrite length_take, Nat.min_l by lia; by destruct rp).
  eapply read_visible; [done..|exact Hlog2|done| |].
  - intros f1. eapply Hfull; [|exact Hlog2|]; [lia|]. by rewrite (proposal_op a "add" x (Some ix) tm ix2) by auto.
  - intros i l Hi. apply Hrem. lia.
Qed.

(** C4: an SDK client reads its own writes.  Let the filter have usable parameters, the key not be empty
    and [MaxRetries] not negative.  When [Add] reported success and a later [Contains] of the same client
    reports an answer, the answer is yes, whatever was lost, retried, restarted or written by others
    meanwhile, provided that the replica that answers has been handed again what was committed when [Add]
    returned, and that in what it was handed ([lasting]) no entry at all removes an absent item, nothing
    removes this item from the beginning of the [Add] on, and no entry that adds it since then met a full
    counter. *)
Theorem sdk_read_your_writes dial ctx_done key c c1 c2 st w w1 w2 a b rp m k :
  params_ok m k → NewCountingBloomFilter m k = Ret f0 → key ≠ ""%string →
  reachable f0 nodes st → represents w st → c_client c = Some a → 0 ≤ MaxRetries (c_config c) →
  client_Add dial ctx_done key c w = (c1, w1, None) →
  client_Contains dial ctx_done key c1 w1 = (c2, (w2, b), None) →
  cs_replicas w2 !! a = Some rp → (Datatypes.length (cs_log w1) ≤ rp_applied rp)%nat →
  lasting (Datatypes.length (cs_log w)) (bytes_of_string key) (take (rp_applied rp) (cs_log w2)) →
  b = true.
Proof.
  intros Hp Hnew Hkey Hreach Hw Hc Hn Hadd Hcont Hrp Hle Hlast.
  destruct (client_Add_answered _ _ _ _ _ _ _ _ _ Hreach Hw Hc Hn Hadd) as (-> & st1 & Hr1 & Hw1 & Hans).
  assert (reachable f0 nodes st1) as Hreach1 by by eapply reachable_trans.
  destruct (client_Contains_answered _ _ _ _ _ _ _ _ _ _ Hreach1 Hw1 Hc Hn Hcont)
    as (_ & st2 & nd & rp' & Hr2 & Hw2 & Hrp' & resp & Hread & <- & _).
  destruct Hw1 as (Hl1 & _), Hw2 as (Hl2 & Hrs2 & _). rewrite <- Hl1 in Hle. rewrite <- Hl2 in Hlast. rewrite Hrp in Hrp'. injection Hrp' as <-.
  rewrite <- Hrs2 in Hrp. assert (bytes_of_string key ≠ []) as Hx by by apply string_bytes_nonempty.
  rewrite (answered_visible m k _ a _ a rp st1 st2 nd Hp Hnew Hx Hreach1 Hans Hr2 Hrp Hle Hlast) in Hread.
  by injection Hread as <-.
Qed.
End sdk.

(** * The gateway *)

Section gateway.
Context `{!JsonText, !JsonTextLaws, !JsonDecoder, !JsonDecoderLaws, !TimeText, !TimeTextLaws, !Murmur3, !HRaft}.
Context `{!ClusterService W, !DBFServiceClient W} (f0 : CountingBloomFilter) `{!ClusterServiceLaws (W := W) f0}.
Context (nodes : gset string).

(** C9: what is added over HTTP is found over HTTP, also behind another gateway and another node.  Let the
    filter have usable parameters and the item be ASCII and not empty.  When the first gateway answered 200
    to the add and the second answers the query with 200, its body says that the item exists, provided that
    the node behind the second gateway has been handed what was committed when the first answered, and that
    in what it was handed ([lasting]) no entry at all removes an absent item, nothing removes this item from
    the beginning of the add on, and no entry that adds it since then met a full counter. *)
Theorem gateway_reads_writes g g' item st (w w1 w2 : W) resp1 resp2 rp m k :
  params_ok m k → NewCountingBloomFilter m k = Ret f0 → is_ascii item = true → item ≠ ""%string →
  reachable f0 nodes st → represents w st →
  gateway_ServeHTTP g (item_request "POST" "/api/v1/add" item) w = (w1, resp1) → h_Status resp1 = StatusOK →
  gateway_ServeHTTP g' (item_request "POST" "/api/v1/contains" item) w1 = (w2, resp2) → h_Status resp2 = StatusOK →
  cs_replicas w2 !! GRPCAddress g' = Some rp → (Datatypes.length (cs_log w1) ≤ rp_applied rp)%nat →
  lasting f0 (Datatypes.length (cs_log w)) (bytes_of_string item) (take (rp_applied rp) (cs_log w2)) →
  h_Body resp2 = Some (APIResponse_json true (Some (JObj [("exists"%string, JBool true)])) "" "").
Proof.
  intros Hp Hnew Ha Hne Hreach Hw. rewrite gateway_add_rpc, gateway_contains_rpc by done.
  destruct (rpc_Add _ _ w) as [w1' r1] eqn:Hadd. intros [= -> <-] Hs1.
  destruct (law_Add nodes st _ _ _ _ _ Hreach Hw Hadd) as (st1 & Hr1 & Hw1 & HQ1).
  assert (reachable f0 nodes st1) as Hreach1 by by eapply reachable_trans.
  destruct (rpc_Contains _ _ w1) as [w2' r2] eqn:Hcont. intros [= -> <-] Hs2 Hrp Hle Hlast.
  destruct (law_Contains nodes st1 _ _ _ _ _ Hreach1 Hw1 Hcont) as (st2 & Hr2 & Hw2 & HQ2).
  destruct r1 as [resp1|e1]; [|done]. cbn [with_cors h_Status] in Hs1. apply write_response_ok in Hs1.
  destruct (HQ1 resp1 eq_refl) as [Hans _]. specialize (Hans Hs1).
  destruct r2 as [resp2|e2]; [|done]. destruct (HQ2 resp2 eq_refl) as (nd & rp' & Hrp' & Hread).
  rewrite Hrp in Hrp'. injection Hrp' as <-.
  destruct Hw1 as (Hl1 & _), Hw2 as (Hl2 & Hrs2 & _). rewrite <- Hl1 in Hle. rewrite <- Hl2 in Hlast. rewrite <- Hrs2 in Hrp.
  assert (bytes_of_string item ≠ []) as Hx by by apply string_bytes_nonempty.
  rewrite (answered_visible f0 nodes m k _ _ _ _ rp st1 st2 nd Hp Hnew Hx Hreach1 Hans Hr2 Hrp Hle Hlast) in Hread.
  by injection Hread as <-.
Qed.
End gateway.

(** * How often a retried [Add] is executed *)

Section counting.
Context `{JsonTextLaws, TimeTextLaws, Murmur3} (f0 : CountingBloomFilter).
#[local] Instance counting_client : DBFServiceClient net := net_client f0.

Definition is_add (x : list byte) (l : Log) : bool :=
  match log_op l with Some (OpAdd y) => bool_decide (y = x) | _ => false end.

(** The entries of a log that add [x]. *)
Definition adds (x : list byte) (log : list Log) : Z := zsum (λ l, if is_add x l then 1 else 0) log.

(** Nobody else adds the item. *)
Definition quiet (x : list byte) (script : list rpc_fate) : Prop :=
  Forall (λ e, Forall (λ b, match b with Other l => is_add x l = false | _ => True end) (rf_background e) ∧
    Forall (λ p, Forall (λ l, is_add x l = false) (ft_before p)) (rf_fates e)) script.

Lemma adds_app x l1 l2 : adds x (l1 ++ l2) = adds x l1 + adds x l2.
Proof. apply zsum_app. Qed.

Lemma adds_quiet x logs : Forall (λ l, is_add x l = false) logs → adds x logs = 0.
Proof. unfold adds. induction 1 as [|l logs Hl _ IH]; [done|]. by rewrite zsum_cons, Hl, IH. Qed.

Lemma adds_own x ix tm : adds x [mkLog ix tm (Marshal (mkCommand "add" x zero_time))] = 1.
Proof.
  unfold adds. rewrite zsum_cons, zsum_nil. unfold is_add.
  pose proof (proposal_op "" "add" x None ix tm ltac:(by left)) as Hop. unfold proposal in Hop. cbn [k_type k_item] in Hop.
  rewrite decide_True in Hop by done. by rewrite Hop, bool_decide_true.
Qed.

Lemma background_adds x bs w : Forall (λ b, match b with Other l => is_add x l = false | _ => True end) bs →
  adds x (nt_log (background_run f0 bs w)) = adds x (nt_log w).
Proof.
  intros Hb. unfold background_run. revert w. induction Hb as [|b bs Hb _ IH]; intros [log rs sn sc]; [done|]. cbn [foldl]. rewrite IH.
  destruct b as [i|l|i|i now|i j]; cbn [background_step]; repeat case_match; try done.
  cbn [nt_log]. rewrite adds_app, (adds_quiet x [l]) by by constructor. lia.
Qed.

Lemma server_Add_adds x n l n' resp : n_raftNode n = Some l →
  Forall (λ p, Forall (λ l, is_add x l = false) (ft_before p)) (lb_fates l) →
  server_Add n x = Ret (n', resp) →
  ∃ l', n_raftNode n' = Some l' ∧ adds x (lb_log l) ≤ adds x (lb_log l') ≤ adds x (lb_log l) + 1 ∧
    (ar_Success resp = true → adds x (lb_log l') = adds x (lb_log l) + 1).
Proof.
  intros Hn Hq. unfold server_Add, Node_Add, propose. case_decide; [intros [= <- <-]; exists l; by split_and!; try lia|].
  rewrite Hn. cbn [raft_Apply lib_raft]. unfold lib_Apply. destruct l as [pend [|p ps] log]; cbn [lb_fates lb_log lb_pending] in *.
  { cbn [deliver mbind go_bind]. intros [= <- <-]. eexists. split; [done|]. by split; [cbn; lia|]. }
  inversion_clear Hq as [|? ? Hp _]. pose proof (adds_own x (ft_ix p) (ft_tm p)) as Hown.
  destruct (ft_outcome p) as [|e []]; destruct (deliver _ (n_bloomFilter n)) as [f'|]; cbn [mbind go_bind]; try done;
    intros [= <- <-]; (eexists; split; [done|]); cbn [lb_log]; rewrite !adds_app, ?Hown, (adds_quiet x (ft_before p)) by done;
    try (change (adds x []) with 0); (split; [lia|intros ?; try done; lia]).
Qed.

Lemma net_Add_adds a x w w' r : quiet x (nt_script w) → rpc_Add a x w = (w', r) →
  quiet x (nt_script w') ∧ adds x (nt_log w) ≤ adds x (nt_log w') ≤ adds x (nt_log w) + 1 ∧
  (∀ resp, r = Ok resp → ar_Success resp = true → adds x (nt_log w') = adds x (nt_log w) + 1).
Proof.
  cbn [rpc_Add counting_client net_client]. unfold serve. intros Hq. destruct (nt_script w) as [|e es] eqn:Es.
  { intros [= <- <-]. rewrite Es. split_and!; [done|lia..|done]. }
  inversion_clear Hq as [|? ? [Hb Hf] Hes]. set (w0 := mkNet (nt_log w) (nt_replicas w) (nt_snaps w) es).
  pose proof (background_adds x (rf_background e) w0 Hb) as Hlog. pose proof (background_run_script f0 (rf_background e) w0) as Hsc.
  set (w1 := background_run f0 (rf_background e) w0) in *. cbn [nt_log nt_script w0] in Hlog, Hsc.
  assert (∀ e', (w1, Err e') = (w', r) → quiet x (nt_script w') ∧ adds x (nt_log w) ≤ adds x (nt_log w') ≤ adds x (nt_log w) + 1 ∧
    (∀ resp, r = Ok resp → ar_Success resp = true → adds x (nt_log w') = adds x (nt_log w) + 1)) as Hno.
  { intros e' [= <- <-]. rewrite Hsc, Hlog. split_and!; [done|lia..|done]. }
  destruct (nt_replicas w1 !! a) as [rp|]; [|apply Hno]. destruct (rf_arrives e); [|apply Hno].
  destruct (server_Add (node_at a rp _) x) as [[n' resp]|] eqn:Hrun; [|apply Hno]. intros [= <- <-].
  eapply server_Add_adds in Hrun as (l' & Hl' & Hle & Hok); [|done|exact Hf]. unfold leave. rewrite Hl'. cbn [nt_log nt_script].
  rewrite Hsc, adds_app, Hlog. cbn [lb_log] in Hle, Hok. change (adds x []) with 0 in *. split_and!; [done|lia..|].
  intros resp' Heq Hs. destruct (rf_lost e); [done|]. injection Heq as <-. specialize (Hok Hs). lia.
Qed.

Definition succeeded (es : list (option sdk_error)) : bool := existsb (λ e, if e is None then true else false) es.

Lemma run_calls_adds key addrs w w' es : quiet (bytes_of_string key) (nt_script w) →
  run_calls (call_Add key) addrs w = (w', es) →
  adds (bytes_of_string key) (nt_log w) + (if succeeded es then 1 else 0) ≤ adds (bytes_of_string key) (nt_log w') ≤
    adds (bytes_of_string key) (nt_log w) + len addrs.
Proof.
  revert w es. induction addrs as [|a addrs IH]; intros w es Hq; cbn [run_calls].
  { intros [= <- <-]. unfold len. cbn. lia. }
  destruct (call_Add key a w) as [w1 e] eqn:Hc. destruct (run_calls _ addrs w1) as [w2 es2] eqn:Hrun. intros [= <- <-].
  unfold call_Add in Hc. destruct (rpc_Add a _ w) as [w3 r] eqn:Hrpc. destruct (net_Add_adds _ _ _ _ _ Hq Hrpc) as (Hq1 & Hle & Hok).
  assert (w3 = w1 ∧ (e = None → adds (bytes_of_string key) (nt_log w1) = adds (bytes_of_string key) (nt_log w) + 1)) as [-> He].
  { destruct r as [resp|e']; injection Hc as <- <-; (split; [done|]); [|done]. unfold answer_error.
    destruct (ar_Success resp) eqn:Hs; [by intros _; apply (Hok resp)|]. by destruct (isLeaderRedirect _). }
  destruct (IH w1 es2 Hq1 Hrun) as [Hlo Hhi]. rewrite len_cons. split; [|lia].
  destruct e as [e|]; [change (succeeded (Some e :: es2)) with (succeeded es2); lia|].
  change (succeeded (None :: es2)) with true.
  specialize (He eq_refl). destruct (succeeded es2); lia.
Qed.

(** C10: An [Add] of the SDK is executed at least once and at most [MaxRetries + 1] times.
    If nobody else adds the item meanwhile, a call that reports success leaves between
    one and [MaxRetries + 1] new entries for it in the log, and a call that reports an
    error between none and as many: an answer that was lost is not noticed, and an error
    does not mean that nothing was added.  A client with a negative [MaxRetries] leaves
    none, whatever it reports. *)
Theorem sdk_add_at_least_once dial ctx_done key c c' w w' r :
  quiet (bytes_of_string key) (nt_script w) → client_Add dial ctx_done key c w = (c', w', r) →
  let new := adds (bytes_of_string key) (nt_log w') - adds (bytes_of_string key) (nt_log w) in
  (if r is None then if decide (0 ≤ MaxRetries (c_config c)) then 1 else 0 else 0) ≤ new ≤ Z.max 0 (MaxRetries (c_config c) + 1).
Proof.
  intros Hq Hex. cbv zeta. unfold client_Add, executeWithRetry in Hex.
  apply retry_loop_spec in Hex as (addrs & es & Hrun & Hlen & Hr). apply run_calls_adds in Hrun as [Hlo Hhi]; [|done].
  assert (0 ≤ if succeeded es then 1 else 0) as Hs by (destruct (succeeded es); lia).
  split; [|lia]. destruct r as [e|]; [lia|]. case_decide as Hn; [|lia].
  destruct Hr as [(es' & -> & _)|[? _]]; [|lia]. unfold succeeded in Hlo. rewrite existsb_app, orb_true_r in Hlo. lia.
Qed.
End counting.

(** * Instances *)

Section witnesses.
#[local] Existing Instance tree_text.
#[local] Existing Instance tree_text_laws.
#[local] Existing Instance tree_time.
#[local] Existing Instance tree_time_laws.
#[local] Existing Instance byte_sum.
#[local] Instance cc_client : DBFServiceClient net := net_client ex_f0.

Definition cc_ok (lost : bool) : rpc_fate := mkRpc [] true [mkFate [] 1 1 Done] lost.
Definition cc_nodes : gset string := {["a"; "b"]}.
Definition cc_start (script : list rpc_fate) : net := mkNet [] (k_replicas (k_start ex_f0 cc_nodes)) ∅ script.

(** A client of node "a". *)
Definition cc_sdk : Client := mkClient (mkClientConfig ["a"%string] "" "" 3) (Some "a"%string) {["a"%string]} "".
Definition cc_Add (w : net) := client_Add (λ _, true) (λ _, false) "x" cc_sdk w.
Definition cc_Remove (w : net) := client_Remove (λ _, true) (λ _, false) "x" cc_sdk w.
Definition cc_Contains (w : net) := client_Contains (λ _, true) (λ _, false) "x" cc_sdk w.

(** The first answer is lost and [Add] is executed twice: after one [Remove] of the
    same client, with nobody else around, the item is still reported. *)
Theorem one_add_needs_two_removes :
  let w1 := (cc_Add (cc_start [cc_ok true; cc_ok false; cc_ok false; cc_ok false])).1.2 in
  let w2 := (cc_Remove w1).1.2 in
  (cc_Add (cc_start [cc_ok true; cc_ok false; cc_ok false; cc_ok false])).2 = None ∧ (cc_Remove w1).2 = None ∧
  adds (bytes_of_string "x") (nt_log w1) = 2 ∧
  ((cc_Contains w2).1.2.2, (cc_Contains w2).2) = (true, None).
Proof. split_and!; vm_compute; reflexivity. Qed.

Lemma sdk_add_at_least_once_witness :
  1 ≤ adds (bytes_of_string "x") (nt_log (cc_Add (cc_start [cc_ok true; cc_ok false])).1.2) - 0 ≤ 4.
Proof.
  apply (sdk_add_at_least_once ex_f0 (λ _, true) (λ _, false) "x" cc_sdk cc_sdk (cc_start [cc_ok true; cc_ok false]) _ None).
  - repeat constructor.
  - vm_compute. reflexivity.
Defined.

Lemma cc_represents script : represents (cc_start script) (k_start ex_f0 cc_nodes).
Proof. by split_and!. Qed.

Lemma cc_reachable : reachable ex_f0 cc_nodes (k_start ex_f0 cc_nodes).
Proof. apply rtc_refl. Qed.

Definition cc_batch : service_call := SBatchAdd [bytes_of_string "x"; []; bytes_of_string "y"].
Definition cc_batch_script : list rpc_fate :=
  [mkRpc [] true [mkFate [] 1 1 Done; mkFate [] 1 1 (Lost "leadership lost" true)] false].

Lemma net_refines_cluster_witness : ∃ st',
  rtc (kstep ex_f0) (k_start ex_f0 cc_nodes) st' ∧ represents (call_net ex_f0 "a" cc_batch (cc_start cc_batch_script)) st' ∧
  answered "add" "a" (bytes_of_string "x") 0 st'.
Proof.
  destruct (net_refines_cluster ex_f0 cc_nodes _ "a" cc_batch _ cc_reachable (cc_represents cc_batch_script)) as (st' & Hrun & Hw & Hall).
  exists st'. split; [exact Hrun|]. split; [exact Hw|]. apply Hall. vm_compute. apply list_elem_of_here.
Defined.

(** One executed [Add] of "x" lasts. *)
Definition cc_entry : Log := mkLog 1 1 (Marshal (mkCommand "add" (bytes_of_string "x") zero_time)).
Definition cc_f1 : CountingBloomFilter := mkCBF 7 3 [0; 1; 1; 1; 0; 0; 0].

Lemma cc_op : log_op cc_entry = Some (OpAdd (bytes_of_string "x")).
Proof. vm_compute. reflexivity. Qed.

Lemma cc_add : Add ex_f0 (bytes_of_string "x") = Ret (cc_f1, None).
Proof. vm_compute. reflexivity. Qed.

Lemma cc_lasting : lasting ex_f0 0 (bytes_of_string "x") [cc_entry].
Proof.
  split_and!.
  - cbn [tally]. rewrite cc_op, decide_True by done. cbn [exec]. change (cf_add ex_f0 (bytes_of_string "x")) with (Add ex_f0 (bytes_of_string "x")).
    rewrite cc_add. by eexists.
  - intros [|ix] l f1 _; [|done]. intros [= <-] _ [= <-]. exists cc_f1. exact cc_add.
  - intros [|ix] l _; [|done]. intros [= <-]. by rewrite cc_op.
Qed.

Definition cc_script : list rpc_fate := [cc_ok false; mkRpc [Deliver "b"] true [] false].

Lemma sdk_read_your_writes_witness : (cc_Contains (cc_Add (cc_start cc_script)).1.2).1.2.2 = true.
Proof.
  apply (@sdk_read_your_writes _ _ _ _ _ lib_raft net _ cc_client ex_f0 (net_laws ex_f0) cc_nodes
    (λ _, true) (λ _, false) "x" cc_sdk cc_sdk cc_sdk (k_start ex_f0 cc_nodes) (cc_start cc_script) (cc_Add (cc_start cc_script)).1.2
    (cc_Contains (cc_Add (cc_start cc_script)).1.2).1.2.1 "a" _ (mkReplica cc_f1 1) 7 3).
  - exact ex_params.
  - exact ex_New.
  - done.
  - exact cc_reachable.
  - apply cc_represents.
  - done.
  - cbn. lia.
  - vm_compute. reflexivity.
  - vm_compute. reflexivity.
  - vm_compute. reflexivity.
  - vm_compute. lia.
  - exact cc_lasting.
Defined.

#[local] Existing Instance tree_decoder.
#[local] Existing Instance tree_decoder_laws.

(** Gateways in front of "a" and "b". *)
Definition cc_gateway (a : string) : GatewayConfig := mkGatewayConfig 8080 a "" false "" "".
Definition cc_post (w : net) := gateway_ServeHTTP (cc_gateway "a") (item_request "POST" "/api/v1/add" "x") w.
Definition cc_query (w : net) := gateway_ServeHTTP (cc_gateway "b") (item_request "POST" "/api/v1/contains" "x") w.

Lemma gateway_reads_writes_witness :
  h_Body (cc_query (cc_post (cc_start cc_script)).1).2 =
    Some (APIResponse_json true (Some (JObj [("exists"%string, JBool true)])) "" "").
Proof.
  apply (@gateway_reads_writes _ _ _ _ _ _ _ lib_raft net _ cc_client ex_f0 (net_laws ex_f0) cc_nodes
    (cc_gateway "a") (cc_gateway "b") "x" (k_start ex_f0 cc_nodes) (cc_start cc_script) (cc_post (cc_start cc_script)).1
    (cc_query (cc_post (cc_start cc_script)).1).1 (cc_post (cc_start cc_script)).2
    (cc_query (cc_post (cc_start cc_script)).1).2 (mkReplica cc_f1 1) 7 3).
  - exact ex_params.
  - exact ex_New.
  - done.
  - done.
  - exact cc_reachable.
  - apply cc_represents.
  - vm_compute. reflexivity.
  - vm_compute. reflexivity.
  - vm_compute. reflexivity.
  - vm_compute. reflexivity.
  - vm_compute. reflexivity.
  - vm_compute. lia.
  - exact cc_lasting.
Defined.
End witnesses.
