(* ===== verification/Tls.v ===== *)
(** TLS configuration: [pkg/tls/config.go], the credentials of [auth.go], the
    listener of [server.go], and the stream layers of [tls_transport.go] and
    [node.go].

    [crypto/tls] and [crypto/x509] are classes of parameters ([X509],
    [TlsLib]); files are a map.  A [tls.Config] is the record of the fields
    the sources set; its callback [GetCertificate] is represented by the
    reloader it reads. *)

From S2P Require Import Prelude GoBytes GoFmt NetAddr Grpc.
From Stdlib Require Import Ascii String.
#[local] Open Scope Z_scope.

(** * Libraries *)

Inductive ClientAuthType : Type :=
  | NoClientCert | RequestClientCert | RequireAnyClientCert
  | VerifyClientCertIfGiven | RequireAndVerifyClientCert.
#[export] Instance ClientAuthType_eq_dec : EqDecision ClientAuthType.
Proof. solve_decision. Defined.

Class TlsLib `{X509} : Type := {
  KeyPair : Type;
  X509KeyPair : list byte → list byte → option KeyPair;
  CertPool : Type;
  NewCertPool : CertPool;
  AddCert : Certificate → CertPool → CertPool;
  AppendCertsFromPEM : list byte → option CertPool;        (* into an empty pool *)
  pool_Verify : Certificate → CertPool → bool
}.

(** A certificate in DER is an ASN.1 sequence: its first byte is 48. *)
Class TlsLibLaws `{TlsLib} : Prop := {
  ParseCertificate_der data c : ParseCertificate data = Some c → head data = Some (byte_of 48)
}.

Abbreviation files := (gmap string (list byte)).

Section tls.
Context `{TlsLib}.

Record tls_Config : Type := mkTlsConfig {
  tc_Certificates : list KeyPair;
  tc_MinVersion : Z;
  tc_CipherSuites : list Z;
  tc_ClientAuth : ClientAuthType;
  tc_ClientCAs : option CertPool;
  tc_RootCAs : option CertPool;
  tc_ServerName : string;
  tc_InsecureSkipVerify : bool
}.

Definition VersionTLS12 : Z := 0x0303.
Definition VersionTLS13 : Z := 0x0304.

(** * pkg/tls *)

Record Config : Type := mkConfig {
  CertPath : string;
  KeyPath : string;
  CAPath : string;
  MinVersion : Z;
  CipherSuites : list Z;
  ClientAuth : ClientAuthType
}.

Definition secureCipherSuites : list Z := [0x1301; 0x1302; 0x1303].

Definition DefaultTLSConfig : Config :=
  mkConfig "" "" "" VersionTLS13 secureCipherSuites RequireAndVerifyClientCert.

Inductive tls_error : Type :=
  | ELoadCertificate | EReadCA | EParseCA | EDecodePEM | EParseCertificate | EVerify | EHandshake | EDialTCP | EListen.

Definition LoadTLSCertificate (fs : files) (certPath keyPath : string) : result tls_error KeyPair :=
  match fs !! certPath, fs !! keyPath with
  | Some c, Some k => match X509KeyPair c k with Some p => Ok p | None => Err ELoadCertificate end
  | _, _ => Err ELoadCertificate
  end.

Definition LoadCACertPool (fs : files) (caPath : string) : result tls_error CertPool :=
  match fs !! caPath with
  | None => Err EReadCA
  | Some pem => match AppendCertsFromPEM pem with Some p => Ok p | None => Err EParseCA end
  end.

Definition server_config (cfg : Config) (cert : KeyPair) (cas : option CertPool) : tls_Config :=
  mkTlsConfig [cert] (MinVersion cfg) (CipherSuites cfg) (ClientAuth cfg) cas None "" false.

Definition BuildTLSConfig (fs : files) (cfg : Config) : result tls_error tls_Config :=
  cert ← LoadTLSCertificate fs (CertPath cfg) (KeyPath cfg);
  if decide (CAPath cfg ≠ "" ∧ ClientAuth cfg ≠ NoClientCert) then
    pool ← LoadCACertPool fs (CAPath cfg); Ok (server_config cfg cert (Some pool))
  else Ok (server_config cfg cert None).

Record CertReloader : Type := mkReloader {
  cr_config : Config;
  cr_cert : option KeyPair;
  cr_caPool : option CertPool;
  cr_lastLoad : option Z;            (* the zero time until the first load *)
  cr_reloadDur : Z
}.

(** The certificate is stored before the pool is read. *)
Definition reload (fs : files) (now : Z) (r : CertReloader) : CertReloader * option tls_error :=
  let c := cr_config r in
  match LoadTLSCertificate fs (CertPath c) (KeyPath c) with
  | Err e => (r, Some e)
  | Ok cert =>
      let r := mkReloader c (Some cert) (cr_caPool r) (cr_lastLoad r) (cr_reloadDur r) in
      if decide (CAPath c ≠ "") then
        match LoadCACertPool fs (CAPath c) with
        | Err e => (r, Some e)
        | Ok pool => (mkReloader c (Some cert) (Some pool) (Some now) (cr_reloadDur r), None)
        end
      else (mkReloader c (Some cert) (cr_caPool r) (Some now) (cr_reloadDur r), None)
  end.

Definition NewCertReloader (fs : files) (now : Z) (cfg : Config) (reloadInterval : Z) : result tls_error CertReloader :=
  match reload fs now (mkReloader cfg None None None reloadInterval) with
  | (r, None) => Ok r
  | (_, Some e) => Err e
  end.

Definition needs_reload (now : Z) (r : CertReloader) : bool :=
  match cr_lastLoad r with Some t => bool_decide (cr_reloadDur r < now - t) | None => true end.

(** A nil certificate would panic; a constructed reloader has one. *)
Definition GetTLSConfig (fs : files) (now : Z) (r : CertReloader) : CertReloader * go (result tls_error tls_Config) :=
  let '(r, e) := if needs_reload now r then reload fs now r else (r, None) in
  (r, match e with
      | Some e => Ret (Err e)
      | None => match cr_cert r with
                | None => Panic NilDereference
                | Some cert => Ret (Ok (server_config (cr_config r) cert (cr_caPool r)))
                end
      end).

(** The callback of the configuration: whatever certificate the reloader holds. *)
Definition GetCertificate (r : CertReloader) : option KeyPair := cr_cert r.

Definition ValidateCertificate (certPEM : list byte) (caPool : CertPool) : result tls_error unit :=
  match pem_Decode certPEM with
  | Some (ty, der) =>
      if decide (ty = "CERTIFICATE") then
        match ParseCertificate der with
        | None => Err EParseCertificate
        | Some c => if pool_Verify c caPool then Ok tt else Err EVerify
        end
      else Err EDecodePEM
  | None => Err EDecodePEM
  end.

(** * The gRPC server *)

Definition LoadTLSCredentials (fs : files) (certPath keyPath caPath : string) : result tls_error tls_Config :=
  cert ← LoadTLSCertificate fs certPath keyPath;
  pool ← LoadCACertPool fs caPath;
  Ok (mkTlsConfig [cert] VersionTLS12 [] RequireAndVerifyClientCert (Some pool) None "" false).

Record ServerTLS : Type := mkServerTLS {
  TLSMinVersion : Z;
  TLSCertPath : string;
  TLSKeyPath : string;
  TLSCAPath : string;
  TLSReloadInterval : Z
}.

(** The configuration of the listener, and the reloader behind it if there is one. *)
Definition listener_config (c : ServerTLS) : Config :=
  mkConfig (TLSCertPath c) (TLSKeyPath c) (TLSCAPath c)
    (if decide (TLSMinVersion c = 0) then VersionTLS13 else TLSMinVersion c) [] RequireAndVerifyClientCert.

Definition createTLSListener (fs : files) (now : Z) (c : ServerTLS)
  : go (result tls_error (tls_Config * option CertReloader)) :=
  let cfg := listener_config c in
  if decide (0 < TLSReloadInterval c) then
    match NewCertReloader fs now cfg (TLSReloadInterval c) with
    | Err e => Ret (Err e)
    | Ok r =>
        let '(r, t) := GetTLSConfig fs now r in
        t ← t; Ret (match t with Ok t => Ok (t, Some r) | Err e => Err e end)
    end
  else Ret (match BuildTLSConfig fs cfg with Ok t => Ok (t, None) | Err e => Err e end).

(** * Raft over TLS *)

Record RaftTLSConfig : Type := mkRaftTLS { rt_EnableTLS : bool; rt_tls : ServerTLS }.

(** The [tlsConfig] of [NewNodeWithTLS]: none unless TLS is enabled. *)
Definition NewNodeWithTLS_config (fs : files) (now : Z) (c : option RaftTLSConfig)
  : go (result tls_error (option tls_Config)) :=
  match c with
  | Some c =>
      if rt_EnableTLS c then
        r ← createTLSListener fs now (rt_tls c);
        Ret (match r with Ok (t, _) => Ok (Some t) | Err e => Err e end)
      else Ret (Ok None)
  | None => Ret (Ok None)
  end.

(** A client handshake: the library refuses a configuration that says neither which
    name to expect nor to skip the check. *)
Definition client_config_ok (c : tls_Config) : bool :=
  negb (bool_decide (tc_ServerName c = "")) || tc_InsecureSkipVerify c.

(** [tlsStreamLayer.Dial]: [connects] and [peer_ok] say whether the TCP connection
    and the rest of the handshake would succeed. *)
Definition node_Dial (connects peer_ok : bool) (c : tls_Config) : result tls_error unit :=
  if connects then if client_config_ok c && peer_ok then Ok tt else Err EHandshake else Err EDialTCP.

(** [tls_transport.go] *)
Record TLSConfig : Type := mkTLSConfig {
  CAFile : string;
  CertFile : string;
  KeyFile : string;
  ServerName : string;
  InsecureSkipVerify : bool;
  tt_MinVersion : Z
}.

Definition loadCAFile (fs : files) (caFile : string) : result tls_error Certificate :=
  match fs !! caFile with
  | None => Err EReadCA
  | Some pem => match ParseCertificate pem with Some c => Ok c | None => Err EParseCA end
  end.

Definition NewTLSStreamLayer (listens : bool) (fs : files) (c : TLSConfig) : result tls_error tls_Config :=
  cert ← LoadTLSCertificate fs (CertFile c) (KeyFile c);
  pool ← (if decide (CAFile c ≠ "") then ca ← loadCAFile fs (CAFile c); Ok (AddCert ca NewCertPool)
          else Ok NewCertPool);
  if listens then
    Ok (mkTlsConfig [cert] (tt_MinVersion c) []
          (if InsecureSkipVerify c then RequireAnyClientCert else RequireAndVerifyClientCert)
          (Some pool) None (ServerName c) false)
  else Err EListen.

(** The configuration [TLSStreamLayer.Dial] uses: a clone of the server's. *)
Definition dial_config (layer : tls_Config) (serverName : string) : tls_Config :=
  mkTlsConfig (tc_Certificates layer) (tc_MinVersion layer) (tc_CipherSuites layer) (tc_ClientAuth layer)
    (tc_ClientCAs layer) (tc_RootCAs layer) serverName false.
End tls.

(** * Theorems *)

Section theorems.
Context `{TlsLib}.

(** A fresh reloader holds what the files hold. *)
Lemma NewCertReloader_spec fs now cfg d :
  NewCertReloader fs now cfg d =
    (cert ← LoadTLSCertificate fs (CertPath cfg) (KeyPath cfg);
     if decide (CAPath cfg ≠ "") then
       pool ← LoadCACertPool fs (CAPath cfg); Ok (mkReloader cfg (Some cert) (Some pool) (Some now) d)
     else Ok (mkReloader cfg (Some cert) None (Some now) d)).
Proof.
  unfold NewCertReloader, reload. cbn [cr_config cr_caPool cr_lastLoad cr_reloadDur].
  destruct (LoadTLSCertificate fs _ _) as [cert|e]; [|done]. cbn [mbind result_bind].
  case_decide; [|done]. by destruct (LoadCACertPool fs _).
Qed.

Definition with_reloader (c : ServerTLS) (now : Z) (t : tls_Config) : option CertReloader :=
  if decide (0 < TLSReloadInterval c)
  then Some (mkReloader (listener_config c) (head (tc_Certificates t)) (tc_ClientCAs t) (Some now) (TLSReloadInterval c))
  else None.

Lemma createTLSListener_eq fs now c :
  createTLSListener fs now c = Ret (t ← BuildTLSConfig fs (listener_config c); Ok (t, with_reloader c now t)).
Proof.
  unfold createTLSListener, BuildTLSConfig, with_reloader. rewrite NewCertReloader_spec.
  destruct (LoadTLSCertificate fs _ _) as [cert|e]; cbn [mbind result_bind].
  2: { by case_decide. }
  destruct (decide (CAPath (listener_config c) ≠ "")) as [Hca|Hca].
  + rewrite (decide_True (P := _ ∧ _)) by done.
    destruct (LoadCACertPool fs _) as [pool|e]; cbn [mbind result_bind]; [|by case_decide].
    case_decide as Hi; [|done]. unfold GetTLSConfig, needs_reload. cbn [cr_lastLoad cr_reloadDur].
    rewrite bool_decide_eq_false_2 by lia. done.
  + rewrite (decide_False (P := _ ∧ _)) by tauto. case_decide as Hi; [|done].
    unfold GetTLSConfig, needs_reload. cbn [cr_lastLoad cr_reloadDur]. rewrite bool_decide_eq_false_2 by lia. done.
Qed.

(** The listener never panics, and with or without hot reload it is configured
    alike: as [BuildTLSConfig] does from the files of the moment, requiring and
    verifying client certificates, with the configured or TLS 1.3 as minimum; the
    certificates of clients are checked against the configured file, or against the
    roots of the system exactly when no file is configured. *)
Theorem createTLSListener_spec fs now c :
  createTLSListener fs now c = Ret (t ← BuildTLSConfig fs (listener_config c); Ok (t, with_reloader c now t)) ∧
  ∀ t, BuildTLSConfig fs (listener_config c) = Ok t →
    tc_ClientAuth t = RequireAndVerifyClientCert ∧ tc_MinVersion t ≠ 0 ∧
    (tc_ClientCAs t = None ↔ TLSCAPath c = "").
Proof.
  split; [apply createTLSListener_eq|].
  intros t. unfold BuildTLSConfig. destruct (LoadTLSCertificate fs _ _) as [cert|e]; [|done]. cbn [mbind result_bind].
    assert (MinVersion (listener_config c) ≠ 0) as Hv. { cbn. by case_decide. }
    case_decide as Hca.
    + destruct (LoadCACertPool fs _) as [pool|e]; [|done]. intros [= <-]. split_and!; [done..|]. cbn.
      split; [done|]. intros Hp. by destruct Hca as [[] _].
    + intros [= <-]. split_and!; [done..|]. cbn. split; [|done]. intros _.
      destruct (decide (TLSCAPath c = "")) as [|Hp]; [done|]. exfalso. apply Hca. split; [exact Hp|done].
Qed.

(** A reload that fails on the CA file has already replaced the certificate: the
    reloader then serves the new certificate with the old pool. *)
Theorem reload_failure_mixes fs now r cert e : LoadTLSCertificate fs (CertPath (cr_config r)) (KeyPath (cr_config r)) = Ok cert →
  CAPath (cr_config r) ≠ "" → LoadCACertPool fs (CAPath (cr_config r)) = Err e →
  reload fs now r = (mkReloader (cr_config r) (Some cert) (cr_caPool r) (cr_lastLoad r) (cr_reloadDur r), Some e).
Proof. intros Hc Hca He. unfold reload. rewrite Hc. rewrite decide_True by done. cbn. by rewrite He. Qed.

(** When the interval has passed, [GetTLSConfig] reads the files again. *)
Lemma GetTLSConfig_reloads fs now r cert pool : needs_reload now r = true → CAPath (cr_config r) ≠ "" →
  LoadTLSCertificate fs (CertPath (cr_config r)) (KeyPath (cr_config r)) = Ok cert →
  LoadCACertPool fs (CAPath (cr_config r)) = Ok pool →
  (GetTLSConfig fs now r).2 = Ret (Ok (server_config (cr_config r) cert (Some pool))) ∧
  GetCertificate (GetTLSConfig fs now r).1 = Some cert.
Proof.
  intros Hn Hca Hc Hp. unfold GetTLSConfig. rewrite Hn. unfold reload. rewrite Hc.
  rewrite decide_True by done. rewrite Hp. done.
Qed.

(** [ValidateCertificate] accepts exactly a PEM certificate that verifies against
    the pool. *)
Lemma ValidateCertificate_spec pem pool : ValidateCertificate pem pool = Ok tt ↔
  ∃ der c, pem_Decode pem = Some ("CERTIFICATE"%string, der) ∧ ParseCertificate der = Some c ∧ pool_Verify c pool = true.
Proof.
  unfold ValidateCertificate. split.
  - destruct (pem_Decode pem) as [[ty der]|]; [|done]. case_decide; [|done]. subst ty.
    destruct (ParseCertificate der) as [c|] eqn:Hc; [|done]. destruct (pool_Verify c pool) eqn:Hv; [|done].
    intros _. by exists der, c.
  - intros (der & c & -> & Hc & Hv). rewrite decide_True by done. by rewrite Hc, Hv.
Qed.

(** A Raft node configured with TLS cannot reach its peers: the configuration it
    dials with names no server and does not skip the check, so every handshake
    fails, whatever the certificates. *)
Theorem raft_tls_dial_fails fs now c t peer_ok :
  NewNodeWithTLS_config fs now (Some c) = Ret (Ok (Some t)) → node_Dial true peer_ok t = Err EHandshake.
Proof.
  unfold NewNodeWithTLS_config. destruct (rt_EnableTLS c); [|done].
  assert (∀ t r, createTLSListener fs now (rt_tls c) = Ret (Ok (t, r)) →
    tc_ServerName t = "" ∧ tc_InsecureSkipVerify t = false) as Hplain.
  { rewrite createTLSListener_eq. intros t' r'. unfold BuildTLSConfig.
    destruct (LoadTLSCertificate fs _ _) as [cert|e]; [|done]. cbn [mbind result_bind].
    case_decide; [destruct (LoadCACertPool fs _); [|done]|]; by intros [= <- _]. }
  destruct (createTLSListener fs now (rt_tls c)) as [[[t' r]|e]|p]; try done. intros [= ->].
  destruct (Hplain t r eq_refl) as [Hs Hi]. unfold node_Dial, client_config_ok. by rewrite Hs, Hi.
Qed.

(** The stream layer of [tls_transport.go] cannot load a PEM file, although that is
    what the file is documented to be: the bytes are parsed as DER.  Without a CA file
    the pool is empty; either way peers are dialled against the roots of the system. *)
Theorem stream_layer_refuses_pem `{!TlsLibLaws} listens fs c pem :
  CAFile c ≠ "" → fs !! CAFile c = Some pem → head pem = Some (byte_of 45) →
  NewTLSStreamLayer listens fs c = Err (if is_ok (LoadTLSCertificate fs (CertFile c) (KeyFile c)) then EParseCA else ELoadCertificate) ∧
  ∀ c' t, CAFile c' = "" → NewTLSStreamLayer listens fs c' = Ok t →
    tc_ClientCAs t = Some NewCertPool ∧ tc_RootCAs (dial_config t (ServerName c')) = None.
Proof.
  intros Hca Hf Hpem. split.
  - unfold NewTLSStreamLayer.
    assert (loadCAFile fs (CAFile c) = Err EParseCA) as Hl.
    { unfold loadCAFile. rewrite Hf. destruct (ParseCertificate pem) as [x|] eqn:Hp; [|done].
      apply ParseCertificate_der in Hp. rewrite Hpem in Hp. by vm_compute in Hp. }
    destruct (LoadTLSCertificate fs _ _) as [cert|e] eqn:Hc; cbn [mbind result_bind is_ok].
    + rewrite decide_True by done. by rewrite Hl.
    + f_equal. revert Hc. unfold LoadTLSCertificate. repeat case_match; congruence.
  - intros c' t Hca'. unfold NewTLSStreamLayer. destruct (LoadTLSCertificate fs _ _); [|done]. cbn [mbind result_bind].
    rewrite decide_False by naive_solver. cbn [mbind result_bind]. destruct listens; [|done]. by intros [= <-].
Qed.
End theorems.

(** * Instances *)

#[local] Instance wit_x509 : X509 :=
  {| Certificate := unit; pem_Decode _ := None;
     ParseCertificate l := if decide (head l = Some (byte_of 48)) then Some tt else None;
     cert_Verify _ _ := true |}.
#[local] Instance wit_tls : TlsLib :=
  {| KeyPair := unit; X509KeyPair _ _ := Some tt; CertPool := nat; NewCertPool := O; AddCert _ n := S n;
     AppendCertsFromPEM _ := Some 1%nat; pool_Verify _ _ := true |}.
#[local] Instance wit_tls_laws : TlsLibLaws.
Proof. split. intros data c. cbn. by case_decide. Qed.

Definition wit_files : files :=
  {[ "cert" := [byte_of 45]; "key" := [byte_of 45]; "ca" := [byte_of 45] ]}.
Definition wit_server : ServerTLS := mkServerTLS 0 "cert" "key" "ca" 60.

Definition wit_pool : @CertPool _ wit_tls := 7%nat.
Definition wit_pair : @KeyPair _ wit_tls := tt.
Definition wit_reloader : @CertReloader _ wit_tls :=
  mkReloader (mkConfig "cert" "key" "missing" 0 [] RequireAndVerifyClientCert) None (Some wit_pool) (Some 0) 60.

Definition wit_config : @tls_Config _ wit_tls :=
  server_config (listener_config wit_server) wit_pair (Some (1%nat : @CertPool _ wit_tls)).

Lemma raft_tls_dial_fails_witness :
  NewNodeWithTLS_config wit_files 0 (Some (mkRaftTLS true wit_server)) = Ret (Ok (Some wit_config)) ∧
  node_Dial true true wit_config = Err EHandshake.
Proof.
  split; [reflexivity|]. apply (raft_tls_dial_fails wit_files 0 (mkRaftTLS true wit_server) wit_config true). reflexivity.
Defined.

Lemma stream_layer_refuses_pem_witness :
  NewTLSStreamLayer true wit_files (mkTLSConfig "ca" "cert" "key" "node" false 0) = Err EParseCA ∧
  ∀ c' t, CAFile c' = "" → NewTLSStreamLayer true wit_files c' = Ok t →
    tc_ClientCAs t = Some NewCertPool ∧ tc_RootCAs (dial_config t (ServerName c')) = None.
Proof.
  exact (stream_layer_refuses_pem true wit_files (mkTLSConfig "ca" "cert" "key" "node" false 0) [byte_of 45]
    ltac:(done) ltac:(done) ltac:(done)).
Defined.

Lemma reload_failure_mixes_witness :
  reload wit_files 99 wit_reloader =
    (mkReloader (cr_config wit_reloader) (Some wit_pair) (Some wit_pool) (Some 0) 60, Some EReadCA).
Proof. by apply (reload_failure_mixes wit_files 99 wit_reloader wit_pair EReadCA). Defined.
