(* ===== verification/Lifecycle.v ===== *)
(** Starting and stopping a node ([internal/raft/node.go]) and the mutex they
    hold while they call the Raft library.

    [Start] and [Shutdown] hold [Node.mu] throughout.  The library, as
    documented, restores the latest snapshot into the state machine before
    [NewRaft] returns, and the future of [Shutdown] waits for its background
    routines, one of which calls [Apply].  [Restore] and [Apply] take
    [Node.mu] themselves.  Threads run the lock operations of these methods,
    and [NJoin] waits for another thread to end. *)

From S2P Require Import Prelude GoFmt.
From Stdlib Require Import Ascii String.
#[local] Open Scope Z_scope.

(** * Start and Shutdown *)

(** Whether each call of [Start] succeeds. *)
Record start_env : Type := mkStartEnv {
  se_MkdirAll : bool;
  se_NewBoltStore : bool;
  se_NewFileSnapshotStore : bool;
  se_ResolveTCPAddr : bool;
  se_transport : bool;
  se_NewRaft : bool;
  se_Bootstrap : bool
}.

Inductive start_error : Type :=
  | SMkdir | SBoltStore | SSnapshotStore | SResolve | STransport | SNewRaft | SBootstrap.

(** The fields of [Node] that [Start] fills: nil or open or closed. *)
Inductive resource : Type := RNil | ROpen | RClosed.
#[export] Instance resource_eq_dec : EqDecision resource.
Proof. solve_decision. Defined.

Record node_res : Type := mkRes {
  res_raftStore : resource;
  res_transport : resource;
  res_raftNode : resource
}.

Definition new_node_res : node_res := mkRes RNil RNil RNil.

(** The address bound and, when bootstrapping, advertised. *)
Definition bindAddr (raftPort : Z) : string := "127.0.0.1:" +:+ Sprintf_int raftPort.

Definition Start (env : start_env) (bootstrap : bool) (n : node_res) : node_res * option start_error :=
  if negb (se_MkdirAll env) then (n, Some SMkdir)
  else if negb (se_NewBoltStore env) then (n, Some SBoltStore)
  else
    let n := mkRes ROpen (res_transport n) (res_raftNode n) in
    if negb (se_NewFileSnapshotStore env) then (n, Some SSnapshotStore)
    else if negb (se_ResolveTCPAddr env) then (n, Some SResolve)
    else if negb (se_transport env) then (n, Some STransport)
    else
      let n := mkRes ROpen ROpen (res_raftNode n) in
      if negb (se_NewRaft env) then (n, Some SNewRaft)
      else
        let n := mkRes ROpen ROpen ROpen in
        if bootstrap && negb (se_Bootstrap env) then (n, Some SBootstrap) else (n, None).

(** What is open is closed; the fields are not set to nil. *)
Definition close (r : resource) : resource := match r with RNil => RNil | _ => RClosed end.

Definition node_Shutdown (n : node_res) : node_res :=
  mkRes (close (res_raftStore n)) (close (res_transport n)) (close (res_raftNode n)).

(** * The mutex *)

Inductive nact : Type :=
  | NLock | NDrain | NUnlock        (* Lock takes the writer slot, then waits for the readers *)
  | NRLock | NRUnlock
  | NJoin (t : nat)
  | NStore | NTransport | NRaft     (* the fields of the node, as they are filled *)
  | NReturn (e : option start_error).

Definition Restore_acts : list nact := [NLock; NDrain; NUnlock].
Definition Apply_acts : list nact := [NLock; NDrain; NUnlock].

(** [Start] call by call, between taking the mutex and the deferred [Unlock].  [restores]: there is a
    stored snapshot and [NewRaft] gets as far as restoring it, which it does before it returns. *)
Definition Start_body (env : start_env) (restores bootstrap : bool) : list nact :=
  if negb (se_MkdirAll env) then [NReturn (Some SMkdir)]
  else if negb (se_NewBoltStore env) then [NReturn (Some SBoltStore)]
  else NStore ::
    if negb (se_NewFileSnapshotStore env) then [NReturn (Some SSnapshotStore)]
    else if negb (se_ResolveTCPAddr env) then [NReturn (Some SResolve)]
    else if negb (se_transport env) then [NReturn (Some STransport)]
    else NTransport ::
      (if restores then Restore_acts else []) ++
      if negb (se_NewRaft env) then [NReturn (Some SNewRaft)]
      else NRaft ::
        if bootstrap && negb (se_Bootstrap env) then [NReturn (Some SBootstrap)] else [NReturn None].

Definition Start_acts (env : start_env) (restores bootstrap : bool) : list nact :=
  [NLock; NDrain] ++ Start_body env restores bootstrap ++ [NUnlock].

(** [Start] calls [NewRaft]. *)
Definition calls_NewRaft (env : start_env) : bool :=
  se_MkdirAll env && se_NewBoltStore env && se_NewFileSnapshotStore env && se_ResolveTCPAddr env && se_transport env.

(** [Shutdown] waits for the routine of the state machine. *)
Definition Shutdown_acts (fsm : nat) : list nact := [NLock; NDrain; NJoin fsm; NUnlock].

Record nstate : Type := mkN {
  n_readers : Z;
  n_writer : option nat;
  n_res : node_res;
  n_returned : option (option start_error);
  n_threads : list (list nact)
}.

(** What the calls that do not wait do to the node and the result. *)
Definition n_open (a : nact) (n : node_res) : node_res :=
  match a with
  | NStore => mkRes ROpen (res_transport n) (res_raftNode n)
  | NTransport => mkRes (res_raftStore n) ROpen (res_raftNode n)
  | NRaft => mkRes (res_raftStore n) (res_transport n) ROpen
  | _ => n
  end.
Definition n_answer (a : nact) (r : option (option start_error)) : option (option start_error) :=
  match a with NReturn e => Some e | _ => r end.
Definition plain (a : nact) : Prop := match a with NStore | NTransport | NRaft | NReturn _ => True | _ => False end.

Inductive nstep : nstate → nstate → Prop :=
  | ns_rlock r n e ts t p : ts !! t = Some (NRLock :: p) → nstep (mkN r None n e ts) (mkN (r + 1) None n e (<[t := p]> ts))
  | ns_runlock r w n e ts t p : ts !! t = Some (NRUnlock :: p) → nstep (mkN r w n e ts) (mkN (r - 1) w n e (<[t := p]> ts))
  | ns_lock r n e ts t p : ts !! t = Some (NLock :: p) → nstep (mkN r None n e ts) (mkN r (Some t) n e (<[t := p]> ts))
  | ns_drain n e ts t p : ts !! t = Some (NDrain :: p) → nstep (mkN 0 (Some t) n e ts) (mkN 0 (Some t) n e (<[t := p]> ts))
  | ns_unlock r n e ts t p : ts !! t = Some (NUnlock :: p) → nstep (mkN r (Some t) n e ts) (mkN r None n e (<[t := p]> ts))
  | ns_join r w n e ts t u p : ts !! t = Some (NJoin u :: p) → ts !! u = Some [] →
      nstep (mkN r w n e ts) (mkN r w n e (<[t := p]> ts))
  | ns_plain r w n e ts t a p : ts !! t = Some (a :: p) → plain a →
      nstep (mkN r w n e ts) (mkN r w (n_open a n) (n_answer a e) (<[t := p]> ts)).

Definition n_start (threads : list (list nact)) : nstate := mkN 0 None new_node_res None threads.
Definition n_finished (s : nstate) : Prop := Forall (λ p, p = []) (n_threads s).
Definition n_stuck (s : nstate) : Prop := ¬ n_finished s ∧ ∀ s', ¬ nstep s s'.

(** * Theorems *)

(** A failed [Start] leaves no Raft instance, so that later proposals answer that
    the node is not started, except when only the bootstrap failed: then the instance
    runs although [Start] returned an error.  What was opened before the failure
    stays open until [Shutdown], which leaves nothing open. *)
Theorem Start_outcome env bootstrap :
  let '(n, e) := Start env bootstrap new_node_res in
  (e = None → n = mkRes ROpen ROpen ROpen) ∧
  (∀ err, e = Some err → err ≠ SBootstrap → res_raftNode n = RNil) ∧
  (e = Some SBootstrap → res_raftNode n = ROpen) ∧
  (e ≠ Some SMkdir → e ≠ Some SBoltStore → res_raftStore n = ROpen) ∧
  res_raftStore (node_Shutdown n) ≠ ROpen ∧ res_transport (node_Shutdown n) ≠ ROpen ∧
  res_raftNode (node_Shutdown n) ≠ ROpen.
Proof.
  destruct env as [[] [] [] [] [] [] []], bootstrap; cbn; split_and!; naive_solver.
Qed.

(** ** Start and Restore *)

Lemma insert_ne_head {A} (l : list A) t x y : t ≠ 0%nat → l !! 0%nat = Some x → <[t := y]> l !! 0%nat = Some x.
Proof. intros Ht Hx. by rewrite list_lookup_insert_ne. Qed.

Lemma insert_head {A} (l : list A) x y : l !! 0%nat = Some x → <[0%nat := y]> l !! 0%nat = Some y.
Proof. by destruct l. Qed.

(** Thread 0 holds the mutex and will ask for it again. *)
Definition doomed (s : nstate) : Prop :=
  n_writer s = Some 0%nat ∧ ∃ pre suf, n_threads s !! 0%nat = Some (pre ++ NLock :: suf) ∧ Forall plain pre.

Lemma doomed_step a b : doomed a → nstep a b → doomed b.
Proof.
  intros [Hw (pre & suf & H0 & Hpre)] Hs. destruct Hs as [r n e ts t p Ht|r w n e ts t p Ht|r n e ts t p Ht|n e ts t p Ht|r n e ts t p Ht
    |r w n e ts t u p Ht Hu|r w n e ts t x p Ht Hx]; cbn in *; try done.
  - destruct (decide (t = 0%nat)) as [->|Hne]; [|split; [done|]; exists pre, suf; split; [by apply insert_ne_head|done]].
    rewrite H0 in Ht. destruct Hpre as [|? ? Hp]; cbn in Ht; simplify_eq. done.
  - injection Hw as ->. rewrite H0 in Ht. destruct Hpre as [|? ? Hp]; cbn in Ht; simplify_eq. done.
  - injection Hw as ->. rewrite H0 in Ht. destruct Hpre as [|? ? Hp]; cbn in Ht; simplify_eq. done.
  - destruct (decide (t = 0%nat)) as [->|Hne]; [|split; [done|]; exists pre, suf; split; [by apply insert_ne_head|done]].
    rewrite H0 in Ht. destruct Hpre as [|? ? Hp]; cbn in Ht; simplify_eq. done.
  - destruct (decide (t = 0%nat)) as [->|Hne]; [|split; [done|]; exists pre, suf; split; [by apply insert_ne_head|done]].
    rewrite H0 in Ht. destruct Hpre as [|y pre Hp Hpre]; cbn in Ht; simplify_eq; [done|].
    split; [done|]. exists pre, suf. split; [by eapply insert_head|done].
Qed.

(** Thread 0 has not come further than the request that dooms it. *)
Definition before_doom (s : nstate) : Prop :=
  (∃ pre suf, n_threads s !! 0%nat = Some ([NLock; NDrain] ++ pre ++ NLock :: suf) ∧ Forall plain pre) ∨
  (n_writer s = Some 0%nat ∧ ∃ pre suf, n_threads s !! 0%nat = Some (NDrain :: pre ++ NLock :: suf) ∧ Forall plain pre) ∨
  doomed s.

Lemma before_doom_step a b : before_doom a → nstep a b → before_doom b.
Proof.
  intros [(pre & suf & H0 & Hpre)|[[Hw (pre & suf & H0 & Hpre)]|Hd]] Hs; [| |right; right; by eapply doomed_step].
  - destruct Hs as [r n e ts t p Ht|r w n e ts t p Ht|r n e ts t p Ht|n e ts t p Ht|r n e ts t p Ht
      |r w n e ts t u p Ht Hu|r w n e ts t x p Ht Hx]; cbn in *;
      (destruct (decide (t = 0%nat)) as [->|Hne]; [rewrite H0 in Ht; simplify_eq|
        left; exists pre, suf; split; [by apply insert_ne_head|done]]).
    + right; left. split; [done|]. exists pre, suf. split; [by eapply insert_head|done].
    + done.
  - destruct Hs as [r n e ts t p Ht|r w n e ts t p Ht|r n e ts t p Ht|n e ts t p Ht|r n e ts t p Ht
      |r w n e ts t u p Ht Hu|r w n e ts t x p Ht Hx]; cbn in *; try done;
      (destruct (decide (t = 0%nat)) as [->|Hne]; [rewrite H0 in Ht; simplify_eq|
        try (right; left; split; [done|]; exists pre, suf; split; [by apply insert_ne_head|done])]); try done.
    + right; right. split; [done|]. exists pre, suf. split; [by eapply insert_head|done].
    + by injection Hw as ->.
Qed.

Lemma before_doom_unfinished a b : before_doom a → rtc nstep a b → n_threads b !! 0%nat ≠ Some [].
Proof.
  intros Ha Hr. assert (before_doom b) as Hb by (induction Hr; eauto using before_doom_step).
  intros H0. destruct Hb as [(pre & suf & H1 & _)|[[_ (pre & suf & H1 & _)]|[_ (pre & suf & H1 & _)]]]; rewrite H0 in H1;
    try done. by destruct pre.
Qed.

(** A thread alone has one execution. *)
Lemma nstep_alone r w n e p s : nstep (mkN r w n e [p]) s →
  ∃ a p', p = a :: p' ∧
    match a with
    | NRLock => s = mkN (r + 1) None n e [p']
    | NRUnlock => s = mkN (r - 1) w n e [p']
    | NLock => s = mkN r (Some 0%nat) n e [p']
    | NDrain => s = mkN 0 (Some 0%nat) n e [p']
    | NUnlock => s = mkN r None n e [p']
    | NJoin u => False
    | _ => s = mkN r w (n_open a n) (n_answer a e) [p']
    end.
Proof.
  assert (∀ t q, [p] !! t = Some q → t = 0%nat ∧ q = p) as H1.
  { intros [|t] q; [by intros [= <-]|done]. }
  inversion 1 as [? ? ? ? t q Ht|? ? ? ? ? t q Ht|? ? ? ? t q Ht|? ? ? t q Ht|? ? ? ? t q Ht|? ? ? ? ? t u q Ht Hu|? ? ? ? ? t a q Ht Ha];
    subst; destruct (H1 _ _ Ht) as [-> Hq]; subst p.
  1-5: by eexists _, _.
  - by destruct (H1 _ _ Hu).
  - exists a, q. split; [done|]. by destruct a.
Qed.

Lemma nstep_alone_det r w n e p s1 s2 : nstep (mkN r w n e [p]) s1 → nstep (mkN r w n e [p]) s2 → s1 = s2.
Proof.
  intros (a & q & Hp & Ha)%nstep_alone (b & q' & Hp' & Hb)%nstep_alone. subst p. injection Hp' as <- <-.
  destruct a; by subst.
Qed.

Lemma nstep_alone_keeps r w n e p s : nstep (mkN r w n e [p]) s → ∃ p', n_threads s = [p'].
Proof. intros (a & q & _ & Ha)%nstep_alone. exists q. destruct a; by subst. Qed.

(** An execution of a thread alone that ends is where every other goes. *)
Lemma alone_confluent a b c p : n_threads a = [p] → rtc nstep a b → rtc nstep a c → (∀ s, ¬ nstep c s) → rtc nstep b c.
Proof.
  intros Hp Hb. revert p c Hp. induction Hb as [a|a a1 b Ha1 _ IH]; intros p c Hp Hc Hnf; [done|].
  inversion Hc as [|? a2 ? Ha2 Hc2]; subst; [by apply Hnf in Ha1|].
  destruct a as [r w n e ts]. cbn in Hp. subst ts. rewrite (nstep_alone_det _ _ _ _ _ _ _ Ha2 Ha1) in Hc2.
  destruct (nstep_alone_keeps _ _ _ _ _ _ Ha1) as [p' Hp']. by eapply IH.
Qed.

(** Calls that do not wait, one after the other. *)
Lemma plain_run r w n e body p : Forall plain body →
  rtc nstep (mkN r w n e [body ++ p]) (mkN r w (foldl (flip n_open) n body) (foldl (flip n_answer) e body) [p]).
Proof.
  intros Hb. revert n e. induction Hb as [|a body Ha _ IH]; intros n e; [apply rtc_refl|].
  eapply rtc_l; [eapply (ns_plain _ _ _ _ _ 0 a); done|]. apply IH.
Qed.

Lemma Start_body_plain env bootstrap restores : calls_NewRaft env && restores = false → Forall plain (Start_body env restores bootstrap).
Proof. destruct env as [[] [] [] [] [] [] []], restores, bootstrap; cbn; intros; try done; by repeat constructor. Qed.

Lemma Start_body_restores env bootstrap : calls_NewRaft env = true →
  ∃ suf, Start_body env true bootstrap = [NStore; NTransport] ++ NLock :: suf.
Proof. destruct env as [[] [] [] [] [] [] []]; try done; intros _; by eexists. Qed.

Lemma Start_body_outcome env bootstrap restores : calls_NewRaft env && restores = false →
  let body := Start_body env restores bootstrap in
  (foldl (flip n_open) new_node_res body, foldl (flip n_answer) None body) =
  ((Start env bootstrap new_node_res).1, Some (Start env bootstrap new_node_res).2).
Proof. by destruct env as [[] [] [] [] [] [] []], restores, bootstrap. Qed.

(** C40: restarting a node that has a snapshot on disk deadlocks.  [Start] holds [Node.mu] when [NewRaft]
    restores the snapshot, and [Restore] waits for the same mutex.  So if the directory, the stores, the address
    and the transport are all right and [NewRaft] gets to a stored snapshot, [Start] never returns, whatever
    other threads run beside it, and alone every execution of it comes to the deadlock.  Otherwise, that is
    without a snapshot or with a failure before it is restored, every execution of [Start] alone ends, with the
    fields of the node and the error that [Start], as the function of its calls, gives. *)
Theorem Start_deadlocks_with_snapshot env restores bootstrap :
  if calls_NewRaft env && restores then
    (∀ others s, rtc nstep (n_start (Start_acts env restores bootstrap :: others)) s → n_threads s !! 0%nat ≠ Some []) ∧
    (∀ s, rtc nstep (n_start [Start_acts env restores bootstrap]) s → ∃ s', rtc nstep s s' ∧ n_stuck s')
  else
    ∀ s, rtc nstep (n_start [Start_acts env restores bootstrap]) s → ∃ s', rtc nstep s s' ∧ n_finished s' ∧
      n_res s' = (Start env bootstrap new_node_res).1 ∧ n_returned s' = Some (Start env bootstrap new_node_res).2 ∧
      n_writer s' = None.
Proof.
  assert (∀ p s1, rtc nstep (mkN 0 (Some 0%nat) new_node_res None [p]) s1 → rtc nstep (n_start [[NLock; NDrain] ++ p]) s1) as Hlock.
  { intros p s1 Hr. eapply rtc_l; [by apply (ns_lock 0 _ _ _ 0)|]. by eapply rtc_l; [by apply (ns_drain _ _ _ 0)|]. }
  destruct (calls_NewRaft env && restores) eqn:Hc.
  - apply andb_true_iff in Hc as [Hc ->]. destruct (Start_body_restores env bootstrap Hc) as [suf Hbody]. split.
    + intros others s. apply before_doom_unfinished. left. exists [NStore; NTransport], (suf ++ [NUnlock]).
      unfold Start_acts. rewrite Hbody. split; [done|by repeat constructor].
    + intros s Hr. eexists. split.
      * eapply alone_confluent; [|exact Hr| |]; [done| |].
        -- unfold Start_acts. rewrite Hbody, <-(assoc_L (++)). apply Hlock, plain_run. by repeat constructor.
        -- intros s' Hs. inversion Hs; subst; match goal with H : [_] !! ?t = Some _ |- _ => destruct t; cbn in H; by simplify_eq end.
      * split; [unfold n_finished; cbn; by intros [? _]%Forall_cons|].
        intros s' Hs. inversion Hs; subst; match goal with H : [_] !! ?t = Some _ |- _ => destruct t; cbn in H; by simplify_eq end.
  - intros s Hr. pose proof (Start_body_outcome env bootstrap restores Hc) as Ho. cbn zeta in Ho. injection Ho as Ho1 Ho2.
    set (c := mkN 0 None (foldl (flip n_open) new_node_res (Start_body env restores bootstrap))
                (foldl (flip n_answer) None (Start_body env restores bootstrap)) [[]]).
    exists c. split; [|split_and!; [by repeat constructor|exact Ho1|exact Ho2|done]].
    eapply alone_confluent; [|exact Hr| |]; [done| |].
    + unfold Start_acts. apply Hlock. etransitivity; [by apply plain_run, Start_body_plain|].
      eapply rtc_l; [by eapply (ns_unlock 0 _ _ _ 0)|]. apply rtc_refl.
    + intros s' Hs. inversion Hs; subst; match goal with H : [_] !! ?t = Some _ |- _ => destruct t; cbn in H; by simplify_eq end.
Qed.

(** [Shutdown] deadlocks with an entry being applied: it holds [Node.mu] while it
    waits for the routine that is about to take it in [Apply].  With no entry in
    flight it completes. *)
Theorem Shutdown_deadlocks_with_Apply :
  (∃ s, rtc nstep (n_start [Shutdown_acts 1; Apply_acts]) s ∧ n_stuck s) ∧
  ∃ s, rtc nstep (n_start [Shutdown_acts 1; []]) s ∧ n_finished s.
Proof.
  split.
  - eexists. split.
    + eapply rtc_l; [by apply (ns_lock 0 _ _ _ 0)|]. eapply rtc_l; [by apply (ns_drain _ _ _ 0)|]. apply rtc_refl.
    + split.
      * unfold n_finished. cbn. intros Hf. by apply Forall_cons in Hf as [? _].
      * intros s' Hs. inversion Hs; subst;
          repeat match goal with H : [_; _] !! ?t = Some _ |- _ => destruct t as [|[|t]]; cbn in H; simplify_eq end.
        all: cbn in *; unfold Apply_acts in *; by simplify_eq.
  - eexists. split.
    + eapply rtc_l; [by apply (ns_lock 0 _ _ _ 0)|]. eapply rtc_l; [by apply (ns_drain _ _ _ 0)|].
      eapply rtc_l; [by apply (ns_join 0 _ _ _ _ 0 1)|]. eapply rtc_l; [by apply (ns_unlock 0 _ _ _ 0)|]. apply rtc_refl.
    + unfold n_finished. cbn. by repeat constructor.
Qed.
