(* ===== verification/StreamLayer.v ===== *)
(** The listeners of the TLS transports: [tlsStreamLayer] of [internal/raft/node.go], which
    binds its port on the first [Accept], and [TLSStreamLayer] of
    [internal/raft/tls_transport.go], which binds it when it is made.

    The network transport of the Raft library calls [Accept] in a loop of its own and
    leaves the loop when [Accept] fails after it was shut down; [Close] of the transport
    marks it shut down and calls [Close] of the layer.  [tlsStreamLayer] has no lock:
    every access to its field is a step.  A socket is its index in the list of those
    the process opened.  [TLSStreamLayer.Dial] is the other direction: the connection it
    makes, and what becomes of it when a step fails. *)

From S2P Require Import Prelude GoBytes GoFmt NetAddr Grpc Tls.
#[local] Open Scope Z_scope.

(** * Definitions *)

(** Where the loop of the transport and its [Close] stand. *)
Inductive acceptor : Type :=
  | AIdle                       (* about to call Accept *)
  | ABind                       (* the field was nil *)
  | AStore (sock : nat)         (* bound, not stored yet *)
  | AWait (sock : nat)          (* in Accept of the listener *)
  | AFailed                     (* Accept returned an error *)
  | AReturned.                  (* the loop is left *)

Inductive closer : Type := COpen | CMarked | CDone.

Record layer : Type := mkLayer {
  ly_listener : option nat;     (* the field, nil or a socket *)
  ly_sockets : list bool;       (* open or closed *)
  ly_taken : bool;              (* another process has the port *)
  ly_acceptor : acceptor;
  ly_closer : closer
}.

Definition port_free (l : layer) : bool := negb (ly_taken l) && forallb negb (ly_sockets l).

(** [tlsStreamLayer.Addr] and [TLSStreamLayer.Addr]. *)
Definition node_Addr (listener tcpAddr : string) (l : layer) : string :=
  match ly_listener l with Some _ => listener | None => tcpAddr end.
Definition layer_Addr (listener : string) (advertise : option string) : string := default listener advertise.

(** [createTLSTransport] makes the layer and binds nothing; it has no error to return. *)
Definition createTLSTransport (taken : bool) : layer := mkLayer None [] taken AIdle COpen.

(** [NewTLSStreamLayer] listens before it returns. *)
Definition NewTLSStreamLayer_listen (taken : bool) : option layer :=
  if taken then None else Some (mkLayer (Some 0%nat) [true] false AIdle COpen).

Inductive lstep : layer → layer → Prop :=
  | l_check_nil ss tk c : lstep (mkLayer None ss tk AIdle c) (mkLayer None ss tk ABind c)
  | l_check i ss tk c : lstep (mkLayer (Some i) ss tk AIdle c) (mkLayer (Some i) ss tk (AWait i) c)
  | l_bind f ss tk c : port_free (mkLayer f ss tk ABind c) = true →
      lstep (mkLayer f ss tk ABind c) (mkLayer f (ss ++ [true]) tk (AStore (length ss)) c)
  | l_bind_fails f ss tk c : port_free (mkLayer f ss tk ABind c) = false →
      lstep (mkLayer f ss tk ABind c) (mkLayer f ss tk AFailed c)
  | l_store f ss tk i c : lstep (mkLayer f ss tk (AStore i) c) (mkLayer (Some i) ss tk (AWait i) c)
  | l_accept f ss tk i c : ss !! i = Some true → lstep (mkLayer f ss tk (AWait i) c) (mkLayer f ss tk AIdle c)
  | l_closed f ss tk i c : ss !! i = Some false → lstep (mkLayer f ss tk (AWait i) c) (mkLayer f ss tk AFailed c)
  | l_retry f ss tk : lstep (mkLayer f ss tk AFailed COpen) (mkLayer f ss tk AIdle COpen)
  | l_return f ss tk c : c ≠ COpen → lstep (mkLayer f ss tk AFailed c) (mkLayer f ss tk AReturned c)
  (* Close *)
  | l_shutdown f ss tk a : lstep (mkLayer f ss tk a COpen) (mkLayer f ss tk a CMarked)
  | l_close_nil ss tk a : lstep (mkLayer None ss tk a CMarked) (mkLayer None ss tk a CDone)
  | l_close i ss tk a : lstep (mkLayer (Some i) ss tk a CMarked) (mkLayer (Some i) (<[i := false]> ss) tk a CDone).

(** ** Dialling *)

(** What a dial meets: whether the TCP connection is made, the deadline accepted, what
    the peer answers to the handshake, if anything, and whether the deadline is cleared. *)
Record dial_env : Type := mkDialEnv {
  de_connects : bool;
  de_SetDeadline : bool;
  de_peer : option bool;
  de_clear : bool
}.

Record conn : Type := mkConn { cn_open : bool; cn_deadline : option Z }.
Inductive dial_error : Type := DDial | DSetDeadline | DHandshake | DClearDeadline.

Section dial.
Context `{TlsLib}.

(** A configuration without a name to verify is refused before anything is sent; a
    silent peer is waited for until the deadline, or for ever. *)
Definition handshake (c : tls_Config) (deadline : option Z) (answer : option bool) : option bool :=
  if client_config_ok c then
    match answer, deadline with
    | Some ok, _ => Some ok
    | None, Some _ => Some false
    | None, None => None
    end
  else Some false.

(** The connection made, if any, and the result; [None] when the call does not return. *)
Definition layer_Dial (env : dial_env) (now timeout : Z) (layer : tls_Config) (serverName : string)
  : option (option conn * result dial_error tls_Config) :=
  let clientTLSConfig := dial_config layer serverName in
  if de_connects env then
    if de_SetDeadline env then
      match handshake clientTLSConfig (Some (now + timeout)) (de_peer env) with
      | None => None
      | Some false => Some (Some (mkConn false (Some (now + timeout))), Err DHandshake)
      | Some true =>
          if de_clear env then Some (Some (mkConn true None), Ok clientTLSConfig)
          else Some (Some (mkConn false (Some (now + timeout))), Err DClearDeadline)
      end
    else Some (Some (mkConn false None), Err DSetDeadline)
  else Some (None, Err DDial).

(** [raft.NetworkTransportConfig]; the [logOutput] argument is not used. *)
Record transport : Type := mkTransport {
  tr_Stream : tls_Config;
  tr_MaxPool : Z;
  tr_Timeout : Z;
  tr_MaxRPCsInFlight : Z
}.

Definition NewTCPTransportWithTLS (listens : bool) (fs : files) (maxPool timeout : Z) (c : TLSConfig) : result tls_error transport :=
  match NewTLSStreamLayer listens fs c with
  | Err e => Err e
  | Ok streamLayer => Ok (mkTransport streamLayer maxPool timeout 2)
  end.
End dial.

(** * Theorems *)

(** The field names the only socket, and when [Close] is done with a listener in place
    that socket is closed; [leaked] is the one other way. *)
Definition leaked (l : layer) : Prop :=
  ly_sockets l = [true] ∧ ly_closer l = CDone ∧
  match ly_acceptor l with
  | AStore i => i = 0%nat
  | AWait i => i = 0%nat ∧ ly_listener l = Some 0%nat
  | AIdle => ly_listener l = Some 0%nat
  | _ => False
  end.

Definition closed (l : layer) : Prop :=
  ly_sockets l = [false] ∧ ly_listener l = Some 0%nat ∧ ly_closer l = CDone ∧
  match ly_acceptor l with AIdle | AFailed | AReturned => True | AWait i => i = 0%nat | _ => False end.

Definition bound_inv (l : layer) : Prop :=
  (ly_sockets l = [] ∧ ly_listener l = None ∧ (ly_acceptor l ∈ [AIdle; ABind; AFailed; AReturned])) ∨
  (ly_sockets l = [true] ∧ ly_closer l ≠ CDone ∧
     (ly_listener l = None ∧ ly_acceptor l = AStore 0 ∨ ly_listener l = Some 0%nat ∧ (ly_acceptor l = AIdle ∨ ly_acceptor l = AWait 0))) ∨
  closed l ∨
  leaked l.

Lemma bound_inv_step a b : bound_inv a → lstep a b → bound_inv b.
Proof.
  unfold bound_inv, closed, leaked. intros Hi Hs. destruct Hs; cbn in *;
    repeat match goal with
    | H : _ ∨ _ |- _ => destruct H
    | H : _ ∧ _ |- _ => destruct H
    | H : _ ∈ _ :: _ |- _ => apply elem_of_cons in H as [H|H]
    | H : _ ∈ [] |- _ => by apply elem_of_nil in H
    end; simplify_eq/=; try done; rewrite ?elem_of_cons; try tauto; try naive_solver.
  all: destruct c; naive_solver.
Qed.

Lemma bound_inv_reachable tk l : rtc lstep (createTLSTransport tk) l → bound_inv l.
Proof.
  intros Hr. assert (bound_inv (createTLSTransport tk)) as Hi by (left; cbn; rewrite elem_of_cons; auto).
  induction Hr as [|a b c Hab _ IH]; [done|]. apply IH. by eapply bound_inv_step.
Qed.

Lemma leaked_stays a b : leaked a → rtc lstep a b → leaked b.
Proof.
  intros Hl Hr. induction Hr as [|a b c Hab _ IH]; [done|]. apply IH. clear IH. unfold leaked in *.
  destruct Hab; cbn in *; destruct_and?; simplify_eq/=; try done; naive_solver.
Qed.

Lemma closed_stays a b : closed a → rtc lstep a b → closed b.
Proof.
  intros Hl Hr. induction Hr as [|a b c Hab _ IH]; [done|]. apply IH. clear IH. unfold closed in *.
  destruct Hab; cbn in *; destruct_and?; simplify_eq/=; try done; naive_solver.
Qed.

(** [Close] closes the listener it finds. *)
Lemma close_closes a b : bound_inv a → ly_closer a = CMarked → ly_listener a ≠ None → lstep a b → ly_closer b = CDone → closed b.
Proof.
  unfold bound_inv, closed, leaked. intros Hi Hm Hl Hs Hd. destruct Hs; cbn in *; destruct_or?; destruct_and?; simplify_eq/=; try done;
    destruct_or?; destruct_and?; simplify_eq/=; naive_solver.
Qed.

(** Closing the transport of a node may leave its port bound.  A transport of which
    [Accept] has bound the port before [Close] looks is closed for good: afterwards no
    socket is ever open.  One that is closed before its first [Accept] looks closed,
    but its loop then binds the port and waits on it for ever, whatever happens next. *)
Theorem Close_before_Accept_leaks :
  (∀ tk a b i, rtc lstep (createTLSTransport tk) a → ly_closer a = CMarked → ly_listener a = Some i → lstep a b →
     ly_closer b = CDone → ∀ c, rtc lstep b c → ly_sockets c = [false]) ∧
  ∃ l, rtc lstep (createTLSTransport false) l ∧ ly_closer l = CDone ∧
    ∀ l', rtc lstep l l' → ly_sockets l' = [true] ∧ ly_acceptor l' ≠ AReturned.
Proof.
  split.
  - intros tk a b i Ha%bound_inv_reachable Hm Hl Hs Hd c Hc. eapply closed_stays; [|exact Hc].
    eapply close_closes; [exact Ha|done|by rewrite Hl|done|done].
  - exists (mkLayer (Some 0%nat) [true] false (AWait 0) CDone). split.
    + eapply rtc_l; [apply l_shutdown|]. eapply rtc_l; [apply l_close_nil|]. eapply rtc_l; [apply l_check_nil|].
      eapply rtc_l; [by apply l_bind|]. eapply rtc_l; [apply l_store|]. apply rtc_refl.
    + split; [done|]. intros l' Hr. apply leaked_stays in Hr as (? & _ & Ha); [|by split_and!].
      split; [done|]. intros E. by rewrite E in Ha.
Qed.

(** [TLSStreamLayer] has no such state: its socket exists before its transport. *)
Theorem eager_layer_closes l0 a b : NewTLSStreamLayer_listen false = Some l0 → rtc lstep l0 a → ly_closer a = CMarked →
  lstep a b → ly_closer b = CDone → ∀ c, rtc lstep b c → ly_sockets c = [false].
Proof.
  intros [= <-] Hr Hm Hs Hd c Hc. eapply closed_stays; [|exact Hc].
  assert (bound_inv a ∧ ly_listener a ≠ None) as [Ha Hl].
  { clear -Hr. remember (mkLayer (Some 0%nat) [true] false AIdle COpen) as l0 eqn:E.
    assert (bound_inv l0 ∧ ly_listener l0 ≠ None) as [H0 H1] by (subst; split; [right; left; naive_solver|done]). clear E.
    induction Hr as [|a b c Hab _ IH]; [done|]. apply IH; [by eapply bound_inv_step|]. by destruct Hab. }
  by eapply close_closes.
Qed.

Section dial_theorems.
Context `{TlsLib}.

(** [Dial] always returns, also when the peer is silent.  A connection it does not return
    is closed; one it returns is open, has no deadline, and was verified against the
    server name of the layer, which is never empty. *)
Theorem Dial_outcome env now timeout layer_ serverName : ∃ c r, layer_Dial env now timeout layer_ serverName = Some (c, r) ∧
  match r with
  | Ok t => c = Some (mkConn true None) ∧ tc_ServerName t = serverName ∧ serverName ≠ ""%string ∧ tc_InsecureSkipVerify t = false ∧
      de_peer env = Some true
  | Err _ => match c with Some c => cn_open c = false | None => True end
  end.
Proof.
  unfold layer_Dial, handshake, client_config_ok. destruct env as [[] [] peer []]; cbn [de_connects de_SetDeadline de_peer de_clear dial_config
    tc_ServerName tc_InsecureSkipVerify]; try (by eexists _, _); case_bool_decide; destruct peer as [[]|]; cbn; by eexists _, _.
Qed.
End dial_theorems.
