(* ===== verification/Cli.v ===== *)
(** The commands [cmd/client/main.go] and [cmd/server/main.go], and how
    [DBFServer.StartWithConfig] sets up transport security and interceptors.

    The client's printed lines are constructors; [log.Fatal] ends the run with
    [Exit].  [split] walks runes; on valid UTF-8 with an ASCII separator that
    is walking bytes, as here. *)

From S2P Require Import Prelude GoBytes GoFmt Hash Counting CountingSpec CountingCodec.
From S2P Require Import WalCrypto WalFiles Json RaftFsm NetAddr Grpc Auth Node Service Sdk Gateway Tls.
From Stdlib Require Import Ascii String.
#[local] Open Scope Z_scope.

(** * The client *)

(** The loop over the text: the fields so far and the current one. *)
Fixpoint split_loop (sep : ascii) (s : string) (result : list string) (current : string) : list string :=
  match s with
  | EmptyString => if decide (current ≠ "") then result ++ [current] else result
  | String c s' =>
      if decide (c = sep) then split_loop sep s' (result ++ [current]) ""
      else split_loop sep s' result (current +:+ String c EmptyString)
  end.
Definition split (s : string) (sep : ascii) : list string := split_loop sep s [] "".

Definition parseItems (items : string) : list (list byte) :=
  if decide (items = "") then [] else bytes_of_string <$> split items ",".

Inductive line : Type :=
  | LRpcError (item : list byte) (text : string)
  | LDone (item : list byte)
  | LFailed (item : list byte) (text : string)
  | LError (text : string)
  | LFound (item : list byte) (found : bool)
  | LBatch (success failure : Z)
  | LBatchError (i : Z) (item : list byte) (text : string)
  | LStats (s : GetStatsResponse)
  | LFatal (text : string).

Section client.
Context `{DBFServiceClient W} (addr : string).

Definition addItem (item : list byte) (w : W) : W * line :=
  match rpc_Add addr item w with
  | (w, Err e) => (w, LRpcError item e)
  | (w, Ok r) => (w, if ar_Success r then LDone item else LFailed item (ar_Error r))
  end.

Definition removeItem (item : list byte) (w : W) : W * line :=
  match rpc_Remove addr item w with
  | (w, Err e) => (w, LRpcError item e)
  | (w, Ok r) => (w, if ar_Success r then LDone item else LFailed item (ar_Error r))
  end.

Definition containsItem (item : list byte) (w : W) : W * line :=
  match rpc_Contains addr item w with
  | (w, Err e) => (w, LRpcError item e)
  | (w, Ok r) => (w, if decide (cr_Error r ≠ "") then LError (cr_Error r) else LFound item (cr_Exists r))
  end.

(** The lines for the errors by position; an index past the items panics. *)
Fixpoint batch_errors (items : list (list byte)) (i : Z) (errors : list string) : go (list line) :=
  match errors with
  | [] => Ret []
  | e :: errors =>
      if decide (e ≠ "") then
        item ← go_index items i; rest ← batch_errors items (i + 1) errors;
        Ret (LBatchError i item e :: rest)
      else batch_errors items (i + 1) errors
  end.

Definition batchAdd (items : list (list byte)) (w : W) : W * go (list line) :=
  match rpc_BatchAdd addr items w with
  | (w, Err e) => (w, Ret [LFatal e])
  | (w, Ok r) => (w, ls ← batch_errors items 0 (br_Errors r);
                     Ret (LBatch (br_SuccessCount r) (br_FailureCount r) :: ls))
  end.

Fixpoint batch_results (items : list (list byte)) (i : Z) (results : list bool) : go (list line) :=
  match results with
  | [] => Ret []
  | b :: results =>
      item ← go_index items i; rest ← batch_results items (i + 1) results; Ret (LFound item b :: rest)
  end.

Definition batchContains (items : list (list byte)) (w : W) : W * go (list line) :=
  match rpc_BatchContains addr items w with
  | (w, Err e) => (w, Ret [LFatal e])
  | (w, Ok r) => (w, if decide (bc_Error r ≠ "") then Ret [LError (bc_Error r)]
                     else batch_results items 0 (bc_Results r))
  end.

Definition getStats (w : W) : W * line :=
  match rpc_GetStats addr w with
  | (w, Err e) => (w, LFatal e)
  | (w, Ok r) => (w, if decide (st_Error r ≠ "") then LError (st_Error r) else LStats r)
  end.

(** One call per item, in order. *)
Fixpoint each (f : list byte → W → W * line) (items : list (list byte)) (w : W) : W * list line :=
  match items with
  | [] => (w, [])
  | item :: items => let '(w, l) := f item w in let '(w, ls) := each f items w in (w, l :: ls)
  end.

Definition client_main (action items : string) (w : W) : W * go (list line) :=
  let itemList := parseItems items in
  let needs (k : W * go (list line)) :=
    if decide (itemList = []) then (w, Ret [LFatal ("No items provided for " +:+ action)]) else k in
  let loop f := let '(w, ls) := each f itemList w in (w, Ret ls) in
  if decide (action = "add") then needs (loop addItem)
  else if decide (action = "remove") then needs (loop removeItem)
  else if decide (action = "contains") then needs (loop containsItem)
  else if decide (action = "batch-add") then needs (batchAdd itemList w)
  else if decide (action = "batch-contains") then needs (batchContains itemList w)
  else if decide (action = "stats") then let '(w, l) := getStats w in (w, Ret [l])
  else (w, Ret [LFatal ("Unknown action: " +:+ action)]).
End client.

(** * The server's authentication *)

Record server_flags : Type := mkFlags {
  enableMTLS : bool;
  caCertPath : string;
  serverCertPath : string;
  serverKeyPath : string;
  enableTokenAuth : bool;
  jwtSecretKey : string;
  tokenExpiry : Z
}.

Inductive main_error : Type := MMissingPaths | MMissingSecret | MAuth (e : auth_error).

Section server.
Context `{X509, Hmac256, JWT, GoOrder}.

(** [NewDBFServerWithAuth]: no API keys. *)
Definition server_auth_config (f : server_flags) : AuthConfig :=
  mkAuthConfig (enableMTLS f) (caCertPath f) (enableTokenAuth f) (jwtSecretKey f) (tokenExpiry f) false ∅.

Definition NewDBFServerWithAuth (fs : gmap string (list byte)) (f : server_flags) : result auth_error AuthInterceptor :=
  NewAuthInterceptor fs (server_auth_config f).

(** The interceptor [main] installs, if any. *)
Definition server_main_auth (fs : gmap string (list byte)) (f : server_flags)
  : result main_error (option AuthInterceptor) :=
  let with_auth := match NewDBFServerWithAuth fs f with Ok a => Ok (Some a) | Err e => Err (MAuth e) end in
  if enableMTLS f then
    if decide (caCertPath f = "" ∨ serverCertPath f = "" ∨ serverKeyPath f = "") then Err MMissingPaths else with_auth
  else if enableTokenAuth f then
    if decide (jwtSecretKey f = "") then Err MMissingSecret else with_auth
  else Ok None.
End server.

(** * Starting the server *)

Record ServerConfig : Type := mkServerConfig {
  sc_flags : server_flags;
  EnableTLS : bool;
  sc_tls : ServerTLS
}.

(** The configuration [main] builds: the fields for TLS are never set. *)
Definition main_config (f : server_flags) : ServerConfig := mkServerConfig f false (mkServerTLS 0 "" "" "" 0).

Inductive serve_error : Type := SCredentials (e : tls_error) | SListener (e : tls_error) | SListen | SMain (e : main_error).

Section starting.
Context `{TlsLib, !Hmac256, !JWT, !GoOrder}.

(** What serves: the credentials of the transport, the TLS of the listener, and the
    interceptors. *)
Record serving : Type := mkServing {
  sv_creds : option tls_Config;
  sv_listener : option (tls_Config * option CertReloader);
  sv_auth : option AuthInterceptor
}.

(** [listens]: whether the port can be bound. *)
Definition StartWithConfig (fs : files) (now : Z) (listens : bool) (c : ServerConfig) (auth : option AuthInterceptor)
  : go (result serve_error serving) :=
  let f := sc_flags c in
  match (if enableMTLS f then
           match LoadTLSCredentials fs (serverCertPath f) (serverKeyPath f) (caCertPath f) with
           | Ok t => Ok (Some t)
           | Err e => Err (SCredentials e)
           end
         else Ok None) with
  | Err e => Ret (Err e)
  | Ok creds =>
      lis ← (if EnableTLS c then
               l ← createTLSListener fs now (sc_tls c);
               Ret (match l with
                    | Err e => Err (SListener e)
                    | Ok l => if listens then Ok (Some l) else Err SListen
                    end)
             else Ret (if listens then Ok None else Err SListen));
      Ret (match lis with Ok lis => Ok (mkServing creds lis auth) | Err e => Err e end)
  end.

(** [main], from the flags to a server. *)
Definition server_main (fs : files) (now : Z) (listens : bool) (f : server_flags) : go (result serve_error serving) :=
  match server_main_auth fs f with
  | Err e => Ret (Err (SMain e))
  | Ok auth => StartWithConfig fs now listens (main_config f) auth
  end.
End starting.

(** * Theorems *)

(** A list without its last element when that is empty. *)
Fixpoint drop_empty_last (l : list string) : list string :=
  match l with
  | [] => []
  | [x] => if decide (x = "") then [] else [x]
  | x :: l' => x :: drop_empty_last l'
  end.

Lemma string_app_empty_r (s : string) : s +:+ "" = s.
Proof. induction s as [|c s IH]; [done|]. change (String c s +:+ "") with (String c (s +:+ "")). by rewrite IH. Qed.

Lemma drop_empty_last_cons x y l : drop_empty_last (x :: y :: l) = x :: drop_empty_last (y :: l).
Proof. done. Qed.

Lemma split_loop_spec sep s res cur :
  split_loop sep s res cur =
    res ++ drop_empty_last ((cur +:+ (split_on sep s).1) :: (split_on sep s).2).
Proof.
  revert res cur. induction s as [|c s IH]; intros res cur; cbn [split_loop split_on].
  - cbn [fst snd drop_empty_last]. rewrite string_app_empty_r.
    destruct (decide (cur = "")) as [->|Hne]; [by rewrite decide_False, app_nil_r by naive_solver|].
    by rewrite decide_True.
  - destruct (decide (c = sep)) as [->|Hne].
    + rewrite IH. destruct (split_on sep s) as [h t]. cbn [fst snd].
      rewrite string_app_empty_r, drop_empty_last_cons. by rewrite <- (assoc_L (++)).
    + rewrite IH. destruct (split_on sep s) as [h t]. cbn [fst snd].
      do 2 f_equal. f_equal. rewrite <- string_app_assoc. done.
Qed.

(** The client's own [split] is [strings.Split] without a trailing empty field, and
    so reads back what a join of items with commas wrote, unless the last is empty. *)
Theorem split_spec :
  (∀ s sep, split s sep = drop_empty_last (Split s sep)) ∧
  ∀ items lst, Forall (λ s, has_char "," s = false) (items ++ [lst]) → lst ≠ "" →
    parseItems (Join (items ++ [lst]) ",") = bytes_of_string <$> (items ++ [lst]).
Proof.
  assert (∀ s sep, split s sep = drop_empty_last (Split s sep)) as Hs.
  { intros s sep. unfold split, Split. rewrite split_loop_spec. by destruct (split_on sep s). }
  split; [done|]. intros items lst Hf Hl. unfold parseItems.
  assert (Split (Join (items ++ [lst]) ",") "," = items ++ [lst]) as Hj.
  { apply Split_Join; [by destruct items|done]. }
  rewrite decide_False.
  - rewrite Hs, Hj. f_equal. clear -Hl. induction items as [|x items IH].
    + cbn [app drop_empty_last]. by rewrite decide_False.
    + destruct items as [|y items]; cbn [app] in *; [|by rewrite drop_empty_last_cons, IH].
      rewrite drop_empty_last_cons. cbn [drop_empty_last]. by rewrite decide_False.
  - intros He. rewrite He in Hj. destruct items as [|x items].
    + injection Hj as Hj. by rewrite <- Hj in Hl.
    + by destruct items.
Qed.

Section printing.
Context `{DBFServiceClient W}.

Lemma go_index_nat (items : list (list byte)) (i : nat) : (i < Datatypes.length items)%nat →
  ∃ x, go_index items (Z.of_nat i) = Ret x ∧ items !! i = Some x.
Proof.
  intros Hi. destruct (go_index_in_range items (Z.of_nat i)) as (x & Hx & Hg); [unfold len; lia|].
  rewrite Nat2Z.id in Hx. by exists x.
Qed.

Lemma batch_results_total items results (i : nat) : (i + Datatypes.length results ≤ Datatypes.length items)%nat →
  ∃ ls, batch_results items (Z.of_nat i) results = Ret ls ∧
    ls = zip_with LFound (drop i items) results.
Proof.
  revert i. induction results as [|b results IH]; intros i Hi; cbn [batch_results Datatypes.length] in *.
  { exists []. by destruct (drop i items). }
  destruct (go_index_nat items i) as (x & Hg & Hx); [lia|]. rewrite Hg. cbn [mbind go_bind].
  destruct (IH (S i)) as (ls & Hls & Heq); [lia|]. replace (Z.of_nat i + 1) with (Z.of_nat (S i)) by lia.
  rewrite Hls. cbn [mbind go_bind]. eexists. split; [done|]. rewrite Heq. by rewrite (drop_S items x i Hx).
Qed.

Lemma batch_errors_total items errors (i : nat) : (i + Datatypes.length errors ≤ Datatypes.length items)%nat →
  ∃ ls, batch_errors items (Z.of_nat i) errors = Ret ls.
Proof.
  revert i. induction errors as [|e errors IH]; intros i Hi; cbn [batch_errors Datatypes.length] in *; [by exists []|].
  replace (Z.of_nat i + 1) with (Z.of_nat (S i)) by lia.
  destruct (IH (S i)) as (ls & Hls); [lia|]. rewrite Hls. case_decide; [|by eexists].
  destruct (go_index_nat items i) as (x & Hg & _); [lia|]. rewrite Hg. cbn. by eexists.
Qed.

(** A server that answers for no more items than it was asked about. *)
Definition well_sized (addr : string) : Prop :=
  (∀ items w w' r, items ≠ [] → rpc_BatchContains addr items w = (w', Ok r) →
     (Datatypes.length (bc_Results r) ≤ Datatypes.length items)%nat) ∧
  (∀ items w w' r, items ≠ [] → rpc_BatchAdd addr items w = (w', Ok r) →
     (Datatypes.length (br_Errors r) ≤ Datatypes.length items)%nat).

Lemma client_main_total addr action items w : well_sized addr →
  ∃ ls, (client_main addr action items w).2 = Ret ls.
Proof.
  intros [Hc Ha]. unfold client_main. set (l := parseItems items). clearbody l. cbn zeta.
  case_decide; [case_decide; [by eexists|]; destruct (each _ l w); by eexists|].
  case_decide; [case_decide; [by eexists|]; destruct (each _ l w); by eexists|].
  case_decide; [case_decide; [by eexists|]; destruct (each _ l w); by eexists|].
  case_decide; [case_decide as Hl; [by eexists|]|case_decide; [case_decide as Hl; [by eexists|]|]].
  - unfold batchAdd. destruct (rpc_BatchAdd addr l w) as [w' [r|e]] eqn:Hr; [|by eexists]. cbn [snd].
    destruct (batch_errors_total l (br_Errors r) 0) as (ls & Hls); [by eapply Ha|].
    change (Z.of_nat 0) with 0 in Hls. rewrite Hls. by eexists.
  - unfold batchContains. destruct (rpc_BatchContains addr l w) as [w' [r|e]] eqn:Hr; [|by eexists]. cbn [snd].
    case_decide; [by eexists|]. destruct (batch_results_total l (bc_Results r) 0) as (ls & Hls & _); [by eapply Hc|].
    change (Z.of_nat 0) with 0 in Hls. by eexists.
  - case_decide; [destruct (getStats addr w)|]; by eexists.
Qed.
End printing.

(** ** In front of a node *)

Section in_front.
Context `{!JsonText, !TimeText, !Murmur3, !HRaft}.
#[local] Existing Instance direct_client.

Lemma server_contains_loop_length n items rs : server_contains_loop n items = Ret rs →
  Datatypes.length rs = Datatypes.length items.
Proof.
  revert rs. induction items as [|x items IH]; intros rs; cbn [server_contains_loop]; [by intros [= <-]|].
  destruct (if decide (x = []) then _ else _); [|done]. cbn [mbind go_bind].
  destruct (server_contains_loop n items) as [bs|]; [|done]. intros [= <-]. cbn. f_equal. by apply IH.
Qed.

Lemma server_batch_loop_length items n s f n' s' f' errs : server_batch_loop n items s f = Ret (n', s', f', errs) →
  Datatypes.length errs = Datatypes.length items.
Proof.
  revert n s f n' s' f' errs. induction items as [|x items IH]; intros n s f n' s' f' errs; cbn [server_batch_loop].
  { by intros [= _ _ _ <-]. }
  case_decide.
  - destruct (server_batch_loop n items s (f + 1)) as [[[[n1 s1] f1] e1]|] eqn:Hl; [|done].
    intros [= _ _ _ <-]. cbn. f_equal. by eapply IH.
  - destruct (Node_Add n x) as [[n1 [e|]]|]; [| |done]; cbn [mbind go_bind].
    + destruct (server_batch_loop n1 items s (f + 1)) as [[[[n2 s2] f2] e2]|] eqn:Hl; [|done].
      intros [= _ _ _ <-]. cbn. f_equal. by eapply IH.
    + destruct (server_batch_loop n1 items (s + 1) f) as [[[[n2 s2] f2] e2]|] eqn:Hl; [|done].
      intros [= _ _ _ <-]. cbn. f_equal. by eapply IH.
Qed.

Lemma node_well_sized addr : well_sized (W := Node) addr.
Proof.
  split; intros items w w' r Hne; cbn [rpc_BatchContains rpc_BatchAdd direct_client].
  - unfold server_BatchContains. rewrite decide_False by done.
    destruct (server_contains_loop w items) as [rs|] eqn:Hl; [|done]. intros [= _ <-]. cbn [bc_Results].
    by rewrite (server_contains_loop_length _ _ _ Hl).
  - unfold server_BatchAdd. rewrite decide_False by done.
    destruct (server_batch_loop w items 0 0) as [[[[n1 s1] f1] e1]|] eqn:Hl; [|done]. intros [= _ <-]. cbn [br_Errors].
    by rewrite (server_batch_loop_length _ _ _ _ _ _ _ _ Hl).
Qed.

(** In front of a node the client never panics, whatever the action and the items,
    although it indexes the items by the positions of the answer; and a batch query
    prints for every item, in order, whether the node has it. *)
Theorem client_in_front_of_node addr items n :
  (∀ action, ∃ ls, (client_main (W := Node) addr action items n).2 = Ret ls) ∧
  (usable (n_bloomFilter n) → parseItems items ≠ [] →
   client_main (W := Node) addr "batch-contains" items n =
     (n, Ret ((λ x, LFound x (node_has n x)) <$> parseItems items))).
Proof.
  split; [intros action; apply client_main_total, node_well_sized|].
  intros Hu Hne. unfold client_main. set (l := parseItems items) in *. clearbody l. cbn zeta.
  do 4 rewrite (decide_False (P := "batch-contains"%string = _)) by done.
  rewrite (decide_True (P := "batch-contains"%string = "batch-contains"%string)) by done.
  rewrite decide_False by done. unfold batchContains. cbn [rpc_BatchContains direct_client].
  unfold server_BatchContains. rewrite decide_False by done. rewrite server_contains_loop_answers by done.
  cbn [mbind go_bind ask_node bc_Error bc_Results]. rewrite decide_False by naive_solver.
  destruct (batch_results_total l (node_has n <$> l) 0) as (ls & Hls & ->).
  { by rewrite length_fmap. }
  change (Z.of_nat 0) with 0 in Hls. rewrite Hls, drop_0. do 2 f_equal.
  clear. induction l as [|x l IH]; [done|]. cbn. by rewrite IH.
Qed.
End in_front.

(** ** Authentication *)

Section authentication.
Context `{X509, Hmac256, JWT, GoOrder}.

(** The interceptor [main] installs. *)
Lemma server_main_auth_Some fs f a : server_main_auth fs f = Ok (Some a) →
  ∃ ca, loadCA fs (server_auth_config f) = Ok ca ∧ a = mkInterceptor (server_auth_config f) ca None ∅ 0 false false ∧
    enableMTLS f || enableTokenAuth f = true ∧
    (enableMTLS f = true → caCertPath f ≠ ""%string) ∧ (enableMTLS f = false → jwtSecretKey f ≠ ""%string).
Proof.
  unfold server_main_auth, NewDBFServerWithAuth, NewAuthInterceptor. cbn [server_auth_config EnableAPIKeyAuth andb]. intros Ha.
  destruct (enableMTLS f); [case_decide as Hd|destruct (enableTokenAuth f); [case_decide as Hd|]]; try done.
  all: destruct (loadCA fs _) as [ca|]; [|done]; cbn in Ha; injection Ha as <-; exists ca; naive_solver.
Qed.

Lemma loadCA_mtls fs f ca : loadCA fs (server_auth_config f) = Ok ca → enableMTLS f = true → caCertPath f ≠ ""%string →
  ∃ pem ty der c, fs !! caCertPath f = Some pem ∧ pem_Decode pem = Some (ty, der) ∧ ParseCertificate der = Some c ∧ ca = Some c.
Proof.
  unfold loadCA. cbn [server_auth_config EnableMTLS CACertPath]. intros Hca He Hp. rewrite He in Hca.
  rewrite bool_decide_eq_true_2 in Hca by done. cbn [andb] in Hca.
  destruct (fs !! caCertPath f) as [pem|] eqn:?; [|done]. destruct (pem_Decode pem) as [[ty der]|] eqn:?; [|done].
  case_decide; [|done]. destruct (ParseCertificate der) as [c|] eqn:?; [|done]. injection Hca as <-. eauto 10.
Qed.

(** C39: authentication that the flags ask for is enforced.  The server starts without an interceptor
    exactly when both methods are disabled, and with tokens but not mTLS it does not start with an empty
    secret (with mTLS it does, the secret is not looked at).  With an interceptor, every call, whatever its
    peer and metadata, either brings a credential of an enabled method, that is a client certificate that
    verifies against the certificate parsed from the CA file, or an unexpired token with a node id whose
    HMAC verifies under the secret of the flags, or is refused with an error before its handler runs,
    unary or stream. *)
Theorem main_auth_enforced `{!JWTLaws} fs f :
  (server_main_auth fs f = Ok None ↔ enableMTLS f = false ∧ enableTokenAuth f = false) ∧
  (enableMTLS f = false → enableTokenAuth f = true → jwtSecretKey f = ""%string → server_main_auth fs f = Err MMissingSecret) ∧
  ∀ a, server_main_auth fs f = Ok (Some a) → JWTSecretKey (ai_config a) = jwtSecretKey f ∧ ∀ now ctx,
    (enableMTLS f = true ∧ ∃ pem ty der ca p c cs, fs !! caCertPath f = Some pem ∧ pem_Decode pem = Some (ty, der) ∧
       ParseCertificate der = Some ca ∧ ctx_peer ctx = Some p ∧ p_AuthInfo p = Some (c :: cs) ∧ cert_Verify c ca = true) ∨
    (enableTokenAuth f = true ∧ authentic_token a now ctx) ∨
    ∃ e, (∀ {Req Resp} (GetAuth : Req → option APIMetadata) req method (handler : context → Req → Resp),
            UnaryInterceptor GetAuth a now ctx req method handler = Ret (a, Err e)) ∧
         (∀ {Resp} (handler : context → Resp), StreamInterceptor a now ctx handler = Err e).
Proof.
  split_and!.
  - unfold server_main_auth, NewDBFServerWithAuth, NewAuthInterceptor. cbn [server_auth_config EnableAPIKeyAuth andb].
    destruct (enableMTLS f); [case_decide|destruct (enableTokenAuth f); [case_decide|]]; try naive_solver.
    all: destruct (loadCA fs _); cbn; naive_solver.
  - intros Hm Ht Hs. unfold server_main_auth. by rewrite Hm, Ht, decide_True.
  - intros a (ca & Hca & Ha & Hon & Hpath & _)%server_main_auth_Some. split; [by subst a|]. intros now ctx.
    destruct (authenticate a now ctx) as [[]|e] eqn:Hauth.
    + apply authenticate_sound in Hauth; [|by subst a]. destruct Hauth as [[He (p & c & cs & Hp & Hi & Hv)]|[He Htok]].
      * left. assert (enableMTLS f = true) as Hm by by subst a. split; [done|].
        destruct (loadCA_mtls fs f ca Hca Hm (Hpath Hm)) as (pem & ty & der & c' & ? & ? & ? & ->).
        exists pem, ty, der, c', p, c, cs. split_and!; try done. apply Hv. by subst a.
      * right; left. by subst a.
    + right; right. exists e. unfold UnaryInterceptor, StreamInterceptor.
      replace (apiKeyEnabled a) with false by by subst a. by rewrite Hauth.
Qed.
End authentication.

(** ** The transport *)

Section transport.
Context `{TlsLib, !Hmac256, !JWT, !GoOrder}.

(** What the flags give on the wire.  A server started with mTLS asks for and
    verifies client certificates against the pool of the CA file, from TLS 1.2 on;
    without mTLS, with tokens or with nothing, the transport has no security.  The
    TLS listener of the server is never used. *)
Theorem main_transport fs now listens f s : server_main fs now listens f = Ret (Ok s) →
  sv_listener s = None ∧
  (enableMTLS f = false → sv_creds s = None) ∧
  (enableMTLS f = true → ∃ t pool, sv_creds s = Some t ∧ LoadCACertPool fs (caCertPath f) = Ok pool ∧
     tc_ClientCAs t = Some pool ∧ tc_ClientAuth t = RequireAndVerifyClientCert ∧ tc_MinVersion t = VersionTLS12) ∧
  (is_Some (sv_auth s) ↔ enableMTLS f = true ∨ enableTokenAuth f = true).
Proof.
  unfold server_main. destruct (server_main_auth fs f) as [auth|e] eqn:Ha; [|done]. unfold StartWithConfig.
  cbn [main_config sc_flags EnableTLS]. unfold LoadTLSCredentials. intros Hs.
  assert (is_Some auth ↔ enableMTLS f = true ∨ enableTokenAuth f = true) as Hauth.
  { revert Ha. unfold server_main_auth. destruct (enableMTLS f); [case_decide|destruct (enableTokenAuth f); [case_decide|]].
    all: try done; try destruct (NewDBFServerWithAuth _ _); intros [= <-]; split; try done; try by auto.
    all: try by intros [? ?]. all: naive_solver. }
  destruct (enableMTLS f).
  - destruct (LoadTLSCertificate _ _ _) as [cert|]; [|done]. cbn [mbind result_bind] in Hs.
    destruct (LoadCACertPool _ _) as [pool|] eqn:Hp; [|done]. destruct listens; [|done]. injection Hs as <-. cbn.
    split_and!; [done..| |done]. intros _. by eexists _, pool.
  - destruct listens; [|done]. injection Hs as <-. by split_and!.
Qed.

(** A server with both kinds of TLS enabled speaks TLS inside TLS: the listener does a
    handshake, and the credentials do another over its connections. *)
Theorem both_wrap_twice fs now c auth s : EnableTLS c = true → enableMTLS (sc_flags c) = true →
  StartWithConfig fs now true c auth = Ret (Ok s) → is_Some (sv_creds s) ∧ is_Some (sv_listener s).
Proof.
  intros Ht Hm. unfold StartWithConfig. rewrite Ht, Hm. destruct (LoadTLSCredentials _ _ _ _); [|done].
  destruct (createTLSListener _ _ _) as [[l|]|]; [|done..]. by intros [= <-].
Qed.
End transport.

(** * Instances *)

#[local] Existing Instance toy_x509.
#[local] Existing Instance toy_hmac.
#[local] Existing Instance toy_jwt.
#[local] Existing Instance toy_order.
#[local] Instance toy_tls : TlsLib :=
  {| KeyPair := unit; X509KeyPair _ _ := Some tt; CertPool := nat; NewCertPool := O; AddCert _ n := S n;
     AppendCertsFromPEM _ := Some 1%nat; pool_Verify _ _ := true |}.

(** Tokens without mTLS: the server starts, in the clear. *)
Definition token_flags : server_flags := mkFlags false "" "" "" true "secret" 3600.
Definition token_server : @serving _ toy_tls :=
  mkServing None None (Some (mkInterceptor (server_auth_config token_flags) None None ∅ 0 false false)).

Lemma main_transport_witness : server_main ∅ 0 true token_flags = Ret (Ok token_server) ∧
  sv_listener token_server = None ∧
  (enableMTLS token_flags = false → sv_creds token_server = None) ∧
  (enableMTLS token_flags = true → ∃ t pool, sv_creds token_server = Some t ∧
     LoadCACertPool ∅ (caCertPath token_flags) = Ok pool ∧
     tc_ClientCAs t = Some pool ∧ tc_ClientAuth t = RequireAndVerifyClientCert ∧ tc_MinVersion t = VersionTLS12) ∧
  (is_Some (sv_auth token_server) ↔ enableMTLS token_flags = true ∨ enableTokenAuth token_flags = true).
Proof. split; [reflexivity|]. by apply (main_transport ∅ 0 true token_flags token_server). Defined.

Lemma main_auth_enforced_witness : ∃ e, StreamInterceptor (mkInterceptor (server_auth_config token_flags) None None ∅ 0 false false)
  ex_now (mkContext None None) (λ _, true) = Err e.
Proof.
  destruct (main_auth_enforced (H1 := toy_jwt) (H3 := toy_jwt_laws) ∅ token_flags) as (_ & _ & Ha).
  destruct (Ha _ eq_refl) as [_ Hctx]. destruct (Hctx ex_now (mkContext None None)) as [[? _]|[[_ Htok]|(e & _ & Hs)]].
  - discriminate.
  - exfalso. destruct Htok as (md & ? & ? & ? & Hmd & _). discriminate.
  - exists e. apply Hs.
Defined.
