(* ===== verification/Programs.v ===== *)
(** Whole programs: the process of [cmd/server/main.go] from its flags to its end, and
    [examples/basic/main.go].

    [log.Fatal] ends the process where it stands: nothing is shut down.  The goroutine
    that serves is joined here: what it fails with ends the process as in the code. *)

From S2P Require Import Prelude GoBytes GoFmt Hash Counting CountingSpec CountingCodec.
From S2P Require Import WalCrypto WalFiles Json RaftFsm NetAddr Grpc Auth Node Service Sdk Managers Status Gateway Tls Lifecycle Cluster Cli ClusterClients.
From Stdlib Require Import Ascii String.
#[local] Open Scope Z_scope.

(** * Definitions *)

(** ** The server process *)

Record main_flags : Type := mkMainFlags {
  mf_port : Z;
  mf_raftPort : Z;
  mf_dataDir : string;
  mf_nodeID : string;
  mf_k : Z;
  mf_m : Z;
  mf_bootstrap : bool;
  mf_auth : server_flags
}.

(** No argument given. *)
Definition default_flags : main_flags :=
  mkMainFlags 8080 8081 "./data" "node1" 3 10000 false (mkFlags false "" "" "" false "" (24 * 3600 * 10 ^ 9)).

(** What the process meets: whether the data directory can be made, the random key of
    the test encryptor, the calls of [Start], and whether the port can be bound. *)
Record main_env : Type := mkMainEnv {
  me_MkdirAll : bool;
  me_random : option key;
  me_now : Z;
  me_start : start_env;
  me_listens : bool
}.

Inductive main_fatal : Type :=
  | FDataDir
  | FEncryptor (e : wal_error)
  | FStart (e : start_error)
  | FAuth (e : main_error)
  | FServe (e : serve_error).

Section server.
Context `{TlsLib, !Hmac256, !JWT, !GoOrder, !HRaft}.

(** A process that serves: the node with its filter, its resources, and the server. *)
Record process : Type := mkProcess { pr_node : Node; pr_encryptor : WALEncryptor; pr_res : node_res; pr_serving : Cli.serving }.

(** Up to the wait for a signal; a failure comes with what is left open. *)
Definition main_start (fs : Tls.files) (env : main_env) (f : main_flags) : go (result (node_res * main_fatal) process) :=
  if negb (me_MkdirAll env) then Ret (Err (new_node_res, FDataDir))
  else
    match NewWALEncryptor ∅ (me_random env) (me_now env) "" with
    | Err e => Ret (Err (new_node_res, FEncryptor e))
    | Ok enc =>
        filter ← NewCountingBloomFilter (mf_m f) (mf_k f);
        let node := NewNode (mf_nodeID f) (mf_raftPort f) filter in
        let '(res, err) := Start (me_start env) (mf_bootstrap f) new_node_res in
        match err with
        | Some e => Ret (Err (res, FStart e))
        | None =>
            match server_main_auth fs (mf_auth f) with
            | Err e => Ret (Err (res, FAuth e))
            | Ok auth =>
                r ← StartWithConfig fs (me_now env) (me_listens env) (main_config (mf_auth f)) auth;
                Ret (match r with
                     | Err e => Err (res, FServe e)
                     | Ok s => Ok (mkProcess node enc res s)
                     end)
            end
        end
    end.

(** What it logs once it serves. *)
Definition auth_info (f : server_flags) : string :=
  if enableMTLS f then "mTLS enabled"
  else if enableTokenAuth f then "token auth enabled (expiry: " +:+ Duration_String (tokenExpiry f) +:+ ")"
  else "authentication disabled".

Definition main_banner (f : main_flags) : list string :=
  ["gRPC server started on port " +:+ Sprintf_int (mf_port f) +:+ " (Raft: " +:+ Sprintf_int (mf_raftPort f) +:+ ", " +:+ auth_info (mf_auth f) +:+ ")";
   "Node '" +:+ mf_nodeID f +:+ "' initialized with Bloom filter (m=" +:+ Sprintf_int (mf_m f) +:+ ", k=" +:+ Sprintf_int (mf_k f) +:+ ")"].

(** After the signal. *)
Definition main_stop (p : process) : node_res := node_Shutdown (pr_res p).
End server.

(** ** The example *)

Inductive output : Type :=
  | Println (text : string)
  | LogError (what : string) (e : sdk_error)
  | LogFatal (what : string) (e : sdk_error).

Definition bool_text (b : bool) : string := if b then "true" else "false".

Definition example_config : ClientConfig :=
  mkClientConfig ["localhost:7000"; "localhost:7001"; "localhost:7002"]%string "test-api-key" "test-api-secret" 3.

Section example.
Context `{DBFServiceClient W} (dial : string → bool) (ctx_done : Z → bool).

Definition said (what ok : string) (r : option sdk_error) : list output :=
  match r with Some e => [LogError what e] | None => [Println ok] end.

Definition status_lines (s : GetStatsResponse) : list output :=
  [Println "   ✓ Node Status:"; Println ("      Node ID: " +:+ st_NodeId s);
   Println ("      Is Leader: " +:+ bool_text (st_IsLeader s)); Println ("      Raft State: " +:+ st_RaftState s);
   Println ("      Leader: " +:+ st_Leader s); Println ("      Bloom Filter Size: " +:+ Sprintf_int (st_BloomSize s) +:+ " bits");
   Println ("      Hash Functions (K): " +:+ Sprintf_int (st_BloomK s));
   Println ("      Approximate Count: " +:+ Sprintf_int (st_BloomCount s))].

(** The printed lines without the empty ones; a failed call is logged and the next one made. *)
Definition example_run (c : Client) (w : W) : W * go (list output) :=
  let '(c, w, e1) := client_Add dial ctx_done "user:123" c w in
  let '(c, (w, x2), e2) := client_Contains dial ctx_done "user:123" c w in
  let '(c, w, e3) := client_BatchAdd dial ctx_done ["user:456"; "user:789"; "session:abc"]%string c w in
  let checkItems := ["user:123"; "user:456"; "user:999"]%string in
  let '(c, (w, m4), e4) := client_BatchContains dial ctx_done checkItems c w in
  let '(c, w, e5) := client_Remove dial ctx_done "user:456" c w in
  let '(c, (w, x6), e6) := client_Contains dial ctx_done "user:456" c w in
  let '(c, (w, s7), e7) := client_GetStatus dial ctx_done c w in
  (w, status ← match e7, s7 with
            | Some e, _ => Ret [LogError "Error getting status" e]
            | None, Some s => Ret (status_lines s)
            | None, None => Panic NilDereference
            end;
   Ret ([Println "=== Distributed Bloom Filter SDK Example ==="; Println "1. Adding item 'user:123'..."] ++
   said "Error adding item" "   ✓ Item added successfully" e1 ++
   [Println "2. Checking if 'user:123' exists..."] ++
   said "Error checking item" ("   ✓ Exists: " +:+ bool_text x2) e2 ++
   [Println "3. Adding multiple items..."] ++
   said "Error batch adding" "   ✓ All items added successfully" e3 ++
   [Println "4. Checking multiple items..."] ++
   match e4 with
   | Some e => [LogError "Error batch checking" e]
   | None => Println "   ✓ Results:" ::
       map (λ item, Println ("      " +:+ item +:+ ": " +:+ bool_text (default false (m4 !! item)))) checkItems
   end ++
   [Println "5. Removing item 'user:456'..."] ++
   said "Error removing item" "   ✓ Item removed successfully" e5 ++
   [Println "6. Verifying removal of 'user:456'..."] ++
   said "Error checking item" ("   ✓ Exists after removal: " +:+ bool_text x6) e6 ++
   [Println "7. Getting node status..."] ++
   status ++ [Println "=== Example Complete ==="])).

Definition example_main (w : W) : W * go (list output) :=
  match NewClient dial example_config with
  | Err e => (w, Ret [LogFatal "Failed to create client" e])
  | Ok c => example_run c w
  end.
End example.

(** * Theorems *)

Section server_theorems.
Context `{TlsLib, !Hmac256, !JWT, !GoOrder, !HRaft}.

(** What a serving process is.  It has the filter of its flags, a started node with
    everything open, and an interceptor exactly when the flags ask for authentication;
    after the signal nothing is left open.  A failure before [Start] leaves nothing
    open; one after it, a wrong flag or a port in use, ends the process with the node
    running. *)
Theorem main_start_outcome fs env f r : main_start fs env f = Ret r →
  match r with
  | Ok p =>
      NewCountingBloomFilter (mf_m f) (mf_k f) = Ret (n_bloomFilter (pr_node p)) ∧
      pr_res p = mkRes ROpen ROpen ROpen ∧ main_stop p = mkRes RClosed RClosed RClosed ∧
      (is_Some (sv_auth (pr_serving p)) ↔ enableMTLS (mf_auth f) = true ∨ enableTokenAuth (mf_auth f) = true)
  | Err (res, FDataDir) | Err (res, FEncryptor _) => res = new_node_res
  | Err (res, FStart e) => e ≠ SBootstrap → res_raftNode res = RNil
  | Err (res, FAuth _) | Err (res, FServe _) => res = mkRes ROpen ROpen ROpen
  end.
Proof.
  unfold main_start. destruct (me_MkdirAll env); [|by intros [= <-]].
  destruct (NewWALEncryptor _ _ _ _) as [enc|e]; [|by intros [= <-]].
  destruct (NewCountingBloomFilter _ _) as [filter|]; [|done]. cbn [mbind go_bind].
  assert (let '(res, err) := Start (me_start env) (mf_bootstrap f) new_node_res in
    (err = None → res = mkRes ROpen ROpen ROpen) ∧ (∀ e, err = Some e → e ≠ SBootstrap → res_raftNode res = RNil)) as Hst.
  { destruct (me_start env) as [[] [] [] [] [] [] []], (mf_bootstrap f); cbn; split; naive_solver. }
  destruct (Start _ _ _) as [res [e|]]; destruct Hst as [Hok Herr]; [intros [= <-]; by apply Herr|].
  specialize (Hok eq_refl) as ->. destruct (server_main_auth fs (mf_auth f)) as [auth|e] eqn:Ha; [|by intros [= <-]].
  unfold StartWithConfig. cbn [main_config sc_flags EnableTLS].
  assert (is_Some auth ↔ enableMTLS (mf_auth f) = true ∨ enableTokenAuth (mf_auth f) = true) as Hauth.
  { revert Ha. unfold server_main_auth, NewDBFServerWithAuth. repeat case_match; intros; simplify_eq; naive_solver. }
  destruct (if enableMTLS (mf_auth f) then _ else _) as [creds|e]; [|by intros [= <-]].
  destruct (me_listens env); cbn [mbind go_bind]; by intros [= <-].
Qed.

(** Restarting a node with the flags it was bootstrapped with fails: the library refuses
    to bootstrap a cluster that has a state, and [main] takes the refusal as fatal,
    although the instance it leaves behind has rejoined its cluster. *)
Theorem restart_with_bootstrap_fails fs env f filter k : me_MkdirAll env = true → me_random env = Some k →
  NewCountingBloomFilter (mf_m f) (mf_k f) = Ret filter → mf_bootstrap f = true →
  me_start env = mkStartEnv true true true true true true false →
  main_start fs env f = Ret (Err (mkRes ROpen ROpen ROpen, FStart SBootstrap)).
Proof. intros Hm Hr Hn Hb Hs. unfold main_start. rewrite Hm, Hr, Hn, Hs, Hb. done. Qed.

(** The flags of the filter are not checked: with [-m 0] the process serves, and the
    first entry that reaches the filter panics on every replica. *)
Theorem empty_filter_is_served `{Murmur3} fs env f : mf_m f = 0 → 1 ≤ mf_k f → 
  me_MkdirAll env = true → is_Some (me_random env) → (Start (me_start env) (mf_bootstrap f) new_node_res).2 = None →
  mf_auth f = mkFlags false "" "" "" false "" 0 → me_listens env = true →
  ∃ p, main_start fs env f = Ret (Ok p) ∧ ∀ item, Add (n_bloomFilter (pr_node p)) item = Panic IntegerDivideByZero.
Proof.
  intros Hm Hk Hd [k Hr] Hs Ha Hl. unfold main_start. rewrite Hm, Hd, Hr, Ha, Hl.
  destruct (Start _ _ _) as [res err]. cbn in Hs. subst err. eexists. split; [reflexivity|]. cbn. intros item. unfold Add.
  by rewrite degenerate_indices.
Qed.
End server_theorems.

Section example_theorems.
Context `{DBFServiceClient W} (dial : string → bool) (ctx_done : Z → bool).

Lemma run_calls_last {S} (fn : string → S → S * option sdk_error) addrs s s' es :
  run_calls fn addrs s = (s', es ++ [None]) → ∃ a s1, fn a s1 = (s', None).
Proof.
  revert s es. induction addrs as [|a addrs IH]; intros s es; cbn [run_calls].
  { intros [= _ He]. by destruct es. }
  destruct (fn a s) as [s1 e] eqn:Hf. destruct (run_calls fn addrs s1) as [s2 es2] eqn:Hr. intros [= <- He].
  destruct es as [|e0 es]; cbn in He; injection He as -> ->.
  - exists a, s. destruct addrs; cbn in Hr; [by injection Hr as <-|]. destruct (fn s0 s1), (run_calls fn addrs _); done.
  - by eapply (IH s1 es).
Qed.

Lemma GetStatus_some c c' w w' s : 0 ≤ MaxRetries (c_config c) → client_GetStatus dial ctx_done c w = (c', (w', s), None) → is_Some s.
Proof.
  intros Hn Hex. unfold client_GetStatus, executeWithRetry in Hex. apply retry_loop_spec in Hex as (addrs & es & Hrun & _ & Hr).
  destruct Hr as [(es' & -> & _)|[? _]]; [|lia]. apply run_calls_last in Hrun as (a & [w1 s1] & Hcall).
  unfold call_GetStats in Hcall. destruct (rpc_GetStats a _) as [w2 [resp|e]]; [|done]. case_decide; [done|].
  injection Hcall as _ <-. by eexists.
Qed.

Lemma retry_loop_config {S} (fn : string → S → S * option sdk_error) rem att lastErr c s c' s' r :
  retry_loop dial ctx_done fn rem att lastErr c s = (c', s', r) → c_config c' = c_config c.
Proof.
  revert att lastErr c s. induction rem as [|rem IH]; intros att lastErr c s; cbn [retry_loop]; [by intros [= <- _ _]|].
  destruct (c_client c) as [a|]; [|by intros [= <- _ _]]. destruct (fn a s) as [s1 [e|]]; [|by intros [= <- _ _]].
  assert (∀ c1 e1, switchToLeader dial c e1 = c1 → c_config c1.1 = c_config c) as Hsw.
  { intros [c1 r1] e1. unfold switchToLeader. case_decide; [by intros [= <- _]|].
    intros Hc%connect_config. exact Hc. }
  destruct e as [| | | | |m| | | | |]; try by (case_decide; [destruct (ctx_done att); [by intros [= <- _ _]|]|]; intros ?%IH).
  destruct (switchToLeader dial c m) as [c1 [e|]] eqn:E; [intros [= <- _ _]; by apply (Hsw (c1, Some e) m)|].
  intros ->%IH. by apply (Hsw (c1, None) m).
Qed.

Lemma NewClient_retries config c : NewClient dial config = Ok c →
  MaxRetries (c_config c) = if decide (MaxRetries config = 0) then 3 else MaxRetries config.
Proof.
  unfold NewClient. case_decide; [done|]. destruct (connectToFirstAvailable dial _) as [c1 [e|]] eqn:E; [done|].
  intros [= <-]. apply connect_first_config in E. by rewrite E.
Qed.

(** The example never panics: whatever the servers answer it prints its seven steps and
    the last line, or that no client could be made. *)
Theorem example_total w : ∃ ls, (example_main dial ctx_done w).2 = Ret ls.
Proof.
  unfold example_main. destruct (NewClient dial example_config) as [c|e] eqn:Hnew; [|by eexists].
  apply NewClient_retries in Hnew as Hmax.
  unfold example_run.
  destruct (client_Add _ _ _ c w) as [[c1 w1] e1] eqn:E1. apply retry_loop_config in E1.
  destruct (client_Contains _ _ _ c1 w1) as [[c2 [w2 x2]] e2] eqn:E2. apply retry_loop_config in E2.
  destruct (client_BatchAdd _ _ _ c2 w2) as [[c3 w3] e3] eqn:E3. apply retry_loop_config in E3.
  destruct (client_BatchContains _ _ _ c3 w3) as [[c4 [w4 m4]] e4] eqn:E4. apply retry_loop_config in E4.
  destruct (client_Remove _ _ _ c4 w4) as [[c5 w5] e5] eqn:E5. apply retry_loop_config in E5.
  destruct (client_Contains _ _ _ c5 w5) as [[c6 [w6 x6]] e6] eqn:E6. apply retry_loop_config in E6.
  destruct (client_GetStatus _ _ c6 w6) as [[c7 [w7 s7]] e7] eqn:E7. cbn [snd].
  destruct e7 as [e|]; [by eexists|]. apply GetStatus_some in E7 as [s ->]; [by eexists|].
  rewrite E6, E5, E4, E3, E2, E1, Hmax. by destruct (decide (MaxRetries example_config = 0)).
Qed.
End example_theorems.

(** * Instances *)

Section witnesses.
#[local] Existing Instance tree_text.
#[local] Existing Instance tree_time.
#[local] Existing Instance byte_sum.
#[local] Existing Instance toy_x509.
#[local] Existing Instance toy_tls.
#[local] Existing Instance toy_hmac.
#[local] Existing Instance toy_jwt.
#[local] Existing Instance toy_order.

Definition pg_env : main_env := mkMainEnv true (Some []) 0 (mkStartEnv true true true true true true true) true.
Definition pg_flags : main_flags := mkMainFlags 8080 8081 "./data" "node1" 3 7 true (mkFlags false "" "" "" false "" 0).
Definition pg_process : process :=
  mkProcess (NewNode "node1" 8081 ex_f0) (mkEncryptor [] 1 {[1 := []]} 0 "") (mkRes ROpen ROpen ROpen) (mkServing None None None).

Lemma main_start_outcome_witness :
  NewCountingBloomFilter 7 3 = Ret (n_bloomFilter (pr_node pg_process)) ∧
  pr_res pg_process = mkRes ROpen ROpen ROpen ∧ main_stop pg_process = mkRes RClosed RClosed RClosed ∧
  (is_Some (sv_auth (pr_serving pg_process)) ↔ false = true ∨ false = true).
Proof. exact (main_start_outcome ∅ pg_env pg_flags (Ok pg_process) eq_refl). Defined.

Definition pg_restart : main_env := mkMainEnv true (Some []) 0 (mkStartEnv true true true true true true false) true.

Lemma restart_with_bootstrap_fails_witness :
  main_start ∅ pg_restart pg_flags = Ret (Err (mkRes ROpen ROpen ROpen, FStart SBootstrap)).
Proof. exact (restart_with_bootstrap_fails ∅ pg_restart pg_flags ex_f0 [] eq_refl eq_refl ex_New eq_refl eq_refl). Defined.

Definition pg_empty : main_flags := mkMainFlags 8080 8081 "./data" "node1" 3 0 true (mkFlags false "" "" "" false "" 0).

Lemma empty_filter_is_served_witness :
  ∃ p, main_start ∅ pg_env pg_empty = Ret (Ok p) ∧ ∀ item, Add (n_bloomFilter (pr_node p)) item = Panic IntegerDivideByZero.
Proof. apply (empty_filter_is_served ∅ pg_env pg_empty); [done|cbn; lia|done|by eexists|done|done|done]. Defined.

(** The example against a leader at the first address. *)
Definition pg_f0 : CountingBloomFilter := mkCBF 101 3 (replicate 101 0).
#[local] Instance pg_client : DBFServiceClient net := net_client pg_f0.
Definition pg_rpc (n : nat) : rpc_fate := mkRpc [] true (replicate n (mkFate [] 1 1 Done)) false.
Definition pg_net : net :=
  mkNet [] {["localhost:7000" := mkReplica pg_f0 0]} ∅ [pg_rpc 1; pg_rpc 0; pg_rpc 3; pg_rpc 0; pg_rpc 1; pg_rpc 0; pg_rpc 0].

Theorem example_output : (example_main (λ _, true) (λ _, false) pg_net).2 = Ret (map Println [
  "=== Distributed Bloom Filter SDK Example ===";
  "1. Adding item 'user:123'..."; "   ✓ Item added successfully";
  "2. Checking if 'user:123' exists..."; "   ✓ Exists: true";
  "3. Adding multiple items..."; "   ✓ All items added successfully";
  "4. Checking multiple items..."; "   ✓ Results:"; "      user:123: true"; "      user:456: true"; "      user:999: false";
  "5. Removing item 'user:456'..."; "   ✓ Item removed successfully";
  "6. Verifying removal of 'user:456'..."; "   ✓ Exists after removal: false";
  "7. Getting node status..."; "   ✓ Node Status:"; "      Node ID: localhost:7000"; "      Is Leader: true";
  "      Raft State: Leader"; "      Leader: "; "      Bloom Filter Size: 101 bits"; "      Hash Functions (K): 3";
  "      Approximate Count: 12"; "=== Example Complete ==="]%string).
Proof. vm_compute. reflexivity. Qed.
End witnesses.
