(* ===== verification/Benchmark.v ===== *)
(** [src/benchmark/benchmark.go]: the load generator.

    The workers of [runBenchmark] and of [runMixedLoadBenchmark] are a step relation:
    a worker looks at the clock, makes one call, and then updates the shared results in
    the steps its atomics and its lock allow.  The servers are a world behind the
    generated client; that a server handles a call and that its answer arrives are steps
    of their own, which may never come, as the calls have no timeout.  A rate is kept as numerator and denominator; the progress lines
    only read. *)

From S2P Require Import Prelude GoBytes GoFmt Hash Counting CountingSpec CountingCodec.
From S2P Require Import WalCrypto WalFiles Json RaftFsm Node Service Sdk Gateway.
From stdpp Require Import sorting.
#[local] Open Scope Z_scope.

(** * Definitions *)

Record BenchmarkResults : Type := mkResults {
  totalOps : Z;
  successOps : Z;
  failedOps : Z;
  latencies : list Z
}.

(** ** The command line *)

(** What a worker calls: a fixed operation, or four reads to one write. *)
Inductive load : Type := Operation (name : string) | MixedLoad.
Record run : Type := mkRun { run_name : string; run_load : load; run_duration : Z; run_concurrency : Z }.
Inductive action : Type := Usage | Fatal (text : string) | Runs (target : string) (runs : list run).

Definition second : Z := 10 ^ 9.

(** [grpc.NewClient] refuses a target it cannot parse. *)
Section commands.
Context (NewClient : string → option string).

Definition connected (target : string) (runs : list run) : action :=
  match NewClient target with Some err => Fatal ("Failed to connect: " +:+ err) | None => Runs target runs end.

Definition runSingleNodeBenchmark (target : string) : action :=
  let duration := 300 * second in let concurrency := 50 in
  connected target [mkRun "Add" (Operation "Add") duration concurrency; mkRun "Contains" (Operation "Contains") duration concurrency].

Definition runClusterBenchmark (target : string) : action :=
  connected target [mkRun "Cluster Add" (Operation "Add") (300 * second) 50].

(** What it starts; [mixedResults] is its report. *)
Definition runMixedLoadBenchmark (target : string) : action :=
  connected target [mkRun "MIXED LOAD" MixedLoad (3600 * second) 50].

(** [args] are the arguments after the name of the program. *)
Definition main (args : list string) : action :=
  match args with
  | [] => Usage
  | testType :: rest =>
      let target := match rest with t :: _ => t | [] => "localhost:50051"%string end in
      if decide (testType = "single") then runSingleNodeBenchmark target
      else if decide (testType = "cluster") then runClusterBenchmark target
      else if decide (testType = "mixed") then runMixedLoadBenchmark target
      else Fatal ("Unknown test type: " +:+ testType)
  end.
End commands.

(** ** Workers *)

Definition test_item (id r : Z) : list byte :=
  bytes_of_string ("test-item-" +:+ Sprintf_int id +:+ "-" +:+ Sprintf_int r).

(** What a call does when a server handles it; [read] is what the mixed load draws.  The
    result is whether the call returned no error: an answer that reports a failure is not
    an error. *)
Definition issue `{DBFServiceClient W} (target : string) (l : load) (read : bool) (item : list byte) (w : W) : W * bool :=
  let add := let '(w, r) := rpc_Add target item w in (w, if r is Ok _ then true else false) in
  let contains := let '(w, r) := rpc_Contains target item w in (w, if r is Ok _ then true else false) in
  match l with
  | Operation op => if decide (op = "Add"%string) then add else if decide (op = "Contains"%string) then contains else (w, true)
  | MixedLoad => if read then contains else add
  end.

Inductive phase : Type :=
  | Ready                                               (* at the head of the loop *)
  | Decided                                             (* the clock was before the deadline *)
  | InCall (start : Z) (read : bool) (item : list byte) (* the call is under way *)
  | Handled (start : Z) (ok : bool)                     (* a server has done it *)
  | Replied (start : Z) (ok : bool)                     (* its answer has arrived *)
  | Returned (ok : bool) (latency : Z)
  | Counted (ok : bool) (latency : Z)
  | Succeeded (latency : Z)
  | Finished.
#[export] Instance phase_eq_dec : EqDecision phase.
Proof. solve_decision. Defined.

Record bench (W : Type) : Type := mkBench {
  b_results : BenchmarkResults;
  b_workers : list phase;
  b_clock : Z;
  b_world : W
}.
Arguments mkBench {W}.
Arguments b_results {W}.
Arguments b_workers {W}.
Arguments b_clock {W}.
Arguments b_world {W}.

(** Who steps: time, a worker, which may begin a call, or the server of its call. *)
Inductive actor : Type := Time | Worker (i : nat) | Begins (i : nat) | Handles (i : nat) | Answers (i : nat).
#[export] Instance actor_eq_dec : EqDecision actor.
Proof. solve_decision. Defined.

(** An operation that is neither [Add] nor [Contains] makes no call. *)
Definition begin_call (l : load) (start : Z) (read : bool) (item : list byte) : phase :=
  match l with
  | Operation op => if decide (op = "Add"%string ∨ op = "Contains"%string) then InCall start read item else Replied start true
  | MixedLoad => InCall start read item
  end.

Section steps.
Context `{DBFServiceClient W} (target : string) (l : load) (endTime : Z).

Inductive bench_step : actor → bench W → bench W → Prop :=
  | b_tick d rs ws t w : 0 ≤ d → bench_step Time (mkBench rs ws t w) (mkBench rs ws (t + d) w)
  | b_decide i rs ws t w : ws !! i = Some Ready → t < endTime →
      bench_step (Worker i) (mkBench rs ws t w) (mkBench rs (<[i := Decided]> ws) t w)
  | b_stop i rs ws t w : ws !! i = Some Ready → endTime ≤ t →
      bench_step (Worker i) (mkBench rs ws t w) (mkBench rs (<[i := Finished]> ws) t w)
  | b_begin i r read rs ws t w : ws !! i = Some Decided → 0 ≤ r < 1000000 →
      bench_step (Begins i) (mkBench rs ws t w)
        (mkBench rs (<[i := begin_call l t read (test_item (Z.of_nat i) r)]> ws) t w)
  | b_handle i start read item w' ok rs ws t w : ws !! i = Some (InCall start read item) →
      issue target l read item w = (w', ok) →
      bench_step (Handles i) (mkBench rs ws t w) (mkBench rs (<[i := Handled start ok]> ws) t w')
  | b_answer i start ok rs ws t w : ws !! i = Some (Handled start ok) →
      bench_step (Answers i) (mkBench rs ws t w) (mkBench rs (<[i := Replied start ok]> ws) t w)
  | b_return i start ok rs ws t w : ws !! i = Some (Replied start ok) →
      bench_step (Worker i) (mkBench rs ws t w) (mkBench rs (<[i := Returned ok (t - start)]> ws) t w)
  | b_count i ok lat s a f ls ws t w : ws !! i = Some (Returned ok lat) →
      bench_step (Worker i) (mkBench (mkResults a s f ls) ws t w)
        (mkBench (mkResults (i64 (a + 1)) s f ls) (<[i := Counted ok lat]> ws) t w)
  | b_success i lat s a f ls ws t w : ws !! i = Some (Counted true lat) →
      bench_step (Worker i) (mkBench (mkResults a s f ls) ws t w)
        (mkBench (mkResults a (i64 (s + 1)) f ls) (<[i := Succeeded lat]> ws) t w)
  | b_append i lat s a f ls ws t w : ws !! i = Some (Succeeded lat) →
      bench_step (Worker i) (mkBench (mkResults a s f ls) ws t w)
        (mkBench (mkResults a s f (ls ++ [lat])) (<[i := Ready]> ws) t w)
  | b_failure i lat s a f ls ws t w : ws !! i = Some (Counted false lat) →
      bench_step (Worker i) (mkBench (mkResults a s f ls) ws t w)
        (mkBench (mkResults a s (i64 (f + 1)) ls) (<[i := Ready]> ws) t w).

Inductive bench_run : list actor → bench W → bench W → Prop :=
  | run_nil b : bench_run [] b b
  | run_cons x tr b1 b2 b3 : bench_step x b1 b2 → bench_run tr b2 b3 → bench_run (x :: tr) b1 b3.

Definition bench_start (concurrency t : Z) (w : W) : bench W :=
  mkBench (mkResults 0 0 0 []) (replicate (Z.to_nat concurrency) Ready) t w.

(** [wg.Wait] returns. *)
Definition finished (b : bench W) : Prop := Forall (λ p, p = Finished) (b_workers b).
End steps.

(** ** The report *)

Definition sort_latencies (ls : list Z) : list Z := merge_sort Z.le ls.

Definition average (ls : list Z) : Z :=
  let sum := foldl (λ s l, i64 (s + l)) 0 ls in
  if decide (0 < len ls) then Z.quot sum (len ls) else sum.

Definition percentile_index (q : Z) (ls : list Z) : Z := Z.quot (i64 (len ls * q)) 100.
Definition median_index (ls : list Z) : Z := Z.quot (len ls) 2.

Record report : Type := mkReport {
  rp_ops : BenchmarkResults;
  rp_qps : Z * Z;                           (* successes in so many nanoseconds *)
  rp_errors : Z * Z;                        (* failures of all *)
  rp_average : Z;
  rp_percentiles : option (Z * Z * Z)       (* P50, P95, P99, when printed *)
}.

Definition percentiles (ls : list Z) : go (Z * Z * Z) :=
  p50 ← go_index ls (median_index ls); p95 ← go_index ls (percentile_index 95 ls); p99 ← go_index ls (percentile_index 99 ls);
  Ret (p50, p95, p99).

Definition printResults (rs : BenchmarkResults) (duration : Z) : go report :=
  let ls := sort_latencies (latencies rs) in
  let rs := mkResults (totalOps rs) (successOps rs) (failedOps rs) ls in
  ps ← (if decide (0 < len ls) then p ← percentiles ls; Ret (Some p) else Ret None);
  Ret (mkReport rs (successOps rs, duration) (failedOps rs, totalOps rs) (average ls) ps).

(** The end of [runMixedLoadBenchmark], with the measured duration and no guard. *)
Definition mixedResults (rs : BenchmarkResults) (actualDuration : Z) : go report :=
  let ls := sort_latencies (latencies rs) in
  let rs := mkResults (totalOps rs) (successOps rs) (failedOps rs) ls in
  ps ← percentiles ls;
  Ret (mkReport rs (successOps rs, actualDuration) (failedOps rs, totalOps rs) (average ls) (Some ps)).

(** * Theorems *)

(** ** The counters *)

(** A machine integer is the exact one up to a multiple of [2 ^ 64]. *)
Definition same64 (x y : Z) : Prop := ∃ k, x = y + k * 2 ^ 64.

Lemma i64_same z : same64 (i64 z) z ∧ - 2 ^ 63 ≤ i64 z < 2 ^ 63.
Proof.
  unfold i64, same64. pose proof (Z.div_mod (z + 2 ^ 63) (2 ^ 64)). pose proof (Z.mod_pos_bound (z + 2 ^ 63) (2 ^ 64)).
  split; [exists (- ((z + 2 ^ 63) / 2 ^ 64)); lia|lia].
Qed.

Lemma same64_i64 x y : same64 x y → - 2 ^ 63 ≤ x < 2 ^ 63 → x = i64 y.
Proof. intros [k Hk] Hx. destruct (i64_same y) as [[k' Hk'] Hy]. nia. Qed.

Section counters.
Context `{DBFServiceClient W} (target : string) (l : load) (endTime : Z).
Implicit Types b : bench W.

Definition counted (ws : list phase) : Z := zsum (λ p, if p is Counted _ _ then 1 else 0) ws.
Definition succeeded (ws : list phase) : Z := zsum (λ p, if p is Succeeded _ then 1 else 0) ws.

(** The latency a worker holds is not negative. *)
Definition phase_ok (t : Z) (p : phase) : Prop :=
  match p with
  | InCall start _ _ | Handled start _ | Replied start _ => start ≤ t
  | Returned _ lat | Counted _ lat | Succeeded lat => 0 ≤ lat
  | Ready | Decided | Finished => True
  end.

Record binv (b : bench W) : Prop := {
  bi_total : same64 (totalOps (b_results b)) (successOps (b_results b) + failedOps (b_results b) + counted (b_workers b));
  bi_success : same64 (successOps (b_results b)) (len (latencies (b_results b)) + succeeded (b_workers b));
  bi_range : - 2 ^ 63 ≤ totalOps (b_results b) < 2 ^ 63 ∧ - 2 ^ 63 ≤ successOps (b_results b) < 2 ^ 63;
  bi_latencies : Forall (λ lat, 0 ≤ lat) (latencies (b_results b));
  bi_workers : Forall (phase_ok (b_clock b)) (b_workers b)
}.

Lemma counted_insert ws i p q : ws !! i = Some p →
  counted (<[i := q]> ws) = counted ws - (if p is Counted _ _ then 1 else 0) + (if q is Counted _ _ then 1 else 0).
Proof. intros Hi. unfold counted. by rewrite (zsum_insert _ _ _ _ _ Hi). Qed.

Lemma succeeded_insert ws i p q : ws !! i = Some p →
  succeeded (<[i := q]> ws) = succeeded ws - (if p is Succeeded _ then 1 else 0) + (if q is Succeeded _ then 1 else 0).
Proof. intros Hi. unfold succeeded. by rewrite (zsum_insert _ _ _ _ _ Hi). Qed.

(** A step of worker [i] that changes the counters as its phase says. *)
Lemma binv_worker i p q a s f ls a' s' f' ls' ws t w w' : binv (mkBench (mkResults a s f ls) ws t w) → ws !! i = Some p →
  phase_ok t q → Forall (λ lat, 0 ≤ lat) ls' → - 2 ^ 63 ≤ a' < 2 ^ 63 ∧ - 2 ^ 63 ≤ s' < 2 ^ 63 →
  same64 a' (a + (s' - s) + (f' - f) + (if q is Counted _ _ then 1 else 0) - (if p is Counted _ _ then 1 else 0)) →
  same64 s' (s + (len ls' - len ls) + (if q is Succeeded _ then 1 else 0) - (if p is Succeeded _ then 1 else 0)) →
  binv (mkBench (mkResults a' s' f' ls') (<[i := q]> ws) t w').
Proof.
  intros [[kt Ht] [ks Hs] _ Hl Hw] Hi Hq Hls Hr [ka Ha'] [ks' Hs']. cbn [b_results b_workers b_clock totalOps successOps failedOps latencies] in *.
  split; cbn [b_results b_workers b_clock totalOps successOps failedOps latencies]; [| |done|done|by apply Forall_insert].
  - rewrite (counted_insert ws i p q Hi). exists (kt + ka). lia.
  - rewrite (succeeded_insert ws i p q Hi). exists (ks + ks'). lia.
Qed.

Lemma same64_refl x y : x = y → same64 x y.
Proof. intros ->. exists 0. lia. Qed.

Lemma phase_ok_mono t t' p : t ≤ t' → phase_ok t p → phase_ok t' p.
Proof. destruct p; cbn; lia. Qed.

Lemma begin_call_ok t read item : phase_ok t (begin_call l t read item) ∧
  counted [begin_call l t read item] = 0 ∧ succeeded [begin_call l t read item] = 0.
Proof. unfold begin_call. destruct l; [case_decide|]; (split_and!; [cbn; lia|done|done]). Qed.

Lemma binv_step x b b' : binv b → bench_step target l endTime x b b' → binv b'.
Proof.
  intros Hb Hs. pose proof (bi_workers _ Hb) as Hw. pose proof (bi_range _ Hb) as Hr. pose proof (bi_latencies _ Hb) as Hl.
  destruct Hs as [d rs ws t w Hd|i [a s f ls] ws t w Hi Ht|i [a s f ls] ws t w Hi Ht|i r read [a s f ls] ws t w Hi _
    |i start read item w' ok [a s f ls] ws t w Hi Hc|i start ok [a s f ls] ws t w Hi|i start ok [a s f ls] ws t w Hi
    |i ok lat s a f ls ws t w Hi|i lat s a f ls ws t w Hi|i lat s a f ls ws t w Hi|i lat s a f ls ws t w Hi];
    [|eapply binv_worker; try exact Hb; try exact Hi; cbn in *; try done;
      try (apply same64_refl; lia); pose proof (Forall_lookup_1 _ _ _ _ Hw Hi) as Hp; cbn in Hp; try lia..].
  - destruct Hb as [? ? ? ? _]. split; try done. cbn in *. eapply Forall_impl; [exact Hw|]. intros p. apply phase_ok_mono. lia.
  - by apply begin_call_ok.
  - apply same64_refl. unfold begin_call. destruct l; [case_decide|]; cbn; lia.
  - apply same64_refl. unfold begin_call. destruct l; [case_decide|]; cbn; lia.
  - pose proof (i64_same (a + 1)) as [_ ?]. lia.
  - destruct (i64_same (a + 1)) as [[k ->] _]. exists k. lia.
  - pose proof (i64_same (s + 1)) as [_ ?]. lia.
  - destruct (i64_same (s + 1)) as [[k Hk] _]. exists (- k). lia.
  - destruct (i64_same (s + 1)) as [[k Hk] _]. exists k. lia.
  - apply Forall_app. by repeat constructor.
  - apply same64_refl. rewrite len_app. unfold len. cbn [Datatypes.length]. lia.
  - destruct (i64_same (f + 1)) as [[k Hk] _]. exists (- k). lia.
Qed.

Lemma binv_start n t w : binv (bench_start n t w).
Proof.
  assert (∀ k, counted (replicate k Ready) = 0 ∧ succeeded (replicate k Ready) = 0) as Hz.
  { intros k. unfold counted, succeeded. induction k as [|k [IH1 IH2]]; [done|]. cbn [replicate]. rewrite !zsum_cons. lia. }
  destruct (Hz (Z.to_nat n)) as [Hc Hsu]. split; cbn; [by rewrite Hc; exists 0|by rewrite Hsu; exists 0|lia|done|].
  by apply Forall_replicate.
Qed.

Lemma binv_reachable n t w tr b : bench_run target l endTime tr (bench_start n t w) b → binv b.
Proof. intros Hr. pose proof (binv_start n t w) as Hb. induction Hr; eauto using binv_step. Qed.

(** The counts add up.  However the workers interleave, in every state the total is
    the successes, the failures and the calls just counted, and there is one latency,
    not negative, for every success but those about to be recorded; when all workers
    are done the total is successes plus failures, with a latency for each success. *)
Theorem bench_counts n t w tr b : bench_run target l endTime tr (bench_start n t w) b → let rs := b_results b in
  totalOps rs = i64 (successOps rs + failedOps rs + counted (b_workers b)) ∧
  successOps rs = i64 (len (latencies rs) + succeeded (b_workers b)) ∧ Forall (λ lat, 0 ≤ lat) (latencies rs) ∧
  (finished b → totalOps rs = i64 (successOps rs + failedOps rs) ∧ successOps rs = i64 (len (latencies rs))).
Proof.
  intros [Ht Hs Hr Hl Hw]%binv_reachable rs.
  assert (totalOps rs = i64 (successOps rs + failedOps rs + counted (b_workers b))) as Et by (apply same64_i64; [done|apply Hr]).
  assert (successOps rs = i64 (len (latencies rs) + succeeded (b_workers b))) as Es by (apply same64_i64; [done|apply Hr]).
  split_and!; [done..|]. intros Hf. assert (counted (b_workers b) = 0 ∧ succeeded (b_workers b) = 0) as [Hc Hsu].
  { unfold counted, succeeded, finished in *. clear -Hf. induction Hf as [|p ps -> _ [IH1 IH2]]; [done|]. rewrite !zsum_cons, IH1, IH2. done. }
  rewrite Hc, Z.add_0_r in Et. rewrite Hsu, Z.add_0_r in Es. done.
Qed.

(** ** The workers stop *)

(** The steps that are left for a worker if it decides on no further call. *)
Definition weight (p : phase) : Z :=
  match p with
  | Decided => 8 | InCall _ _ _ => 7 | Handled _ _ => 6 | Replied _ _ => 5 | Returned _ _ => 4 | Counted _ _ => 3
  | Succeeded _ => 2 | Ready => 1 | Finished => 0
  end.
Definition work (ws : list phase) : Z := zsum weight ws.

(** A worker that a server keeps waiting. *)
Definition waiting (p : phase) : Prop := match p with InCall _ _ _ | Handled _ _ => True | _ => False end.
#[export] Instance waiting_dec p : Decision (waiting p).
Proof. destruct p; apply _. Defined.

(** Steps of the workers' own code. *)
Definition by_worker (x : actor) : Prop := match x with Worker _ | Begins _ => True | _ => False end.

Lemma weight_nonneg p : 0 ≤ weight p.
Proof. destruct p; cbn; lia. Qed.

Lemma work_nonneg ws : 0 ≤ work ws.
Proof. apply zsum_nonneg, weight_nonneg. Qed.

Lemma begin_call_weight t read item : weight (begin_call l t read item) < 8 ∧ begin_call l t read item ≠ Decided.
Proof. unfold begin_call. destruct l; [case_decide|]; (split; [cbn; lia|done]). Qed.

Lemma work_insert ws i p q : ws !! i = Some p → weight q < weight p → work (<[i := q]> ws) < work ws.
Proof. intros Hi Hq. unfold work. rewrite (zsum_insert _ _ _ _ _ Hi). lia. Qed.

Lemma run_app tr1 tr2 b1 b2 b3 : bench_run target l endTime tr1 b1 b2 → bench_run target l endTime tr2 b2 b3 →
  bench_run target l endTime (tr1 ++ tr2) b1 b3.
Proof. induction 1; [done|]. intros ?. econstructor; eauto. Qed.

(** After the deadline every step but one of time uses up work. *)
Lemma step_work x b b' : endTime ≤ b_clock b → bench_step target l endTime x b b' →
  endTime ≤ b_clock b' ∧ (if decide (x = Time) then b_workers b' = b_workers b else work (b_workers b') < work (b_workers b)).
Proof.
  intros Ht Hs. destruct Hs; cbn in *; (split; [lia|]); try done; try (eapply work_insert; [eassumption|cbn; lia]).
  eapply work_insert; [eassumption|]. by apply begin_call_weight.
Qed.

(** And none makes a worker decide on a call; beginning one takes the decision back. *)
Lemma step_decided x b b' i : endTime ≤ b_clock b → bench_step target l endTime x b b' →
  (b_workers b' !! i = Some Decided → b_workers b !! i = Some Decided) ∧
  (x = Begins i → b_workers b !! i = Some Decided ∧ b_workers b' !! i ≠ Some Decided).
Proof.
  intros Ht Hs.
  assert (∀ (ws : list phase) j p q, ws !! j = Some p → q ≠ Decided → <[j := q]> ws !! i = Some Decided → ws !! i = Some Decided) as Hins.
  { intros ws j p q Hj Hq. rewrite list_lookup_insert_Some. intros [(<- & -> & _)|[_ ?]]; done. }
  destruct Hs; cbn in *; (split; [try done; try (by eapply Hins)|try done]).
  - lia.
  - eapply Hins; [eassumption|]. apply begin_call_weight.
  - intros [= ->]. split; [done|]. rewrite list_lookup_insert_eq by (by eapply lookup_lt_Some).
    intros [= ?]. by eapply begin_call_weight.
Qed.

(** Only its server ends a worker's wait. *)
Lemma step_waiting x b b' i p : b_workers b !! i = Some p → waiting p → x ≠ Answers i →
  bench_step target l endTime x b b' → ∃ p', b_workers b' !! i = Some p' ∧ waiting p'.
Proof.
  intros Hi Hp Hx Hs.
  assert (∀ (ws : list phase) j p0 q, b_workers b = ws → ws !! j = Some p0 → (j = i → waiting p0 → waiting q) →
    ∃ p', <[j := q]> ws !! i = Some p' ∧ waiting p') as Hins.
  { intros ws j p0 q <- Hj Hq. destruct (decide (j = i)) as [->|Hne].
    - exists q. rewrite list_lookup_insert_eq by (by eapply lookup_lt_Some). split; [done|]. apply Hq; [done|]. congruence.
    - exists p. by rewrite list_lookup_insert_ne. }
  destruct Hs; cbn in *; try (eapply Hins; [reflexivity|eassumption|]; done); [by exists p|].
  eapply Hins; [reflexivity|eassumption|]. by intros ->.
Qed.

(** What is not done nor waiting has a step of its own after the deadline; what waits can be served. *)
Lemma worker_has_step b i p : endTime ≤ b_clock b → b_workers b !! i = Some p → p ≠ Finished → ¬ waiting p →
  ∃ x b', by_worker x ∧ bench_step target l endTime x b b'.
Proof.
  destruct b as [[a s f ls] ws t w]. cbn. intros Ht Hi Hp Hw.
  destruct p as [| |start read item|start ok|start ok|ok lat|[] lat|lat|]; try done.
  - exists (Worker i). eexists. split; [done|]. by apply b_stop.
  - exists (Begins i). eexists. split; [done|]. apply (b_begin _ _ _ i 0 false); [done|lia].
  - exists (Worker i). eexists. split; [done|]. by eapply b_return.
  - exists (Worker i). eexists. split; [done|]. by eapply b_count.
  - exists (Worker i). eexists. split; [done|]. by eapply b_success.
  - exists (Worker i). eexists. split; [done|]. by eapply b_failure.
  - exists (Worker i). eexists. split; [done|]. by eapply b_append.
Qed.

Lemma server_has_step b i p : b_workers b !! i = Some p → waiting p →
  ∃ x b', x ≠ Time ∧ bench_step target l endTime x b b'.
Proof.
  destruct b as [rs ws t w]. cbn. intros Hi Hp. destruct p as [| |start read item|start ok| | | | |]; try by destruct Hp.
  - destruct (issue target l read item w) as [w' ok] eqn:Hc. exists (Handles i). eexists. split; [done|]. by eapply b_handle.
  - exists (Answers i). eexists. split; [done|]. by eapply b_answer.
Qed.

Lemma run_deadline tr b b' : endTime ≤ b_clock b → bench_run target l endTime tr b b' → endTime ≤ b_clock b'.
Proof. intros Ht Hr. induction Hr as [|x tr b1 b2 b3 Hs _ IH]; [done|]. apply IH. by eapply step_work. Qed.

(** After the deadline at most one call per worker, and boundedly many steps. *)
Lemma run_bounded tr b b' i : endTime ≤ b_clock b → bench_run target l endTime tr b b' →
  len (filter (λ x, x = Begins i) tr) ≤ (if decide (b_workers b !! i = Some Decided) then 1 else 0) ∧
  len (filter (λ x, x ≠ Time) tr) ≤ work (b_workers b).
Proof.
  intros Ht Hr. induction Hr as [b|x tr b1 b2 b3 Hs _ IH].
  - pose proof (work_nonneg (b_workers b)). unfold len. cbn. case_decide; lia.
  - destruct (step_work _ _ _ Ht Hs) as [Ht2 Hw]. destruct (step_decided _ _ _ i Ht Hs) as [Hd Hb].
    destruct (IH Ht2) as [IH1 IH2]. rewrite !filter_cons. unfold len in *. split.
    + destruct (decide (x = Begins i)) as [Hx|Hx].
      * destruct (Hb Hx) as [H1 H2]. rewrite decide_False in IH1 by done. rewrite (decide_True (P := _ !! _ = _)) by done.
        cbn [Datatypes.length]. lia.
      * repeat case_decide; first [lia|naive_solver].
    + destruct (decide (x = Time)) as [->|Hx]; [rewrite decide_False by (by intros []); rewrite Hw in IH2; lia|].
      rewrite decide_True by done. cbn [Datatypes.length]. lia.
Qed.

Lemma run_waiting tr b b' i p : bench_run target l endTime tr b b' → b_workers b !! i = Some p → waiting p →
  Answers i ∉ tr → ¬ finished b'.
Proof.
  intros Hr. revert p. induction Hr as [b|x tr b1 b2 b3 Hs _ IH]; intros p Hi Hp Hn.
  - intros Hf. unfold finished in Hf. eapply Forall_lookup_1 in Hf; [|exact Hi]. by subst p.
  - apply not_elem_of_cons in Hn as [Hx Hn]. destruct (step_waiting _ _ _ i p Hi Hp (not_eq_sym Hx) Hs) as (p' & Hi' & Hp').
    by eapply IH.
Qed.

(** C38: after its deadline the run winds down, as far as the servers answer.  From any state after the
    deadline, along every run: a worker begins at most one more call, and only if it had already seen a
    clock before the deadline; only boundedly many steps other than the passing of time remain.  When the
    workers themselves have no step left, each is done or waits for the server of its call; when the servers
    have none left either, all workers are done and the report follows.  But the calls have no timeout: a
    worker whose server never answers waits in every run, and the benchmark does not finish. *)
Theorem bench_terminates tr b b' : endTime ≤ b_clock b → bench_run target l endTime tr b b' →
  (∀ i, len (filter (λ x, x = Begins i) tr) ≤ if decide (b_workers b !! i = Some Decided) then 1 else 0) ∧
  len (filter (λ x, x ≠ Time) tr) ≤ 8 * len (b_workers b) ∧
  ((∀ x b'', by_worker x → ¬ bench_step target l endTime x b' b'') →
     Forall (λ p, p = Finished ∨ waiting p) (b_workers b')) ∧
  ((∀ x b'', x ≠ Time → ¬ bench_step target l endTime x b' b'') → finished b') ∧
  (∀ i p, b_workers b !! i = Some p → waiting p → Answers i ∉ tr → ¬ finished b').
Proof.
  intros Ht Hr. pose proof (run_deadline _ _ _ Ht Hr) as Ht'.
  assert ((∀ x b'', by_worker x → ¬ bench_step target l endTime x b' b'') →
     Forall (λ p, p = Finished ∨ waiting p) (b_workers b')) as Hstuck.
  { intros Hno. apply Forall_lookup_2. intros i p Hi. destruct (decide (p = Finished)); [by left|].
    destruct (decide (waiting p)); [by right|]. destruct (worker_has_step b' i p) as (x & b'' & Hx & Hs); [done..|].
    by destruct (Hno x b''). }
  split_and!; [intros i; by eapply run_bounded| |done| |intros i p; by eapply run_waiting].
  - etransitivity; [apply (run_bounded tr b b' 0 Ht Hr)|]. unfold work, len. clear.
    induction (b_workers b) as [|p ws IH]; [done|]. rewrite zsum_cons. cbn [Datatypes.length].
    assert (weight p ≤ 8) by (destruct p; cbn; lia). lia.
  - intros Hno. assert (Forall (λ p, p = Finished ∨ waiting p) (b_workers b')) as Hf.
    { apply Hstuck. intros x b'' Hx. apply Hno. by intros ->. }
    apply Forall_lookup_2. intros i p Hi. destruct (Forall_lookup_1 _ _ _ _ Hf Hi) as [?|Hw]; [done|].
    destruct (server_has_step b' i p Hi Hw) as (x & b'' & Hx & Hs). by destruct (Hno x b'').
Qed.
End counters.

(** ** The percentiles *)

Lemma sort_sorted ls : StronglySorted Z.le (sort_latencies ls).
Proof. apply Sorted_StronglySorted; [intros x y z; lia|]. apply Sorted_merge_sort. intros x y. lia. Qed.

Lemma sort_permutation ls : sort_latencies ls ≡ₚ ls.
Proof. apply merge_sort_Permutation. Qed.

Lemma len_sort ls : len (sort_latencies ls) = len ls.
Proof. unfold len. by rewrite sort_permutation. Qed.

(** How many latencies lie below [v], and how many do not lie above it. *)
Definition below (v : Z) (ls : list Z) : Z := zsum (λ x, if decide (x < v) then 1 else 0) ls.
Definition upto (v : Z) (ls : list Z) : Z := zsum (λ x, if decide (x ≤ v) then 1 else 0) ls.

Lemma below_upto_sorted ls i v : StronglySorted Z.le ls → ls !! i = Some v →
  below v ls ≤ Z.of_nat i < upto v ls.
Proof.
  unfold below, upto. intros Hs. revert i. induction Hs as [|x ls Hs IH Hx]; intros i Hi; [done|].
  assert (∀ l, Forall (Z.le x) l → 0 ≤ zsum (λ y, if decide (y ≤ v) then 1 else 0) l) as Hnn.
  { intros l _. apply zsum_nonneg. intros y. case_decide; lia. }
  rewrite !zsum_cons. destruct i as [|i]; cbn in Hi.
  - injection Hi as ->. rewrite decide_False, decide_True by lia. pose proof (Hnn ls Hx). split; [|lia].
    enough (zsum (λ y, if decide (y < v) then 1 else 0) ls = 0) by lia. clear -Hx.
    induction Hx as [|y ls Hy _ IH]; [done|]. by rewrite zsum_cons, decide_False, IH by lia.
  - specialize (IH i Hi). assert (x ≤ v) by (eapply Forall_lookup_1 in Hi; [|exact Hx]; done).
    rewrite (decide_True (P := x ≤ v)) by done. case_decide; lia.
Qed.

Lemma below_perm v l1 l2 : l1 ≡ₚ l2 → below v l1 = below v l2.
Proof. unfold below. by intros ->. Qed.
Lemma upto_perm v l1 l2 : l1 ≡ₚ l2 → upto v l1 = upto v l2.
Proof. unfold upto. by intros ->. Qed.

Lemma percentile_at ls i : 0 ≤ i < len ls → ∃ v, go_index (sort_latencies ls) i = Ret v ∧ v ∈ ls ∧ below v ls ≤ i < upto v ls.
Proof.
  intros Hi. destruct (go_index_in_range (sort_latencies ls) i) as (v & Hv & Hg); [by rewrite len_sort|].
  exists v. split; [done|]. split.
  { rewrite <- (sort_permutation ls). by eapply list_elem_of_lookup_2. }
  pose proof (below_upto_sorted _ _ _ (sort_sorted ls) Hv) as Hb.
  rewrite (below_perm v _ ls), (upto_perm v _ ls), Z2Nat.id in Hb by (apply sort_permutation || lia). done.
Qed.

Lemma percentile_index_spec q ls : 0 ≤ q < 100 → 0 < len ls < 2 ^ 56 →
  percentile_index q ls = len ls * q / 100 ∧ 0 ≤ len ls * q / 100 < len ls.
Proof.
  intros Hq Hl. unfold percentile_index. rewrite i64_small by nia. rewrite Z.quot_div_nonneg by nia. split; [done|].
  split; [apply Z.div_pos; nia|apply Z.div_lt_upper_bound; nia].
Qed.

(** [v] is a [q]-th percentile: at most [q] percent of the latencies are smaller, and
    more than [q] percent are not larger. *)
Definition is_percentile (q v : Z) (ls : list Z) : Prop := v ∈ ls ∧ below v ls * 100 ≤ q * len ls < upto v ls * 100.

(** The report is right.  For fewer than 2^56 recorded calls, of which there is at
    least one, both reports print a median, a 95th and a 99th percentile of the recorded
    latencies, and the counters as they are. *)
Theorem percentiles_correct rs d : 0 < len (latencies rs) < 2 ^ 56 →
  ∃ p50 p95 p99, is_percentile 50 p50 (latencies rs) ∧ is_percentile 95 p95 (latencies rs) ∧ is_percentile 99 p99 (latencies rs) ∧
    ∃ r, printResults rs d = Ret r ∧ mixedResults rs d = Ret r ∧ rp_percentiles r = Some (p50, p95, p99) ∧
      rp_qps r = (successOps rs, d) ∧ rp_errors r = (failedOps rs, totalOps rs).
Proof.
  intros Hl. set (ls := latencies rs) in *.
  assert (∀ q i, 0 ≤ q < 100 → i = len ls * q / 100 → 0 ≤ i < len ls →
    ∃ v, go_index (sort_latencies ls) i = Ret v ∧ is_percentile q v ls) as Hp.
  { intros q i Hq Hi Hr. destruct (percentile_at ls i Hr) as (v & Hv & Hin & Hb). exists v. split; [done|]. split; [done|].
    pose proof (Z.div_mod (len ls * q) 100 ltac:(lia)). pose proof (Z.mod_pos_bound (len ls * q) 100 ltac:(lia)). lia. }
  destruct (percentile_index_spec 95 ls) as [E95 R95]; [lia|done|]. destruct (percentile_index_spec 99 ls) as [E99 R99]; [lia|done|].
  assert (median_index ls = len ls * 50 / 100) as E50.
  { unfold median_index. rewrite Z.quot_div_nonneg by lia. change 100 with (2 * 50). by rewrite Z.div_mul_cancel_r. }
  destruct (Hp 50 (median_index ls)) as (p50 & H50 & Hp50); [lia|done|rewrite E50; split; [apply Z.div_pos; lia|apply Z.div_lt_upper_bound; lia]|].
  destruct (Hp 95 (percentile_index 95 ls)) as (p95 & H95 & Hp95); [lia|done|by rewrite E95|].
  destruct (Hp 99 (percentile_index 99 ls)) as (p99 & H99 & Hp99); [lia|done|by rewrite E99|].
  exists p50, p95, p99. split_and!; [done..|].
  assert (percentiles (sort_latencies ls) = Ret (p50, p95, p99)) as Hps.
  { unfold percentiles, percentile_index, median_index in *. rewrite !len_sort. go_step H50. go_step H95. by go_step H99. }
  eexists. unfold printResults, mixedResults. fold ls. rewrite Hps, len_sort, decide_True by lia. done.
Qed.

(** Without a success the mixed run panics where the others print no percentiles. *)
Theorem mixed_report_panics rs d : latencies rs = [] →
  mixedResults rs d = Panic IndexOutOfRange ∧ ∃ r, printResults rs d = Ret r ∧ rp_percentiles r = None.
Proof. intros Hl. unfold mixedResults, printResults. rewrite Hl. split; [done|]. by eexists. Qed.

(** ** What counts as a failure *)

Section failures.
Context `{DBFServiceClient W} (target : string) (l : load) (endTime : Z).

(** The workers never hold a failure if no call returns an error. *)
Definition no_failure (b : bench W) : Prop :=
  failedOps (b_results b) = 0 ∧
  Forall (λ p, match p with Handled _ ok | Replied _ ok | Returned ok _ | Counted ok _ => ok = true | _ => True end) (b_workers b).

Lemma no_failure_step x b b' : (∀ read item w, (issue target l read item w).2 = true) → no_failure b →
  bench_step target l endTime x b b' → no_failure b'.
Proof.
  intros Hok [Hf Hw] Hs. destruct Hs as [|i rs ws t w Hi|i rs ws t w Hi|i r read rs ws t w Hi _|i start read item w' ok rs ws t w Hi Hc
    |i start ok rs ws t w Hi|i start ok rs ws t w Hi|i ok lat s a f ls ws t w Hi
    |i lat s a f ls ws t w Hi|i lat s a f ls ws t w Hi|i lat s a f ls ws t w Hi]; cbn in *;
    [by split|split; [done|]; apply Forall_insert; [done|]..|].
  all: try done; try (pose proof (Forall_lookup_1 _ _ _ _ Hw Hi) as Hp; cbn in Hp; done).
  - unfold begin_call. destruct l; [by case_decide|done].
  - pose proof (Hok read item w) as E. by rewrite Hc in E.
Qed.

(** The benchmark measures the transport only: when every call is answered, nothing is
    ever counted as failed, whatever the answers say. *)
Theorem answers_never_fail n t w tr b : (∀ read item w, (issue target l read item w).2 = true) →
  bench_run target l endTime tr (bench_start n t w) b → failedOps (b_results b) = 0.
Proof.
  intros Hok Hr. enough (no_failure b) as [? _] by done.
  assert (no_failure (bench_start n t w)) as Hb by (split; [done|by apply Forall_replicate]).
  induction Hr; eauto using no_failure_step.
Qed.
End failures.

(** * Instances *)

Section witnesses.
#[local] Existing Instance tree_text.
#[local] Existing Instance tree_time.
#[local] Existing Instance byte_sum.
#[local] Instance bm_follower : HRaft := solo_raft false.
#[local] Existing Instance direct_client.

(** A node that is not the leader and refuses every [Add]. *)
Definition bm_node : Node := mkNode "n1" 7000 ex_f0 false (Some (1 : @Raft (solo_raft false))).
Definition bm_load : load := Operation "Add".
Definition bm_runs : list actor → bench Node → bench Node → Prop := bench_run "n1" bm_load 10.
Definition bm_start : bench Node := bench_start 1 0 bm_node.
Definition bm_end : bench Node := mkBench (mkResults 1 1 0 [3]) [Finished] 10 bm_node.
Definition bm_trace : list actor :=
  [Worker 0; Begins 0; Handles 0; Time; Answers 0; Worker 0; Worker 0; Worker 0; Worker 0; Time; Worker 0].

Lemma bm_run : bm_runs bm_trace bm_start bm_end.
Proof.
  unfold bm_runs, bm_trace.
  eapply run_cons; [by apply (b_decide _ _ _ 0)|]. eapply run_cons; [apply (b_begin _ _ _ 0 0 false); [done|lia]|].
  eapply run_cons; [eapply (b_handle _ _ _ 0 0 false _ bm_node true); [done|vm_compute; reflexivity]|].
  eapply run_cons; [by apply (b_tick _ _ _ 3)|]. eapply run_cons; [by apply (b_answer _ _ _ 0 0 true)|].
  eapply run_cons; [by apply (b_return _ _ _ 0 0 true)|].
  eapply run_cons; [by apply (b_count _ _ _ 0 true 3)|]. eapply run_cons; [by apply (b_success _ _ _ 0 3)|].
  eapply run_cons; [by apply (b_append _ _ _ 0 3)|]. eapply run_cons; [by apply (b_tick _ _ _ 7)|].
  eapply run_cons; [by apply (b_stop _ _ _ 0)|]. apply run_nil.
Qed.

(** A refused [Add] counts as a success: the node answers that it failed, its filter is
    empty, and the report shows one success and no failure. *)
Theorem refused_adds_count_as_successes : ∃ b, bm_runs bm_trace bm_start b ∧ finished b ∧
  successOps (b_results b) = 1 ∧ failedOps (b_results b) = 0 ∧ n_bloomFilter (b_world b) = ex_f0 ∧
  server_Add bm_node (test_item 0 0) = Ret (bm_node, mkAddResp false "failed to add item: failed to apply command: node is not the leader").
Proof.
  exists bm_end. split; [exact bm_run|]. split; [by repeat constructor|]. split_and!; by vm_compute.
Qed.

Lemma bench_counts_witness : let rs := b_results bm_end in
  totalOps rs = i64 (successOps rs + failedOps rs + counted (b_workers bm_end)) ∧
  successOps rs = i64 (len (latencies rs) + succeeded (b_workers bm_end)) ∧ Forall (λ lat, 0 ≤ lat) (latencies rs) ∧
  (finished bm_end → totalOps rs = i64 (successOps rs + failedOps rs) ∧ successOps rs = i64 (len (latencies rs))).
Proof. exact (bench_counts "n1" bm_load 10 1 0 bm_node bm_trace bm_end bm_run). Defined.

(** A server that never answers, at the deadline. *)
Definition bm_silent : bench Node := mkBench (mkResults 0 0 0 []) [InCall 0 false []; Decided] 10 bm_node.

Lemma bench_terminates_witness : ¬ finished (mkBench (mkResults 0 0 0 []) [InCall 0 false []; Decided] 15 bm_node) ∧
  bm_runs [Time] bm_silent (mkBench (mkResults 0 0 0 []) [InCall 0 false []; Decided] 15 bm_node).
Proof.
  assert (bm_runs [Time] bm_silent (mkBench (mkResults 0 0 0 []) [InCall 0 false []; Decided] 15 bm_node)) as Hr.
  { eapply run_cons; [by apply (b_tick _ _ _ 5)|]. apply run_nil. }
  split; [|exact Hr]. destruct (bench_terminates "n1" bm_load 10 [Time] bm_silent _ ltac:(cbn; lia) Hr) as (_ & _ & _ & _ & Hw).
  apply (Hw 0%nat (InCall 0 false [])); [done|done|]. by intros [?|?%not_elem_of_nil]%elem_of_cons.
Defined.

Lemma percentiles_correct_witness : ∃ p50 p95 p99,
  is_percentile 50 p50 [5; 1; 3] ∧ is_percentile 95 p95 [5; 1; 3] ∧ is_percentile 99 p99 [5; 1; 3] ∧
  ∃ r, printResults (mkResults 4 3 1 [5; 1; 3]) 60 = Ret r ∧ mixedResults (mkResults 4 3 1 [5; 1; 3]) 60 = Ret r ∧
    rp_percentiles r = Some (p50, p95, p99) ∧ rp_qps r = (3, 60) ∧ rp_errors r = (1, 4).
Proof. apply (percentiles_correct (mkResults 4 3 1 [5; 1; 3]) 60). by vm_compute. Defined.

Lemma mixed_report_panics_witness : mixedResults (mkResults 7 0 7 []) 60 = Panic IndexOutOfRange ∧
  ∃ r, printResults (mkResults 7 0 7 []) 60 = Ret r ∧ rp_percentiles r = None.
Proof. exact (mixed_report_panics (mkResults 7 0 7 []) 60 eq_refl). Defined.

Lemma answers_never_fail_witness : failedOps (b_results bm_end) = 0.
Proof.
  apply (answers_never_fail "n1" bm_load 10 1 0 bm_node bm_trace bm_end); [|exact bm_run].
  intros read item w. cbn. unfold ask_node. destruct (server_Add w item) as [[n r]|] eqn:E; [done|].
  exfalso. unfold server_Add, Node_Add, propose in E. case_decide; [done|]. destruct (n_raftNode w); done.
Defined.
End witnesses.
